(** * Migration tool front end: threshold filter, aggregation, bulk apply,
      applied-changes bookkeeping and its localStorage persistence; the
      progress dialog, the face grid, the photo viewer and fetchAPI.

    A shallow embedding of the React components and of the matching context
    of the face-migration tool.  JavaScript numbers that carry measurements
    (IoU, centre distance, thresholds, normalised rectangles, zoom, pixel
    sizes) are rationals [Q], so that arithmetic on them is exact; the
    products and differences of [rectToPixels], which are rounded to pixels,
    are those of IEEE 754 binary64 ([JS.double]), a rational standing there
    for the number nearest to it; numbers
    that carry identifiers and counters are integers [Z]; [string | null]
    fields are [option string]; a [Set<T>] is a [gset T] (its insertion
    order, which only decides the order of the stored arrays and of
    [forEach], is not tracked); the insertion-ordered [Map] of the analytics
    tab is an association list.  An [async] function is a function of the
    answers it will get: each [await] takes the next answer, and the only
    handler that can run while a request is in flight, Cancel, comes with
    it. *)

From Stdlib Require Import ZArith QArith Qround Qabs Qpower Lia Lqa List Permutation Sorted
  Ascii String.
From stdpp Require Import base option list strings pretty gmap sets.
Import ListNotations.

Local Open Scope Z_scope.

(* ===================================================================== *)
(** ** types.ts *)
(* ===================================================================== *)

Module RawFaceMatch.
Record t := mk {
  ms_person_id : Z;
  ms_person_name : string;
  immich_cluster_id : string;
  immich_cluster_name : option string;
  iou : Q;
  center_dist : Q;
  filename : string;
}.
End RawFaceMatch.

Inductive Confidence := high | medium | low.

Module PersonMatch.
Record t := mk {
  ms_person_id : Z;
  ms_person_name : string;
  immich_cluster_id : string;
  immich_cluster_name : option string;
  face_matches : Z;
  avg_iou : Q;
  avg_center_dist : Q;
  confidence : Confidence;
  sample_photos : list string;
}.
End PersonMatch.

Module HistogramData.
Record t := mk { bins : list Q; counts : list Z; edges : list Q }.
End HistogramData.

Module PercentileData.
Record t := mk { p5 : Q; p25 : Q; p50 : Q; p75 : Q; p95 : Q; min : Q; max : Q; mean : Q }.
End PercentileData.

Module CumulativeData.
Record t := mk {
  thresholds : list Q;
  percent_above : option (list Q);
  percent_below : option (list Q);
}.
End CumulativeData.

Inductive Severity := sev_error | sev_warning | sev_ok.

Module ClusterIssue.
Record person := mk_person { person_id : Z; person_name : string; face_count : Z }.
Record t := mk {
  immich_cluster_id : string;
  immich_cluster_name : option string;
  total_faces_in_cluster : Z;
  matched_faces : Z;
  ms_people_matched : list person;
  severity : Severity;
  sample_photos : list string;
}.
End ClusterIssue.

Module MergeClusterInfo.
Record t := mk {
  cluster_id : string;
  cluster_name : option string;
  matched_faces : Z;
  total_faces : Z;
}.
End MergeClusterInfo.

Module MergeCandidate.
Record t := mk {
  ms_person_id : Z;
  ms_person_name : string;
  total_ms_faces : Z;
  immich_clusters : list MergeClusterInfo.t;
  confidence : Q;
}.
End MergeCandidate.

Module UnclusteredFacePreview.
Record t := mk {
  immich_face_id : string;
  immich_asset_id : string;
  filename : string;
  iou : Q;
  center_dist : Q;
}.
End UnclusteredFacePreview.

Module PersonApplyPreview.
Record t := mk {
  ms_person_id : Z;
  ms_person_name : string;
  existing_immich_person_id : option string;
  existing_immich_person_name : option string;
  needs_person_creation : bool;
  face_count : Z;
  total_faces_in_ms_photos : Z;
  avg_iou : Q;
  faces : list UnclusteredFacePreview.t;
  sample_filenames : list string;
}.
End PersonApplyPreview.

Module UnrecognizedFacePreview.
Record t := mk {
  immich_asset_id : string;
  filename : string;
  ms_rect_x1 : Q;
  ms_rect_y1 : Q;
  ms_rect_x2 : Q;
  ms_rect_y2 : Q;
  image_width : Z;
  image_height : Z;
}.
End UnrecognizedFacePreview.

Module UnrecognizedPersonPreview.
Record t := mk {
  ms_person_id : Z;
  ms_person_name : string;
  existing_immich_person_id : option string;
  existing_immich_person_name : option string;
  needs_person_creation : bool;
  face_count : Z;
  total_faces_in_ms_photos : Z;
  faces : list UnrecognizedFacePreview.t;
  sample_filenames : list string;
}.
End UnrecognizedPersonPreview.

Module CreateFaceItem.
Record t := mk {
  asset_id : string;
  x : option Z;          (* [None]: not a finite number, sent as null *)
  y : option Z;
  width : option Z;
  height : option Z;
  image_width : Z;
  image_height : Z;
}.
End CreateFaceItem.

(** The fields of the three apply responses that the components read. *)
Module ApplyResult.
Record t := mk {
  success_count : Z;
  failed_count : Z;
  failed : list string;            (* results.failed[i].error *)
}.
End ApplyResult.

Module ApplyUnclusteredResult.
Record t := mk {
  faces_assigned_count : Z;
  failed_count : Z;
  failed : list string;            (* results.failed[i].error *)
}.
End ApplyUnclusteredResult.

Module CreateFacesResult.
Record t := mk {
  success : bool;
  faces_created_count : Z;
  error : option string;
}.
End CreateFacesResult.

Module FullAnalysisResult.
Record stats_t := mk_stats {
  total_raw_matches : Z;
  common_photos : Z;
  ms_people_count : Z;
  immich_clusters_count : Z;
  total_matches : Z;
  applicable_matches : Z;
  high_confidence : Z;
  medium_confidence : Z;
  low_confidence : Z;
  total_unclustered_faces : Z;
  people_with_unclustered_matches : Z;
  people_with_split_clusters : Z;
  total_clusters_to_merge : Z;
  clusters_with_issues : Z;
  validation_errors : Z;
  validation_warnings : Z;
}.
Record t := mk {
  raw_matches : list RawFaceMatch.t;
  histograms : HistogramData.t * HistogramData.t;
  percentiles : PercentileData.t * PercentileData.t;
  suggested_thresholds : Q * Q;
  cumulative : CumulativeData.t * CumulativeData.t;
  all_matches : list PersonMatch.t;
  applicable : list PersonMatch.t;
  previews : list PersonApplyPreview.t;
  candidates : list MergeCandidate.t;
  issues : list ClusterIssue.t;
  stats : stats_t;
}.
End FullAnalysisResult.

(** ProgressModal.tsx *)
Inductive ItemId := IdStr (s : string) | IdNum (n : Z).

Module Status.
Inductive t := pending | processing | success | error.
End Status.

Module ProgressItem.
Record t := mk {
  id : ItemId;
  name : string;
  status : Status.t;
  error : option string;
}.
End ProgressItem.

(* ===================================================================== *)
(** ** JavaScript helpers shared by the components *)
(* ===================================================================== *)

Module JS.

(** [!!s] for a [string | null]: [null] and the empty string are falsy. *)
Definition truthy_name (s : option string) : bool :=
  match s with
  | None => false
  | Some s => negb (String.eqb s "")
  end.

(** [a >= b] and [a <= b] on numbers. *)
Definition ge (a b : Q) : bool := Qle_bool b a.
Definition le (a b : Q) : bool := Qle_bool a b.

(** [Array.prototype.sort(cmp)]: the comparator returns a number, negative
    when its first argument sorts first.  The sort is stable; it is written
    as the insertion sort that keeps the earlier of two elements the
    comparator does not separate in front. *)
Section Sort.
Context {A : Type} (cmp : A -> A -> Q).

Fixpoint sort_insert (x : A) (l : list A) : list A :=
  match l with
  | [] => [x]
  | y :: ys => if Qle_bool (cmp x y) 0 then x :: y :: ys
               else y :: sort_insert x ys
  end.

Definition sort (l : list A) : list A := foldr sort_insert [] l.
End Sort.

(** Values that [JSON.parse] returns. *)
#[warnings="-register-all"]
Inductive value :=
  | JNull
  | JBool (b : bool)
  | JNum (q : Q)
  | JStr (s : string)
  | JArr (elems : list value)
  | JObj (fields : list (string * value)).

(** What a [try] block can run into. *)
Inductive thrown :=
  | ErrorObject (message : string)     (* [err instanceof Error] *)
  | NotAnError.                        (* any other thrown value *)

(** A settled promise. *)
Inductive settled (R : Type) :=
  | Resolved (r : R)
  | Rejected (err : thrown).
Arguments Resolved {R} r.
Arguments Rejected {R} err.

(** How a block of statements ends: normally, or by throwing. *)
Inductive completion (A : Type) :=
  | Normal (a : A)
  | Throw (err : thrown).
Arguments Normal {A} a.
Arguments Throw {A} err.

#[global] Instance completion_ret : MRet completion := λ A a, Normal a.
#[global] Instance completion_bind : MBind completion :=
  λ A B f m, match m with Normal a => f a | Throw err => Throw err end.

(** [await p]: the value of a resolved promise; a rejected one throws. *)
Definition await {R} (p : settled R) : completion R :=
  match p with
  | Resolved r => Normal r
  | Rejected err => Throw err
  end.

(** [try { body } catch (err) { handler }]. *)
Definition try_catch {A} (body : completion A) (handler : thrown -> completion A)
    : completion A :=
  match body with
  | Normal a => Normal a
  | Throw err => handler err
  end.

(** [prev.map((item, idx) => idx === i ? f(item) : item)]. *)
Definition map_at {A} (i : nat) (f : A -> A) (prev : list A) : list A :=
  imap (λ idx item, if decide (idx = i) then f item else item) prev.

(** [err instanceof Error ? err.message : fallback]. *)
Definition message_or (fallback : string) (err : thrown) : string :=
  match err with
  | ErrorObject msg => msg
  | NotAnError => fallback
  end.

(** [s || fallback] on a [string | undefined]. *)
Definition string_or (fallback : string) (s : option string) : string :=
  match s with
  | Some s => if String.eqb s "" then fallback else s
  | None => fallback
  end.

(** ToBoolean; [None] is [undefined]. *)
Definition truthy (v : option value) : bool :=
  match v with
  | None | Some JNull => false
  | Some (JBool b) => b
  | Some (JNum q) => negb (Qeq_bool q 0)
  | Some (JStr s) => negb (String.eqb s "")
  | Some (JArr _) | Some (JObj _) => true
  end.

Fixpoint assoc (k : string) (fields : list (string * value)) : option value :=
  match fields with
  | [] => None
  | (k', v) :: rest => if String.eqb k' k then Some v else assoc k rest
  end.

(** [parsed.name] for the property names this program reads (none is
    [length] or an index): reading from [null] throws a TypeError, an object
    yields its field or [undefined], every other value yields [undefined]. *)
Definition get (parsed : value) (name : string) : option (option value) :=
  match parsed with
  | JNull => None
  | JObj fields => Some (assoc name fields)
  | _ => Some None
  end.

(** [v || []]. *)
Definition or_empty_array (v : option value) : value :=
  if truthy v then default JNull v else JArr [].

(** [v ?? d]. *)
Definition nullish_or (d : value) (v : option value) : value :=
  match v with
  | None | Some JNull => d
  | Some v => v
  end.

(** SameValueZero, the equality of [Set]: primitives by value, arrays and
    objects by identity; the ones [JSON.parse] builds are all distinct. *)
Definition same_value_zero (a b : value) : bool :=
  match a, b with
  | JNull, JNull => true
  | JBool x, JBool y => Bool.eqb x y
  | JNum x, JNum y => Qeq_bool x y
  | JStr x, JStr y => String.eqb x y
  | _, _ => false
  end.

(** A [Set] of arbitrary values, in insertion order. *)
Definition Set_add (x : value) (s : list value) : list value :=
  if existsb (same_value_zero x) s then s else s ++ [x].

Fixpoint chars (s : string) : list value :=
  match s with
  | EmptyString => []
  | String c rest => JStr (String c EmptyString) :: chars rest
  end.

(** [new Set(v)]: an array is iterated element by element and a string
    character by character; anything else that reaches the constructor here
    is not iterable and throws a TypeError. *)
Definition new_Set (v : value) : option (list value) :=
  match v with
  | JArr elems => Some (fold_left (fun s x => Set_add x s) elems [])
  | JStr s => Some (fold_left (fun s x => Set_add x s) (chars s) [])
  | _ => None
  end.

(** The part of the browser the code calls into and that is not part of the
    repository. [JSON_parse] returns [None] where [JSON.parse] throws a
    SyntaxError. *)
Class Platform := {
  JSON_stringify : value -> string;
  JSON_parse : string -> option value;
  localeCompare : string -> string -> Q;
}.

(** Decimal digits, and strings made of them only. *)
Definition is_digit (c : ascii) : bool :=
  let n := Ascii.nat_of_ascii c in (48 <=? n)%nat && (n <=? 57)%nat.

Fixpoint all_digits (s : string) : bool :=
  match s with
  | EmptyString => true
  | String c rest => is_digit c && all_digits rest
  end.

(** [Math.round]: the nearest integer, halves rounded towards +infinity. *)
Definition Math_round (x : Q) : Z := Qfloor (x + (1 # 2)).

(** Numbers are IEEE 754 binary64 values.  Where a computation is modelled
    in that arithmetic, a finite number is the rational it stands for and
    [None] stands for the values that are not finite: NaN and the two
    infinities, which [JSON.stringify] writes as [null]. *)
Definition number := option Q.

Definition pow2 (e : Z) : Q := (2 ^ e)%Q.

(** [floor (log2 q)] of a positive rational. *)
Definition ilog2 (q : Q) : Z :=
  let k := Z.log2 (Qnum q) - Z.log2 (Zpos (Qden q)) in
  if Qle_bool (pow2 k) q then k else k - 1.

(** The nearest integer, a half going to the even neighbour. *)
Definition rne (t : Q) : Z :=
  let f := Qfloor t in
  match (t - inject_Z f ?= 1 # 2)%Q with
  | Lt => f
  | Gt => f + 1
  | Eq => if Z.even f then f else f + 1
  end.

(** The multiple of [2^e] nearest to [q]. *)
Definition round_to (e : Z) (q : Q) : Q := (inject_Z (rne (q / pow2 e)) * pow2 e)%Q.

(** The largest finite number, [(2^53 - 1) * 2^971]. *)
Definition max_double : Q := (inject_Z (2 ^ 53 - 1) * pow2 971)%Q.

(** The exponent of the last place of the number nearest to [q]: 52 below
    that of the leading bit, and never below -1074. *)
Definition exponent (q : Q) : Z := Z.max (ilog2 (Qabs q) - 52) (-1074).

(** Rounding to nearest, ties to even: a significand of 53 bits, the
    exponent of the last place never below -1074, and no finite result
    beyond [max_double]. *)
Definition double (q : Q) : number :=
  let q := Qred q in
  let d := Qred (round_to (exponent q) q) in
  if Qle_bool (Qabs d) max_double then Some d else None.

(** The number a decimal text or an integer of the model denotes. *)
Definition of_Q (q : Q) : number := double q.

(** [a * b] and [a - b] on numbers. *)
Definition num_mul (a b : number) : number :=
  match a, b with
  | Some a, Some b => double (a * b)
  | _, _ => None
  end.

Definition num_sub (a b : number) : number :=
  match a, b with
  | Some a, Some b => double (a - b)
  | _, _ => None
  end.

(** [d] is a finite binary64 number. *)
Definition binary64 (d : Q) : Prop :=
  exists m e : Z, Z.abs m < 2 ^ 53 /\ -1074 <= e <= 971 /\ (d == inject_Z m * pow2 e)%Q.

(** [d] is a finite binary64 number and none is nearer to [q]. *)
Definition nearest (q d : Q) : Prop :=
  binary64 d /\ forall d', binary64 d' -> (Qabs (d - q) <= Qabs (d' - q))%Q.

(** [a !== b] on numbers. *)
Definition ne (a b : Q) : bool := negb (Qeq_bool a b).

(** [set.has(x)]. *)
Definition Set_has (x : value) (s : list value) : bool := existsb (same_value_zero x) s.

(** [Math.max(a, b)] and [Math.min(a, b)] on numbers. *)
Definition Math_max (a b : Q) : Q := if Qle_bool a b then b else a.
Definition Math_min (a b : Q) : Q := if Qle_bool a b then a else b.

(** [array.slice(start, end)]: a negative index counts from the end, and
    both are clamped to the array. *)
Definition slice {A} (start finish : Z) (l : list A) : list A :=
  let len := Z.of_nat (length l) in
  let k := if start <? 0 then Z.max (len + start) 0 else Z.min start len in
  let final := if finish <? 0 then Z.max (len + finish) 0 else Z.min finish len in
  take (Z.to_nat (final - k)) (drop (Z.to_nat k) l).

End JS.

(* ===================================================================== *)
(** ** MatchingContext: shared state and its localStorage persistence *)
(* ===================================================================== *)

Module MatchingContext.
Import JS.

Record AppliedChanges := mkAppliedChanges {
  renamedClusters : gset string;
  assignedPeople : gset Z;
  mergedPeople : gset Z;
  fixedClusters : gset string;
}.

Definition no_changes : AppliedChanges :=
  {| renamedClusters := ∅; assignedPeople := ∅; mergedPeople := ∅; fixedClusters := ∅ |}.

Record Stats := mkStats {
  totalRawMatches : Z;
  commonPhotos : Z;
  msPeopleCount : Z;
  immichClustersCount : Z;
  totalMatches : Z;
  applicableMatchesCount : Z;
  highConfidence : Z;
  mediumConfidence : Z;
  lowConfidence : Z;
  totalUnclusteredFaces : Z;
  peopleWithUnclusteredMatches : Z;
  clustersWithIssues : Z;
  validationErrors : Z;
  validationWarnings : Z;
  peopleWithSplitClusters : Z;
  totalClustersToMerge : Z;
}.

Record MatchingState := mkState {
  loading : bool;
  algorithmRunning : bool;
  lastRun : option Z;                       (* a [Date], as its time value *)
  error : option string;
  rawMatches : list RawFaceMatch.t;
  histograms : option (HistogramData.t * HistogramData.t);
  percentiles : option (PercentileData.t * PercentileData.t);
  suggestedThresholds : option (Q * Q);
  cumulative : option (CumulativeData.t * CumulativeData.t);
  clusterMatches : list PersonMatch.t;
  applicableMatches : list PersonMatch.t;
  unclusteredPreviews : list PersonApplyPreview.t;
  validationIssues : list ClusterIssue.t;
  mergeCandidates : list MergeCandidate.t;
  stats : option Stats;
  minIoU : Q;
  maxCenterDist : Q;
  pendingMinIoU : Q;
  pendingMaxCenterDist : Q;
  thresholdsDirty : bool;
  appliedChanges : AppliedChanges;
}.

(** What the provider owns: the React state and the browser's localStorage,
    a finite map whose [getItem] and [setItem] always succeed; the [catch]
    blocks around them are then reached by [JSON.parse], by reading a
    property of [null] and by the [Set] constructor only. *)
Record World := mkWorld {
  state : MatchingState;
  localStorage : gmap string string;
}.

Definition STORAGE_KEY : string := "migration-tool-applied-changes".
Definition THRESHOLDS_STORAGE_KEY : string := "migration-tool-thresholds".

(** The sets as [loadAppliedChanges] builds them: the declared element types
    are not checked at run time, so the elements are whatever was parsed. *)
Record LoadedChanges := mkLoaded {
  l_renamedClusters : list value;
  l_assignedPeople : list value;
  l_mergedPeople : list value;
  l_fixedClusters : list value;
}.

Definition loaded_empty : LoadedChanges :=
  {| l_renamedClusters := []; l_assignedPeople := [];
     l_mergedPeople := []; l_fixedClusters := [] |}.

Record LoadedThresholds := mkLoadedThresholds {
  l_minIoU : value;
  l_maxCenterDist : value;
}.

(** [Array.from] of a set of cluster ids, of a set of person ids. *)
Definition array_of_strings (s : gset string) : value := JArr (JStr <$> elements s).
Definition array_of_numbers (s : gset Z) : value := JArr ((λ n, JNum (inject_Z n)) <$> elements s).

(** The object literal [toStore]. *)
Definition toStore (changes : AppliedChanges) : value :=
  JObj [ ("renamedClusters", array_of_strings (renamedClusters changes));
         ("assignedPeople", array_of_numbers (assignedPeople changes));
         ("mergedPeople", array_of_numbers (mergedPeople changes));
         ("fixedClusters", array_of_strings (fixedClusters changes)) ].

Section WithPlatform.
Context `{Platform}.

(** The body of the [try] in [loadAppliedChanges] once [stored] is truthy;
    [None] when it throws. *)
Definition parse_applied_changes (stored : string) : option LoadedChanges :=
  parsed ← JSON_parse stored;
  f1 ← get parsed "renamedClusters"; s1 ← new_Set (or_empty_array f1);
  f2 ← get parsed "assignedPeople"; s2 ← new_Set (or_empty_array f2);
  f3 ← get parsed "mergedPeople"; s3 ← new_Set (or_empty_array f3);
  f4 ← get parsed "fixedClusters"; s4 ← new_Set (or_empty_array f4);
  Some {| l_renamedClusters := s1; l_assignedPeople := s2;
          l_mergedPeople := s3; l_fixedClusters := s4 |}.

Definition loadAppliedChanges (ls : gmap string string) : LoadedChanges :=
  match ls !! STORAGE_KEY with
  | Some stored =>
      if String.eqb stored "" then loaded_empty
      else default loaded_empty (parse_applied_changes stored)
  | None => loaded_empty
  end.

Definition saveAppliedChanges (changes : AppliedChanges) (ls : gmap string string)
    : gmap string string :=
  <[STORAGE_KEY := JSON_stringify (toStore changes)]> ls.

Definition default_thresholds : LoadedThresholds :=
  {| l_minIoU := JNum (3 # 10); l_maxCenterDist := JNum (4 # 10) |}.

Definition parse_thresholds (stored : string) : option LoadedThresholds :=
  parsed ← JSON_parse stored;
  f1 ← get parsed "minIoU";
  f2 ← get parsed "maxCenterDist";
  Some {| l_minIoU := nullish_or (JNum (3 # 10)) f1;
          l_maxCenterDist := nullish_or (JNum (4 # 10)) f2 |}.

Definition loadThresholds (ls : gmap string string) : LoadedThresholds :=
  match ls !! THRESHOLDS_STORAGE_KEY with
  | Some stored =>
      if String.eqb stored "" then default_thresholds
      else default default_thresholds (parse_thresholds stored)
  | None => default_thresholds
  end.

Definition saveThresholds (minIoU maxCenterDist : Q) (ls : gmap string string)
    : gmap string string :=
  <[THRESHOLDS_STORAGE_KEY :=
      JSON_stringify (JObj [("minIoU", JNum minIoU); ("maxCenterDist", JNum maxCenterDist)])]> ls.

(** [setState(prev => ({ ...prev, appliedChanges }))]. *)
Definition with_appliedChanges (changes : AppliedChanges) (prev : MatchingState)
    : MatchingState :=
  mkState (loading prev) (algorithmRunning prev) (lastRun prev) (error prev)
    (rawMatches prev) (histograms prev) (percentiles prev) (suggestedThresholds prev)
    (cumulative prev) (clusterMatches prev) (applicableMatches prev)
    (unclusteredPreviews prev) (validationIssues prev) (mergeCandidates prev)
    (stats prev) (minIoU prev) (maxCenterDist prev) (pendingMinIoU prev)
    (pendingMaxCenterDist prev) (thresholdsDirty prev) changes.

(** The first [setState] of [fetchAllData]. *)
Definition fetch_started (isInitialRun : bool) (prev : MatchingState) : MatchingState :=
  mkState (negb isInitialRun) isInitialRun (lastRun prev) None
    (rawMatches prev) (histograms prev) (percentiles prev) (suggestedThresholds prev)
    (cumulative prev) (clusterMatches prev) (applicableMatches prev)
    (unclusteredPreviews prev) (validationIssues prev) (mergeCandidates prev)
    (stats prev) (minIoU prev) (maxCenterDist prev) (pendingMinIoU prev)
    (pendingMaxCenterDist prev) (thresholdsDirty prev) (appliedChanges prev).

(** The [setState] after the response has arrived. [changes] is the local
    variable [appliedChanges]; [now] is [new Date()]. *)
Definition fetch_succeeded (minIoU' maxCenterDist' : Q) (isInitialRun : bool)
    (result : FullAnalysisResult.t) (changes : AppliedChanges) (now : Z)
    (prev : MatchingState) : MatchingState :=
  {| loading := false;
     algorithmRunning := false;
     lastRun := if isInitialRun then Some now else lastRun prev;
     error := error prev;
     rawMatches := FullAnalysisResult.raw_matches result;
     histograms := Some (FullAnalysisResult.histograms result);
     percentiles := Some (FullAnalysisResult.percentiles result);
     suggestedThresholds := Some (FullAnalysisResult.suggested_thresholds result);
     cumulative := Some (FullAnalysisResult.cumulative result);
     clusterMatches := FullAnalysisResult.all_matches result;
     applicableMatches := FullAnalysisResult.applicable result;
     unclusteredPreviews := FullAnalysisResult.previews result;
     validationIssues := FullAnalysisResult.issues result;
     mergeCandidates := FullAnalysisResult.candidates result;
     stats :=
       (let r := FullAnalysisResult.stats result in
        Some {| totalRawMatches := FullAnalysisResult.total_raw_matches r;
             commonPhotos := FullAnalysisResult.common_photos r;
             msPeopleCount := FullAnalysisResult.ms_people_count r;
             immichClustersCount := FullAnalysisResult.immich_clusters_count r;
             totalMatches := FullAnalysisResult.total_matches r;
             applicableMatchesCount := FullAnalysisResult.applicable_matches r;
             highConfidence := FullAnalysisResult.high_confidence r;
             mediumConfidence := FullAnalysisResult.medium_confidence r;
             lowConfidence := FullAnalysisResult.low_confidence r;
             totalUnclusteredFaces := FullAnalysisResult.total_unclustered_faces r;
             peopleWithUnclusteredMatches :=
               FullAnalysisResult.people_with_unclustered_matches r;
             clustersWithIssues := FullAnalysisResult.clusters_with_issues r;
             validationErrors := FullAnalysisResult.validation_errors r;
             validationWarnings := FullAnalysisResult.validation_warnings r;
             peopleWithSplitClusters := FullAnalysisResult.people_with_split_clusters r;
             totalClustersToMerge := FullAnalysisResult.total_clusters_to_merge r |});
     minIoU := minIoU';
     maxCenterDist := maxCenterDist';
     pendingMinIoU := minIoU';
     pendingMaxCenterDist := maxCenterDist';
     thresholdsDirty := false;
     appliedChanges := changes |}.

(** The [setState] of the [catch] block. *)
Definition fetch_failed (e : thrown) (prev : MatchingState) : MatchingState :=
  mkState false false (lastRun prev) (Some (message_or "Failed to run algorithm" e))
    (rawMatches prev) (histograms prev) (percentiles prev) (suggestedThresholds prev)
    (cumulative prev) (clusterMatches prev) (applicableMatches prev)
    (unclusteredPreviews prev) (validationIssues prev) (mergeCandidates prev)
    (stats prev) (minIoU prev) (maxCenterDist prev) (pendingMinIoU prev)
    (pendingMaxCenterDist prev) (thresholdsDirty prev) (appliedChanges prev).

(** [fetchAllData] up to its [await]. *)
Definition fetchAllData_start (isInitialRun : bool) (w : World) : World :=
  {| state := fetch_started isInitialRun (state w); localStorage := localStorage w |}.

(** [fetchAllData] from the moment [runFullAnalysis] settles.  [closure] is
    [state.appliedChanges] as the callback closed over it: the value of the
    render that created the callback, not the one of [prev]. *)
Definition fetchAllData_settle (closure : AppliedChanges) (minIoU' maxCenterDist' : Q)
    (isInitialRun : bool) (response : settled FullAnalysisResult.t) (now : Z)
    (w : World) : World :=
  match response with
  | Resolved result =>
      let changes := if isInitialRun then no_changes else closure in
      let ls := if isInitialRun then saveAppliedChanges changes (localStorage w)
                else localStorage w in
      {| state := fetch_succeeded minIoU' maxCenterDist' isInitialRun result changes now (state w);
         localStorage := ls |}
  | Rejected e =>
      {| state := fetch_failed e (state w); localStorage := localStorage w |}
  end.

(** [fetchAllData] when nothing else updates the state while the request is
    in flight. *)
Definition fetchAllData (closure : AppliedChanges) (minIoU' maxCenterDist' : Q)
    (isInitialRun : bool) (response : settled FullAnalysisResult.t) (now : Z)
    (w : World) : World :=
  fetchAllData_settle closure minIoU' maxCenterDist' isInitialRun response now
    (fetchAllData_start isInitialRun w).

(** [runAlgorithm] and [applyThresholds], called on the current render [w]:
    their closures hold the state of that render. *)
Definition runAlgorithm (response : settled FullAnalysisResult.t) (now : Z) (w : World)
    : World :=
  fetchAllData (appliedChanges (state w)) (pendingMinIoU (state w))
    (pendingMaxCenterDist (state w)) true response now w.

Definition applyThresholds (response : settled FullAnalysisResult.t) (now : Z) (w : World)
    : World :=
  let pI := pendingMinIoU (state w) in
  let pC := pendingMaxCenterDist (state w) in
  let w1 := {| state := state w; localStorage := saveThresholds pI pC (localStorage w) |} in
  fetchAllData (appliedChanges (state w)) pI pC false response now w1.

(** The four [mark...] callbacks: a functional [setState] whose updater also
    saves the new bookkeeping. *)
Definition mark (update : AppliedChanges -> AppliedChanges) (w : World) : World :=
  let newChanges := update (appliedChanges (state w)) in
  {| state := with_appliedChanges newChanges (state w);
     localStorage := saveAppliedChanges newChanges (localStorage w) |}.

Definition markClusterRenamed (clusterId : string) : World -> World :=
  mark (λ c, mkAppliedChanges (renamedClusters c ∪ {[clusterId]}) (assignedPeople c)
               (mergedPeople c) (fixedClusters c)).

Definition markPersonAssigned (personId : Z) : World -> World :=
  mark (λ c, mkAppliedChanges (renamedClusters c) (assignedPeople c ∪ {[personId]})
               (mergedPeople c) (fixedClusters c)).

Definition markClustersMerged (personId : Z) : World -> World :=
  mark (λ c, mkAppliedChanges (renamedClusters c) (assignedPeople c)
               (mergedPeople c ∪ {[personId]}) (fixedClusters c)).

Definition markClusterFixed (clusterId : string) : World -> World :=
  mark (λ c, mkAppliedChanges (renamedClusters c) (assignedPeople c)
               (mergedPeople c) (fixedClusters c ∪ {[clusterId]})).

Definition resetAppliedChanges (w : World) : World :=
  {| state := with_appliedChanges no_changes (state w);
     localStorage := saveAppliedChanges no_changes (localStorage w) |}.

End WithPlatform.

(** Two states that agree on every field except, possibly, the bookkeeping
    of applied changes. *)
Definition same_but_appliedChanges (s s' : MatchingState) : Prop :=
  loading s' = loading s
  /\ algorithmRunning s' = algorithmRunning s
  /\ lastRun s' = lastRun s
  /\ error s' = error s
  /\ rawMatches s' = rawMatches s
  /\ histograms s' = histograms s
  /\ percentiles s' = percentiles s
  /\ suggestedThresholds s' = suggestedThresholds s
  /\ cumulative s' = cumulative s
  /\ clusterMatches s' = clusterMatches s
  /\ applicableMatches s' = applicableMatches s
  /\ unclusteredPreviews s' = unclusteredPreviews s
  /\ validationIssues s' = validationIssues s
  /\ mergeCandidates s' = mergeCandidates s
  /\ stats s' = stats s
  /\ minIoU s' = minIoU s
  /\ maxCenterDist s' = maxCenterDist s
  /\ pendingMinIoU s' = pendingMinIoU s
  /\ pendingMaxCenterDist s' = pendingMaxCenterDist s
  /\ thresholdsDirty s' = thresholdsDirty s.

(** Two stores that agree on every key except, possibly, the one of the
    applied changes. *)
Definition same_but_saved_changes (ls ls' : gmap string string) : Prop :=
  forall k, k <> STORAGE_KEY -> ls' !! k = ls !! k.


(** The run-time image of a set of cluster ids, of a set of person ids. *)
Definition holds_strings (loaded : list value) (s : gset string) : Prop :=
  NoDup loaded /\ forall v, v ∈ loaded <-> exists x, v = JStr x /\ x ∈ s.

Definition holds_numbers (loaded : list value) (s : gset Z) : Prop :=
  NoDup loaded /\ forall v, v ∈ loaded <-> exists n, v = JNum (inject_Z n) /\ n ∈ s.

Import JS.

Section Provider.
Context `{Platform}.

(** The state [MatchingProvider] starts with; the two thresholds are those
    [loadThresholds] returned and [changes] what [loadAppliedChanges]
    returned. *)
Definition initial_state (storedMinIoU storedMaxCenterDist : Q) (changes : AppliedChanges)
    : MatchingState :=
  {| loading := false; algorithmRunning := false; lastRun := None; error := None;
     rawMatches := []; histograms := None; percentiles := None;
     suggestedThresholds := None; cumulative := None;
     clusterMatches := []; applicableMatches := []; unclusteredPreviews := [];
     validationIssues := []; mergeCandidates := []; stats := None;
     minIoU := storedMinIoU; maxCenterDist := storedMaxCenterDist;
     pendingMinIoU := storedMinIoU; pendingMaxCenterDist := storedMaxCenterDist;
     thresholdsDirty := false; appliedChanges := changes |}.

(** [setState(prev => ({ ...prev, pendingMinIoU, pendingMaxCenterDist,
    thresholdsDirty }))]. *)
Definition with_pending (pI pC : Q) (dirty : bool) (prev : MatchingState) : MatchingState :=
  mkState (loading prev) (algorithmRunning prev) (lastRun prev) (error prev)
    (rawMatches prev) (histograms prev) (percentiles prev) (suggestedThresholds prev)
    (cumulative prev) (clusterMatches prev) (applicableMatches prev)
    (unclusteredPreviews prev) (validationIssues prev) (mergeCandidates prev)
    (stats prev) (minIoU prev) (maxCenterDist prev) pI pC dirty (appliedChanges prev).

Definition setPendingMinIoU (value : Q) (prev : MatchingState) : MatchingState :=
  with_pending value (pendingMaxCenterDist prev)
    (ne value (minIoU prev) || ne (pendingMaxCenterDist prev) (maxCenterDist prev)) prev.

Definition setPendingMaxCenterDist (value : Q) (prev : MatchingState) : MatchingState :=
  with_pending (pendingMinIoU prev) value
    (ne (pendingMinIoU prev) (minIoU prev) || ne value (maxCenterDist prev)) prev.

(** What a consumer of the context can ask for, with the answer of the
    server where the action waits for one. *)
Inductive Action :=
  | RunAlgorithm (response : settled FullAnalysisResult.t) (now : Z)
  | SetPendingMinIoU (value : Q)
  | SetPendingMaxCenterDist (value : Q)
  | ApplyThresholds (response : settled FullAnalysisResult.t) (now : Z)
  | MarkClusterRenamed (clusterId : string)
  | MarkPersonAssigned (personId : Z)
  | MarkClustersMerged (personId : Z)
  | MarkClusterFixed (clusterId : string)
  | ResetAppliedChanges.

Definition on_state (f : MatchingState -> MatchingState) (w : World) : World :=
  {| state := f (state w); localStorage := localStorage w |}.

Definition perform (a : Action) (w : World) : World :=
  match a with
  | RunAlgorithm response now => runAlgorithm response now w
  | SetPendingMinIoU value => on_state (setPendingMinIoU value) w
  | SetPendingMaxCenterDist value => on_state (setPendingMaxCenterDist value) w
  | ApplyThresholds response now => applyThresholds response now w
  | MarkClusterRenamed clusterId => markClusterRenamed clusterId w
  | MarkPersonAssigned personId => markPersonAssigned personId w
  | MarkClustersMerged personId => markClustersMerged personId w
  | MarkClusterFixed clusterId => markClusterFixed clusterId w
  | ResetAppliedChanges => resetAppliedChanges w
  end.

(** Actions performed one after the other, each on the render the one
    before left. *)
Definition session (actions : list Action) (w : World) : World :=
  foldl (fun w a => perform a w) w actions.



End Provider.

(** The pending thresholds are the active ones. *)
Definition pending_is_active (s : MatchingState) : Prop :=
  (pendingMinIoU s == minIoU s)%Q /\ (pendingMaxCenterDist s == maxCenterDist s)%Q.

(** What holds of the state between two actions. *)
Definition settled_state (s : MatchingState) : Prop :=
  (thresholdsDirty s = true <-> ~ pending_is_active s)
  /\ loading s = false
  /\ algorithmRunning s = false.

(** Two states that agree on everything but the two loading flags and the
    error message. *)
Definition same_but_progress (s s' : MatchingState) : Prop :=
  lastRun s' = lastRun s
  /\ rawMatches s' = rawMatches s
  /\ histograms s' = histograms s
  /\ percentiles s' = percentiles s
  /\ suggestedThresholds s' = suggestedThresholds s
  /\ cumulative s' = cumulative s
  /\ clusterMatches s' = clusterMatches s
  /\ applicableMatches s' = applicableMatches s
  /\ unclusteredPreviews s' = unclusteredPreviews s
  /\ validationIssues s' = validationIssues s
  /\ mergeCandidates s' = mergeCandidates s
  /\ stats s' = stats s
  /\ minIoU s' = minIoU s
  /\ maxCenterDist s' = maxCenterDist s
  /\ pendingMinIoU s' = pendingMinIoU s
  /\ pendingMaxCenterDist s' = pendingMaxCenterDist s
  /\ thresholdsDirty s' = thresholdsDirty s
  /\ appliedChanges s' = appliedChanges s.

End MatchingContext.

(* ===================================================================== *)
(** ** useAppliedChanges: the hook that reads the same store *)
(* ===================================================================== *)

Module UseAppliedChanges.
Import JS.
Import MatchingContext (AppliedChanges, renamedClusters, assignedPeople, mergedPeople,
  fixedClusters, LoadedChanges, l_renamedClusters, l_assignedPeople, l_mergedPeople,
  l_fixedClusters, array_of_strings, array_of_numbers).

Definition STORAGE_KEY : string := "migration-tool-applied-changes".

Section WithPlatform.
Context `{Platform}.

Definition loadAppliedChanges (ls : gmap string string) : LoadedChanges :=
  let empty := {| l_renamedClusters := []; l_assignedPeople := [];
                  l_mergedPeople := []; l_fixedClusters := [] |} in
  match ls !! STORAGE_KEY with
  | Some stored =>
      if String.eqb stored "" then empty
      else
        default empty
          (parsed ← JSON_parse stored;
           f1 ← get parsed "renamedClusters"; s1 ← new_Set (or_empty_array f1);
           f2 ← get parsed "assignedPeople"; s2 ← new_Set (or_empty_array f2);
           f3 ← get parsed "mergedPeople"; s3 ← new_Set (or_empty_array f3);
           f4 ← get parsed "fixedClusters"; s4 ← new_Set (or_empty_array f4);
           Some {| l_renamedClusters := s1; l_assignedPeople := s2;
                   l_mergedPeople := s3; l_fixedClusters := s4 |})
  | None => empty
  end.

Definition saveAppliedChanges (changes : AppliedChanges) (ls : gmap string string)
    : gmap string string :=
  let toStore :=
    JObj [ ("renamedClusters", array_of_strings (renamedClusters changes));
           ("assignedPeople", array_of_numbers (assignedPeople changes));
           ("mergedPeople", array_of_numbers (mergedPeople changes));
           ("fixedClusters", array_of_strings (fixedClusters changes)) ] in
  <[STORAGE_KEY := JSON_stringify toStore]> ls.

Definition clearAppliedChanges (ls : gmap string string) : gmap string string :=
  delete STORAGE_KEY ls.

Definition isClusterRenamed (clusterId : string) (ls : gmap string string) : bool :=
  Set_has (JStr clusterId) (l_renamedClusters (loadAppliedChanges ls)).

Definition isPersonAssigned (personId : Z) (ls : gmap string string) : bool :=
  Set_has (JNum (inject_Z personId)) (l_assignedPeople (loadAppliedChanges ls)).

Definition areClustersMerged (personId : Z) (ls : gmap string string) : bool :=
  Set_has (JNum (inject_Z personId)) (l_mergedPeople (loadAppliedChanges ls)).

Definition isClusterFixed (clusterId : string) (ls : gmap string string) : bool :=
  Set_has (JStr clusterId) (l_fixedClusters (loadAppliedChanges ls)).

End WithPlatform.
End UseAppliedChanges.

(* ===================================================================== *)
(** ** Analytics tab *)
(* ===================================================================== *)

Module Analytics.
Import RawFaceMatch.

(** The arrow function handed to [rawMatches.filter]. *)
Definition passes (pendingMinIoU pendingMaxCenterDist : Q) (m : RawFaceMatch.t) : bool :=
  JS.ge (iou m) pendingMinIoU && JS.le (center_dist m) pendingMaxCenterDist.

(** [filteredMatches]; [None] stands for a null or undefined [rawMatches]. *)
Definition filteredMatches (rawMatches : option (list RawFaceMatch.t))
    (pendingMinIoU pendingMaxCenterDist : Q) : list RawFaceMatch.t :=
  match rawMatches with
  | None => []
  | Some ms => List.filter (passes pendingMinIoU pendingMaxCenterDist) ms
  end.

(** The value type of the [grouped] map. *)
Record Group := mkGroup {
  g_ms_person_name : string;
  g_immich_cluster_name : option string;
  count : Z;
  avg_iou : Q;
  avg_center_dist : Q;
}.

(** The template string [`${ms_person_id}-${immich_cluster_id}`]. *)
Definition key_of (person : Z) (cluster : string) : string :=
  pretty person +:+ "-" +:+ cluster.

Definition key (m : RawFaceMatch.t) : string :=
  key_of (ms_person_id m) (immich_cluster_id m).

(** The [if (existing)] branch: the entry is updated in place. *)
Definition bump (existing : Group) (m : RawFaceMatch.t) : Group :=
  let count' := count existing + 1 in
  let avg_iou' :=
    ((avg_iou existing * inject_Z (count' - 1) + iou m) / inject_Z count')%Q in
  let avg_center_dist' :=
    ((avg_center_dist existing * inject_Z (count' - 1) + center_dist m)
       / inject_Z count')%Q in
  {| g_ms_person_name := g_ms_person_name existing;
     g_immich_cluster_name := g_immich_cluster_name existing;
     count := count';
     avg_iou := avg_iou';
     avg_center_dist := avg_center_dist' |}.

(** The [else] branch: a fresh entry is appended to the map. *)
Definition fresh (m : RawFaceMatch.t) : Group :=
  {| g_ms_person_name := ms_person_name m;
     g_immich_cluster_name := immich_cluster_name m;
     count := 1;
     avg_iou := iou m;
     avg_center_dist := center_dist m |}.

(** One iteration of the [for ... of filteredMatches] loop on the map, which
    keeps its entries in insertion order. *)
Fixpoint upsert (k : string) (m : RawFaceMatch.t) (grouped : list (string * Group))
    : list (string * Group) :=
  match grouped with
  | [] => [(k, fresh m)]
  | (k', existing) :: rest =>
      if String.eqb k' k then (k', bump existing m) :: rest
      else (k', existing) :: upsert k m rest
  end.

Definition grouped (filtered : list RawFaceMatch.t) : list (string * Group) :=
  fold_left (fun g m => upsert (key m) m g) filtered [].

(** [Array.from(grouped.values()).sort((a, b) => b.count - a.count)]. *)
Definition aggregatedMatches (filtered : list RawFaceMatch.t) : list Group :=
  JS.sort (fun a b => inject_Z (count b - count a)) (map snd (grouped filtered)).

Definition is_high (m : Group) : bool :=
  (5 <=? count m) && JS.ge (avg_iou m) (4 # 10).

Definition is_medium (m : Group) : bool :=
  (2 <=? count m) && JS.ge (avg_iou m) (35 # 100) && negb (is_high m).

Record Breakdown := mkBreakdown { n_high : Z; n_medium : Z; n_low : Z }.

Definition confidenceBreakdown (aggregated : list Group) : Breakdown :=
  let h := Z.of_nat (length (List.filter is_high aggregated)) in
  let md := Z.of_nat (length (List.filter is_medium aggregated)) in
  let lw := Z.of_nat (length aggregated) - h - md in
  {| n_high := h; n_medium := md; n_low := lw |}.

(** The matches of one (person, cluster) pair, in their order; sums and
    arithmetic means of their measurements. *)
Definition same_pair (person : Z) (cluster : string) (m : RawFaceMatch.t) : bool :=
  (ms_person_id m =? person) && String.eqb (immich_cluster_id m) cluster.

Definition group (person : Z) (cluster : string) (ms : list RawFaceMatch.t)
    : list RawFaceMatch.t :=
  List.filter (same_pair person cluster) ms.

Definition Qsum (l : list Q) : Q := foldr Qplus 0%Q l.

Definition mean (l : list Q) : Q := (Qsum l / inject_Z (Z.of_nat (length l)))%Q.

(** An aggregate that carries the size and the two means of a group. *)
Definition summarises (e : Group) (grp : list RawFaceMatch.t) : Prop :=
  count e = Z.of_nat (length grp)
  /\ (avg_iou e == mean (iou <$> grp))%Q
  /\ (avg_center_dist e == mean (center_dist <$> grp))%Q.

(** The matches whose key is [k]. *)
Definition keyed (k : string) (ms : list RawFaceMatch.t) : list RawFaceMatch.t :=
  List.filter (fun m => String.eqb (key m) k) ms.

(** What the map holds once the loop has gone through [seen]: one entry per
    key met, and each entry summarises the matches of its key. *)
Definition grouped_inv (g : list (string * Group)) (seen : list RawFaceMatch.t) : Prop :=
  NoDup (map fst g)
  /\ (forall k e, In (k, e) g -> keyed k seen <> [] /\ summarises e (keyed k seen))
  /\ (forall m, In m seen -> In (key m) (map fst g)).

(** The confidence rule as the data model words it: high, else medium, else
    low. *)
Definition confidence_rule (cnt : Z) (mean_iou : Q) : Confidence :=
  if (5 <=? cnt) && JS.ge mean_iou (4 # 10) then high
  else if (2 <=? cnt) && JS.ge mean_iou (35 # 100) then medium
  else low.

(** The class of an aggregate under that rule, and the test for one class. *)
Definition classify (m : Group) : Confidence := confidence_rule (count m) (avg_iou m).

Definition is_class (c : Confidence) (m : Group) : bool :=
  match classify m, c with
  | high, high | medium, medium | low, low => true
  | _, _ => false
  end.

Import RawFaceMatch HistogramData.

(** The [Histogram] component. [Math.max(...data.counts, 1)]. *)
Definition maxCount (data : HistogramData.t) : Z := foldr Z.max 1 (counts data).

(** One bar: its height in percent and whether it takes the colour of the
    bins that pass the threshold. *)
Record Bar := mkBar { height : Q; isAboveThreshold : bool }.

(** The element rendered for bin [i]. [None] is the TypeError of
    [data.counts[i].toLocaleString()] in its tooltip, thrown where
    [data.counts[i]] is undefined. *)
Definition bar (data : HistogramData.t) (threshold : Q) (invertThreshold : bool)
    (i : nat) (bin : Q) : option Bar :=
  c ← counts data !! i;
  Some {| height := (inject_Z c / inject_Z (maxCount data) * 100)%Q;
          isAboveThreshold := if invertThreshold then JS.le bin threshold
                              else JS.ge bin threshold |}.

(** [data.bins.map((bin, i) => ...)]: the bars, or [None] where rendering
    one of them throws. *)
Definition bars (data : HistogramData.t) (threshold : Q) (invertThreshold : bool)
    : option (list Bar) :=
  mapM (fun '(i, bin) => bar data threshold invertThreshold i bin)
    (imap (fun i bin => (i, bin)) (bins data)).

(** The rows of the table of top matches: [aggregatedMatches.slice(0, 20)]. *)
Definition topMatches (filtered : list RawFaceMatch.t) : list Group :=
  JS.slice 0 20 (aggregatedMatches filtered).

(** The sum of the sizes of a list of aggregates. *)
Definition total_count (l : list Group) : Z := foldr Z.add 0 (count <$> l).

Import MatchingContext.

(** [disabled={!thresholdsDirty || loading}] of the Apply Thresholds button. *)
Definition applyThresholds_disabled (s : MatchingState) : bool :=
  negb (thresholdsDirty s) || loading s.

(** The handler of Use Suggested Values, rendered when there is a
    suggestion. *)
Definition useSuggestedValues (s : MatchingState) : MatchingState :=
  match suggestedThresholds s with
  | Some (iou, center_dist) => setPendingMaxCenterDist center_dist (setPendingMinIoU iou s)
  | None => s
  end.

End Analytics.

(* ===================================================================== *)
(** ** ProgressModal: the dialog of a bulk apply *)
(* ===================================================================== *)

Module ProgressModal.
(** [subProgress]: the face being sent within the current person. *)
Record SubProgress := mkSubProgress {
  current : nat;
  total : nat;
  label : option string;
}.

Record Props := mkProps {
  isOpen : bool;
  title : string;
  items : list ProgressItem.t;
  currentIndex : nat;
  canCancel : bool;
  subProgress : option SubProgress;
}.

(** [i.status === st]. *)
Definition has_status (st : Status.t) (i : ProgressItem.t) : bool :=
  match ProgressItem.status i, st with
  | Status.pending, Status.pending | Status.processing, Status.processing
  | Status.success, Status.success | Status.error, Status.error => true
  | _, _ => false
  end.

Definition completed (p : Props) : nat :=
  length (List.filter (has_status Status.success) (items p)).

Definition failed (p : Props) : nat :=
  length (List.filter (has_status Status.error) (items p)).

Definition progress (p : Props) : Q :=
  if (0 <? length (items p))%nat then
    (inject_Z (Z.of_nat (completed p + failed p))
       / inject_Z (Z.of_nat (length (items p))) * 100)%Q
  else 0%Q.

Definition isComplete (p : Props) : bool :=
  (completed p + failed p =? length (items p))%nat.

Definition currentItem (p : Props) : option ProgressItem.t :=
  items p !! currentIndex p.

Definition subProgressPercent (p : Props) : Q :=
  match subProgress p with
  | Some sp =>
      if (0 <? total sp)%nat then
        (inject_Z (Z.of_nat (current sp)) / inject_Z (Z.of_nat (total sp)) * 100)%Q
      else 0%Q
  | None => 0%Q
  end.

(** What the dialog shows. *)
Record View := mkView {
  close_button : bool;                     (* the X of the header *)
  processing_caption : bool;               (* 'Processing...' rather than 'Complete' *)
  counter : nat * nat;                     (* {completed + failed} / {total} *)
  bar_width : Q;                           (* percent *)
  current_block : option ProgressItem.t;   (* the item with the spinner *)
  applied_line : option nat;               (* '{completed} applied successfully' *)
  failed_line : option nat;                (* '{failed} failed' *)
  listed : list ProgressItem.t;            (* the recent items *)
  cancel_button : bool;
  done_button : bool;
}.

(** The component: [None] is the [null] it returns when it is not open. *)
Definition ProgressModal (p : Props) : option View :=
  if negb (isOpen p) then None
  else
    Some {| close_button := isComplete p;
            processing_caption := negb (isComplete p);
            counter := ((completed p + failed p)%nat, length (items p));
            bar_width := progress p;
            current_block := if negb (isComplete p) then currentItem p else None;
            applied_line :=
              if isComplete p && (0 <? completed p)%nat then Some (completed p) else None;
            failed_line :=
              if isComplete p && (0 <? failed p)%nat then Some (failed p) else None;
            listed := JS.slice 0 (Z.of_nat (currentIndex p) + 5) (items p);
            cancel_button := negb (isComplete p) && canCancel p;
            done_button := isComplete p |}.

(** Every item has reached a terminal state. *)
Definition all_terminal (l : list ProgressItem.t) : Prop :=
  Forall (fun i => ProgressItem.status i = Status.success
                   \/ ProgressItem.status i = Status.error) l.
End ProgressModal.

(* ===================================================================== *)
(** ** FaceThumbnailGrid: the faces of an expanded row *)
(* ===================================================================== *)

Module FaceThumbnailGrid.
Import JS.

Inductive FaceSortBy := iou_desc | iou_asc | center_dist_asc | center_dist_desc | by_filename.

(** A rectangle in normalised coordinates. *)
Record Rect := mkRect { x1 : Q; y1 : Q; x2 : Q; y2 : Q }.

Record FaceData := mkFaceData {
  id : string;
  assetId : string;
  filename : string;
  iou : option Q;
  centerDist : option Q;
  msRect : option Rect;
  immichRect : option Rect;
  imageWidth : option Z;
  imageHeight : option Z;
}.

Inductive ThumbnailSize := small | large.

Record Props := mkProps {
  faces : list FaceData;
  initialShowCount : nat;
  loadMoreIncrement : nat;
  selectable : bool;
  selectedIds : option (gset string);
  showIoU : bool;
  showCenterDist : bool;
  showFaceRects : bool;
  defaultSortBy : FaceSortBy;
}.

Definition INITIAL_SHOW : nat := 8.
Definition LOAD_MORE_INCREMENT : nat := 8.

(** The component's [useState] cells. *)
Record Grid := mkGrid {
  sortBy : FaceSortBy;
  showCount : nat;
  thumbnailSize : ThumbnailSize;
  showRects : bool;
}.

Definition initial (p : Props) : Grid :=
  {| sortBy := defaultSortBy p; showCount := initialShowCount p;
     thumbnailSize := small; showRects := showFaceRects p |}.

(** [v ?? 0]. *)
Definition or_zero (v : option Q) : Q := default 0%Q v.

(** The selection header: how many faces count as selected. *)
Definition selectedCount (p : Props) : nat :=
  match selectable p, selectedIds p with
  | true, Some chosen => length (List.filter (fun f => bool_decide (id f ∈ chosen)) (faces p))
  | _, _ => length (faces p)
  end.

Definition allSelected (p : Props) : bool := (selectedCount p =? length (faces p))%nat.
Definition noneSelected (p : Props) : bool := (selectedCount p =? 0)%nat.

Definition isSelected (p : Props) (face : FaceData) : bool :=
  match selectable p, selectedIds p with
  | true, Some chosen => bool_decide (id face ∈ chosen)
  | _, _ => true
  end.

(** The arguments [onSelectionChange] gets when the checkbox of [face] is
    clicked. *)
Definition onToggleSelect (p : Props) (face : FaceData) : string * bool :=
  (id face, negb (isSelected p face)).

(** [l.findIndex(pred)]. *)
Fixpoint findIndex {A} (pred : A -> bool) (l : list A) : Z :=
  match l with
  | [] => -1
  | x :: rest =>
      if pred x then 0
      else let k := findIndex pred rest in if k <? 0 then -1 else k + 1
  end.

Section WithPlatform.
Context `{Platform}.

(** The comparator of [sortedFaces]. *)
Definition comparator (by_ : FaceSortBy) (a b : FaceData) : Q :=
  match by_ with
  | iou_desc => (or_zero (iou b) - or_zero (iou a))%Q
  | iou_asc => (or_zero (iou a) - or_zero (iou b))%Q
  | center_dist_asc => (or_zero (centerDist a) - or_zero (centerDist b))%Q
  | center_dist_desc => (or_zero (centerDist b) - or_zero (centerDist a))%Q
  | by_filename => localeCompare (filename a) (filename b)
  end.

Definition sortedFaces (p : Props) (g : Grid) : list FaceData :=
  JS.sort (comparator (sortBy g)) (faces p).

Definition visibleFaces (p : Props) (g : Grid) : list FaceData :=
  slice 0 (Z.of_nat (showCount g)) (sortedFaces p g).

Definition remainingCount (p : Props) (g : Grid) : Z :=
  Z.of_nat (length (sortedFaces p g)) - Z.of_nat (showCount g).

(** The button Load more: whether it is rendered, the number it announces,
    and its handler. *)
Definition loadMore_shown (p : Props) (g : Grid) : bool := 0 <? remainingCount p g.

Definition loadMore_announced (p : Props) (g : Grid) : Z :=
  Z.min (remainingCount p g) (Z.of_nat (loadMoreIncrement p)).

Definition loadMore (p : Props) (g : Grid) : Grid :=
  {| sortBy := sortBy g; showCount := (showCount g + loadMoreIncrement p)%nat;
     thumbnailSize := thumbnailSize g; showRects := showRects g |}.

(** The index [onViewPhoto] gets when [face] is clicked. *)
Definition sortedIndex (p : Props) (g : Grid) (face : FaceData) : Z :=
  findIndex (fun f => String.eqb (id f) (id face)) (sortedFaces p g).

End WithPlatform.

(** [ThumbnailWithRects]: how the image is scaled and shifted inside its
    element, which is [displayW] by [displayH]; the image is [natW] by
    [natH]. *)
Record Placement := mkPlacement { scale : Q; offsetX : Q; offsetY : Q }.

Definition gt (a b : Q) : bool := negb (Qle_bool a b).

Definition placement (isLarge : bool) (natW natH displayW displayH : Q) : Placement :=
  let imgAspect := (natW / natH)%Q in
  let containerAspect := (displayW / displayH)%Q in
  if isLarge then
    if gt imgAspect containerAspect then
      let scale := (displayW / natW)%Q in
      {| scale := scale; offsetX := 0; offsetY := ((displayH - natH * scale) / 2)%Q |}
    else
      let scale := (displayH / natH)%Q in
      {| scale := scale; offsetX := ((displayW - natW * scale) / 2)%Q; offsetY := 0 |}
  else
    if gt imgAspect containerAspect then
      let scale := (displayH / natH)%Q in
      {| scale := scale; offsetX := ((displayW - natW * scale) / 2)%Q; offsetY := 0 |}
    else
      let scale := (displayW / natW)%Q in
      {| scale := scale; offsetX := 0; offsetY := ((displayH - natH * scale) / 2)%Q |}.

(** [transformCoord]. *)
Definition transformCoord (pl : Placement) (natW natH nx ny : Q) : Q * Q :=
  ((nx * natW * scale pl + offsetX pl)%Q, (ny * natH * scale pl + offsetY pl)%Q).

(** The four arguments of [ctx.strokeRect] for one rectangle. *)
Definition strokeRect (pl : Placement) (natW natH : Q) (rc : Rect) : Q * Q * Q * Q :=
  let tl := transformCoord pl natW natH (x1 rc) (y1 rc) in
  let br := transformCoord pl natW natH (x2 rc) (y2 rc) in
  (fst tl, snd tl, (fst br - fst tl)%Q, (snd br - snd tl)%Q).

(** What the effect draws once the image has loaded: nothing when
    rectangles are off or a natural dimension is zero, else the MS Photos
    rectangle and the Immich rectangle the face carries. *)
Definition drawn (showRects isLarge : bool) (face : FaceData)
    (natW natH displayW displayH : Q) : list (Q * Q * Q * Q) :=
  if negb showRects then []
  else if Qeq_bool natW 0 || Qeq_bool natH 0 then []
  else
    let pl := placement isLarge natW natH displayW displayH in
    match msRect face with Some rc => [strokeRect pl natW natH rc] | None => [] end
    ++ match immichRect face with Some rc => [strokeRect pl natW natH rc] | None => [] end.

(** [unrecognizedToFaceData]. *)
Definition unrecognizedToFaceData (face : UnrecognizedFacePreview.t) (index : nat)
    : FaceData :=
  {| id := UnrecognizedFacePreview.immich_asset_id face +:+ "-" +:+ pretty index;
     assetId := UnrecognizedFacePreview.immich_asset_id face;
     filename := UnrecognizedFacePreview.filename face;
     iou := None;
     centerDist := None;
     msRect := Some {| x1 := UnrecognizedFacePreview.ms_rect_x1 face;
                       y1 := UnrecognizedFacePreview.ms_rect_y1 face;
                       x2 := UnrecognizedFacePreview.ms_rect_x2 face;
                       y2 := UnrecognizedFacePreview.ms_rect_y2 face |};
     immichRect := None;
     imageWidth := Some (UnrecognizedFacePreview.image_width face);
     imageHeight := Some (UnrecognizedFacePreview.image_height face) |}.

(** What each sort order promises of two faces, the first shown before the
    second; a sort by file name promises what [localeCompare] does. *)
Definition ordered_by (by_ : FaceSortBy) (a b : FaceData) : Prop :=
  match by_ with
  | iou_desc => (or_zero (iou b) <= or_zero (iou a))%Q
  | iou_asc => (or_zero (iou a) <= or_zero (iou b))%Q
  | center_dist_asc => (or_zero (centerDist a) <= or_zero (centerDist b))%Q
  | center_dist_desc => (or_zero (centerDist b) <= or_zero (centerDist a))%Q
  | by_filename => True
  end.

(** The number a sort order compares; the file name order compares no
    number. *)
Definition sort_key (by_ : FaceSortBy) (f : FaceData) : Q :=
  match by_ with
  | iou_desc | iou_asc => or_zero (iou f)
  | center_dist_asc | center_dist_desc => or_zero (centerDist f)
  | by_filename => 0%Q
  end.

(** A point of the element. *)
Definition inside (displayW displayH : Q) (pt : Q * Q) : Prop :=
  (0 <= fst pt <= displayW)%Q /\ (0 <= snd pt <= displayH)%Q.
End FaceThumbnailGrid.

(* ===================================================================== *)
(** ** FacePhotoViewer: keys, zoom, strip and preloading *)
(* ===================================================================== *)

Module FacePhotoViewer.
Import JS.

Inductive ViewMode := photo | list_view.
Inductive ImageQuality := thumbnail | preview.

(** The cells of the viewer that the keyboard and the buttons change;
    [length] is [sortedFaces.length]. *)
Record Viewer := mkViewer {
  currentIndex : Z;
  viewMode : ViewMode;
  showRects : bool;
  zoom : Q;
  imageQuality : ImageQuality;
  closed : bool;            (* [onClose] has been called *)
}.

Definition initial (startIndex : Z) : Viewer :=
  {| currentIndex := startIndex; viewMode := photo; showRects := true; zoom := 1;
     imageQuality := thumbnail; closed := false |}.

Definition with_index (i : Z) (v : Viewer) : Viewer :=
  mkViewer i (viewMode v) (showRects v) (zoom v) (imageQuality v) (closed v).

Definition with_zoom (z : Q) (v : Viewer) : Viewer :=
  mkViewer (currentIndex v) (viewMode v) (showRects v) z (imageQuality v) (closed v).

Definition previous (v : Viewer) : Viewer :=
  with_index (Z.max 0 (currentIndex v - 1)) v.

Definition next (length : Z) (v : Viewer) : Viewer :=
  with_index (Z.min (length - 1) (currentIndex v + 1)) v.

Inductive Key := Escape | ArrowLeft | ArrowRight | KeyR | KeyL | KeyQ | OtherKey.

(** [handleKeyDown]. *)
Definition handleKeyDown (length : Z) (key : Key) (v : Viewer) : Viewer :=
  match key with
  | Escape => mkViewer (currentIndex v) (viewMode v) (showRects v) (zoom v)
                (imageQuality v) true
  | ArrowLeft => previous v
  | ArrowRight => next length v
  | KeyR => mkViewer (currentIndex v) (viewMode v) (negb (showRects v)) (zoom v)
              (imageQuality v) (closed v)
  | KeyL => mkViewer (currentIndex v)
              (match viewMode v with photo => list_view | list_view => photo end)
              (showRects v) (zoom v) (imageQuality v) (closed v)
  | KeyQ => mkViewer (currentIndex v) (viewMode v) (showRects v) (zoom v)
              (match imageQuality v with thumbnail => preview | preview => thumbnail end)
              (closed v)
  | OtherKey => v
  end.

(** The zoom buttons. *)
Definition zoomOut (v : Viewer) : Viewer := with_zoom (Math_max (1 # 2) (zoom v - (1 # 4))) v.
Definition zoomIn (v : Viewer) : Viewer := with_zoom (Math_min 3 (zoom v + (1 # 4))) v.

(** The percentage shown between them. *)
Definition zoom_percent (v : Viewer) : Z := Math_round (zoom v * 100).

(** The effect that runs when the photo changes sets the zoom back to 1. *)
Definition photo_changed (v : Viewer) : Viewer := with_zoom 1 v.

Definition quality_eqb (a b : ImageQuality) : bool :=
  match a, b with
  | thumbnail, thumbnail | preview, preview => true
  | _, _ => false
  end.

(** That effect has the dependencies [currentIndex, sortBy, imageQuality]:
    it runs after a render in which one of them differs from the render
    before.  No key changes [sortBy]. *)
Definition after_render (before after : Viewer) : Viewer :=
  if (currentIndex after =? currentIndex before)
     && quality_eqb (imageQuality after) (imageQuality before)
  then after else photo_changed after.

(** A key press as the viewer shows it: the handler, then the effect. *)
Definition keyDown (length : Z) (key : Key) (v : Viewer) : Viewer :=
  after_render v (handleKeyDown length key v).

(** The indices the preload effect asks for. *)
Definition indicesToPreload (length : Z) (v : Viewer) : list Z :=
  let i := currentIndex v in
  if (length =? 0) || negb (match imageQuality v with thumbnail => true | preview => false end)
  then []
  else List.filter (fun k => (0 <=? k) && (k <? length) && negb (k =? i))
         [i - 2; i - 1; i + 1; i + 2; i + 3].

(** The thumbnail strip: the faces it shows, each with the index a click on
    it selects. *)
Definition strip {A} (sortedFaces : list A) (v : Viewer) : list (Z * A) :=
  let start := Z.max 0 (currentIndex v - 5) in
  imap (fun i f => (start + Z.of_nat i, f))
    (slice start (currentIndex v + 6) sortedFaces).

(** The index is one of a face. *)
Definition in_range (length : Z) (v : Viewer) : Prop := 0 <= currentIndex v < length.

(** The zoom is one of the steps between 50 and 300 percent. *)
Definition zoom_step (v : Viewer) : Prop :=
  exists k : Z, 2 <= k <= 12 /\ (zoom v == inject_Z k / 4)%Q.

(** A click on a zoom button. *)
Inductive ZoomClick := ZoomIn | ZoomOut.

Definition click (c : ZoomClick) (v : Viewer) : Viewer :=
  match c with ZoomIn => zoomIn v | ZoomOut => zoomOut v end.
End FacePhotoViewer.

(* ===================================================================== *)
(** ** Transfer Names tab *)
(* ===================================================================== *)

Module TransferNames.
Import JS MatchingContext PersonMatch.

Inductive FilterMode := fm_all | fm_applicable | fm_already_named | fm_applied.
Inductive SortField := by_name | by_matches | by_avg_iou | by_confidence.
Inductive SortDirection := asc | desc.
Inductive ConfidenceFilter := cf_all | cf_only (c : Confidence).

(** The component's [useState] cells and its [cancelRef]; the cell of the
    photo viewer, which none of the functions below reads or writes, is left
    out. *)
Record Component := mkComponent {
  filterMode : FilterMode;
  confidenceFilter : ConfidenceFilter;
  sortField : SortField;
  sortDirection : SortDirection;
  selectedIds : gset string;
  expandedRows : gset string;
  applyingId : option string;
  bulkApplying : bool;
  applyError : option string;
  progressItems : list ProgressItem.t;
  progressIndex : nat;
  showProgress : bool;
  cancelRef : bool;
}.

(** One element of the [matches] array posted to [/apply]. *)
Record Request := mkRequest {
  req_ms_person_id : Z;
  req_ms_person_name : string;
  req_immich_cluster_id : string;
}.

(** The tab while it runs: the shared context, its own state, and the
    requests sent to the server so far, oldest first. *)
Record Run := mkRun {
  ctx : World;
  ui : Component;
  sent : list Request;
}.

Definition confidence_eqb (a b : Confidence) : bool :=
  match a, b with
  | high, high | medium, medium | low, low => true
  | _, _ => false
  end.

Definition isApplied (changes : AppliedChanges) (m : PersonMatch.t) : bool :=
  bool_decide (immich_cluster_id m ∈ renamedClusters changes).

Definition isAlreadyNamed (m : PersonMatch.t) : bool :=
  truthy_name (immich_cluster_name m).

(** The callback of the first [filter] in [filteredMatches]. *)
Definition mode_keeps (mode : FilterMode) (changes : AppliedChanges) (m : PersonMatch.t)
    : bool :=
  let isApplicable := negb (isAlreadyNamed m) in
  match mode with
  | fm_applicable => isApplicable && negb (isApplied changes m)
  | fm_already_named => isAlreadyNamed m
  | fm_applied => isApplied changes m
  | fm_all => true
  end.

Definition confidence_keeps (f : ConfidenceFilter) (m : PersonMatch.t) : bool :=
  match f with
  | cf_all => true
  | cf_only c => confidence_eqb (confidence m) c
  end.

Definition order (c : Confidence) : Z :=
  match c with high => 3 | medium => 2 | low => 1 end.

Section WithPlatform.
Context `{Platform}.

(** The comparator handed to [filtered.sort]. *)
Definition comparator (field : SortField) (direction : SortDirection)
    (a b : PersonMatch.t) : Q :=
  let cmp :=
    match field with
    | by_name => localeCompare (ms_person_name a) (ms_person_name b)
    | by_matches => inject_Z (face_matches a - face_matches b)
    | by_avg_iou => (avg_iou a - avg_iou b)%Q
    | by_confidence => inject_Z (order (confidence a) - order (confidence b))
    end in
  match direction with
  | desc => (- cmp)%Q
  | asc => cmp
  end.

(** [filteredMatches]; [None] stands for a null or undefined
    [clusterMatches]. *)
Definition filteredMatches (clusterMatches : option (list PersonMatch.t))
    (changes : AppliedChanges) (c : Component) : list PersonMatch.t :=
  match clusterMatches with
  | None => []
  | Some ms =>
      let filtered := List.filter (mode_keeps (filterMode c) changes) ms in
      let filtered := List.filter (confidence_keeps (confidenceFilter c)) filtered in
      JS.sort (comparator (sortField c) (sortDirection c)) filtered
  end.

(** The matches the tab shows in the render of [r]. *)
Definition visible (r : Run) : list PersonMatch.t :=
  filteredMatches (Some (clusterMatches (state (ctx r))))
    (appliedChanges (state (ctx r))) (ui r).

(** The callback of the [filter] in [selectAll], in the table header and in
    [applySelected] without its selection test; also [canApply] of a row. *)
Definition canApply (changes : AppliedChanges) (m : PersonMatch.t) : bool :=
  negb (isApplied changes m) && negb (isAlreadyNamed m).

(** The matches [selectAll] takes the ids from. *)
Definition selectAll_matches (r : Run) : list PersonMatch.t :=
  List.filter (canApply (appliedChanges (state (ctx r)))) (visible r).

Definition with_selectedIds (ids : gset string) (c : Component) : Component :=
  mkComponent (filterMode c) (confidenceFilter c) (sortField c) (sortDirection c)
    ids (expandedRows c) (applyingId c) (bulkApplying c) (applyError c)
    (progressItems c) (progressIndex c) (showProgress c) (cancelRef c).

Definition with_progress (items : list ProgressItem.t) (c : Component) : Component :=
  mkComponent (filterMode c) (confidenceFilter c) (sortField c) (sortDirection c)
    (selectedIds c) (expandedRows c) (applyingId c) (bulkApplying c) (applyError c)
    items (progressIndex c) (showProgress c) (cancelRef c).

Definition with_progressIndex (i : nat) (c : Component) : Component :=
  mkComponent (filterMode c) (confidenceFilter c) (sortField c) (sortDirection c)
    (selectedIds c) (expandedRows c) (applyingId c) (bulkApplying c) (applyError c)
    (progressItems c) i (showProgress c) (cancelRef c).

Definition with_applying (id : option string) (err : option string) (c : Component)
    : Component :=
  mkComponent (filterMode c) (confidenceFilter c) (sortField c) (sortDirection c)
    (selectedIds c) (expandedRows c) id (bulkApplying c) err
    (progressItems c) (progressIndex c) (showProgress c) (cancelRef c).

Definition with_bulkApplying (b : bool) (c : Component) : Component :=
  mkComponent (filterMode c) (confidenceFilter c) (sortField c) (sortDirection c)
    (selectedIds c) (expandedRows c) (applyingId c) b (applyError c)
    (progressItems c) (progressIndex c) (showProgress c) (cancelRef c).

Definition selectAll (r : Run) : Run :=
  let ids := immich_cluster_id <$> selectAll_matches r in
  mkRun (ctx r) (with_selectedIds (list_to_set ids) (ui r)) (sent r).

Definition clearSelection (r : Run) : Run :=
  mkRun (ctx r) (with_selectedIds ∅ (ui r)) (sent r).

Definition toggleSelection (id : string) (r : Run) : Run :=
  let prev := selectedIds (ui r) in
  let next := if bool_decide (id ∈ prev) then prev ∖ {[id]} else prev ∪ {[id]} in
  mkRun (ctx r) (with_selectedIds next (ui r)) (sent r).

(** [handleCancelProgress]. *)
Definition handleCancelProgress (c : Component) : Component :=
  mkComponent (filterMode c) (confidenceFilter c) (sortField c) (sortDirection c)
    (selectedIds c) (expandedRows c) (applyingId c) (bulkApplying c) (applyError c)
    (progressItems c) (progressIndex c) false
    (if bulkApplying c then true else cancelRef c).

Definition request_of (m : PersonMatch.t) : Request :=
  {| req_ms_person_id := ms_person_id m;
     req_ms_person_name := ms_person_name m;
     req_immich_cluster_id := immich_cluster_id m |}.

Definition set_status (st : Status.t) (item : ProgressItem.t) : ProgressItem.t :=
  ProgressItem.mk (ProgressItem.id item) (ProgressItem.name item) st
    (ProgressItem.error item).

Definition set_error (msg : string) (item : ProgressItem.t) : ProgressItem.t :=
  ProgressItem.mk (ProgressItem.id item) (ProgressItem.name item) Status.error (Some msg).

(** [setProgressItems(prev => prev.map(...))]. *)
Definition update_item (i : nat) (f : ProgressItem.t -> ProgressItem.t) (r : Run) : Run :=
  mkRun (ctx r) (with_progress (map_at i f (progressItems (ui r))) (ui r)) (sent r).

(** What the server does with the [i]-th item of a batch, and whether the
    user presses Cancel in the progress dialog while that request is in
    flight: the only moments at which the handler can run. *)
Definition Script := nat -> settled ApplyResult.t * bool.

(** [await applyMatches({ matches: [...], dry_run: false })]: the request
    goes out, Cancel may be pressed, the promise settles. *)
Definition call_applyMatches (answer : settled ApplyResult.t * bool)
    (m : PersonMatch.t) (r : Run) : Run * completion ApplyResult.t :=
  let ui' := if snd answer then handleCancelProgress (ui r) else ui r in
  (mkRun (ctx r) ui' (sent r ++ [request_of m]), await (fst answer)).

(** The [if (result.success_count > 0)] branch shared by both apply paths. *)
Definition renamed (m : PersonMatch.t) (r : Run) : Run :=
  mkRun (markClusterRenamed (immich_cluster_id m) (ctx r))
    (with_selectedIds (selectedIds (ui r) ∖ {[immich_cluster_id m]}) (ui r))
    (sent r).

(** The body of the [for] loop of [applySelected] after the cancel test. *)
Definition apply_item (answer : settled ApplyResult.t * bool) (i : nat)
    (m : PersonMatch.t) (r : Run) : completion Run :=
  let r := mkRun (ctx r) (with_progressIndex i (ui r)) (sent r) in
  let r := update_item i (set_status Status.processing) r in
  let '(r, awaited) := call_applyMatches answer m r in
  try_catch
    (result ← awaited;
     if 0 <? ApplyResult.success_count result then
       mret (update_item i (set_status Status.success) (renamed m r))
     else
       mret (update_item i
               (set_error (string_or "Failed" (head (ApplyResult.failed result)))) r))
    (λ err, mret (update_item i (set_error (message_or "Failed" err)) r)).

(** The [for] loop, entered with index [i] and [todo] the items from [i] on. *)
Fixpoint apply_loop (script : Script) (i : nat) (todo : list PersonMatch.t) (r : Run)
    : completion Run :=
  match todo with
  | [] => mret r
  | m :: rest =>
      if cancelRef (ui r) then mret r
      else r' ← apply_item (script i) i m r; apply_loop script (S i) rest r'
  end.

Definition matchesToApply (r : Run) : list PersonMatch.t :=
  List.filter
    (λ m, bool_decide (immich_cluster_id m ∈ selectedIds (ui r))
          && negb (isApplied (appliedChanges (state (ctx r))) m)
          && negb (isAlreadyNamed m))
    (visible r).

Definition pending_item (m : PersonMatch.t) : ProgressItem.t :=
  {| ProgressItem.id := IdStr (immich_cluster_id m);
     ProgressItem.name := ms_person_name m;
     ProgressItem.status := Status.pending;
     ProgressItem.error := None |}.

(** The state updates between the early return and the loop. *)
Definition start_progress (todo : list PersonMatch.t) (c : Component) : Component :=
  mkComponent (filterMode c) (confidenceFilter c) (sortField c) (sortDirection c)
    (selectedIds c) (expandedRows c) (applyingId c) true None
    (pending_item <$> todo) 0 true false.

Definition applySelected (script : Script) (r : Run) : completion Run :=
  let todo := matchesToApply r in
  if bool_decide (length todo = 0%nat) then mret r
  else
    r' ← apply_loop script 0 todo (mkRun (ctx r) (start_progress todo (ui r)) (sent r));
    mret (mkRun (ctx r') (with_bulkApplying false (ui r')) (sent r')).

(** [applySingle]. *)
Definition applySingle (answer : settled ApplyResult.t) (m : PersonMatch.t) (r : Run)
    : completion Run :=
  let id := immich_cluster_id m in
  let r := mkRun (ctx r) (with_applying (Some id) None (ui r)) (sent r) in
  let r := mkRun (ctx r) (ui r) (sent r ++ [request_of m]) in
  r ← try_catch
        (result ← await answer;
         if 0 <? ApplyResult.success_count result then mret (renamed m r)
         else if 0 <? ApplyResult.failed_count result then
           mret (mkRun (ctx r)
                   (with_applying (applyingId (ui r))
                      (Some (string_or "Failed to apply" (head (ApplyResult.failed result))))
                      (ui r))
                   (sent r))
         else mret r)
        (λ err, mret (mkRun (ctx r)
                        (with_applying (applyingId (ui r))
                           (Some (message_or "Failed to apply" err)) (ui r))
                        (sent r)));
  mret (mkRun (ctx r) (with_applying None (applyError (ui r)) (ui r)) (sent r)).

(** What a table row offers: the checkbox and the Apply button are rendered
    only under [canApply]. *)
Record RowActions := mkRow {
  row_checkbox : option string;        (* the id [toggleSelection] receives *)
  row_apply : option PersonMatch.t;    (* the match [applySingle] receives *)
}.

Definition row_actions (changes : AppliedChanges) (m : PersonMatch.t) : RowActions :=
  let can := canApply changes m in
  {| row_checkbox := if can then Some (immich_cluster_id m) else None;
     row_apply := if can then Some m else None |}.

End WithPlatform.

(** A cluster without a name: [immich_cluster_name] is null or empty. *)
Definition unnamed (m : PersonMatch.t) : Prop :=
  immich_cluster_name m = None \/ immich_cluster_name m = Some EmptyString.

(** An answer that counts as a success of the item. *)
Definition succeeded (answer : settled ApplyResult.t) : bool :=
  match answer with
  | Resolved result => 0 <? ApplyResult.success_count result
  | Rejected _ => false
  end.

(** The message an item that did not succeed is reported with. *)
Definition failure_message (answer : settled ApplyResult.t) : string :=
  match answer with
  | Resolved result => string_or "Failed" (head (ApplyResult.failed result))
  | Rejected err => message_or "Failed" err
  end.

(** The record an item ends with, given the answer to its request. *)
Definition verdict (answer : settled ApplyResult.t) (item : ProgressItem.t)
    : ProgressItem.t :=
  if succeeded answer then set_status Status.success item
  else set_error (failure_message answer) item.

(** How many of [n] items, the first at index [i], the loop goes through
    when it is entered with the cancel flag down: it stops after the first
    item during whose request Cancel was pressed. *)
Fixpoint processed (script : Script) (i n : nat) : nat :=
  match n with
  | O => O
  | S n' => S (if snd (script i) then O else processed script (S i) n')
  end.

(** A terminal status. *)
Definition terminal (st : Status.t) : Prop := st = Status.success \/ st = Status.error.

(** Cancel is pressed for the first time while the request of item [k] is in
    flight. *)
Definition cancel_during (script : Script) (k : nat) : Prop :=
  (forall j, (j < k)%nat -> snd (script j) = false) /\ snd (script k) = true.

(** Cancel is never pressed while the batch runs. *)
Definition never_cancelled (script : Script) : Prop := forall j, snd (script j) = false.

Import JS MatchingContext PersonMatch.

(** The badge counts next to the filter tabs. *)
Record FilterStats := mkFilterStats {
  fs_all : nat;
  fs_applicable : nat;
  fs_alreadyNamed : nat;
  fs_applied : nat;
}.

Definition filterStats (clusterMatches : option (list PersonMatch.t))
    (changes : AppliedChanges) : FilterStats :=
  match clusterMatches with
  | None => mkFilterStats 0 0 0 0
  | Some ms =>
      let applied :=
        length (List.filter
                  (fun m => bool_decide (immich_cluster_id m ∈ renamedClusters changes)) ms) in
      let alreadyNamed :=
        length (List.filter (fun m => truthy_name (immich_cluster_name m)) ms) in
      let applicable :=
        length (List.filter
                  (fun m => negb (truthy_name (immich_cluster_name m))
                            && negb (bool_decide
                                       (immich_cluster_id m ∈ renamedClusters changes)))
                  ms) in
      {| fs_all := length ms; fs_applicable := applicable;
         fs_alreadyNamed := alreadyNamed; fs_applied := applied |}
  end.

(** The count a tab shows. *)
Definition tab_count (mode : FilterMode) (st : FilterStats) : nat :=
  match mode with
  | fm_applicable => fs_applicable st
  | fm_all => fs_all st
  | fm_already_named => fs_alreadyNamed st
  | fm_applied => fs_applied st
  end.

Definition with_filters (mode : FilterMode) (cf : ConfidenceFilter) (c : Component)
    : Component :=
  mkComponent mode cf (sortField c) (sortDirection c)
    (selectedIds c) (expandedRows c) (applyingId c) (bulkApplying c) (applyError c)
    (progressItems c) (progressIndex c) (showProgress c) (cancelRef c).

Definition with_sort (field : SortField) (direction : SortDirection) (c : Component)
    : Component :=
  mkComponent (filterMode c) (confidenceFilter c) field direction
    (selectedIds c) (expandedRows c) (applyingId c) (bulkApplying c) (applyError c)
    (progressItems c) (progressIndex c) (showProgress c) (cancelRef c).

Definition with_expandedRows (rows : gset string) (c : Component) : Component :=
  mkComponent (filterMode c) (confidenceFilter c) (sortField c) (sortDirection c)
    (selectedIds c) rows (applyingId c) (bulkApplying c) (applyError c)
    (progressItems c) (progressIndex c) (showProgress c) (cancelRef c).

Definition sortField_eqb (a b : SortField) : bool :=
  match a, b with
  | by_name, by_name | by_matches, by_matches | by_avg_iou, by_avg_iou
  | by_confidence, by_confidence => true
  | _, _ => false
  end.

Definition toggleSort (field : SortField) (c : Component) : Component :=
  if sortField_eqb (sortField c) field then
    with_sort (sortField c)
      (match sortDirection c with asc => desc | desc => asc end) c
  else with_sort field desc c.

Definition toggleExpanded (rowKey : string) (c : Component) : Component :=
  let prev := expandedRows c in
  with_expandedRows
    (if bool_decide (rowKey ∈ prev) then prev ∖ {[rowKey]} else prev ∪ {[rowKey]}) c.

(** [getRowKey]. *)
Definition getRowKey (m : PersonMatch.t) : string :=
  pretty (ms_person_id m) +:+ "-" +:+ immich_cluster_id m.

Section View.
Context `{Platform}.

(** The button Expand All / Collapse All. *)
Definition expandOrCollapseAll (r : Run) : Run :=
  let rows :=
    if (0 <? size (expandedRows (ui r)))%nat then ∅
    else list_to_set (getRowKey <$> visible r) in
  mkRun (ctx r) (with_expandedRows rows (ui r)) (sent r).

(** The checkbox of the table header, rendered in the applicable filter. *)
Definition applicableCount (r : Run) : nat :=
  length (List.filter (canApply (appliedChanges (state (ctx r)))) (visible r)).

Definition allSelected (r : Run) : bool :=
  (0 <? applicableCount r)%nat && (size (selectedIds (ui r)) =? applicableCount r)%nat.

Definition header_onChange (r : Run) : Run :=
  if allSelected r then clearSelection r else selectAll r.

(** The props the tab hands to the progress dialog. *)
Definition progressModal (c : Component) : ProgressModal.Props :=
  {| ProgressModal.isOpen := showProgress c;
     ProgressModal.title := "Transferring Names to Immich";
     ProgressModal.items := progressItems c;
     ProgressModal.currentIndex := progressIndex c;
     ProgressModal.canCancel := bulkApplying c;
     ProgressModal.subProgress := None |}.

End View.

(** The cluster ids the loop records as renamed when it is entered with the
    cancel flag down at item [i]. *)
Fixpoint recorded (script : Script) (i : nat) (todo : list PersonMatch.t) : list string :=
  match todo with
  | [] => []
  | m :: rest =>
      (if succeeded (fst (script i)) then [immich_cluster_id m] else [])
      ++ (if snd (script i) then [] else recorded script (S i) rest)
  end.

(** Whether Cancel is pressed during one of the [n] requests from [i] on
    that the loop gets to. *)
Fixpoint cancelled (script : Script) (i n : nat) : bool :=
  match n with
  | O => false
  | S n' => snd (script i) || cancelled script (S i) n'
  end.

(** Two renders of the tab that show the same filters, order and expanded
    rows, with the same row being applied on its own. *)
Definition same_view (c c' : Component) : Prop :=
  filterMode c' = filterMode c
  /\ confidenceFilter c' = confidenceFilter c
  /\ sortField c' = sortField c
  /\ sortDirection c' = sortDirection c
  /\ expandedRows c' = expandedRows c
  /\ applyingId c' = applyingId c.

End TransferNames.

(* ===================================================================== *)
(** ** Assign Faces tab *)
(* ===================================================================== *)

Module AssignFaces.
Import JS MatchingContext PersonApplyPreview.

Inductive FilterMode := fm_all | fm_needs_creation | fm_exists | fm_applied.
Inductive SortField := by_name | by_faces | by_avg_iou.
Inductive SortDirection := asc | desc.

(** The component's [useState] cells and its [cancelRef], the cell of the
    photo viewer left out. *)
Record Component := mkComponent {
  filterMode : FilterMode;
  sortField : SortField;
  sortDirection : SortDirection;
  selectedIds : gset Z;
  expandedRows : gset Z;
  applyingId : option Z;
  bulkApplying : bool;
  applyError : option string;
  applySuccess : option string;
  faceSelections : gmap Z (gset string);
  progressItems : list ProgressItem.t;
  progressIndex : nat;
  showProgress : bool;
  subProgress : option (nat * nat);    (* current, total *)
  cancelRef : bool;
}.

(** One element of the [items] array posted to [/apply/unclustered]. *)
Record Request := mkRequest {
  req_ms_person_id : Z;
  req_ms_person_name : string;
  req_face_ids : list string;
}.

Record Run := mkRun {
  ctx : World;
  ui : Component;
  sent : list Request;
}.

Definition isApplied (changes : AppliedChanges) (p : PersonApplyPreview.t) : bool :=
  bool_decide (ms_person_id p ∈ assignedPeople changes).

Definition mode_keeps (mode : FilterMode) (changes : AppliedChanges)
    (p : PersonApplyPreview.t) : bool :=
  match mode with
  | fm_needs_creation => needs_person_creation p && negb (isApplied changes p)
  | fm_exists => negb (needs_person_creation p) && negb (isApplied changes p)
  | fm_applied => isApplied changes p
  | fm_all => negb (isApplied changes p)
  end.

(** [getSelectedFaces], reading the [faceSelections] of the render. *)
Definition getSelectedFaces (selections : gmap Z (gset string))
    (p : PersonApplyPreview.t) : gset string :=
  match selections !! ms_person_id p with
  | Some chosen => chosen
  | None => list_to_set (UnclusteredFacePreview.immich_face_id <$> faces p)
  end.

Definition getSelectedFaceCount (selections : gmap Z (gset string))
    (p : PersonApplyPreview.t) : nat :=
  size (getSelectedFaces selections p).

Definition facesToApply (selections : gmap Z (gset string))
    (p : PersonApplyPreview.t) : list UnclusteredFacePreview.t :=
  List.filter
    (λ f, bool_decide (UnclusteredFacePreview.immich_face_id f
                         ∈ getSelectedFaces selections p))
    (faces p).

Section WithPlatform.
Context `{Platform}.

Definition comparator (field : SortField) (direction : SortDirection)
    (a b : PersonApplyPreview.t) : Q :=
  let cmp :=
    match field with
    | by_name => localeCompare (ms_person_name a) (ms_person_name b)
    | by_faces => inject_Z (face_count a - face_count b)
    | by_avg_iou => (avg_iou a - avg_iou b)%Q
    end in
  match direction with
  | desc => (- cmp)%Q
  | asc => cmp
  end.

Definition filteredPreviews (unclusteredPreviews : option (list PersonApplyPreview.t))
    (changes : AppliedChanges) (c : Component) : list PersonApplyPreview.t :=
  match unclusteredPreviews with
  | None => []
  | Some ps =>
      JS.sort (comparator (sortField c) (sortDirection c))
        (List.filter (mode_keeps (filterMode c) changes) ps)
  end.

Definition visible (r : Run) : list PersonApplyPreview.t :=
  filteredPreviews (Some (unclusteredPreviews (state (ctx r))))
    (appliedChanges (state (ctx r))) (ui r).

Definition with_progress (items : list ProgressItem.t) (c : Component) : Component :=
  mkComponent (filterMode c) (sortField c) (sortDirection c) (selectedIds c)
    (expandedRows c) (applyingId c) (bulkApplying c) (applyError c) (applySuccess c)
    (faceSelections c) items (progressIndex c) (showProgress c) (subProgress c)
    (cancelRef c).

Definition with_progressIndex (i : nat) (c : Component) : Component :=
  mkComponent (filterMode c) (sortField c) (sortDirection c) (selectedIds c)
    (expandedRows c) (applyingId c) (bulkApplying c) (applyError c) (applySuccess c)
    (faceSelections c) (progressItems c) i (showProgress c) (subProgress c)
    (cancelRef c).

Definition with_subProgress (sp : option (nat * nat)) (c : Component) : Component :=
  mkComponent (filterMode c) (sortField c) (sortDirection c) (selectedIds c)
    (expandedRows c) (applyingId c) (bulkApplying c) (applyError c) (applySuccess c)
    (faceSelections c) (progressItems c) (progressIndex c) (showProgress c) sp
    (cancelRef c).

(** [setSelectedIds] and [setFaceSelections] dropping one person. *)
Definition without_person (id : Z) (c : Component) : Component :=
  mkComponent (filterMode c) (sortField c) (sortDirection c) (selectedIds c ∖ {[id]})
    (expandedRows c) (applyingId c) (bulkApplying c) (applyError c) (applySuccess c)
    (delete id (faceSelections c)) (progressItems c) (progressIndex c)
    (showProgress c) (subProgress c) (cancelRef c).

Definition finish (c : Component) : Component :=
  mkComponent (filterMode c) (sortField c) (sortDirection c) (selectedIds c)
    (expandedRows c) (applyingId c) false (applyError c) (applySuccess c)
    (faceSelections c) (progressItems c) (progressIndex c) (showProgress c) None
    (cancelRef c).

Definition handleCancelProgress (c : Component) : Component :=
  mkComponent (filterMode c) (sortField c) (sortDirection c) (selectedIds c)
    (expandedRows c) (applyingId c) (bulkApplying c) (applyError c) (applySuccess c)
    (faceSelections c) (progressItems c) (progressIndex c) false (subProgress c)
    (if bulkApplying c then true else cancelRef c).

Definition set_status (st : Status.t) (item : ProgressItem.t) : ProgressItem.t :=
  ProgressItem.mk (ProgressItem.id item) (ProgressItem.name item) st
    (ProgressItem.error item).

Definition set_partial (name : string) (item : ProgressItem.t) : ProgressItem.t :=
  ProgressItem.mk (ProgressItem.id item) name Status.success (ProgressItem.error item).

Definition set_error (msg : string) (item : ProgressItem.t) : ProgressItem.t :=
  ProgressItem.mk (ProgressItem.id item) (ProgressItem.name item) Status.error (Some msg).

Definition update_item (i : nat) (f : ProgressItem.t -> ProgressItem.t) (r : Run) : Run :=
  mkRun (ctx r) (with_progress (map_at i f (progressItems (ui r))) (ui r)) (sent r).

(** What the server does with the request for face [j] of item [i], and
    whether Cancel is pressed while that request is in flight. *)
Definition Script := nat -> nat -> settled ApplyUnclusteredResult.t * bool.

Definition request_of (p : PersonApplyPreview.t) (f : UnclusteredFacePreview.t) : Request :=
  {| req_ms_person_id := ms_person_id p;
     req_ms_person_name := ms_person_name p;
     req_face_ids := [UnclusteredFacePreview.immich_face_id f] |}.

Definition call_applyUnclusteredFaces (answer : settled ApplyUnclusteredResult.t * bool)
    (req : Request) (r : Run) : Run * completion ApplyUnclusteredResult.t :=
  let ui' := if snd answer then handleCancelProgress (ui r) else ui r in
  (mkRun (ctx r) ui' (sent r ++ [req]), await (fst answer)).

(** The locals of the inner loop. *)
Record Tally := mkTally { successCount : nat; lastError : option string }.

(** One turn of the inner loop after its cancel test. *)
Definition apply_face (answer : settled ApplyUnclusteredResult.t * bool)
    (total faceIdx : nat) (p : PersonApplyPreview.t) (f : UnclusteredFacePreview.t)
    (t : Tally) (r : Run) : completion (Tally * Run) :=
  let r := mkRun (ctx r) (with_subProgress (Some (S faceIdx, total)) (ui r)) (sent r) in
  let '(r, awaited) := call_applyUnclusteredFaces answer (request_of p f) r in
  try_catch
    (result ← awaited;
     if 0 <? ApplyUnclusteredResult.faces_assigned_count result then
       mret (mkTally (S (successCount t)) (lastError t), r)
     else if 0 <? ApplyUnclusteredResult.failed_count result then
       mret (mkTally (successCount t)
               (Some (string_or "Failed" (head (ApplyUnclusteredResult.failed result)))), r)
     else mret (t, r))
    (λ err, mret (mkTally (successCount t) (Some (message_or "Failed" err)), r)).

Fixpoint faces_loop (script : nat -> settled ApplyUnclusteredResult.t * bool)
    (total faceIdx : nat) (p : PersonApplyPreview.t)
    (todo : list UnclusteredFacePreview.t) (t : Tally) (r : Run)
    : completion (Tally * Run) :=
  match todo with
  | [] => mret (t, r)
  | f :: rest =>
      if cancelRef (ui r) then mret (t, r)
      else
        '(t', r') ← apply_face (script faceIdx) total faceIdx p f t r;
        faces_loop script total (S faceIdx) p rest t' r'
  end.

Definition partial_name (p : PersonApplyPreview.t) (done total : nat) : string :=
  ms_person_name p +:+ " (" +:+ pretty done +:+ "/" +:+ pretty total +:+ " faces)".

(** The body of the outer loop after its cancel test. [selections] is the
    [faceSelections] of the render that started the batch. *)
Definition apply_item (script : nat -> settled ApplyUnclusteredResult.t * bool)
    (selections : gmap Z (gset string)) (i : nat) (p : PersonApplyPreview.t) (r : Run)
    : completion Run :=
  let todo := facesToApply selections p in
  if bool_decide (length todo = 0%nat) then
    mret (update_item i (set_status Status.success) r)
  else
    let r := mkRun (ctx r) (with_progressIndex i (ui r)) (sent r) in
    let r := update_item i (set_status Status.processing) r in
    '(t, r) ← faces_loop script (length todo) 0 p todo (mkTally 0 None) r;
    let r := mkRun (ctx r) (with_subProgress None (ui r)) (sent r) in
    let r :=
      if bool_decide (0 < successCount t)%nat then
        mkRun (markPersonAssigned (ms_person_id p) (ctx r))
          (without_person (ms_person_id p) (ui r)) (sent r)
      else r in
    if bool_decide (successCount t = length todo) then
      mret (update_item i (set_status Status.success) r)
    else if bool_decide (0 < successCount t)%nat then
      mret (update_item i (set_partial (partial_name p (successCount t) (length todo))) r)
    else
      mret (update_item i
              (set_error (string_or "All faces failed" (lastError t))) r).

Fixpoint apply_loop (script : Script) (selections : gmap Z (gset string)) (i : nat)
    (todo : list PersonApplyPreview.t) (r : Run) : completion Run :=
  match todo with
  | [] => mret r
  | p :: rest =>
      if cancelRef (ui r) then mret r
      else
        r' ← apply_item (script i) selections i p r;
        apply_loop script selections (S i) rest r'
  end.

Definition previewsToApply (r : Run) : list PersonApplyPreview.t :=
  List.filter
    (λ p, bool_decide (ms_person_id p ∈ selectedIds (ui r))
          && negb (isApplied (appliedChanges (state (ctx r))) p))
    (visible r).

Definition pending_item (selections : gmap Z (gset string)) (p : PersonApplyPreview.t)
    : ProgressItem.t :=
  {| ProgressItem.id := IdNum (ms_person_id p);
     ProgressItem.name :=
       ms_person_name p +:+ " (" +:+ pretty (getSelectedFaceCount selections p)
         +:+ " faces)";
     ProgressItem.status := Status.pending;
     ProgressItem.error := None |}.

Definition start_progress (todo : list PersonApplyPreview.t) (c : Component) : Component :=
  mkComponent (filterMode c) (sortField c) (sortDirection c) (selectedIds c)
    (expandedRows c) (applyingId c) true None None (faceSelections c)
    (pending_item (faceSelections c) <$> todo) 0 true None false.

Definition applySelected (script : Script) (r : Run) : completion Run :=
  let todo := previewsToApply r in
  if bool_decide (length todo = 0%nat) then mret r
  else
    r' ← apply_loop script (faceSelections (ui r)) 0 todo
           (mkRun (ctx r) (start_progress todo (ui r)) (sent r));
    mret (mkRun (ctx r') (finish (ui r')) (sent r')).

End WithPlatform.

(** An answer that counts as a success of the face. *)
Definition face_succeeded (answer : settled ApplyUnclusteredResult.t) : bool :=
  match answer with
  | Resolved result => 0 <? ApplyUnclusteredResult.faces_assigned_count result
  | Rejected _ => false
  end.

(** The locals of the inner loop after one more answer. *)
Definition tally_step (answer : settled ApplyUnclusteredResult.t) (t : Tally) : Tally :=
  match answer with
  | Resolved result =>
      if 0 <? ApplyUnclusteredResult.faces_assigned_count result then
        mkTally (S (successCount t)) (lastError t)
      else if 0 <? ApplyUnclusteredResult.failed_count result then
        mkTally (successCount t)
          (Some (string_or "Failed" (head (ApplyUnclusteredResult.failed result))))
      else t
  | Rejected err => mkTally (successCount t) (Some (message_or "Failed" err))
  end.

(** The inner loop, entered with the cancel flag down at face [j] with [n]
    faces to go: how many requests it sends, the locals it ends with, and
    whether Cancel was pressed during one of them. *)
Fixpoint attempted (script : nat -> settled ApplyUnclusteredResult.t * bool) (j n : nat) : nat :=
  match n with
  | O => O
  | S n' => S (if snd (script j) then O else attempted script (S j) n')
  end.

Fixpoint tally_after (script : nat -> settled ApplyUnclusteredResult.t * bool) (j n : nat) (t : Tally)
    : Tally :=
  match n with
  | O => t
  | S n' =>
      let t' := tally_step (fst (script j)) t in
      if snd (script j) then t' else tally_after script (S j) n' t'
  end.

Fixpoint pressed (script : nat -> settled ApplyUnclusteredResult.t * bool) (j n : nat) : bool :=
  match n with
  | O => false
  | S n' => snd (script j) || pressed script (S j) n'
  end.

(** The record an item ends with, given the answers to its requests. *)
Definition verdict (script : nat -> settled ApplyUnclusteredResult.t * bool)
    (selections : gmap Z (gset string)) (p : PersonApplyPreview.t) (item : ProgressItem.t)
    : ProgressItem.t :=
  let n := length (facesToApply selections p) in
  if bool_decide (n = 0%nat) then set_status Status.success item
  else
    let t := tally_after script 0 n (mkTally 0 None) in
    if bool_decide (successCount t = n) then set_status Status.success item
    else if bool_decide (0 < successCount t)%nat then
      set_partial (partial_name p (successCount t) n) item
    else set_error (string_or "All faces failed" (lastError t)) item.

(** The requests one item gives rise to. *)
Definition item_requests (script : nat -> settled ApplyUnclusteredResult.t * bool)
    (selections : gmap Z (gset string)) (p : PersonApplyPreview.t) : list Request :=
  let todo := facesToApply selections p in
  request_of p <$> take (attempted script 0 (length todo)) todo.

(** The outer loop, entered with the cancel flag down at item [i]: how many
    items it goes through and the requests it sends. *)
Fixpoint processed (script : Script) (selections : gmap Z (gset string)) (i : nat)
    (todo : list PersonApplyPreview.t) : nat :=
  match todo with
  | [] => O
  | p :: rest =>
      S (if pressed (script i) 0 (length (facesToApply selections p)) then O
         else processed script selections (S i) rest)
  end.

Fixpoint requests (script : Script) (selections : gmap Z (gset string)) (i : nat)
    (todo : list PersonApplyPreview.t) : list Request :=
  match todo with
  | [] => []
  | p :: rest =>
      item_requests (script i) selections p
      ++ (if pressed (script i) 0 (length (facesToApply selections p)) then []
          else requests script selections (S i) rest)
  end.

(** A terminal status. *)
Definition terminal (st : Status.t) : Prop := st = Status.success \/ st = Status.error.

(** Cancel is pressed for the first time while a request of item [k] is in
    flight. *)
Definition cancel_during (script : Script) (selections : gmap Z (gset string))
    (todo : list PersonApplyPreview.t) (k : nat) : Prop :=
  (forall j p, (j < k)%nat -> todo !! j = Some p ->
     pressed (script j) 0 (length (facesToApply selections p)) = false)
  /\ exists pk, todo !! k = Some pk
       /\ pressed (script k) 0 (length (facesToApply selections pk)) = true.

(** Cancel is never pressed while the batch runs. *)
Definition never_cancelled (script : Script) : Prop := forall i j, snd (script i j) = false.

Import JS MatchingContext PersonApplyPreview.

Definition with_applying (id : option Z) (err succ : option string) (c : Component)
    : Component :=
  mkComponent (filterMode c) (sortField c) (sortDirection c) (selectedIds c)
    (expandedRows c) id (bulkApplying c) err succ (faceSelections c)
    (progressItems c) (progressIndex c) (showProgress c) (subProgress c) (cancelRef c).

Definition with_selectedIds (ids : gset Z) (c : Component) : Component :=
  mkComponent (filterMode c) (sortField c) (sortDirection c) ids
    (expandedRows c) (applyingId c) (bulkApplying c) (applyError c) (applySuccess c)
    (faceSelections c) (progressItems c) (progressIndex c) (showProgress c)
    (subProgress c) (cancelRef c).

Definition assigned_message (p : PersonApplyPreview.t) (n : Z) : string :=
  let quote := String (Ascii.ascii_of_nat 34) EmptyString in
  "Assigned " +:+ pretty n +:+ " faces to " +:+ quote +:+ ms_person_name p +:+ quote.

(** The one item [applySingle] posts: every face of the person. *)
Definition single_request (p : PersonApplyPreview.t) : Request :=
  {| req_ms_person_id := ms_person_id p;
     req_ms_person_name := ms_person_name p;
     req_face_ids := UnclusteredFacePreview.immich_face_id <$> faces p |}.

Section Single.
Context `{Platform}.

(** [applySingle]. *)
Definition applySingle (answer : settled ApplyUnclusteredResult.t)
    (p : PersonApplyPreview.t) (r : Run) : completion Run :=
  let r := mkRun (ctx r) (with_applying (Some (ms_person_id p)) None None (ui r)) (sent r) in
  let r := mkRun (ctx r) (ui r) (sent r ++ [single_request p]) in
  r ← try_catch
        (result ← await answer;
         if 0 <? ApplyUnclusteredResult.faces_assigned_count result then
           let c := with_selectedIds (selectedIds (ui r) ∖ {[ms_person_id p]}) (ui r) in
           mret (mkRun (markPersonAssigned (ms_person_id p) (ctx r))
                   (with_applying (applyingId c) (applyError c)
                      (Some (assigned_message p
                               (ApplyUnclusteredResult.faces_assigned_count result)))
                      c)
                   (sent r))
         else if 0 <? ApplyUnclusteredResult.failed_count result then
           mret (mkRun (ctx r)
                   (with_applying (applyingId (ui r))
                      (Some (string_or "Failed to apply"
                               (head (ApplyUnclusteredResult.failed result))))
                      (applySuccess (ui r)) (ui r))
                   (sent r))
         else mret r)
        (λ err, mret (mkRun (ctx r)
                        (with_applying (applyingId (ui r))
                           (Some (message_or "Failed to apply" err))
                           (applySuccess (ui r)) (ui r))
                        (sent r)));
  mret (mkRun (ctx r)
          (with_applying None (applyError (ui r)) (applySuccess (ui r)) (ui r)) (sent r)).

End Single.

End AssignFaces.

(* ===================================================================== *)
(** ** Create Faces tab *)
(* ===================================================================== *)

Module CreateFaces.
Import JS UnrecognizedPersonPreview.

Inductive FilterMode := fm_all | fm_needs_creation | fm_exists | fm_applied.
Inductive SortField := by_name | by_faces | by_total.
Inductive SortDirection := asc | desc.

(** The component's [useState] cells and its [cancelRef]; the cells that
    only [loadData] and the photo viewer use ([stats], [loading], [error],
    [viewingPhotos]) are left out. *)
Record Component := mkComponent {
  previews : list UnrecognizedPersonPreview.t;
  filterMode : FilterMode;
  sortField : SortField;
  sortDirection : SortDirection;
  selectedIds : gset Z;
  expandedRows : gset Z;
  appliedIds : gset Z;
  applyingId : option Z;
  bulkApplying : bool;
  applyError : option string;
  applySuccess : option string;
  faceSelections : gmap Z (gset string);
  progressItems : list ProgressItem.t;
  progressIndex : nat;
  showProgress : bool;
  subProgress : option (nat * nat);
  cancelRef : bool;
}.

(** The body posted to [/create-faces/apply]; [dry_run] is always false. *)
Record Request := mkRequest {
  req_ms_person_id : Z;
  req_ms_person_name : string;
  req_faces : list CreateFaceItem.t;
}.

Record Run := mkRun {
  ui : Component;
  sent : list Request;
}.

(** [getFaceId]. *)
Definition getFaceId (face : UnrecognizedFacePreview.t) (index : nat) : string :=
  UnrecognizedFacePreview.immich_asset_id face +:+ "-" +:+ pretty index.

Definition getSelectedFaces (selections : gmap Z (gset string))
    (p : UnrecognizedPersonPreview.t) : gset string :=
  match selections !! ms_person_id p with
  | Some chosen => chosen
  | None => list_to_set (imap (λ i f, getFaceId f i) (faces p))
  end.

Definition getSelectedFaceCount (selections : gmap Z (gset string))
    (p : UnrecognizedPersonPreview.t) : nat :=
  size (getSelectedFaces selections p).

(** [preview.faces.filter((f, idx) => selectedFaceIds.has(getFaceId(f, idx)))]. *)
Definition facesToApply (selections : gmap Z (gset string))
    (p : UnrecognizedPersonPreview.t) : list UnrecognizedFacePreview.t :=
  snd <$> List.filter
    (λ '(idx, f), bool_decide (getFaceId f idx ∈ getSelectedFaces selections p))
    (imap (λ idx f, (idx, f)) (faces p)).

(** The object [rectToPixels] returns: each field is [Math.round] of a
    number, [None] where that number is not finite. *)
Record Pixels := mkPixels {
  px_x : option Z; px_y : option Z; px_width : option Z; px_height : option Z
}.

(** [rectToPixels]: the fields of the face are read as numbers, multiplied
    and subtracted as numbers, and each product is handed to [Math.round]. *)
Definition rectToPixels (face : UnrecognizedFacePreview.t) : Pixels :=
  let x1 := of_Q (UnrecognizedFacePreview.ms_rect_x1 face) in
  let y1 := of_Q (UnrecognizedFacePreview.ms_rect_y1 face) in
  let x2 := of_Q (UnrecognizedFacePreview.ms_rect_x2 face) in
  let y2 := of_Q (UnrecognizedFacePreview.ms_rect_y2 face) in
  let image_width := of_Q (inject_Z (UnrecognizedFacePreview.image_width face)) in
  let image_height := of_Q (inject_Z (UnrecognizedFacePreview.image_height face)) in
  {| px_x := Math_round <$> num_mul x1 image_width;
     px_y := Math_round <$> num_mul y1 image_height;
     px_width := Math_round <$> num_mul (num_sub x2 x1) image_width;
     px_height := Math_round <$> num_mul (num_sub y2 y1) image_height |}.

(** The object literal both apply paths build for one face. *)
Definition item_of (f : UnrecognizedFacePreview.t) : CreateFaceItem.t :=
  let px := rectToPixels f in
  {| CreateFaceItem.asset_id := UnrecognizedFacePreview.immich_asset_id f;
     CreateFaceItem.x := px_x px;
     CreateFaceItem.y := px_y px;
     CreateFaceItem.width := px_width px;
     CreateFaceItem.height := px_height px;
     CreateFaceItem.image_width := UnrecognizedFacePreview.image_width f;
     CreateFaceItem.image_height := UnrecognizedFacePreview.image_height f |}.

Definition isApplied (c : Component) (p : UnrecognizedPersonPreview.t) : bool :=
  bool_decide (ms_person_id p ∈ appliedIds c).

Definition mode_keeps (c : Component) (p : UnrecognizedPersonPreview.t) : bool :=
  match filterMode c with
  | fm_needs_creation => needs_person_creation p && negb (isApplied c p)
  | fm_exists => negb (needs_person_creation p) && negb (isApplied c p)
  | fm_applied => isApplied c p
  | fm_all => negb (isApplied c p)
  end.

Section WithPlatform.
Context `{Platform}.

Definition comparator (field : SortField) (direction : SortDirection)
    (a b : UnrecognizedPersonPreview.t) : Q :=
  let cmp :=
    match field with
    | by_name => localeCompare (ms_person_name a) (ms_person_name b)
    | by_faces => inject_Z (face_count a - face_count b)
    | by_total => inject_Z (total_faces_in_ms_photos a - total_faces_in_ms_photos b)
    end in
  match direction with
  | desc => (- cmp)%Q
  | asc => cmp
  end.

Definition filteredPreviews (c : Component) : list UnrecognizedPersonPreview.t :=
  JS.sort (comparator (sortField c) (sortDirection c))
    (List.filter (mode_keeps c) (previews c)).

Definition with_progress (items : list ProgressItem.t) (c : Component) : Component :=
  mkComponent (previews c) (filterMode c) (sortField c) (sortDirection c)
    (selectedIds c) (expandedRows c) (appliedIds c) (applyingId c) (bulkApplying c)
    (applyError c) (applySuccess c) (faceSelections c) items (progressIndex c)
    (showProgress c) (subProgress c) (cancelRef c).

Definition with_progressIndex (i : nat) (c : Component) : Component :=
  mkComponent (previews c) (filterMode c) (sortField c) (sortDirection c)
    (selectedIds c) (expandedRows c) (appliedIds c) (applyingId c) (bulkApplying c)
    (applyError c) (applySuccess c) (faceSelections c) (progressItems c) i
    (showProgress c) (subProgress c) (cancelRef c).

Definition with_subProgress (sp : option (nat * nat)) (c : Component) : Component :=
  mkComponent (previews c) (filterMode c) (sortField c) (sortDirection c)
    (selectedIds c) (expandedRows c) (appliedIds c) (applyingId c) (bulkApplying c)
    (applyError c) (applySuccess c) (faceSelections c) (progressItems c)
    (progressIndex c) (showProgress c) sp (cancelRef c).

(** [setAppliedIds], [setSelectedIds] and [setFaceSelections] after a person
    got at least one face. *)
Definition applied_person (id : Z) (c : Component) : Component :=
  mkComponent (previews c) (filterMode c) (sortField c) (sortDirection c)
    (selectedIds c ∖ {[id]}) (expandedRows c) (appliedIds c ∪ {[id]}) (applyingId c)
    (bulkApplying c) (applyError c) (applySuccess c) (delete id (faceSelections c))
    (progressItems c) (progressIndex c) (showProgress c) (subProgress c) (cancelRef c).

Definition finish (c : Component) : Component :=
  mkComponent (previews c) (filterMode c) (sortField c) (sortDirection c)
    (selectedIds c) (expandedRows c) (appliedIds c) (applyingId c) false
    (applyError c) (applySuccess c) (faceSelections c) (progressItems c)
    (progressIndex c) (showProgress c) None (cancelRef c).

Definition handleCancelProgress (c : Component) : Component :=
  mkComponent (previews c) (filterMode c) (sortField c) (sortDirection c)
    (selectedIds c) (expandedRows c) (appliedIds c) (applyingId c) (bulkApplying c)
    (applyError c) (applySuccess c) (faceSelections c) (progressItems c)
    (progressIndex c) false (subProgress c)
    (if bulkApplying c then true else cancelRef c).

Definition set_status (st : Status.t) (item : ProgressItem.t) : ProgressItem.t :=
  ProgressItem.mk (ProgressItem.id item) (ProgressItem.name item) st
    (ProgressItem.error item).

Definition set_partial (name : string) (item : ProgressItem.t) : ProgressItem.t :=
  ProgressItem.mk (ProgressItem.id item) name Status.success (ProgressItem.error item).

Definition set_error (msg : string) (item : ProgressItem.t) : ProgressItem.t :=
  ProgressItem.mk (ProgressItem.id item) (ProgressItem.name item) Status.error (Some msg).

Definition update_item (i : nat) (f : ProgressItem.t -> ProgressItem.t) (r : Run) : Run :=
  mkRun (with_progress (map_at i f (progressItems (ui r))) (ui r)) (sent r).

(** What the server does with the request for face [j] of item [i], and
    whether Cancel is pressed while that request is in flight. *)
Definition Script := nat -> nat -> settled CreateFacesResult.t * bool.

Definition request_of (p : UnrecognizedPersonPreview.t)
    (fs : list UnrecognizedFacePreview.t) : Request :=
  {| req_ms_person_id := ms_person_id p;
     req_ms_person_name := ms_person_name p;
     req_faces := item_of <$> fs |}.

Definition call_createFaces (answer : settled CreateFacesResult.t * bool)
    (req : Request) (r : Run) : Run * completion CreateFacesResult.t :=
  let ui' := if snd answer then handleCancelProgress (ui r) else ui r in
  (mkRun ui' (sent r ++ [req]), await (fst answer)).

Record Tally := mkTally { successCount : nat; lastError : option string }.

Definition apply_face (answer : settled CreateFacesResult.t * bool)
    (total faceIdx : nat) (p : UnrecognizedPersonPreview.t)
    (f : UnrecognizedFacePreview.t) (t : Tally) (r : Run) : completion (Tally * Run) :=
  let r := mkRun (with_subProgress (Some (S faceIdx, total)) (ui r)) (sent r) in
  let '(r, awaited) := call_createFaces answer (request_of p [f]) r in
  try_catch
    (result ← awaited;
     if CreateFacesResult.success result then
       mret (mkTally (S (successCount t)) (lastError t), r)
     else
       mret (mkTally (successCount t)
               (Some (string_or "Failed" (CreateFacesResult.error result))), r))
    (λ err, mret (mkTally (successCount t) (Some (message_or "Failed" err)), r)).

Fixpoint faces_loop (script : nat -> settled CreateFacesResult.t * bool)
    (total faceIdx : nat) (p : UnrecognizedPersonPreview.t)
    (todo : list UnrecognizedFacePreview.t) (t : Tally) (r : Run)
    : completion (Tally * Run) :=
  match todo with
  | [] => mret (t, r)
  | f :: rest =>
      if cancelRef (ui r) then mret (t, r)
      else
        '(t', r') ← apply_face (script faceIdx) total faceIdx p f t r;
        faces_loop script total (S faceIdx) p rest t' r'
  end.

Definition partial_name (p : UnrecognizedPersonPreview.t) (done total : nat) : string :=
  ms_person_name p +:+ " (" +:+ pretty done +:+ "/" +:+ pretty total +:+ " faces)".

Definition apply_item (script : nat -> settled CreateFacesResult.t * bool)
    (selections : gmap Z (gset string)) (i : nat) (p : UnrecognizedPersonPreview.t)
    (r : Run) : completion Run :=
  let todo := facesToApply selections p in
  if bool_decide (length todo = 0%nat) then
    mret (update_item i (set_status Status.success) r)
  else
    let r := mkRun (with_progressIndex i (ui r)) (sent r) in
    let r := update_item i (set_status Status.processing) r in
    '(t, r) ← faces_loop script (length todo) 0 p todo (mkTally 0 None) r;
    let r := mkRun (with_subProgress None (ui r)) (sent r) in
    let r :=
      if bool_decide (0 < successCount t)%nat then
        mkRun (applied_person (ms_person_id p) (ui r)) (sent r)
      else r in
    if bool_decide (successCount t = length todo) then
      mret (update_item i (set_status Status.success) r)
    else if bool_decide (0 < successCount t)%nat then
      mret (update_item i (set_partial (partial_name p (successCount t) (length todo))) r)
    else
      mret (update_item i
              (set_error (string_or "All faces failed" (lastError t))) r).

Fixpoint apply_loop (script : Script) (selections : gmap Z (gset string)) (i : nat)
    (todo : list UnrecognizedPersonPreview.t) (r : Run) : completion Run :=
  match todo with
  | [] => mret r
  | p :: rest =>
      if cancelRef (ui r) then mret r
      else
        r' ← apply_item (script i) selections i p r;
        apply_loop script selections (S i) rest r'
  end.

Definition previewsToApply (r : Run) : list UnrecognizedPersonPreview.t :=
  List.filter
    (λ p, bool_decide (ms_person_id p ∈ selectedIds (ui r)) && negb (isApplied (ui r) p))
    (filteredPreviews (ui r)).

Definition pending_item (selections : gmap Z (gset string))
    (p : UnrecognizedPersonPreview.t) : ProgressItem.t :=
  {| ProgressItem.id := IdNum (ms_person_id p);
     ProgressItem.name :=
       ms_person_name p +:+ " (" +:+ pretty (getSelectedFaceCount selections p)
         +:+ " faces)";
     ProgressItem.status := Status.pending;
     ProgressItem.error := None |}.

Definition start_progress (todo : list UnrecognizedPersonPreview.t) (c : Component)
    : Component :=
  mkComponent (previews c) (filterMode c) (sortField c) (sortDirection c)
    (selectedIds c) (expandedRows c) (appliedIds c) (applyingId c) true None None
    (faceSelections c) (pending_item (faceSelections c) <$> todo) 0 true None false.

Definition applySelected (script : Script) (r : Run) : completion Run :=
  let todo := previewsToApply r in
  if bool_decide (length todo = 0%nat) then mret r
  else
    r' ← apply_loop script (faceSelections (ui r)) 0 todo
           (mkRun (start_progress todo (ui r)) (sent r));
    mret (mkRun (finish (ui r')) (sent r')).

Definition with_applying (id : option Z) (err ok : option string) (c : Component)
    : Component :=
  mkComponent (previews c) (filterMode c) (sortField c) (sortDirection c)
    (selectedIds c) (expandedRows c) (appliedIds c) id (bulkApplying c)
    err ok (faceSelections c) (progressItems c) (progressIndex c)
    (showProgress c) (subProgress c) (cancelRef c).

(** [setAppliedIds] and [setSelectedIds] of [applySingle]. *)
Definition applied_single (id : Z) (c : Component) : Component :=
  mkComponent (previews c) (filterMode c) (sortField c) (sortDirection c)
    (selectedIds c ∖ {[id]}) (expandedRows c) (appliedIds c ∪ {[id]}) (applyingId c)
    (bulkApplying c) (applyError c) (applySuccess c) (faceSelections c)
    (progressItems c) (progressIndex c) (showProgress c) (subProgress c) (cancelRef c).

Definition created_message (p : UnrecognizedPersonPreview.t) (n : Z) : string :=
  let quote := String (Ascii.ascii_of_nat 34) EmptyString in
  "Created " +:+ pretty n +:+ " faces for " +:+ quote +:+ ms_person_name p +:+ quote.

Definition applySingle (answer : settled CreateFacesResult.t)
    (p : UnrecognizedPersonPreview.t) (r : Run) : completion Run :=
  let r := mkRun (with_applying (Some (ms_person_id p)) None None (ui r)) (sent r) in
  let r := mkRun (ui r) (sent r ++ [request_of p (faces p)]) in
  r ← try_catch
        (result ← await answer;
         if CreateFacesResult.success result then
           let c := applied_single (ms_person_id p) (ui r) in
           mret (mkRun
                   (with_applying (applyingId c) (applyError c)
                      (Some (created_message p (CreateFacesResult.faces_created_count result)))
                      c)
                   (sent r))
         else
           mret (mkRun
                   (with_applying (applyingId (ui r))
                      (Some (string_or "Failed to create faces" (CreateFacesResult.error result)))
                      (applySuccess (ui r)) (ui r))
                   (sent r)))
        (λ err, mret (mkRun
                        (with_applying (applyingId (ui r))
                           (Some (message_or "Failed to apply" err))
                           (applySuccess (ui r)) (ui r))
                        (sent r)));
  mret (mkRun (with_applying None (applyError (ui r)) (applySuccess (ui r)) (ui r)) (sent r)).

End WithPlatform.

(** An answer that counts as a success of the face. *)
Definition face_succeeded (answer : settled CreateFacesResult.t) : bool :=
  match answer with
  | Resolved result => CreateFacesResult.success result
  | Rejected _ => false
  end.

(** The locals of the inner loop after one more answer. *)
Definition tally_step (answer : settled CreateFacesResult.t) (t : Tally) : Tally :=
  match answer with
  | Resolved result =>
      if CreateFacesResult.success result then
        mkTally (S (successCount t)) (lastError t)
      else
        mkTally (successCount t)
          (Some (string_or "Failed" (CreateFacesResult.error result)))
  | Rejected err => mkTally (successCount t) (Some (message_or "Failed" err))
  end.

(** The inner loop, entered with the cancel flag down at face [j] with [n]
    faces to go: how many requests it sends, the locals it ends with, and
    whether Cancel was pressed during one of them. *)
Fixpoint attempted (script : nat -> settled CreateFacesResult.t * bool) (j n : nat) : nat :=
  match n with
  | O => O
  | S n' => S (if snd (script j) then O else attempted script (S j) n')
  end.

Fixpoint tally_after (script : nat -> settled CreateFacesResult.t * bool) (j n : nat) (t : Tally)
    : Tally :=
  match n with
  | O => t
  | S n' =>
      let t' := tally_step (fst (script j)) t in
      if snd (script j) then t' else tally_after script (S j) n' t'
  end.

Fixpoint pressed (script : nat -> settled CreateFacesResult.t * bool) (j n : nat) : bool :=
  match n with
  | O => false
  | S n' => snd (script j) || pressed script (S j) n'
  end.

(** The record an item ends with, given the answers to its requests. *)
Definition verdict (script : nat -> settled CreateFacesResult.t * bool)
    (selections : gmap Z (gset string)) (p : UnrecognizedPersonPreview.t) (item : ProgressItem.t)
    : ProgressItem.t :=
  let n := length (facesToApply selections p) in
  if bool_decide (n = 0%nat) then set_status Status.success item
  else
    let t := tally_after script 0 n (mkTally 0 None) in
    if bool_decide (successCount t = n) then set_status Status.success item
    else if bool_decide (0 < successCount t)%nat then
      set_partial (partial_name p (successCount t) n) item
    else set_error (string_or "All faces failed" (lastError t)) item.

(** The requests one item gives rise to. *)
Definition item_requests (script : nat -> settled CreateFacesResult.t * bool)
    (selections : gmap Z (gset string)) (p : UnrecognizedPersonPreview.t) : list Request :=
  let todo := facesToApply selections p in
  (fun f => request_of p [f]) <$> take (attempted script 0 (length todo)) todo.

(** The outer loop, entered with the cancel flag down at item [i]: how many
    items it goes through and the requests it sends. *)
Fixpoint processed (script : Script) (selections : gmap Z (gset string)) (i : nat)
    (todo : list UnrecognizedPersonPreview.t) : nat :=
  match todo with
  | [] => O
  | p :: rest =>
      S (if pressed (script i) 0 (length (facesToApply selections p)) then O
         else processed script selections (S i) rest)
  end.

Fixpoint requests (script : Script) (selections : gmap Z (gset string)) (i : nat)
    (todo : list UnrecognizedPersonPreview.t) : list Request :=
  match todo with
  | [] => []
  | p :: rest =>
      item_requests (script i) selections p
      ++ (if pressed (script i) 0 (length (facesToApply selections p)) then []
          else requests script selections (S i) rest)
  end.

(** A terminal status. *)
Definition terminal (st : Status.t) : Prop := st = Status.success \/ st = Status.error.

(** Cancel is pressed for the first time while a request of item [k] is in
    flight. *)
Definition cancel_during (script : Script) (selections : gmap Z (gset string))
    (todo : list UnrecognizedPersonPreview.t) (k : nat) : Prop :=
  (forall j p, (j < k)%nat -> todo !! j = Some p ->
     pressed (script j) 0 (length (facesToApply selections p)) = false)
  /\ exists pk, todo !! k = Some pk
       /\ pressed (script k) 0 (length (facesToApply selections pk)) = true.

(** Cancel is never pressed while the batch runs. *)
Definition never_cancelled (script : Script) : Prop := forall i j, snd (script i j) = false.

(** A normalised rectangle as the data model wants it. *)
Definition well_formed_rect (f : UnrecognizedFacePreview.t) : Prop :=
  (0 <= UnrecognizedFacePreview.ms_rect_x1 f)%Q
  /\ (UnrecognizedFacePreview.ms_rect_x1 f < UnrecognizedFacePreview.ms_rect_x2 f)%Q
  /\ (UnrecognizedFacePreview.ms_rect_x2 f <= 1)%Q
  /\ (0 <= UnrecognizedFacePreview.ms_rect_y1 f)%Q
  /\ (UnrecognizedFacePreview.ms_rect_y1 f < UnrecognizedFacePreview.ms_rect_y2 f)%Q
  /\ (UnrecognizedFacePreview.ms_rect_y2 f <= 1)%Q.

(** The pixel rectangle stays inside the image. *)
Definition within_image (f : UnrecognizedFacePreview.t) : Prop :=
  let px := rectToPixels f in
  exists x y width height : Z,
    px_x px = Some x /\ px_y px = Some y
    /\ px_width px = Some width /\ px_height px = Some height
    /\ 0 <= x /\ 0 <= y
    /\ x + width <= UnrecognizedFacePreview.image_width f
    /\ y + height <= UnrecognizedFacePreview.image_height f.

Import JS UnrecognizedPersonPreview.

Definition with_faceSelections (selections : gmap Z (gset string)) (c : Component)
    : Component :=
  mkComponent (previews c) (filterMode c) (sortField c) (sortDirection c)
    (selectedIds c) (expandedRows c) (appliedIds c) (applyingId c)
    (bulkApplying c) (applyError c) (applySuccess c) selections
    (progressItems c) (progressIndex c) (showProgress c) (subProgress c) (cancelRef c).

(** [new Set(preview.faces.map((f, i) => getFaceId(f, i)))]. *)
Definition all_face_ids (p : UnrecognizedPersonPreview.t) : gset string :=
  list_to_set (imap (λ i f, getFaceId f i) (faces p)).

(** The three handlers the expanded row of [p] hands to the grid, as the
    updates of [faceSelections] they make. *)
Definition onSelectionChange (p : UnrecognizedPersonPreview.t) (faceId : string)
    (selected : bool) (prev : gmap Z (gset string)) : gmap Z (gset string) :=
  let faceSet := default (all_face_ids p) (prev !! ms_person_id p) in
  <[ms_person_id p := if selected then faceSet ∪ {[faceId]} else faceSet ∖ {[faceId]}]> prev.

Definition onSelectAll (p : UnrecognizedPersonPreview.t) (prev : gmap Z (gset string))
    : gmap Z (gset string) :=
  <[ms_person_id p := all_face_ids p]> prev.

Definition onDeselectAll (p : UnrecognizedPersonPreview.t) (prev : gmap Z (gset string))
    : gmap Z (gset string) :=
  <[ms_person_id p := ∅]> prev.

(** The props of the grid in the expanded row of [p]. *)
Definition grid_props (c : Component) (p : UnrecognizedPersonPreview.t)
    : FaceThumbnailGrid.Props :=
  {| FaceThumbnailGrid.faces :=
       imap (λ i f, FaceThumbnailGrid.unrecognizedToFaceData f i) (faces p);
     FaceThumbnailGrid.initialShowCount := FaceThumbnailGrid.INITIAL_SHOW;
     FaceThumbnailGrid.loadMoreIncrement := FaceThumbnailGrid.LOAD_MORE_INCREMENT;
     FaceThumbnailGrid.selectable := bool_decide (ms_person_id p ∈ selectedIds c);
     FaceThumbnailGrid.selectedIds := Some (getSelectedFaces (faceSelections c) p);
     FaceThumbnailGrid.showIoU := false;
     FaceThumbnailGrid.showCenterDist := false;
     FaceThumbnailGrid.showFaceRects := true;
     FaceThumbnailGrid.defaultSortBy := FaceThumbnailGrid.by_filename |}.

(** A click on the checkbox of a face of the grid. *)
Definition click_face (c : Component) (p : UnrecognizedPersonPreview.t)
    (face : FaceThumbnailGrid.FaceData) : Component :=
  let '(faceId, selected) := FaceThumbnailGrid.onToggleSelect (grid_props c p) face in
  with_faceSelections (onSelectionChange p faceId selected (faceSelections c)) c.

End CreateFaces.

(* ===================================================================== *)
(** ** Merge Clusters and Fix Issues tabs *)
(* ===================================================================== *)

Module MergeClusters.
Import MatchingContext.

Inductive FilterMode := fm_all | fm_pending | fm_applied.

Record Component := mkComponent {
  filterMode : FilterMode;
  expandedRows : gset Z;
  selectedIds : gset Z;
}.

(** The tab with everything it could reach: the shared context, its own
    state, and the requests sent to the server so far. *)
Record Run := mkRun {
  ctx : World;
  ui : Component;
  sent : list string;
}.

Section WithPlatform.
Context `{JS.Platform}.

Definition markAsMerged (personId : Z) (r : Run) : Run :=
  mkRun (markClustersMerged personId (ctx r))
    (mkComponent (filterMode (ui r)) (expandedRows (ui r))
       (selectedIds (ui r) ∖ {[personId]}))
    (sent r).

(** [selectedIds.forEach(id => markClustersMerged(id))], then the selection
    is replaced by an empty set. *)
Definition markSelectedAsMerged (r : Run) : Run :=
  mkRun (foldl (λ w id, markClustersMerged id w) (ctx r) (elements (selectedIds (ui r))))
    (mkComponent (filterMode (ui r)) (expandedRows (ui r)) ∅)
    (sent r).

End WithPlatform.

(** [r'] differs from [r] by an acknowledgement only: nothing was sent, the
    ids [added] joined mergedPeople, the stored copy of the bookkeeping may
    have been rewritten, and the selection became [selection]. *)
Definition acknowledged (r r' : Run) (added selection : gset Z) : Prop :=
  sent r' = sent r
  /\ same_but_appliedChanges (state (ctx r)) (state (ctx r'))
  /\ same_but_saved_changes (localStorage (ctx r)) (localStorage (ctx r'))
  /\ renamedClusters (appliedChanges (state (ctx r')))
     = renamedClusters (appliedChanges (state (ctx r)))
  /\ assignedPeople (appliedChanges (state (ctx r')))
     = assignedPeople (appliedChanges (state (ctx r)))
  /\ mergedPeople (appliedChanges (state (ctx r')))
     = mergedPeople (appliedChanges (state (ctx r))) ∪ added
  /\ fixedClusters (appliedChanges (state (ctx r')))
     = fixedClusters (appliedChanges (state (ctx r)))
  /\ filterMode (ui r') = filterMode (ui r)
  /\ expandedRows (ui r') = expandedRows (ui r)
  /\ selectedIds (ui r') = selection.

Import JS MatchingContext MergeCandidate.

Definition isApplied (changes : AppliedChanges) (c : MergeCandidate.t) : bool :=
  bool_decide (ms_person_id c ∈ mergedPeople changes).

Definition filteredCandidates (mergeCandidates : option (list MergeCandidate.t))
    (changes : AppliedChanges) (mode : FilterMode) : list MergeCandidate.t :=
  match mergeCandidates with
  | None => []
  | Some cs =>
      List.filter
        (fun c => match mode with
                  | fm_pending => negb (isApplied changes c)
                  | fm_applied => isApplied changes c
                  | fm_all => true
                  end) cs
  end.

Record FilterStats := mkFilterStats { fs_all : Z; fs_pending : Z; fs_applied : Z }.

Definition filterStats (mergeCandidates : option (list MergeCandidate.t))
    (changes : AppliedChanges) : FilterStats :=
  match mergeCandidates with
  | None => mkFilterStats 0 0 0
  | Some cs =>
      let applied := Z.of_nat (length (List.filter (isApplied changes) cs)) in
      let pending := Z.of_nat (length cs) - applied in
      {| fs_all := Z.of_nat (length cs); fs_pending := pending; fs_applied := applied |}
  end.

Definition tab_count (mode : FilterMode) (st : FilterStats) : Z :=
  match mode with
  | fm_all => fs_all st
  | fm_pending => fs_pending st
  | fm_applied => fs_applied st
  end.

(** The rows a run of the tab shows under a filter, and its badges. *)
Definition rows (mode : FilterMode) (r : Run) : list MergeCandidate.t :=
  filteredCandidates (Some (mergeCandidates (state (ctx r))))
    (appliedChanges (state (ctx r))) mode.

Definition badges (r : Run) : FilterStats :=
  filterStats (Some (mergeCandidates (state (ctx r)))) (appliedChanges (state (ctx r))).

End MergeClusters.

Module FixIssues.
Import MatchingContext.

Inductive FilterMode := fm_all | fm_errors | fm_warnings | fm_fixed.

Record Component := mkComponent {
  filterMode : FilterMode;
  expandedRows : gset string;
  selectedIds : gset string;
}.

Record Run := mkRun {
  ctx : World;
  ui : Component;
  sent : list string;
}.

Section WithPlatform.
Context `{JS.Platform}.

Definition markAsFixed (clusterId : string) (r : Run) : Run :=
  mkRun (markClusterFixed clusterId (ctx r))
    (mkComponent (filterMode (ui r)) (expandedRows (ui r))
       (selectedIds (ui r) ∖ {[clusterId]}))
    (sent r).

Definition markSelectedAsFixed (r : Run) : Run :=
  mkRun (foldl (λ w id, markClusterFixed id w) (ctx r) (elements (selectedIds (ui r))))
    (mkComponent (filterMode (ui r)) (expandedRows (ui r)) ∅)
    (sent r).

End WithPlatform.

(** [r'] differs from [r] by an acknowledgement only: nothing was sent, the
    ids [added] joined fixedClusters, the stored copy of the bookkeeping may
    have been rewritten, and the selection became [selection]. *)
Definition acknowledged (r r' : Run) (added selection : gset string) : Prop :=
  sent r' = sent r
  /\ same_but_appliedChanges (state (ctx r)) (state (ctx r'))
  /\ same_but_saved_changes (localStorage (ctx r)) (localStorage (ctx r'))
  /\ renamedClusters (appliedChanges (state (ctx r')))
     = renamedClusters (appliedChanges (state (ctx r)))
  /\ assignedPeople (appliedChanges (state (ctx r')))
     = assignedPeople (appliedChanges (state (ctx r)))
  /\ mergedPeople (appliedChanges (state (ctx r')))
     = mergedPeople (appliedChanges (state (ctx r)))
  /\ fixedClusters (appliedChanges (state (ctx r')))
     = fixedClusters (appliedChanges (state (ctx r))) ∪ added
  /\ filterMode (ui r') = filterMode (ui r)
  /\ expandedRows (ui r') = expandedRows (ui r)
  /\ selectedIds (ui r') = selection.

Import JS MatchingContext ClusterIssue.

Definition isFixed (changes : AppliedChanges) (i : ClusterIssue.t) : bool :=
  bool_decide (immich_cluster_id i ∈ fixedClusters changes).

Definition is_error (i : ClusterIssue.t) : bool :=
  match severity i with sev_error => true | _ => false end.

Definition is_warning (i : ClusterIssue.t) : bool :=
  match severity i with sev_warning => true | _ => false end.

Definition filteredIssues (validationIssues : option (list ClusterIssue.t))
    (changes : AppliedChanges) (mode : FilterMode) : list ClusterIssue.t :=
  match validationIssues with
  | None => []
  | Some issues =>
      List.filter
        (fun i => match mode with
                  | fm_errors => is_error i && negb (isFixed changes i)
                  | fm_warnings => is_warning i && negb (isFixed changes i)
                  | fm_fixed => isFixed changes i
                  | fm_all => negb (isFixed changes i)
                  end) issues
  end.

Record FilterStats := mkFilterStats {
  fs_all : nat; fs_errors : nat; fs_warnings : nat; fs_fixed : nat
}.

Definition filterStats (validationIssues : option (list ClusterIssue.t))
    (changes : AppliedChanges) : FilterStats :=
  match validationIssues with
  | None => mkFilterStats 0 0 0 0
  | Some issues =>
      let fixed := length (List.filter (isFixed changes) issues) in
      let remaining := List.filter (fun i => negb (isFixed changes i)) issues in
      let errors := length (List.filter is_error remaining) in
      let warnings := length (List.filter is_warning remaining) in
      {| fs_all := length remaining; fs_errors := errors; fs_warnings := warnings;
         fs_fixed := fixed |}
  end.

Definition tab_count (mode : FilterMode) (st : FilterStats) : nat :=
  match mode with
  | fm_all => fs_all st
  | fm_errors => fs_errors st
  | fm_warnings => fs_warnings st
  | fm_fixed => fs_fixed st
  end.

Definition rows (mode : FilterMode) (r : Run) : list ClusterIssue.t :=
  filteredIssues (Some (validationIssues (state (ctx r))))
    (appliedChanges (state (ctx r))) mode.

Definition badges (r : Run) : FilterStats :=
  filterStats (Some (validationIssues (state (ctx r)))) (appliedChanges (state (ctx r))).

End FixIssues.

(* ===================================================================== *)
(** ** api.ts: fetchAPI *)
(* ===================================================================== *)

Module Api.
Import JS.

(** What the code reads of a [Response]: [ok], [status], and the promises
    [text()] and [json()] return. *)
Record Response (T : Type) := mkResponse {
  ok : bool;
  status : Z;
  text : settled string;
  json : settled T;
}.
Arguments mkResponse {T}.
Arguments ok {T}.
Arguments status {T}.
Arguments text {T}.
Arguments json {T}.

(** [fetchAPI], given how the promise of [fetch] settles: the promise it
    returns. *)
Definition fetchAPI {T} (fetched : settled (Response T)) : settled T :=
  match fetched with
  | Rejected err => Rejected err
  | Resolved response =>
      if negb (ok response) then
        match text response with
        | Rejected err => Rejected err
        | Resolved error =>
            Rejected (ErrorObject
                        (if String.eqb error "" then "API error: " +:+ pretty (status response)
                         else error))
        end
      else json response
  end.
End Api.

(* ===================================================================== *)
(** ** A small platform, to run the model on *)
(* ===================================================================== *)

(** A JSON codec for the fragment the tool stores (objects, arrays, strings
    with the two escapes a quote and a backslash need, integers, literals)
    and an ordinal string comparison. *)
Module MiniPlatform.
Import JS.

Definition quote : ascii := Ascii.ascii_of_nat 34.
Definition backslash : ascii := Ascii.ascii_of_nat 92.

Fixpoint escape (s : string) : string :=
  match s with
  | EmptyString => EmptyString
  | String c rest =>
      if Ascii.eqb c quote || Ascii.eqb c backslash
      then String backslash (String c (escape rest))
      else String c (escape rest)
  end.

Definition quoted (s : string) : string :=
  String quote (escape s) +:+ String quote EmptyString.

Fixpoint join (sep : string) (parts : list string) : string :=
  match parts with
  | [] => EmptyString
  | [x] => x
  | x :: rest => x +:+ sep +:+ join sep rest
  end.

(** Numbers that are not integers are outside the fragment and print as
    [null], as [JSON.stringify] does for the numbers JSON cannot carry. *)
Fixpoint stringify (v : value) : string :=
  match v with
  | JNull => "null"
  | JBool true => "true"
  | JBool false => "false"
  | JNum q => if Pos.eqb (Qden q) 1 then pretty (Qnum q) else "null"
  | JStr s => quoted s
  | JArr elems => "[" +:+ join "," (List.map stringify elems) +:+ "]"
  | JObj fields =>
      "{" +:+ join "," (List.map (λ kv, quoted (fst kv) +:+ ":" +:+ stringify (snd kv)) fields)
        +:+ "}"
  end.

Fixpoint read_digits (acc : Z) (s : list ascii) : Z * list ascii :=
  match s with
  | c :: rest =>
      if is_digit c then read_digits (10 * acc + Z.of_nat (Ascii.nat_of_ascii c - 48)) rest
      else (acc, s)
  | [] => (acc, s)
  end.

(** The characters of a string literal after its opening quote. *)
Fixpoint read_string (s : list ascii) : option (string * list ascii) :=
  match s with
  | [] => None
  | c :: rest =>
      if Ascii.eqb c quote then Some (EmptyString, rest)
      else if Ascii.eqb c backslash then
        match rest with
        | e :: rest' =>
            if Ascii.eqb e quote || Ascii.eqb e backslash then
              '(str, tail) ← read_string rest'; Some (String e str, tail)
            else None
        | [] => None
        end
      else '(str, tail) ← read_string rest; Some (String c str, tail)
  end.

Definition expect (word : string) (v : value) (s : list ascii)
    : option (value * list ascii) :=
  let w := list_ascii_of_string word in
  if bool_decide (take (length w) s = w) then Some (v, drop (length w) s) else None.

Fixpoint read_value (fuel : nat) (s : list ascii) : option (value * list ascii) :=
  match fuel with
  | O => None
  | S fuel =>
      match s with
      | [] => None
      | c :: rest =>
          if Ascii.eqb c quote then
            '(str, tail) ← read_string rest; Some (JStr str, tail)
          else if Ascii.eqb c "["%char then
            match rest with
            | c' :: rest' =>
                if Ascii.eqb c' "]"%char then Some (JArr [], rest')
                else '(elems, tail) ← read_elems fuel rest; Some (JArr elems, tail)
            | [] => None
            end
          else if Ascii.eqb c "{"%char then
            match rest with
            | c' :: rest' =>
                if Ascii.eqb c' "}"%char then Some (JObj [], rest')
                else '(fields, tail) ← read_fields fuel rest; Some (JObj fields, tail)
            | [] => None
            end
          else if Ascii.eqb c "-"%char then
            match rest with
            | d :: _ =>
                if is_digit d then
                  let '(n, tail) := read_digits 0 rest in Some (JNum (inject_Z (- n)), tail)
                else None
            | [] => None
            end
          else if is_digit c then
            let '(n, tail) := read_digits 0 s in Some (JNum (inject_Z n), tail)
          else if Ascii.eqb c "n"%char then expect "null" JNull s
          else if Ascii.eqb c "t"%char then expect "true" (JBool true) s
          else if Ascii.eqb c "f"%char then expect "false" (JBool false) s
          else None
      end
  end
with read_elems (fuel : nat) (s : list ascii) : option (list value * list ascii) :=
  match fuel with
  | O => None
  | S fuel =>
      '(v, tail) ← read_value fuel s;
      match tail with
      | c :: rest =>
          if Ascii.eqb c "]"%char then Some ([v], rest)
          else if Ascii.eqb c ","%char then
            '(vs, tail') ← read_elems fuel rest; Some (v :: vs, tail')
          else None
      | [] => None
      end
  end
with read_fields (fuel : nat) (s : list ascii)
    : option (list (string * value) * list ascii) :=
  match fuel with
  | O => None
  | S fuel =>
      match s with
      | q :: rest =>
          if Ascii.eqb q quote then
            '(k, tail) ← read_string rest;
            match tail with
            | c :: rest' =>
                if Ascii.eqb c ":"%char then
                  '(v, tail') ← read_value fuel rest';
                  match tail' with
                  | c' :: rest'' =>
                      if Ascii.eqb c' "}"%char then Some ([(k, v)], rest'')
                      else if Ascii.eqb c' ","%char then
                        '(kvs, tail'') ← read_fields fuel rest''; Some ((k, v) :: kvs, tail'')
                      else None
                  | [] => None
                  end
                else None
            | [] => None
            end
          else None
      | [] => None
      end
  end.

Definition parse (text : string) : option value :=
  let s := list_ascii_of_string text in
  match read_value (S (length s)) s with
  | Some (v, []) => Some v
  | _ => None
  end.

Definition ordinal_compare (a b : string) : Q :=
  match String.compare a b with
  | Lt => (-1)%Q
  | Eq => 0%Q
  | Gt => 1%Q
  end.

#[export] Instance platform : Platform :=
  {| JSON_stringify := stringify; JSON_parse := parse; localeCompare := ordinal_compare |}.

End MiniPlatform.


(* ===================================================================== *)
(** ** Sample data *)
(* ===================================================================== *)

Module Samples.
Import JS MatchingContext.

Definition raw (person : Z) (cluster : string) (i c : Q) : RawFaceMatch.t :=
  RawFaceMatch.mk person "Alice" cluster None i c "a.jpg".

(** Three matches of one pair and one of another. *)
Definition raw_matches : list RawFaceMatch.t :=
  [ raw 1 "X" (1 # 2) (1 # 10); raw 2 "Y" (9 # 10) 0; raw 1 "X" (3 # 10) (2 # 10);
    raw 1 "X" (4 # 10) (3 # 10) ].

Definition person_match (person : Z) (name cluster : string) (cluster_name : option string)
    : PersonMatch.t :=
  PersonMatch.mk person name cluster cluster_name 3 (1 # 2) (1 # 10) low [].

(** Two unnamed clusters and a named one. *)
Definition matches : list PersonMatch.t :=
  [ person_match 1 "Alice" "c0" None; person_match 2 "Bob" "c1" (Some EmptyString);
    person_match 3 "Dave" "c2" (Some "Dave") ].

Definition assign_preview (person : Z) (name : string) (face_ids : list string)
    : PersonApplyPreview.t :=
  PersonApplyPreview.mk person name None None true (Z.of_nat (length face_ids)) 9 (1 # 2)
    ((fun id => UnclusteredFacePreview.mk id "asset" "a.jpg" (1 # 2) (1 # 10)) <$> face_ids)
    [].

Definition previews : list PersonApplyPreview.t :=
  [ assign_preview 1 "Alice" ["f0"; "f1"]; assign_preview 2 "Bob" ["f2"] ].

Definition state0 : MatchingState :=
  {| loading := false; algorithmRunning := false; lastRun := Some 0; error := None;
     rawMatches := raw_matches; histograms := None; percentiles := None;
     suggestedThresholds := None; cumulative := None;
     clusterMatches := matches; applicableMatches := [];
     unclusteredPreviews := previews; validationIssues := []; mergeCandidates := [];
     stats := None;
     minIoU := 3 # 10; maxCenterDist := 4 # 10;
     pendingMinIoU := 3 # 10; pendingMaxCenterDist := 4 # 10;
     thresholdsDirty := false; appliedChanges := no_changes |}.

Definition world0 : World := {| state := state0; localStorage := ∅ |}.


Definition changes0 : AppliedChanges :=
  {| renamedClusters := {["c0"; "c-1"]}; assignedPeople := {[1; -20]};
     mergedPeople := ∅; fixedClusters := {["z"]} |}.

(** Transfer Names with every row selected. *)
Definition rename_run : TransferNames.Run :=
  TransferNames.mkRun world0
    (TransferNames.mkComponent TransferNames.fm_applicable TransferNames.cf_all
       TransferNames.by_matches TransferNames.desc {["c0"; "c1"; "c2"]} ∅ None false None
       [] 0 false false)
    [].

Definition renamed_ok : settled ApplyResult.t := Resolved (ApplyResult.mk 1 0 []).

(** Cancel is pressed while the first request is in flight. *)
Definition cancel_during_first : TransferNames.Script :=
  fun i => (renamed_ok, bool_decide (i = 0%nat)).

(** Cancel is pressed once the first item is done, that is while the second
    request is in flight. *)
Definition cancel_after_first : TransferNames.Script :=
  fun i => (renamed_ok, bool_decide (i = 1%nat)).

(** Assign Faces with both people selected. *)
Definition assign_run : AssignFaces.Run :=
  AssignFaces.mkRun world0
    (AssignFaces.mkComponent AssignFaces.fm_all AssignFaces.by_faces AssignFaces.desc
       {[1; 2]} ∅ None false None None ∅ [] 0 false None false)
    [].

Definition assigned_ok : settled ApplyUnclusteredResult.t :=
  Resolved (ApplyUnclusteredResult.mk 1 0 []).

(** Cancel is pressed while the first face of the first person is in
    flight. *)
Definition cancel_during_first_face : AssignFaces.Script :=
  fun i j => (assigned_ok, bool_decide (i = 0%nat) && bool_decide (j = 0%nat)).

Definition face (asset : string) (x1 y1 x2 y2 : Q) (W H : Z) : UnrecognizedFacePreview.t :=
  UnrecognizedFacePreview.mk asset "a.jpg" x1 y1 x2 y2 W H.

(** The right half of an image three pixels wide. *)
Definition right_half : UnrecognizedFacePreview.t := face "asset0" (1 # 2) 0 1 1 3 3.

Definition create_preview : UnrecognizedPersonPreview.t :=
  UnrecognizedPersonPreview.mk 7 "Frank" None None true 2 5
    [ right_half; face "asset1" (1 # 5) (1 # 5) (2 # 5) (2 # 5) 100 50 ] [].

(** Create Faces with that person selected. *)
Definition create_run : CreateFaces.Run :=
  CreateFaces.mkRun
    (CreateFaces.mkComponent [create_preview] CreateFaces.fm_all CreateFaces.by_faces
       CreateFaces.desc {[7]} ∅ ∅ None false None None ∅ [] 0 false None false)
    [].

Definition created_ok : settled CreateFacesResult.t :=
  Resolved (CreateFacesResult.mk true 1 None).

(** The request for the first face throws, the one for the second succeeds;
    Cancel is never pressed. *)
Definition first_face_throws : CreateFaces.Script :=
  fun i j => (if bool_decide (j = 0%nat) then Rejected (ErrorObject "boom") else created_ok,
              false).

Definition merge_run : MergeClusters.Run :=
  MergeClusters.mkRun world0 (MergeClusters.mkComponent MergeClusters.fm_pending {[5]} {[1; 2]}) [].

Definition fix_run : FixIssues.Run :=
  FixIssues.mkRun world0 (FixIssues.mkComponent FixIssues.fm_errors ∅ {["c2"]}) [].

Import JS MatchingContext.

(** Three bins, the middle one the tallest and the last one empty. *)
Definition histogram0 : HistogramData.t :=
  HistogramData.mk [1 # 10; 2 # 10; 3 # 10] [2; 5; 0] [].

Definition grid_face (id : string) (iou : Q) : FaceThumbnailGrid.FaceData :=
  FaceThumbnailGrid.mkFaceData id "asset" "a.jpg" (Some iou) None None None None None.

(** A grid of three faces, in the default order of the Assign Faces tab. *)
Definition grid0 : FaceThumbnailGrid.Props :=
  {| FaceThumbnailGrid.faces :=
       [grid_face "a" (1 # 2); grid_face "b" (1 # 5); grid_face "c" (9 # 10)];
     FaceThumbnailGrid.initialShowCount := FaceThumbnailGrid.INITIAL_SHOW;
     FaceThumbnailGrid.loadMoreIncrement := FaceThumbnailGrid.LOAD_MORE_INCREMENT;
     FaceThumbnailGrid.selectable := false;
     FaceThumbnailGrid.selectedIds := None;
     FaceThumbnailGrid.showIoU := true;
     FaceThumbnailGrid.showCenterDist := true;
     FaceThumbnailGrid.showFaceRects := false;
     FaceThumbnailGrid.defaultSortBy := FaceThumbnailGrid.iou_asc |}.

(** The state after a run that suggested the thresholds (0.35, 0.3). *)
Definition suggesting : MatchingState :=
  mkState false false (Some 0) None raw_matches None None (Some (35 # 100, 3 # 10)) None
    matches [] previews [] [] None (3 # 10) (4 # 10) (3 # 10) (4 # 10) false no_changes.

(** The server answers 500 without a text. *)
Definition server_error : Api.Response ApplyResult.t :=
  Api.mkResponse false 500 (Resolved EmptyString) (Rejected NotAnError).

(** Cancel is never pressed and every rename succeeds. *)
Definition all_renamed : TransferNames.Script := fun _ => (renamed_ok, false).

End Samples.

(* ===================================================================== *)
(** * Properties *)
(* ===================================================================== *)

(** ** Numbers, strings and sorting *)

Lemma ge_spec (a b : Q) : JS.ge a b = true <-> (b <= a)%Q.
Proof. unfold JS.ge. apply Qle_bool_iff. Qed.

Lemma le_spec (a b : Q) : JS.le a b = true <-> (a <= b)%Q.
Proof. unfold JS.le. apply Qle_bool_iff. Qed.

Lemma sort_insert_perm {A} (cmp : A -> A -> Q) (x : A) (l : list A) :
  Permutation (JS.sort_insert cmp x l) (x :: l).
Proof.
  induction l as [|y ys IH]; simpl; [reflexivity|].
  destruct (Qle_bool (cmp x y) 0); [reflexivity|].
  rewrite IH. apply perm_swap.
Qed.

Lemma sort_perm {A} (cmp : A -> A -> Q) (l : list A) : Permutation (JS.sort cmp l) l.
Proof.
  induction l as [|x xs IH]; simpl; [reflexivity|].
  rewrite sort_insert_perm. now rewrite IH.
Qed.

Lemma sort_In {A} (cmp : A -> A -> Q) (l : list A) (x : A) :
  In x (JS.sort cmp l) <-> In x l.
Proof.
  split; apply Permutation_in; [|symmetry]; apply sort_perm.
Qed.

(** ** Analytics: the threshold filter *)

Section AnalyticsFilter.
Import Analytics RawFaceMatch.

Lemma passes_spec (I C : Q) (m : RawFaceMatch.t) :
  passes I C m = true <-> (iou m >= I)%Q /\ (center_dist m <= C)%Q.
Proof.
  unfold passes. rewrite andb_true_iff, ge_spec, le_spec. reflexivity.
Qed.

Lemma passes_at_threshold (C : Q) (m : RawFaceMatch.t) :
  passes (iou m) C m = JS.le (center_dist m) C.
Proof.
  unfold passes, JS.ge.
  replace (Qle_bool (iou m) (iou m)) with true; [reflexivity|].
  symmetry. apply Qle_bool_iff, Qle_refl.
Qed.

Lemma passes_below_threshold (C eps : Q) (m : RawFaceMatch.t) :
  (0 < eps)%Q -> passes (iou m + eps) C m = false.
Proof.
  intros Heps. apply not_true_is_false. rewrite passes_spec. intros [Hge _].
  apply (Qlt_irrefl (iou m)). eapply Qlt_le_trans; [|exact Hge].
  rewrite <- (Qplus_0_r (iou m)) at 1. apply Qplus_lt_r. exact Heps.
Qed.

(** C1. A raw match passes the threshold filter exactly when its IoU is at
    least the minimum and its centre distance at most the maximum; the
    preview list of the Analytics tab holds exactly the raw matches that
    pass; a match whose IoU equals the minimum passes as soon as its centre
    distance does, and a match whose IoU lies below the minimum by any
    positive amount fails. *)
Theorem threshold_filter_exact
    (raw : list RawFaceMatch.t) (I C : Q) (m : RawFaceMatch.t) :
  (passes I C m = true <-> (iou m >= I)%Q /\ (center_dist m <= C)%Q)
  /\ (In m (filteredMatches (Some raw) I C)
      <-> In m raw /\ (iou m >= I)%Q /\ (center_dist m <= C)%Q)
  /\ filteredMatches None I C = []
  /\ ((iou m == I)%Q -> ((center_dist m <= C)%Q <-> passes I C m = true))
  /\ (forall eps : Q, (0 < eps)%Q -> (iou m == I - eps)%Q -> passes I C m = false).
Proof.
  split; [apply passes_spec|].
  split.
  { unfold filteredMatches. rewrite filter_In, passes_spec. reflexivity. }
  split; [reflexivity|].
  split.
  - intros Heq. rewrite passes_spec. split.
    + intros Hc. split; [|exact Hc]. rewrite Heq. apply Qle_refl.
    + intros [_ Hc]. exact Hc.
  - intros eps Heps Heq. apply not_true_is_false. rewrite passes_spec.
    intros [Hge _]. rewrite Heq in Hge.
    apply (Qlt_irrefl I). eapply Qle_lt_trans; [exact Hge|].
    rewrite <- (Qplus_0_r I) at 2. unfold Qminus. apply Qplus_lt_r.
    apply (Qplus_lt_l _ _ eps). ring_simplify. exact Heps.
Qed.

End AnalyticsFilter.

(** ** Analytics: the confidence breakdown *)

Section AnalyticsConfidence.
Import Analytics.

Lemma is_high_class (m : Group) : is_high m = is_class high m.
Proof.
  unfold is_class, classify, confidence_rule, is_high.
  destruct ((5 <=? count m) && JS.ge (avg_iou m) (4 # 10)); [reflexivity|].
  destruct ((2 <=? count m) && JS.ge (avg_iou m) (35 # 100)); reflexivity.
Qed.

Lemma is_medium_class (m : Group) : is_medium m = is_class medium m.
Proof.
  unfold is_class, classify, confidence_rule, is_medium, is_high.
  destruct ((5 <=? count m) && JS.ge (avg_iou m) (4 # 10)).
  - now rewrite andb_false_r.
  - rewrite andb_true_r.
    destruct ((2 <=? count m) && JS.ge (avg_iou m) (35 # 100)); reflexivity.
Qed.

Lemma three_classes (l : list Group) :
  (length (List.filter (is_class high) l)
   + length (List.filter (is_class medium) l)
   + length (List.filter (is_class low) l))%nat = length l.
Proof.
  induction l as [|m l IH]; [reflexivity|].
  cbn [List.filter].
  destruct (is_class high m) eqn:E1, (is_class medium m) eqn:E2,
    (is_class low m) eqn:E3; cbn [length]; try lia;
    unfold is_class in E1, E2, E3; destruct (classify m); discriminate.
Qed.

Lemma filter_ext_length {A} (f g : A -> bool) (l : list A) :
  (forall x, f x = g x) -> length (List.filter f l) = length (List.filter g l).
Proof.
  intros Hfg. induction l as [|x l IH]; [reflexivity|].
  simpl. rewrite Hfg. destruct (g x); simpl; congruence.
Qed.

(** C2. The confidence rule sorts every aggregate into exactly one of three
    classes: high when the count is at least 5 and the mean IoU at least
    0.40, medium when it is not high and the count is at least 2 and the
    mean IoU at least 0.35, low otherwise; the three numbers that
    confidenceBreakdown reports are the sizes of these classes, and they add
    up to the number of aggregates. *)
Theorem confidence_breakdown_partition (aggregated : list Group) :
  let b := confidenceBreakdown aggregated in
  (forall m, classify m = high <-> 5 <= count m /\ (avg_iou m >= 4 # 10)%Q)
  /\ (forall m, classify m = medium
        <-> classify m <> high /\ 2 <= count m /\ (avg_iou m >= 35 # 100)%Q)
  /\ (forall m, classify m = low <-> classify m <> high /\ classify m <> medium)
  /\ n_high b = Z.of_nat (length (List.filter (is_class high) aggregated))
  /\ n_medium b = Z.of_nat (length (List.filter (is_class medium) aggregated))
  /\ n_low b = Z.of_nat (length (List.filter (is_class low) aggregated))
  /\ n_high b + n_medium b + n_low b = Z.of_nat (length aggregated).
Proof.
  assert (Hh : forall m, classify m = high <-> 5 <= count m /\ (avg_iou m >= 4 # 10)%Q).
  { intros m. unfold classify, confidence_rule.
    rewrite <- ge_spec, <- Z.leb_le, <- andb_true_iff.
    destruct ((5 <=? count m) && JS.ge (avg_iou m) (4 # 10)).
    - split; reflexivity.
    - destruct ((2 <=? count m) && JS.ge (avg_iou m) (35 # 100)); split; discriminate. }
  assert (Hm : forall m, classify m = medium
             <-> classify m <> high /\ 2 <= count m /\ (avg_iou m >= 35 # 100)%Q).
  { intros m. unfold classify, confidence_rule.
    rewrite <- ge_spec, <- Z.leb_le, <- andb_true_iff.
    destruct ((5 <=? count m) && JS.ge (avg_iou m) (4 # 10)).
    - split; [discriminate|]. intros [Hne _]. now contradiction Hne.
    - destruct ((2 <=? count m) && JS.ge (avg_iou m) (35 # 100)).
      + split; [intros _; split; [discriminate|reflexivity]|reflexivity].
      + split; [discriminate|]. intros [_ Hf]. discriminate. }
  assert (Hl : forall m, classify m = low <-> classify m <> high /\ classify m <> medium).
  { intros m. destruct (classify m); intuition congruence. }
  pose proof (three_classes aggregated) as Hsum.
  assert (Eh : length (List.filter is_high aggregated)
               = length (List.filter (is_class high) aggregated))
    by (apply filter_ext_length, is_high_class).
  assert (Em : length (List.filter is_medium aggregated)
               = length (List.filter (is_class medium) aggregated))
    by (apply filter_ext_length, is_medium_class).
  cbv zeta. unfold confidenceBreakdown. cbn [n_high n_medium n_low].
  rewrite Eh, Em.
  repeat (split; [first [exact Hh | exact Hm | exact Hl | reflexivity | lia]|]).
  lia.
Qed.

End AnalyticsConfidence.

(** ** Analytics: the grouping key *)

Section GroupingKey.
Import Analytics.

Lemma append_nil_l (s : string) : EmptyString +:+ s = s.
Proof. reflexivity. Qed.

Lemma append_cons (c : ascii) (d s : string) : String c d +:+ s = String c (d +:+ s).
Proof. reflexivity. Qed.

Ltac unfold_append :=
  repeat (rewrite append_cons in * || rewrite append_nil_l in * ).

Lemma append_snoc (d : string) (c : ascii) (s : string) :
  d +:+ String c s = (d +:+ String c EmptyString) +:+ s.
Proof. induction d as [|c' d IH]; unfold_append; [reflexivity|]. now rewrite IH. Qed.

Lemma append_empty_r (d : string) : d +:+ EmptyString = d.
Proof. induction d as [|c d IH]; unfold_append; [reflexivity|]. now rewrite IH. Qed.

Lemma all_digits_app (a b : string) :
  JS.all_digits (a +:+ b) = JS.all_digits a && JS.all_digits b.
Proof.
  induction a as [|c a IH]; unfold_append; simpl; [reflexivity|].
  rewrite IH. now rewrite andb_assoc.
Qed.

Lemma pretty_N_char_digit (x : N) : JS.is_digit (pretty_N_char x) = true.
Proof.
  unfold pretty_N_char. repeat case_match; reflexivity.
Qed.

Lemma pretty_N_go_digits (x : N) (s : string) :
  exists d, pretty_N_go x s = d +:+ s /\ JS.all_digits d = true
            /\ ((0 < x)%N -> d <> EmptyString).
Proof.
  revert s. induction (N.lt_wf_0 x) as [x _ IH]. intros s.
  destruct (decide (0 < x)%N) as [Hpos|Hzero].
  - rewrite pretty_N_go_step by assumption.
    destruct (IH (x `div` 10)%N (N.div_lt x 10 Hpos eq_refl)
                (String (pretty_N_char (x `mod` 10)) s)) as (d & Hd & Hdig & _).
    exists (d +:+ String (pretty_N_char (x `mod` 10)) EmptyString).
    split; [|split].
    + rewrite Hd. apply append_snoc.
    + rewrite all_digits_app, Hdig. simpl. now rewrite pretty_N_char_digit.
    + intros _. destruct d; discriminate.
  - assert (x = 0%N) as -> by lia. exists EmptyString.
    split; [apply pretty_N_go_0|]. split; [reflexivity|]. lia.
Qed.

Lemma pretty_N_digits (x : N) :
  JS.all_digits (pretty x) = true /\ pretty x <> EmptyString.
Proof.
  unfold pretty, pretty_N. destruct (decide (x = 0%N)) as [->|Hne].
  - split; [reflexivity|discriminate].
  - destruct (pretty_N_go_digits x EmptyString) as (d & Hd & Hdig & Hnonempty).
    assert (Heq : pretty_N_go x EmptyString = d).
    { rewrite Hd. apply append_empty_r. }
    rewrite Heq. split; [exact Hdig|]. apply Hnonempty. lia.
Qed.

(** Where two texts made of a run of digits, a dash and a rest agree, the runs
    agree and the rests agree. *)
Lemma digits_dash_split (d1 d2 r1 r2 : string) :
  JS.all_digits d1 = true -> JS.all_digits d2 = true ->
  d1 +:+ "-" +:+ r1 = d2 +:+ "-" +:+ r2 -> d1 = d2 /\ r1 = r2.
Proof.
  revert d2. induction d1 as [|c1 d1 IH]; intros [|c2 d2] H1 H2 Heq;
    unfold_append; simpl in H1, H2.
  - injection Heq as ->. split; reflexivity.
  - injection Heq as <- _. apply andb_true_iff in H2 as [H2 _]. discriminate.
  - injection Heq as -> _. apply andb_true_iff in H1 as [H1 _]. discriminate.
  - injection Heq as -> Heq.
    apply andb_true_iff in H1 as [_ H1]. apply andb_true_iff in H2 as [_ H2].
    destruct (IH d2 H1 H2 Heq) as [-> ->]. split; reflexivity.
Qed.

(** The printed form of an integer: an optional sign, then digits. *)
Lemma pretty_Z_shape (x : Z) :
  exists d, JS.all_digits d = true /\ d <> EmptyString
            /\ pretty x = (if x <? 0 then "-" +:+ d else d).
Proof.
  destruct x as [|p|p].
  - exists "0". repeat split; discriminate.
  - exists (pretty (N.pos p)). destruct (pretty_N_digits (N.pos p)). repeat split; assumption.
  - exists (pretty (N.pos p)). destruct (pretty_N_digits (N.pos p)). repeat split; assumption.
Qed.

(** The template string separates distinct (person, cluster) pairs. *)
Lemma key_of_inj (p1 p2 : Z) (c1 c2 : string) :
  key_of p1 c1 = key_of p2 c2 -> p1 = p2 /\ c1 = c2.
Proof.
  unfold key_of. intros Heq.
  destruct (pretty_Z_shape p1) as (d1 & Hd1 & Hn1 & E1).
  destruct (pretty_Z_shape p2) as (d2 & Hd2 & Hn2 & E2).
  assert (Hgoal : pretty p1 = pretty p2 /\ c1 = c2).
  { rewrite E1, E2 in Heq |- *.
    destruct (p1 <? 0), (p2 <? 0); unfold_append.
    - injection Heq as Heq. destruct (digits_dash_split _ _ _ _ Hd1 Hd2 Heq) as [-> ->].
      split; reflexivity.
    - destruct d2 as [|c d2]; [congruence|]. unfold_append. injection Heq as <- _.
      simpl in Hd2. discriminate.
    - destruct d1 as [|c d1]; [congruence|]. unfold_append. injection Heq as -> _.
      simpl in Hd1. discriminate.
    - destruct (digits_dash_split _ _ _ _ Hd1 Hd2 Heq) as [-> ->]. split; reflexivity. }
  destruct Hgoal as [Hp ->]. split; [|reflexivity].
  apply (inj pretty). exact Hp.
Qed.

Lemma key_eqb_same_pair (m : RawFaceMatch.t) (p : Z) (c : string) :
  String.eqb (key m) (key_of p c) = same_pair p c m.
Proof.
  unfold key, same_pair.
  destruct (String.eqb_spec (key_of (RawFaceMatch.ms_person_id m)
                               (RawFaceMatch.immich_cluster_id m)) (key_of p c)) as [E|E].
  - apply key_of_inj in E as [-> ->]. now rewrite Z.eqb_refl, String.eqb_refl.
  - symmetry. apply not_true_is_false. intros Hs. apply E.
    apply andb_true_iff in Hs as [Hp Hc].
    apply Z.eqb_eq in Hp. apply String.eqb_eq in Hc. now rewrite Hp, Hc.
Qed.

End GroupingKey.

(** ** Analytics: the running mean *)

Section Aggregation.
Import Analytics RawFaceMatch.

Lemma Qsum_snoc (l : list Q) (x : Q) : (Qsum (l ++ [x]) == Qsum l + x)%Q.
Proof.
  unfold Qsum. induction l as [|y l IH]; simpl.
  - ring.
  - rewrite IH. ring.
Qed.

Lemma inject_Z_pos_nonzero (n : Z) : 0 < n -> ~ (inject_Z n == 0)%Q.
Proof.
  intros Hn Hz. unfold Qeq in Hz. simpl in Hz. lia.
Qed.

(** One step of the incremental update keeps the mean. *)
Lemma running_mean_step (avg x : Q) (l : list Q) :
  l <> [] -> (avg == mean l)%Q ->
  ((avg * inject_Z (Z.of_nat (length l) + 1 - 1) + x)
     / inject_Z (Z.of_nat (length l) + 1) == mean (l ++ [x]))%Q.
Proof.
  intros Hne Havg. unfold mean in *.
  rewrite Qsum_snoc, length_app. simpl length.
  replace (Z.of_nat (length l) + 1 - 1) with (Z.of_nat (length l)) by lia.
  replace (Z.of_nat (length l + 1)) with (Z.of_nat (length l) + 1) by lia.
  assert (Hlen : 0 < Z.of_nat (length l)) by (destruct l; [congruence|simpl; lia]).
  rewrite Havg.
  assert (H1 : (Qsum l / inject_Z (Z.of_nat (length l)) * inject_Z (Z.of_nat (length l))
                == Qsum l)%Q).
  { field. now apply inject_Z_pos_nonzero. }
  rewrite H1. reflexivity.
Qed.

Lemma mean_singleton (x : Q) : (x == mean [x])%Q.
Proof. unfold mean, Qsum. simpl. field. Qed.

Lemma keyed_snoc (k : string) (seen : list RawFaceMatch.t) (m : RawFaceMatch.t) :
  keyed k (seen ++ [m]) = keyed k seen ++ (if String.eqb (key m) k then [m] else []).
Proof.
  unfold keyed. rewrite List.filter_app. simpl. now destruct (String.eqb (key m) k).
Qed.

Lemma bump_summarises (e : Group) (grp : list RawFaceMatch.t) (m : RawFaceMatch.t) :
  grp <> [] -> summarises e grp -> summarises (bump e m) (grp ++ [m]).
Proof.
  intros Hne (Hc & Hi & Hd). unfold summarises, bump. cbn [count avg_iou avg_center_dist].
  rewrite !fmap_app. cbn [fmap list_fmap].
  assert (Hlen : forall f : RawFaceMatch.t -> Q, length (f <$> grp) = length grp)
    by (intros; apply length_fmap).
  assert (Hne' : forall f : RawFaceMatch.t -> Q, f <$> grp <> [])
    by (intros f; destruct grp; [congruence|discriminate]).
  split; [|split].
  - rewrite length_app. simpl. lia.
  - rewrite Hc, <- (Hlen iou). apply running_mean_step; [apply Hne'|exact Hi].
  - rewrite Hc, <- (Hlen center_dist). apply running_mean_step; [apply Hne'|exact Hd].
Qed.

Lemma fresh_summarises (m : RawFaceMatch.t) : summarises (fresh m) [m].
Proof.
  unfold summarises, fresh. cbn [count avg_iou avg_center_dist].
  split; [reflexivity|]. split; apply mean_singleton.
Qed.

Lemma upsert_keys (k : string) (m : RawFaceMatch.t) (g : list (string * Group)) :
  map fst (upsert k m g)
  = if bool_decide (k ∈ map fst g) then map fst g else map fst g ++ [k].
Proof.
  induction g as [|[k' e] g IH]; cbn [upsert map fst].
  - rewrite bool_decide_eq_false_2; [reflexivity|]. apply not_elem_of_nil.
  - destruct (String.eqb_spec k' k) as [->|Hne]; cbn [upsert map fst].
    + rewrite bool_decide_eq_true_2; [reflexivity|]. apply list_elem_of_here.
    + rewrite IH. destruct (bool_decide (k ∈ map fst g)) eqn:E.
      * apply bool_decide_eq_true in E. rewrite bool_decide_eq_true_2; [reflexivity|].
        now apply list_elem_of_further.
      * apply bool_decide_eq_false in E. rewrite bool_decide_eq_false_2; [reflexivity|].
        rewrite elem_of_cons. intros [?|?]; [congruence|tauto].
Qed.

Lemma upsert_In (k : string) (m : RawFaceMatch.t) (g : list (string * Group))
    (k' : string) (e' : Group) :
  NoDup (map fst g) -> In (k', e') (upsert k m g) ->
  (k' <> k /\ In (k', e') g)
  \/ (k' = k /\ exists e, In (k, e) g /\ e' = bump e m)
  \/ (k' = k /\ (k ∉ map fst g) /\ e' = fresh m).
Proof.
  induction g as [|[k0 e0] g IH]; cbn [upsert map fst]; intros Hnd Hin.
  - destruct Hin as [[= <- <-]|[]]. right. right.
    split; [reflexivity|]. split; [apply not_elem_of_nil|reflexivity].
  - apply NoDup_cons in Hnd as [Hnotin Hnd'].
    destruct (String.eqb_spec k0 k) as [->|Hne].
    + destruct Hin as [[= <- <-]|Hin].
      * right. left. split; [reflexivity|]. exists e0. split; [now left|reflexivity].
      * left. split; [|now right]. intros ->. apply Hnotin.
        apply list_elem_of_In, in_map_iff. exists (k, e'). split; [reflexivity|exact Hin].
    + destruct Hin as [[= <- <-]|Hin].
      * left. split; [exact Hne|now left].
      * destruct (IH Hnd' Hin) as [[H1 H2]|[[H1 (e & H2 & H3)]|(H1 & H2 & H3)]].
        -- left. split; [exact H1|now right].
        -- right. left. split; [exact H1|]. exists e. split; [now right|exact H3].
        -- right. right. split; [exact H1|]. split; [|exact H3].
           rewrite elem_of_cons. intros [Heq|Hin']; [congruence|tauto].
Qed.

Lemma upsert_keeps_inv (g : list (string * Group)) (seen : list RawFaceMatch.t)
    (m : RawFaceMatch.t) :
  grouped_inv g seen -> grouped_inv (upsert (key m) m g) (seen ++ [m]).
Proof.
  intros (Hnd & Hsum & Hcov). unfold grouped_inv. rewrite upsert_keys.
  split; [|split].
  - destruct (bool_decide (key m ∈ map fst g)) eqn:E; [exact Hnd|].
    apply bool_decide_eq_false in E.
    apply NoDup_app. split; [exact Hnd|]. split.
    + intros x Hx Hx'. apply list_elem_of_singleton in Hx'. now subst x.
    + apply NoDup_singleton.
  - intros k e Hin. rewrite keyed_snoc.
    destruct (upsert_In _ _ _ _ _ Hnd Hin) as [[Hne Hg]|[[-> (e0 & Hg & ->)]|(-> & Hfresh & ->)]].
    + destruct (String.eqb_spec (key m) k) as [Heq|_]; [congruence|].
      rewrite app_nil_r. now apply Hsum.
    + rewrite String.eqb_refl. destruct (Hsum _ _ Hg) as [Hne Hs]. split.
      * destruct (keyed (key m) seen); [congruence|discriminate].
      * now apply bump_summarises.
    + rewrite String.eqb_refl.
      assert (Hempty : keyed (key m) seen = []).
      { unfold keyed. destruct (List.filter _ seen) as [|x l] eqn:E; [reflexivity|].
        exfalso. apply Hfresh.
        assert (Hx : In x (List.filter (fun m0 => String.eqb (key m0) (key m)) seen))
          by (rewrite E; now left).
        apply filter_In in Hx as [Hx Hk]. apply String.eqb_eq in Hk. rewrite <- Hk.
        apply list_elem_of_In. now apply Hcov. }
      rewrite Hempty. simpl. split; [discriminate|apply fresh_summarises].
  - intros m' Hin. apply in_app_or in Hin as [Hin|[<-|[]]].
    + specialize (Hcov _ Hin).
      destruct (bool_decide (key m ∈ map fst g)); [exact Hcov|].
      apply in_or_app. now left.
    + destruct (bool_decide (key m ∈ map fst g)) eqn:E.
      * apply bool_decide_eq_true in E. now apply list_elem_of_In.
      * apply in_or_app. right. now left.
Qed.

Lemma fold_upsert_inv (ms seen : list RawFaceMatch.t) (g : list (string * Group)) :
  grouped_inv g seen ->
  grouped_inv (fold_left (fun g m => upsert (key m) m g) ms g) (seen ++ ms).
Proof.
  revert seen g. induction ms as [|m ms IH]; intros seen g Hinv; simpl.
  - now rewrite app_nil_r.
  - replace (seen ++ m :: ms) with ((seen ++ [m]) ++ ms) by now rewrite <- app_assoc.
    apply IH. now apply upsert_keeps_inv.
Qed.

Lemma grouped_holds_inv (filtered : list RawFaceMatch.t) :
  grouped_inv (grouped filtered) filtered.
Proof.
  unfold grouped. apply (fold_upsert_inv filtered [] []).
  split; [constructor|]. split; [intros k e []|intros m []].
Qed.

Lemma keyed_group (p : Z) (c : string) (ms : list RawFaceMatch.t) :
  keyed (key_of p c) ms = group p c ms.
Proof.
  unfold keyed, group. apply List.filter_ext. intros m. apply key_eqb_same_pair.
Qed.

(** C3. For every list of matches handed to the aggregation, every entry of
    aggregatedMatches belongs to a (person, cluster) pair that occurs in the
    list, its count is the number of matches of that pair and its avg_iou and
    avg_center_dist are the arithmetic means (over the rationals) of their
    IoUs and centre distances; and every pair that occurs has such an entry. *)
Theorem aggregated_means (filtered : list RawFaceMatch.t) :
  (forall e, In e (aggregatedMatches filtered) ->
     exists p c, group p c filtered <> [] /\ summarises e (group p c filtered))
  /\ (forall m, In m filtered ->
        exists e, In e (aggregatedMatches filtered)
                  /\ summarises e (group (ms_person_id m) (immich_cluster_id m) filtered)).
Proof.
  destruct (grouped_holds_inv filtered) as (Hnd & Hsum & Hcov).
  split.
  - intros e Hin. unfold aggregatedMatches in Hin. apply sort_In in Hin.
    apply in_map_iff in Hin as ([k e'] & <- & Hin). simpl.
    destruct (Hsum _ _ Hin) as [Hne Hs].
    destruct (keyed k filtered) as [|m grp] eqn:E; [congruence|].
    assert (Hm : In m (keyed k filtered)) by (rewrite E; now left).
    apply filter_In in Hm as [_ Hk]. apply String.eqb_eq in Hk. subst k.
    exists (ms_person_id m), (immich_cluster_id m).
    change (key m) with (key_of (ms_person_id m) (immich_cluster_id m)) in E.
    rewrite keyed_group in E. rewrite E. split; [discriminate|exact Hs].
  - intros m Hin. specialize (Hcov _ Hin).
    apply in_map_iff in Hcov as ([k e] & Hk & Hg). simpl in Hk. subst k.
    exists e. split.
    + unfold aggregatedMatches. apply sort_In. apply in_map_iff. exists (key m, e). tauto.
    + destruct (Hsum _ _ Hg) as [_ Hs].
      change (key m) with (key_of (ms_person_id m) (immich_cluster_id m)) in Hs.
      now rewrite keyed_group in Hs.
Qed.

End Aggregation.

(** ** Progress records *)

Lemma map_at_lookup {A} (i : nat) (f : A -> A) (l : list A) (idx : nat) :
  JS.map_at i f l !! idx = (if decide (idx = i) then f else id) <$> l !! idx.
Proof.
  unfold JS.map_at. rewrite list_lookup_imap.
  destruct (l !! idx); simpl; [|reflexivity]. now destruct (decide (idx = i)).
Qed.

Lemma map_at_length {A} (i : nat) (f : A -> A) (l : list A) :
  length (JS.map_at i f l) = length l.
Proof. unfold JS.map_at. apply length_imap. Qed.

(** ** Transfer Names: what is offered for renaming *)

Section TransferNamesOffers.
Context `{JS.Platform}.
Import JS MatchingContext PersonMatch TransferNames.

Lemma truthy_name_false (s : option string) :
  truthy_name s = false <-> s = None \/ s = Some EmptyString.
Proof.
  destruct s as [s|]; simpl.
  - rewrite negb_false_iff, String.eqb_eq. split.
    + intros ->. now right.
    + intros [?|[= ->]]; [discriminate|reflexivity].
  - split; [now left|reflexivity].
Qed.

Lemma canApply_unnamed (changes : AppliedChanges) (m : PersonMatch.t) :
  canApply changes m = true -> unnamed m /\ isApplied changes m = false.
Proof.
  unfold canApply, isAlreadyNamed. rewrite andb_true_iff, !negb_true_iff.
  intros [Ha Hn]. split; [now apply truthy_name_false|exact Ha].
Qed.

Lemma visible_In (r : Run) (m : PersonMatch.t) :
  In m (visible r) ->
  In m (clusterMatches (state (ctx r)))
  /\ mode_keeps (filterMode (ui r)) (appliedChanges (state (ctx r))) m = true.
Proof.
  unfold visible, filteredMatches. rewrite sort_In, !filter_In. tauto.
Qed.

Lemma matchesToApply_In (r : Run) (m : PersonMatch.t) :
  In m (matchesToApply r) ->
  In m (visible r) /\ immich_cluster_id m ∈ selectedIds (ui r)
  /\ canApply (appliedChanges (state (ctx r))) m = true.
Proof.
  unfold matchesToApply, canApply. rewrite filter_In, !andb_true_iff, bool_decide_eq_true.
  tauto.
Qed.

End TransferNamesOffers.

(** ** Transfer Names: the bulk loop *)

Section TransferNamesLoop.
Context `{JS.Platform}.
Import JS MatchingContext PersonMatch TransferNames.

Lemma verdict_after_processing (answer : settled ApplyResult.t) (item : ProgressItem.t) :
  verdict answer (set_status Status.processing item) = verdict answer item.
Proof. unfold verdict. now destruct (succeeded answer). Qed.

Lemma apply_item_spec (answer : settled ApplyResult.t * bool) (i : nat)
    (m : PersonMatch.t) (r : Run) :
  exists r', apply_item answer i m r = Normal r'
    /\ sent r' = sent r ++ [request_of m]
    /\ cancelRef (ui r')
       = (if snd answer then (if bulkApplying (ui r) then true else cancelRef (ui r))
          else cancelRef (ui r))
    /\ bulkApplying (ui r') = bulkApplying (ui r)
    /\ forall idx, progressItems (ui r') !! idx
         = (if decide (idx = i) then verdict (fst answer) else id)
             <$> progressItems (ui r) !! idx.
Proof.
  assert (Hlook : forall f items idx,
            map_at i f (map_at i (set_status Status.processing) items) !! idx
            = (if decide (idx = i) then fun x => f (set_status Status.processing x) else id)
                <$> items !! idx).
  { intros f items idx. rewrite !map_at_lookup.
    destruct (items !! idx); cbn; [|reflexivity]. now destruct (decide (idx = i)). }
  destruct answer as [[result|err] pressed]; unfold apply_item, call_applyMatches;
    cbn [fst snd await try_catch mbind completion_bind mret completion_ret].
  - destruct (0 <? ApplyResult.success_count result) eqn:E;
      eexists; (split; [reflexivity|]);
      unfold update_item, renamed, with_progress, with_selectedIds, with_progressIndex,
        handleCancelProgress;
      cbn [ui sent progressItems cancelRef bulkApplying ctx];
      (split; [reflexivity|]);
      (split; [now destruct pressed|]); (split; [now destruct pressed|]);
      intros idx; destruct pressed;
      cbn [ui sent progressItems cancelRef bulkApplying ctx];
      rewrite Hlook; destruct (progressItems (ui r) !! idx); cbn; try reflexivity;
      destruct (decide (idx = i)); try reflexivity;
      unfold verdict; cbn; rewrite E; reflexivity.
  - eexists; (split; [reflexivity|]);
      unfold update_item, renamed, with_progress, with_selectedIds, with_progressIndex,
        handleCancelProgress;
      cbn [ui sent progressItems cancelRef bulkApplying ctx];
      (split; [reflexivity|]);
      (split; [now destruct pressed|]); (split; [now destruct pressed|]);
      intros idx; destruct pressed;
      cbn [ui sent progressItems cancelRef bulkApplying ctx];
      rewrite Hlook; destruct (progressItems (ui r) !! idx); cbn; try reflexivity;
      destruct (decide (idx = i)); reflexivity.
Qed.

Lemma apply_loop_cancelled (script : Script) (i : nat) (todo : list PersonMatch.t)
    (r : Run) :
  cancelRef (ui r) = true -> apply_loop script i todo r = Normal r.
Proof. intros Hc. destruct todo; simpl; [reflexivity|]. now rewrite Hc. Qed.

Lemma apply_loop_spec (script : Script) (todo : list PersonMatch.t) :
  forall (i : nat) (r : Run),
    cancelRef (ui r) = false -> bulkApplying (ui r) = true ->
    exists r', apply_loop script i todo r = Normal r'
      /\ sent r' = sent r ++ (request_of <$> take (processed script i (length todo)) todo)
      /\ bulkApplying (ui r') = true
      /\ forall idx, progressItems (ui r') !! idx
           = (if decide (i <= idx < i + processed script i (length todo))%nat
              then verdict (fst (script idx)) else id)
               <$> progressItems (ui r) !! idx.
Proof.
  induction todo as [|m rest IH]; intros i r Hc Hb.
  - exists r. cbn. split; [reflexivity|]. split; [now rewrite app_nil_r|].
    split; [exact Hb|]. intros idx.
    destruct (decide (i <= idx < i + 0)%nat); [lia|]. now destruct (_ !! idx).
  - cbn [apply_loop length processed]. rewrite Hc.
    destruct (apply_item_spec (script i) i m r) as (r1 & E1 & Hs1 & Hc1 & Hb1 & Hp1).
    rewrite E1. cbn [mbind completion_bind]. rewrite Hb, Hc in Hc1. rewrite Hb in Hb1.
    destruct (snd (script i)) eqn:Epressed.
    + exists r1. split; [now apply apply_loop_cancelled|].
      split; [exact Hs1|]. split; [exact Hb1|].
      intros idx. rewrite Hp1.
      destruct (decide (idx = i)) as [->|Hne];
        destruct (decide (_ <= _ < _)%nat); try lia; reflexivity.
    + destruct (IH (S i) r1 Hc1 Hb1) as (r2 & E2 & Hs2 & Hb2 & Hp2).
      exists r2. split; [exact E2|].
      split; [rewrite Hs2, Hs1, <- app_assoc; reflexivity|].
      split; [exact Hb2|].
      intros idx. rewrite Hp2, Hp1.
      destruct (progressItems (ui r) !! idx); cbn; [|reflexivity].
      destruct (decide (idx = i)) as [->|Hne];
        repeat destruct (decide (_ <= _ < _)%nat); try lia; reflexivity.
Qed.

End TransferNamesLoop.

Section TransferNamesClaim.
Context `{JS.Platform}.
Import JS MatchingContext PersonMatch TransferNames.

Lemma applySelected_sent (script : Script) (r : Run) :
  exists r', applySelected script r = Normal r'
    /\ sent r' = sent r
         ++ (request_of <$> take (processed script 0 (length (matchesToApply r)))
                              (matchesToApply r)).
Proof.
  unfold applySelected. destruct (bool_decide (length (matchesToApply r) = 0%nat)) eqn:E.
  - apply bool_decide_eq_true in E. exists r. split; [reflexivity|].
    rewrite E. cbn. now rewrite app_nil_r.
  - destruct (apply_loop_spec script (matchesToApply r) 0
                (mkRun (ctx r) (start_progress (matchesToApply r) (ui r)) (sent r))
                eq_refl eq_refl) as (r1 & E1 & Hs & _).
    rewrite E1. cbn [mbind completion_bind mret completion_ret].
    eexists. split; [reflexivity|]. exact Hs.
Qed.

Lemma applySingle_sent (answer : settled ApplyResult.t) (m : PersonMatch.t) (r : Run) :
  exists r', applySingle answer m r = Normal r' /\ sent r' = sent r ++ [request_of m].
Proof.
  unfold applySingle. destruct answer as [result|err];
    cbn [await try_catch mbind completion_bind mret completion_ret].
  - destruct (0 <? ApplyResult.success_count result);
      [|destruct (0 <? ApplyResult.failed_count result)];
      cbn [mbind completion_bind mret completion_ret]; eexists; split; reflexivity.
  - eexists; split; reflexivity.
Qed.

(** C4. Whatever the Transfer Names tab offers for renaming has an unnamed
    target cluster: the rows listed under the applicable filter, the matches
    Select All takes its ids from, the matches the bulk path works through,
    every request the bulk path sends, and the rows that show a checkbox or an
    Apply button; the bulk path and the single Apply send nothing else. *)
Theorem rename_offers_are_unnamed (r : Run) :
  (filterMode (ui r) = fm_applicable -> Forall unnamed (visible r))
  /\ Forall unnamed (selectAll_matches r)
  /\ selectedIds (ui (selectAll r))
     = list_to_set (immich_cluster_id <$> selectAll_matches r)
  /\ Forall unnamed (matchesToApply r)
  /\ (forall script, exists r' submitted,
        applySelected script r = Normal r'
        /\ sent r' = sent r ++ (request_of <$> submitted)
        /\ Forall unnamed submitted
        /\ Forall (fun m => In m (clusterMatches (state (ctx r)))) submitted)
  /\ (forall m,
        (forall o, row_apply (row_actions (appliedChanges (state (ctx r))) m) = Some o ->
                   o = m /\ unnamed m)
        /\ (forall id, row_checkbox (row_actions (appliedChanges (state (ctx r))) m) = Some id ->
                       id = immich_cluster_id m /\ unnamed m))
  /\ (forall answer m, exists r',
        applySingle answer m r = Normal r' /\ sent r' = sent r ++ [request_of m]).
Proof.
  assert (Hto : Forall unnamed (matchesToApply r)).
  { apply Forall_forall. intros m Hm. apply list_elem_of_In, matchesToApply_In in Hm.
    destruct Hm as (_ & _ & Hm). now apply canApply_unnamed in Hm. }
  split.
  { intros Hmode. apply Forall_forall. intros m Hm.
    apply list_elem_of_In, visible_In in Hm as [_ Hm].
    rewrite Hmode in Hm. cbn in Hm. apply andb_true_iff in Hm as [Hm _].
    apply negb_true_iff in Hm. now apply truthy_name_false. }
  split.
  { apply Forall_forall. intros m Hm. apply list_elem_of_In in Hm.
    unfold selectAll_matches in Hm. apply filter_In in Hm as [_ Hm].
    now apply canApply_unnamed in Hm. }
  split; [reflexivity|].
  split; [exact Hto|].
  split.
  { intros script. destruct (applySelected_sent script r) as (r' & E & Hs).
    exists r', (take (processed script 0 (length (matchesToApply r))) (matchesToApply r)).
    split; [exact E|]. split; [exact Hs|]. split.
    - now apply Forall_take.
    - apply Forall_take. apply Forall_forall. intros m Hm.
      apply list_elem_of_In, matchesToApply_In in Hm as (Hm & _).
      now apply visible_In in Hm. }
  split.
  { intros m. unfold row_actions. cbn [row_apply row_checkbox].
    destruct (canApply (appliedChanges (state (ctx r))) m) eqn:E.
    - apply canApply_unnamed in E as [E _].
      split; intros ? [= <-]; split; (reflexivity || exact E).
    - split; intros ? [=]. }
  intros answer m. apply applySingle_sent.
Qed.

End TransferNamesClaim.

(** ** Matching context: fetching results *)

Section FetchingResults.
Context `{JS.Platform}.
Import JS MatchingContext.


(** A request that fails leaves the bookkeeping alone on both paths. *)
Lemma fetch_failure_keeps_changes (e : thrown) (now : Z) (w : World) :
  appliedChanges (state (runAlgorithm (Rejected e) now w)) = appliedChanges (state w)
  /\ localStorage (runAlgorithm (Rejected e) now w) = localStorage w
  /\ appliedChanges (state (applyThresholds (Rejected e) now w)) = appliedChanges (state w).
Proof. repeat split. Qed.

(** The settle step writes the bookkeeping it closed over, whatever the state
    holds by then. *)
Lemma settle_writes_closure (closure : AppliedChanges) (I C : Q)
    (result : FullAnalysisResult.t) (now : Z) (w : World) :
  appliedChanges (state (fetchAllData_settle closure I C false (Resolved result) now w))
  = closure.
Proof. reflexivity. Qed.

End FetchingResults.

(** ** Acknowledgement-only tabs *)

Section Acknowledgements.
Context `{JS.Platform}.
Import JS MatchingContext.

Lemma with_appliedChanges_frame (c : AppliedChanges) (s : MatchingState) :
  same_but_appliedChanges s (with_appliedChanges c s).
Proof. repeat split. Qed.

Lemma same_but_appliedChanges_refl (s : MatchingState) : same_but_appliedChanges s s.
Proof. repeat split. Qed.

Lemma same_but_appliedChanges_trans (s1 s2 s3 : MatchingState) :
  same_but_appliedChanges s1 s2 -> same_but_appliedChanges s2 s3 ->
  same_but_appliedChanges s1 s3.
Proof.
  unfold same_but_appliedChanges. intros H12 H23.
  repeat match goal with H : _ /\ _ |- _ => destruct H end.
  repeat split; congruence.
Qed.

Lemma saveAppliedChanges_frame (c : AppliedChanges) (ls : gmap string string) :
  same_but_saved_changes ls (saveAppliedChanges c ls).
Proof. intros k Hk. unfold saveAppliedChanges. now apply lookup_insert_ne. Qed.

Lemma mark_frame (update : AppliedChanges -> AppliedChanges) (w : World) :
  same_but_appliedChanges (state w) (state (mark update w))
  /\ same_but_saved_changes (localStorage w) (localStorage (mark update w))
  /\ appliedChanges (state (mark update w)) = update (appliedChanges (state w))
  /\ localStorage (mark update w) !! STORAGE_KEY
     = Some (JSON_stringify (toStore (update (appliedChanges (state w))))).
Proof.
  unfold mark. cbn [state localStorage]. split; [apply with_appliedChanges_frame|].
  split; [apply saveAppliedChanges_frame|]. split; [reflexivity|].
  unfold saveAppliedChanges. apply lookup_insert_eq.
Qed.

(** Marking a list of people as merged, one after the other. *)
Lemma merged_fold (ids : list Z) (w : World) :
  let w' := foldl (fun w id => markClustersMerged id w) w ids in
  same_but_appliedChanges (state w) (state w')
  /\ same_but_saved_changes (localStorage w) (localStorage w')
  /\ renamedClusters (appliedChanges (state w')) = renamedClusters (appliedChanges (state w))
  /\ assignedPeople (appliedChanges (state w')) = assignedPeople (appliedChanges (state w))
  /\ mergedPeople (appliedChanges (state w'))
     = mergedPeople (appliedChanges (state w)) ∪ list_to_set ids
  /\ fixedClusters (appliedChanges (state w')) = fixedClusters (appliedChanges (state w)).
Proof.
  revert w. induction ids as [|id ids IH]; intros w; cbn [foldl].
  - split; [apply same_but_appliedChanges_refl|]. split; [now intros k ?|].
    cbn. repeat split. now rewrite union_empty_r_L.
  - specialize (IH (markClustersMerged id w)). cbv zeta in IH.
    destruct IH as (F1 & F2 & R & A & M & X).
    destruct (mark_frame
                (fun c => mkAppliedChanges (renamedClusters c) (assignedPeople c)
                            (mergedPeople c ∪ {[id]}) (fixedClusters c)) w)
      as (G1 & G2 & G3 & _).
    fold (markClustersMerged id) in G1, G2, G3.
    split; [eapply same_but_appliedChanges_trans; eassumption|].
    split; [intros k Hk; rewrite (F2 k Hk); now apply G2|].
    rewrite R, A, M, X, G3. cbn. repeat split. now rewrite <- union_assoc_L.
Qed.

(** Marking a list of clusters as fixed, one after the other. *)
Lemma fixed_fold (ids : list string) (w : World) :
  let w' := foldl (fun w id => markClusterFixed id w) w ids in
  same_but_appliedChanges (state w) (state w')
  /\ same_but_saved_changes (localStorage w) (localStorage w')
  /\ renamedClusters (appliedChanges (state w')) = renamedClusters (appliedChanges (state w))
  /\ assignedPeople (appliedChanges (state w')) = assignedPeople (appliedChanges (state w))
  /\ mergedPeople (appliedChanges (state w')) = mergedPeople (appliedChanges (state w))
  /\ fixedClusters (appliedChanges (state w'))
     = fixedClusters (appliedChanges (state w)) ∪ list_to_set ids.
Proof.
  revert w. induction ids as [|id ids IH]; intros w; cbn [foldl].
  - split; [apply same_but_appliedChanges_refl|]. split; [now intros k ?|].
    cbn. repeat split. now rewrite union_empty_r_L.
  - specialize (IH (markClusterFixed id w)). cbv zeta in IH.
    destruct IH as (F1 & F2 & R & A & M & X).
    destruct (mark_frame
                (fun c => mkAppliedChanges (renamedClusters c) (assignedPeople c)
                            (mergedPeople c) (fixedClusters c ∪ {[id]})) w)
      as (G1 & G2 & G3 & _).
    fold (markClusterFixed id) in G1, G2, G3.
    split; [eapply same_but_appliedChanges_trans; eassumption|].
    split; [intros k Hk; rewrite (F2 k Hk); now apply G2|].
    rewrite R, A, M, X, G3. cbn. repeat split. now rewrite <- union_assoc_L.
Qed.

(** C7. Marking a merge candidate or a validation issue as done, one item or
    the whole selection, sends nothing to the server: it adds the person ids
    to mergedPeople (the cluster ids to fixedClusters), rewrites the stored
    copy of that bookkeeping under its localStorage key, and takes the ids
    out of the selection; the other three sets, every other field of the
    shared state, every other localStorage key, the filter mode and the
    expanded rows stay as they were. *)
Theorem acknowledgements_are_local
    (rm : MergeClusters.Run) (rf : FixIssues.Run) (personId : Z) (clusterId : string) :
  MergeClusters.acknowledged rm (MergeClusters.markAsMerged personId rm)
    {[personId]} (MergeClusters.selectedIds (MergeClusters.ui rm) ∖ {[personId]})
  /\ MergeClusters.acknowledged rm (MergeClusters.markSelectedAsMerged rm)
       (MergeClusters.selectedIds (MergeClusters.ui rm)) ∅
  /\ FixIssues.acknowledged rf (FixIssues.markAsFixed clusterId rf)
       {[clusterId]} (FixIssues.selectedIds (FixIssues.ui rf) ∖ {[clusterId]})
  /\ FixIssues.acknowledged rf (FixIssues.markSelectedAsFixed rf)
       (FixIssues.selectedIds (FixIssues.ui rf)) ∅
  /\ localStorage (MergeClusters.ctx (MergeClusters.markAsMerged personId rm)) !! STORAGE_KEY
     = Some (JSON_stringify
               (toStore (appliedChanges
                           (state (MergeClusters.ctx
                                     (MergeClusters.markAsMerged personId rm))))))
  /\ localStorage (FixIssues.ctx (FixIssues.markAsFixed clusterId rf)) !! STORAGE_KEY
     = Some (JSON_stringify
               (toStore (appliedChanges
                           (state (FixIssues.ctx (FixIssues.markAsFixed clusterId rf)))))).
Proof.
  split; [|split; [|split; [|split; [|split]]]].
  - unfold MergeClusters.acknowledged, MergeClusters.markAsMerged.
    cbn [MergeClusters.sent MergeClusters.ctx MergeClusters.ui MergeClusters.filterMode
           MergeClusters.expandedRows MergeClusters.selectedIds].
    destruct (merged_fold [personId] (MergeClusters.ctx rm)) as (F1 & F2 & R & A & M & X).
    cbn [foldl] in *. rewrite R, A, M, X. cbn [list_to_set]. rewrite union_empty_r_L.
    repeat (split; [first [reflexivity | assumption]|]). reflexivity.
  - unfold MergeClusters.acknowledged, MergeClusters.markSelectedAsMerged.
    cbn [MergeClusters.sent MergeClusters.ctx MergeClusters.ui MergeClusters.filterMode
           MergeClusters.expandedRows MergeClusters.selectedIds].
    destruct (merged_fold (elements (MergeClusters.selectedIds (MergeClusters.ui rm)))
                (MergeClusters.ctx rm)) as (F1 & F2 & R & A & M & X).
    cbv zeta in *. rewrite R, A, M, X, list_to_set_elements_L.
    repeat (split; [first [reflexivity | assumption]|]). reflexivity.
  - unfold FixIssues.acknowledged, FixIssues.markAsFixed.
    cbn [FixIssues.sent FixIssues.ctx FixIssues.ui FixIssues.filterMode
           FixIssues.expandedRows FixIssues.selectedIds].
    destruct (fixed_fold [clusterId] (FixIssues.ctx rf)) as (F1 & F2 & R & A & M & X).
    cbn [foldl] in *. rewrite R, A, M, X. cbn [list_to_set]. rewrite union_empty_r_L.
    repeat (split; [first [reflexivity | assumption]|]). reflexivity.
  - unfold FixIssues.acknowledged, FixIssues.markSelectedAsFixed.
    cbn [FixIssues.sent FixIssues.ctx FixIssues.ui FixIssues.filterMode
           FixIssues.expandedRows FixIssues.selectedIds].
    destruct (fixed_fold (elements (FixIssues.selectedIds (FixIssues.ui rf)))
                (FixIssues.ctx rf)) as (F1 & F2 & R & A & M & X).
    cbv zeta in *. rewrite R, A, M, X, list_to_set_elements_L.
    repeat (split; [first [reflexivity | assumption]|]). reflexivity.
  - unfold MergeClusters.markAsMerged. cbn [MergeClusters.ctx].
    unfold markClustersMerged.
    destruct (mark_frame
                (fun c => mkAppliedChanges (renamedClusters c) (assignedPeople c)
                            (mergedPeople c ∪ {[personId]}) (fixedClusters c))
                (MergeClusters.ctx rm)) as (_ & _ & G3 & G4).
    now rewrite G3.
  - unfold FixIssues.markAsFixed. cbn [FixIssues.ctx]. unfold markClusterFixed.
    destruct (mark_frame
                (fun c => mkAppliedChanges (renamedClusters c) (assignedPeople c)
                            (mergedPeople c) (fixedClusters c ∪ {[clusterId]}))
                (FixIssues.ctx rf)) as (_ & _ & G3 & G4).
    now rewrite G3.
Qed.

End Acknowledgements.

(** ** Matching context: persistence *)

Section Persistence.
Context `{JS.Platform}.
Import JS MatchingContext.

(** Building a [Set] from values that an injective wrapper of a primitive
    produced keeps every one of them, in order. *)
Lemma new_Set_of_distinct {A} `{EqDecision A} (wrap : A -> value) (xs : list A) :
  (forall a b, same_value_zero (wrap a) (wrap b) = bool_decide (a = b)) ->
  NoDup xs ->
  fold_left (fun s x => Set_add x s) (wrap <$> xs) [] = wrap <$> xs.
Proof.
  intros Hwrap.
  assert (Hgen : forall pre, NoDup (pre ++ xs) ->
            fold_left (fun s x => Set_add x s) (wrap <$> xs) (wrap <$> pre)
            = wrap <$> (pre ++ xs)).
  { induction xs as [|x xs IH]; intros pre Hnd; cbn [fmap list_fmap fold_left].
    - now rewrite app_nil_r.
    - assert (Hfresh : existsb (same_value_zero (wrap x)) (wrap <$> pre) = false).
      { apply not_true_is_false. intros Hex. apply existsb_exists in Hex as (v & Hv & Hs).
        apply list_elem_of_In, list_elem_of_fmap in Hv as (a & -> & Ha).
        rewrite Hwrap in Hs. apply bool_decide_eq_true in Hs. subst a.
        apply NoDup_app in Hnd as (_ & Hdisj & _). apply (Hdisj x Ha). apply list_elem_of_here. }
      unfold Set_add at 2. rewrite Hfresh.
      replace ((wrap <$> pre) ++ [wrap x]) with (wrap <$> (pre ++ [x]))
        by now rewrite fmap_app.
      rewrite IH; rewrite <- app_assoc; [reflexivity|exact Hnd]. }
  intros Hnd. apply (Hgen [] Hnd).
Qed.

Lemma same_value_zero_strings (a b : string) :
  same_value_zero (JStr a) (JStr b) = bool_decide (a = b).
Proof.
  cbn. destruct (String.eqb_spec a b) as [->|Hne].
  - now rewrite bool_decide_eq_true_2.
  - now rewrite bool_decide_eq_false_2.
Qed.

Lemma same_value_zero_numbers (a b : Z) :
  same_value_zero (JNum (inject_Z a)) (JNum (inject_Z b)) = bool_decide (a = b).
Proof.
  cbn. destruct (decide (a = b)) as [->|Hne].
  - rewrite bool_decide_eq_true_2 by reflexivity. apply Qeq_bool_iff. reflexivity.
  - rewrite bool_decide_eq_false_2 by assumption. apply not_true_is_false.
    intros Heq. apply Qeq_bool_iff in Heq. unfold Qeq in Heq. cbn in Heq. lia.
Qed.

Lemma new_Set_strings (s : gset string) :
  new_Set (or_empty_array (Some (array_of_strings s))) = Some (JStr <$> elements s).
Proof.
  cbn. f_equal. apply new_Set_of_distinct; [apply same_value_zero_strings|].
  apply NoDup_elements.
Qed.

Lemma new_Set_numbers (s : gset Z) :
  new_Set (or_empty_array (Some (array_of_numbers s)))
  = Some ((fun n => JNum (inject_Z n)) <$> elements s).
Proof.
  cbn. f_equal. apply new_Set_of_distinct; [apply same_value_zero_numbers|].
  apply NoDup_elements.
Qed.

Lemma holds_strings_elements (s : gset string) : holds_strings (JStr <$> elements s) s.
Proof.
  split.
  - apply NoDup_fmap_2; [intros a b [= ->]; reflexivity|apply NoDup_elements].
  - intros v. rewrite list_elem_of_fmap. split; intros (x & -> & Hx); exists x;
      (split; [reflexivity|]); now apply elem_of_elements.
Qed.

Lemma holds_numbers_elements (s : gset Z) :
  holds_numbers ((fun n => JNum (inject_Z n)) <$> elements s) s.
Proof.
  split.
  - apply NoDup_fmap_2; [|apply NoDup_elements].
    intros a b [= Hab]. exact Hab.
  - intros v. rewrite list_elem_of_fmap. split; intros (x & -> & Hx); exists x;
      (split; [reflexivity|]); now apply elem_of_elements.
Qed.

(** C10. Provided the platform's JSON.parse gives back what JSON.stringify
    was handed for the stored object and rejects the empty text:
    loadAppliedChanges after saveAppliedChanges returns four sets that hold
    exactly the elements of the saved ones; and with the entry absent or not
    parsable, loadAppliedChanges returns four empty sets and loadThresholds
    returns minIoU 0.3 and maxCenterDist 0.4, neither of them throwing.
    This holds of the helpers of the matching context and of those of the
    useAppliedChanges hook, which use the same key, also when one of them
    loads what the other saved. *)
Theorem persistence_round_trip (c : AppliedChanges) (ls : gmap string string)
    (Hjson : JSON_parse (JSON_stringify (toStore c)) = Some (toStore c))
    (Hempty : JSON_parse EmptyString = None) :
  let loaded := loadAppliedChanges (saveAppliedChanges c ls) in
  (holds_strings (l_renamedClusters loaded) (renamedClusters c)
   /\ holds_numbers (l_assignedPeople loaded) (assignedPeople c)
   /\ holds_numbers (l_mergedPeople loaded) (mergedPeople c)
   /\ holds_strings (l_fixedClusters loaded) (fixedClusters c))
  /\ (forall ls', ls' !! STORAGE_KEY = None -> loadAppliedChanges ls' = loaded_empty)
  /\ (forall ls' stored, ls' !! STORAGE_KEY = Some stored -> JSON_parse stored = None ->
        loadAppliedChanges ls' = loaded_empty)
  /\ (forall ls', ls' !! THRESHOLDS_STORAGE_KEY = None ->
        loadThresholds ls' = {| l_minIoU := JNum (3 # 10); l_maxCenterDist := JNum (4 # 10) |})
  /\ (forall ls' stored, ls' !! THRESHOLDS_STORAGE_KEY = Some stored ->
        JSON_parse stored = None ->
        loadThresholds ls' = {| l_minIoU := JNum (3 # 10); l_maxCenterDist := JNum (4 # 10) |})
  /\ (let by_hook :=
        UseAppliedChanges.loadAppliedChanges (UseAppliedChanges.saveAppliedChanges c ls) in
      holds_strings (l_renamedClusters by_hook) (renamedClusters c)
      /\ holds_numbers (l_assignedPeople by_hook) (assignedPeople c)
      /\ holds_numbers (l_mergedPeople by_hook) (mergedPeople c)
      /\ holds_strings (l_fixedClusters by_hook) (fixedClusters c))
  /\ UseAppliedChanges.loadAppliedChanges (saveAppliedChanges c ls) = loaded
  /\ loadAppliedChanges (UseAppliedChanges.saveAppliedChanges c ls) = loaded
  /\ UseAppliedChanges.saveAppliedChanges c ls !! UseAppliedChanges.STORAGE_KEY
     = Some (JSON_stringify (toStore c))
  /\ (forall k, k <> UseAppliedChanges.STORAGE_KEY ->
        UseAppliedChanges.saveAppliedChanges c ls !! k = ls !! k)
  /\ (forall ls', ls' !! UseAppliedChanges.STORAGE_KEY = None ->
        UseAppliedChanges.loadAppliedChanges ls' = loaded_empty)
  /\ (forall ls' stored, ls' !! UseAppliedChanges.STORAGE_KEY = Some stored ->
        JSON_parse stored = None ->
        UseAppliedChanges.loadAppliedChanges ls' = loaded_empty).
Proof.
  cbv zeta.
  assert (Hctx : holds_strings
                   (l_renamedClusters (loadAppliedChanges (saveAppliedChanges c ls)))
                   (renamedClusters c)
                 /\ holds_numbers
                      (l_assignedPeople (loadAppliedChanges (saveAppliedChanges c ls)))
                      (assignedPeople c)
                 /\ holds_numbers
                      (l_mergedPeople (loadAppliedChanges (saveAppliedChanges c ls)))
                      (mergedPeople c)
                 /\ holds_strings
                      (l_fixedClusters (loadAppliedChanges (saveAppliedChanges c ls)))
                      (fixedClusters c));
    [|split; [exact Hctx|]].
  - unfold loadAppliedChanges, saveAppliedChanges. rewrite lookup_insert_eq.
    destruct (String.eqb_spec (JSON_stringify (toStore c)) EmptyString) as [E|_].
    { rewrite E in Hjson. congruence. }
    unfold parse_applied_changes. rewrite Hjson.
    cbn [mbind option_bind get toStore assoc String.eqb Ascii.eqb Bool.eqb].
    cbn [assoc]. 
    rewrite !new_Set_strings, !new_Set_numbers.
    cbn [mbind option_bind default l_renamedClusters l_assignedPeople l_mergedPeople
           l_fixedClusters].
    repeat split; first [apply holds_strings_elements | apply holds_numbers_elements].
  - split; [|split; [|split; [|split]]].
    + intros ls' Habs. unfold loadAppliedChanges. now rewrite Habs.
    + intros ls' stored Hst Hbad. unfold loadAppliedChanges, parse_applied_changes.
      rewrite Hst, Hbad. now destruct (String.eqb stored EmptyString).
    + intros ls' Habs. unfold loadThresholds. now rewrite Habs.
    + intros ls' stored Hst Hbad. unfold loadThresholds, parse_thresholds.
      rewrite Hst, Hbad. now destruct (String.eqb stored EmptyString).
    + split; [exact Hctx|]. split; [reflexivity|]. split; [reflexivity|].
      split; [unfold UseAppliedChanges.saveAppliedChanges; apply lookup_insert_eq|].
      split; [intros k Hk; unfold UseAppliedChanges.saveAppliedChanges;
              now apply lookup_insert_ne|].
      split.
      * intros ls' Habs. unfold UseAppliedChanges.loadAppliedChanges. now rewrite Habs.
      * intros ls' stored Hst Hbad. unfold UseAppliedChanges.loadAppliedChanges.
        rewrite Hst, Hbad. now destruct (String.eqb stored EmptyString).
Qed.

End Persistence.

(** ** Counting the requests that succeeded *)

Lemma filter_seq_none_iff (f : nat -> bool) (a : nat) :
  forall j : nat,
    length (List.filter f (seq j a)) = 0%nat
    <-> (forall j', (j' < a)%nat -> f (j + j')%nat = false).
Proof.
  induction a as [|a IH]; intros j; cbn [seq List.filter].
  - split; [intros _ j' Hj'; lia|reflexivity].
  - destruct (f j) eqn:Ej; cbn [length].
    + split; [discriminate|]. intros Hall. specialize (Hall 0%nat ltac:(lia)).
      rewrite Nat.add_0_r in Hall. congruence.
    + rewrite IH. split.
      * intros Hall j' Hj'. destruct j' as [|j']; [now rewrite Nat.add_0_r|].
        replace (j + S j')%nat with (S j + j')%nat by lia. apply Hall. lia.
      * intros Hall j' Hj'. replace (S j + j')%nat with (j + S j')%nat by lia.
        apply Hall. lia.
Qed.

Lemma filter_seq_length_le (f : nat -> bool) (j a : nat) :
  (length (List.filter f (seq j a)) <= a)%nat.
Proof.
  revert j. induction a as [|a IH]; intros j; cbn [seq List.filter]; [cbn; lia|].
  specialize (IH (S j)). destruct (f j); cbn [length]; lia.
Qed.

(** ** Assign Faces: the bulk loop *)

Section AssignFacesLoop.
Context `{JS.Platform}.
Import JS MatchingContext PersonApplyPreview AssignFaces.

Lemma assign_apply_face_spec (answer : settled ApplyUnclusteredResult.t * bool) (total j : nat)
    (p : PersonApplyPreview.t) (f : UnclusteredFacePreview.t) (t : Tally) (r : Run) :
  exists r', apply_face answer total j p f t r = Normal (tally_step (fst answer) t, r')
    /\ sent r' = sent r ++ [request_of p f]
    /\ cancelRef (ui r')
       = (if snd answer then (if bulkApplying (ui r) then true else cancelRef (ui r))
          else cancelRef (ui r))
    /\ bulkApplying (ui r') = bulkApplying (ui r)
    /\ progressItems (ui r') = progressItems (ui r).
Proof.
  destruct answer as [[result|err] pressed]; unfold apply_face, call_applyUnclusteredFaces;
    cbn [fst snd await try_catch mbind completion_bind mret completion_ret tally_step].
  - destruct (0 <? ApplyUnclusteredResult.faces_assigned_count result);
      [|destruct (0 <? ApplyUnclusteredResult.failed_count result)];
      eexists; (split; [reflexivity|]); destruct pressed; cbn; repeat split.
  - eexists; (split; [reflexivity|]); destruct pressed; cbn; repeat split.
Qed.

Lemma assign_faces_loop_spec (script : nat -> settled ApplyUnclusteredResult.t * bool) (total : nat)
    (p : PersonApplyPreview.t) (todo : list UnclusteredFacePreview.t) :
  forall (j : nat) (t : Tally) (r : Run),
    cancelRef (ui r) = false -> bulkApplying (ui r) = true ->
    exists r', faces_loop script total j p todo t r
               = Normal (tally_after script j (length todo) t, r')
      /\ sent r' = sent r ++ (request_of p <$> take (attempted script j (length todo)) todo)
      /\ cancelRef (ui r') = pressed script j (length todo)
      /\ bulkApplying (ui r') = true
      /\ progressItems (ui r') = progressItems (ui r).
Proof.
  induction todo as [|f rest IH]; intros j t r Hc Hb.
  - exists r. cbn. rewrite app_nil_r. repeat split; assumption.
  - cbn [faces_loop length attempted tally_after pressed]. rewrite Hc.
    destruct (assign_apply_face_spec (script j) total j p f t r)
      as (r1 & E1 & Hs1 & Hc1 & Hb1 & Hp1).
    rewrite E1. cbn [mbind completion_bind]. rewrite Hb, Hc in Hc1. rewrite Hb in Hb1.
    destruct (snd (script j)) eqn:Epressed.
    + exists r1. split.
      { destruct rest; cbn [faces_loop]; [reflexivity|]. now rewrite Hc1. }
      cbn [take fmap list_fmap orb]. repeat split; assumption.
    + destruct (IH (S j) (tally_step (fst (script j)) t) r1 Hc1 Hb1)
        as (r2 & E2 & Hs2 & Hc2 & Hb2 & Hp2).
      exists r2. split; [exact E2|].
      split; [rewrite Hs2, Hs1, <- app_assoc; reflexivity|].
      split; [exact Hc2|]. split; [exact Hb2|]. now rewrite Hp2.
Qed.

Lemma assign_set_status_twice (st : Status.t) (item : ProgressItem.t) :
  set_status st (set_status Status.processing item) = set_status st item.
Proof. reflexivity. Qed.

Lemma assign_apply_item_spec (script : nat -> settled ApplyUnclusteredResult.t * bool)
    (selections : gmap Z (gset string)) (i : nat) (p : PersonApplyPreview.t) (r : Run) :
  cancelRef (ui r) = false -> bulkApplying (ui r) = true ->
  exists r', apply_item script selections i p r = Normal r'
    /\ sent r' = sent r ++ item_requests script selections p
    /\ cancelRef (ui r') = pressed script 0 (length (facesToApply selections p))
    /\ bulkApplying (ui r') = true
    /\ forall idx, progressItems (ui r') !! idx
         = (if decide (idx = i) then verdict script selections p else id)
             <$> progressItems (ui r) !! idx.
Proof.
  intros Hc Hb. unfold apply_item, verdict, item_requests.
  destruct (bool_decide (length (facesToApply selections p) = 0%nat)) eqn:Ezero.
  - apply bool_decide_eq_true in Ezero. rewrite Ezero.
    eexists. split; [reflexivity|]. cbn. rewrite app_nil_r.
    repeat (split; [first [reflexivity | assumption]|]).
    intros idx. rewrite map_at_lookup.
    destruct (progressItems (ui r) !! idx); cbn; [|reflexivity].
    now destruct (decide (idx = i)).
  - set (r0 := update_item i (set_status Status.processing)
                 (mkRun (ctx r) (with_progressIndex i (ui r)) (sent r))).
    destruct (assign_faces_loop_spec script (length (facesToApply selections p)) p
                (facesToApply selections p) 0 (mkTally 0 None) r0 Hc Hb)
      as (r1 & E1 & Hs1 & Hc1 & Hb1 & Hp1).
    rewrite E1. cbn [mbind completion_bind].
    set (t := tally_after script 0 (length (facesToApply selections p)) (mkTally 0 None)) in *.
    assert (Hlook : forall f idx,
              map_at i f (progressItems (ui r1)) !! idx
              = (if decide (idx = i)
                 then fun x => f (set_status Status.processing x) else id)
                  <$> progressItems (ui r) !! idx).
    { intros f idx. rewrite Hp1. unfold r0, update_item, with_progress, with_progressIndex.
      cbn [ui progressItems]. rewrite !map_at_lookup.
      destruct (progressItems (ui r) !! idx); cbn; [|reflexivity].
      now destruct (decide (idx = i)). }
    destruct (bool_decide (0 < successCount t)%nat) eqn:Epos;
      destruct (bool_decide (successCount t = length (facesToApply selections p))) eqn:Eall;
      cbn [mret completion_ret]; eexists; (split; [reflexivity|]);
      unfold update_item, with_progress, with_subProgress, without_person;
      cbn [ui sent progressItems cancelRef bulkApplying];
      (split; [exact Hs1|]); (split; [exact Hc1|]); (split; [exact Hb1|]);
      intros idx; rewrite Hlook;
      destruct (progressItems (ui r) !! idx); cbn; try reflexivity;
      destruct (decide (idx = i)); reflexivity.
Qed.

Lemma assign_apply_loop_cancelled (script : Script) (selections : gmap Z (gset string))
    (i : nat) (todo : list PersonApplyPreview.t) (r : Run) :
  cancelRef (ui r) = true -> apply_loop script selections i todo r = Normal r.
Proof. intros Hc. destruct todo; cbn [apply_loop]; [reflexivity|]. now rewrite Hc. Qed.

Lemma assign_apply_loop_spec (script : Script) (selections : gmap Z (gset string))
    (todo : list PersonApplyPreview.t) :
  forall (i : nat) (r : Run),
    cancelRef (ui r) = false -> bulkApplying (ui r) = true ->
    exists r', apply_loop script selections i todo r = Normal r'
      /\ sent r' = sent r ++ requests script selections i todo
      /\ bulkApplying (ui r') = true
      /\ forall idx, progressItems (ui r') !! idx
           = (if decide (i <= idx < i + processed script selections i todo)%nat
              then match todo !! (idx - i)%nat with
                   | Some p => verdict (script idx) selections p
                   | None => id
                   end
              else id)
               <$> progressItems (ui r) !! idx.
Proof.
  induction todo as [|p rest IH]; intros i r Hc Hb.
  - exists r. cbn. split; [reflexivity|]. split; [now rewrite app_nil_r|].
    split; [exact Hb|]. intros idx.
    destruct (decide (i <= idx < i + 0)%nat); [lia|]. now destruct (_ !! idx).
  - cbn [apply_loop processed requests]. rewrite Hc.
    destruct (assign_apply_item_spec (script i) selections i p r Hc Hb)
      as (r1 & E1 & Hs1 & Hc1 & Hb1 & Hp1).
    rewrite E1. cbn [mbind completion_bind].
    destruct (pressed (script i) 0 (length (facesToApply selections p))) eqn:Epressed.
    + exists r1. split; [now apply assign_apply_loop_cancelled|].
      split; [now rewrite app_nil_r|]. split; [exact Hb1|].
      intros idx. rewrite Hp1.
      destruct (decide (idx = i)) as [->|Hne];
        destruct (decide (_ <= _ < _)%nat); try lia; [|reflexivity].
      now rewrite Nat.sub_diag.
    + destruct (IH (S i) r1 Hc1 Hb1) as (r2 & E2 & Hs2 & Hb2 & Hp2).
      exists r2. split; [exact E2|].
      split; [rewrite Hs2, Hs1, <- app_assoc; reflexivity|].
      split; [exact Hb2|].
      intros idx. rewrite Hp2, Hp1.
      destruct (progressItems (ui r) !! idx); cbn; [|reflexivity].
      destruct (decide (idx = i)) as [->|Hne].
      * rewrite Nat.sub_diag. cbn [lookup list_lookup].
        repeat destruct (decide (_ <= _ < _)%nat); try lia; reflexivity.
      * repeat destruct (decide (_ <= _ < _)%nat); try lia; try reflexivity.
        replace (idx - i)%nat with (S (idx - S i)) by lia. reflexivity.
Qed.

Lemma assign_tally_step_count (answer : settled ApplyUnclusteredResult.t) (t : Tally) :
  successCount (tally_step answer t)
  = (successCount t + (if face_succeeded answer then 1 else 0))%nat.
Proof.
  destruct answer as [result|err]; cbn; [|lia].
  destruct (0 <? ApplyUnclusteredResult.faces_assigned_count result); cbn; [lia|].
  destruct (0 <? ApplyUnclusteredResult.failed_count result); cbn; lia.
Qed.

Lemma assign_tally_after_count (script : nat -> settled ApplyUnclusteredResult.t * bool) (n : nat) :
  forall (j : nat) (t : Tally),
    (successCount t <= successCount (tally_after script j n t))%nat.
Proof.
  induction n as [|n IH]; intros j t; cbn [tally_after]; [lia|].
  pose proof (assign_tally_step_count (fst (script j)) t) as Hstep.
  destruct (snd (script j)); [lia|].
  specialize (IH (S j) (tally_step (fst (script j)) t)). lia.
Qed.

(** An item never ends in another state than success or error; it ends in
    error only if it had a face to send and the first request, which is
    always sent, did not succeed. *)
Lemma assign_verdict_status (script : nat -> settled ApplyUnclusteredResult.t * bool)
    (selections : gmap Z (gset string)) (p : PersonApplyPreview.t) (item : ProgressItem.t) :
  terminal (ProgressItem.status (verdict script selections p item))
  /\ (ProgressItem.status (verdict script selections p item) = Status.error ->
        facesToApply selections p <> []
        /\ face_succeeded (fst (script 0%nat)) = false
        /\ exists msg, ProgressItem.error (verdict script selections p item) = Some msg).
Proof.
  unfold verdict, terminal.
  destruct (bool_decide (length (facesToApply selections p) = 0%nat)) eqn:Ezero;
    [cbn; split; [now left|discriminate]|].
  apply bool_decide_eq_false in Ezero.
  destruct (bool_decide (successCount _ = _)) eqn:Eall;
    [cbn; split; [now left|discriminate]|].
  destruct (bool_decide (0 < successCount _)%nat) eqn:Epos;
    [cbn; split; [now left|discriminate]|].
  apply bool_decide_eq_false in Epos. cbn. split; [now right|]. intros _.
  split; [intros Hnil; now rewrite Hnil in Ezero|]. split; [|eauto].
  destruct (length (facesToApply selections p)) as [|n] eqn:En; [congruence|].
  cbn [tally_after] in Epos.
  pose proof (assign_tally_step_count (fst (script 0%nat)) (mkTally 0 None)) as Hstep.
  pose proof (assign_tally_after_count script n 1
                (tally_step (fst (script 0%nat)) (mkTally 0 None))) as Hmono.
  cbn [successCount] in Hstep.
  destruct (face_succeeded (fst (script 0%nat))); [|reflexivity].
  destruct (snd (script 0%nat)); lia.
Qed.

Lemma assign_processed_cancel_at (script : Script) (selections : gmap Z (gset string))
    (todo : list PersonApplyPreview.t) :
  forall (i k : nat) (pk : PersonApplyPreview.t),
    todo !! k = Some pk ->
    (forall j p, (j < k)%nat -> todo !! j = Some p ->
       pressed (script (i + j)%nat) 0 (length (facesToApply selections p)) = false) ->
    pressed (script (i + k)%nat) 0 (length (facesToApply selections pk)) = true ->
    processed script selections i todo = S k.
Proof.
  induction todo as [|p rest IH]; intros i k pk Hk Hbefore Hat; [discriminate|].
  cbn [processed]. destruct k as [|k].
  - injection Hk as ->. rewrite Nat.add_0_r in Hat. now rewrite Hat.
  - rewrite <- (Nat.add_0_r i) at 1.
    rewrite (Hbefore 0%nat p) by (try lia; reflexivity).
    f_equal. apply (IH (S i) k pk); [exact Hk| |].
    + intros j q Hj Hq. replace (S i + j)%nat with (i + S j)%nat by lia.
      apply Hbefore; [lia|exact Hq].
    + now replace (S i + k)%nat with (i + S k)%nat by lia.
Qed.

Lemma assign_processed_no_cancel (script : Script) (selections : gmap Z (gset string))
    (todo : list PersonApplyPreview.t) :
  forall i : nat,
    (forall j p, todo !! j = Some p ->
       pressed (script (i + j)%nat) 0 (length (facesToApply selections p)) = false) ->
    processed script selections i todo = length todo.
Proof.
  induction todo as [|p rest IH]; intros i Hnone; [reflexivity|].
  cbn [processed length]. rewrite <- (Nat.add_0_r i) at 1.
  rewrite (Hnone 0%nat p) by reflexivity. f_equal. apply IH.
  intros j q Hq. replace (S i + j)%nat with (i + S j)%nat by lia. now apply Hnone.
Qed.

Lemma assign_tally_count (script : nat -> settled ApplyUnclusteredResult.t * bool) (n : nat) :
  forall (j : nat) (t : Tally),
    successCount (tally_after script j n t)
    = (successCount t
       + length (List.filter (fun j' => face_succeeded (fst (script j')))
                   (seq j (attempted script j n))))%nat.
Proof.
  induction n as [|n IH]; intros j t; cbn [tally_after attempted]; [cbn; lia|].
  pose proof (assign_tally_step_count (fst (script j)) t) as Hstep.
  destruct (snd (script j)).
  - cbn [seq List.filter]. destruct (face_succeeded (fst (script j))); cbn [length]; lia.
  - rewrite IH. cbn [seq List.filter].
    destruct (face_succeeded (fst (script j))); cbn [length]; lia.
Qed.

Lemma assign_attempted_spec (script : nat -> settled ApplyUnclusteredResult.t * bool) (n : nat) :
  forall j0 : nat,
    (attempted script j0 n <= n)%nat
    /\ (pressed script j0 n = false -> attempted script j0 n = n)
    /\ (pressed script j0 n = true ->
          exists j, attempted script j0 n = S j /\ (j < n)%nat
            /\ snd (script (j0 + j)%nat) = true
            /\ forall j', (j' < j)%nat -> snd (script (j0 + j')%nat) = false).
Proof.
  induction n as [|n IH]; intros j0; cbn [attempted pressed].
  - split; [lia|]. split; [reflexivity|discriminate].
  - destruct (IH (S j0)) as (Hle & Hno & Hyes).
    destruct (snd (script j0)) eqn:E; cbn [orb].
    + split; [lia|]. split; [discriminate|]. intros _. exists 0%nat.
      rewrite Nat.add_0_r. split; [reflexivity|]. split; [lia|]. split; [exact E|].
      intros j' Hj'. lia.
    + split; [lia|]. split; [intros Hp; now rewrite Hno|].
      intros Hp. destruct (Hyes Hp) as (j & Ha & Hj & Hs & Hbefore).
      exists (S j). rewrite Ha. split; [reflexivity|]. split; [lia|].
      split; [now replace (j0 + S j)%nat with (S j0 + j)%nat by lia|].
      intros j' Hj'. destruct j' as [|j']; [now rewrite Nat.add_0_r|].
      replace (j0 + S j')%nat with (S j0 + j')%nat by lia. apply Hbefore. lia.
Qed.

(** The record of an item, from the number of its requests that succeeded. *)
Lemma assign_verdict_report (script : nat -> settled ApplyUnclusteredResult.t * bool)
    (selections : gmap Z (gset string)) (p : PersonApplyPreview.t) (item : ProgressItem.t) :
  let n := length (facesToApply selections p) in
  let a := attempted script 0 n in
  let s := length (List.filter (fun j => face_succeeded (fst (script j))) (seq 0 a)) in
  let v := verdict script selections p item in
  ProgressItem.id v = ProgressItem.id item
  /\ (s <= a <= n)%nat
  /\ (n = 0%nat \/ s = n ->
        ProgressItem.status v = Status.success
        /\ ProgressItem.name v = ProgressItem.name item
        /\ ProgressItem.error v = ProgressItem.error item)
  /\ ((0 < s < n)%nat ->
        ProgressItem.status v = Status.success
        /\ ProgressItem.name v = partial_name p s n
        /\ ProgressItem.error v = ProgressItem.error item)
  /\ (ProgressItem.status v = Status.error <-> n <> 0%nat /\ s = 0%nat)
  /\ (ProgressItem.status v = Status.error ->
        ProgressItem.name v = ProgressItem.name item
        /\ exists msg, ProgressItem.error v = Some msg)
  /\ (s = 0%nat
      <-> forall j, (j < a)%nat -> face_succeeded (fst (script j)) = false).
Proof.
  cbv zeta.
  pose proof (filter_seq_length_le (fun j => face_succeeded (fst (script j))) 0
                (attempted script 0 (length (facesToApply selections p)))) as Hsa.
  destruct (assign_attempted_spec script (length (facesToApply selections p)) 0)
    as (Han & _ & _).
  pose proof (filter_seq_none_iff (fun j => face_succeeded (fst (script j)))
                (attempted script 0 (length (facesToApply selections p))) 0) as Hnone.
  cbn [Nat.add] in Hnone.
  unfold verdict.
  rewrite (assign_tally_count script (length (facesToApply selections p)) 0 (mkTally 0 None)).
  cbn [successCount Nat.add].
  set (n := length (facesToApply selections p)) in *.
  set (s := length (List.filter _ _)) in *.
  destruct (bool_decide (n = 0%nat)) eqn:Ezero.
  { apply bool_decide_eq_true in Ezero. cbn.
    split; [reflexivity|]. split; [lia|]. split; [intros _; repeat split|].
    split; [intros Hs; lia|]. split; [split; [discriminate|intros [? _]; lia]|].
    split; [discriminate|exact Hnone]. }
  apply bool_decide_eq_false in Ezero.
  destruct (bool_decide (s = n)) eqn:Eall.
  { apply bool_decide_eq_true in Eall. cbn.
    split; [reflexivity|]. split; [lia|]. split; [intros _; repeat split|].
    split; [intros Hs; lia|]. split; [split; [discriminate|intros [_ ?]; lia]|].
    split; [discriminate|exact Hnone]. }
  apply bool_decide_eq_false in Eall.
  destruct (bool_decide (0 < s)%nat) eqn:Epos.
  { apply bool_decide_eq_true in Epos. cbn.
    split; [reflexivity|]. split; [lia|]. split; [intros [?|?]; lia|].
    split; [intros _; repeat split|]. split; [split; [discriminate|intros [_ ?]; lia]|].
    split; [discriminate|exact Hnone]. }
  apply bool_decide_eq_false in Epos. cbn.
  split; [reflexivity|]. split; [lia|]. split; [intros [?|?]; lia|].
  split; [intros Hs; lia|]. split; [split; [intros _; split; [exact Ezero|lia]|reflexivity]|].
  split; [intros _; split; [reflexivity|eauto]|exact Hnone].
Qed.

End AssignFacesLoop.

(** ** Create Faces: the bulk loop *)

Section CreateFacesLoop.
Context `{JS.Platform}.
Import JS UnrecognizedPersonPreview CreateFaces.

Lemma create_apply_face_spec (answer : settled CreateFacesResult.t * bool) (total j : nat)
    (p : UnrecognizedPersonPreview.t) (f : UnrecognizedFacePreview.t) (t : Tally) (r : Run) :
  exists r', apply_face answer total j p f t r = Normal (tally_step (fst answer) t, r')
    /\ sent r' = sent r ++ [(fun f => request_of p [f]) f]
    /\ cancelRef (ui r')
       = (if snd answer then (if bulkApplying (ui r) then true else cancelRef (ui r))
          else cancelRef (ui r))
    /\ bulkApplying (ui r') = bulkApplying (ui r)
    /\ progressItems (ui r') = progressItems (ui r).
Proof.
  destruct answer as [[result|err] pressed]; unfold apply_face, call_createFaces;
    cbn [fst snd await try_catch mbind completion_bind mret completion_ret tally_step].
  - destruct (CreateFacesResult.success result);
      eexists; (split; [reflexivity|]); destruct pressed; cbn; repeat split.
  - eexists; (split; [reflexivity|]); destruct pressed; cbn; repeat split.
Qed.

Lemma create_faces_loop_spec (script : nat -> settled CreateFacesResult.t * bool) (total : nat)
    (p : UnrecognizedPersonPreview.t) (todo : list UnrecognizedFacePreview.t) :
  forall (j : nat) (t : Tally) (r : Run),
    cancelRef (ui r) = false -> bulkApplying (ui r) = true ->
    exists r', faces_loop script total j p todo t r
               = Normal (tally_after script j (length todo) t, r')
      /\ sent r' = sent r ++ ((fun f => request_of p [f]) <$> take (attempted script j (length todo)) todo)
      /\ cancelRef (ui r') = pressed script j (length todo)
      /\ bulkApplying (ui r') = true
      /\ progressItems (ui r') = progressItems (ui r).
Proof.
  induction todo as [|f rest IH]; intros j t r Hc Hb.
  - exists r. cbn. rewrite app_nil_r. repeat split; assumption.
  - cbn [faces_loop length attempted tally_after pressed]. rewrite Hc.
    destruct (create_apply_face_spec (script j) total j p f t r)
      as (r1 & E1 & Hs1 & Hc1 & Hb1 & Hp1).
    rewrite E1. cbn [mbind completion_bind]. rewrite Hb, Hc in Hc1. rewrite Hb in Hb1.
    destruct (snd (script j)) eqn:Epressed.
    + exists r1. split.
      { destruct rest; cbn [faces_loop]; [reflexivity|]. now rewrite Hc1. }
      cbn [take fmap list_fmap orb]. repeat split; assumption.
    + destruct (IH (S j) (tally_step (fst (script j)) t) r1 Hc1 Hb1)
        as (r2 & E2 & Hs2 & Hc2 & Hb2 & Hp2).
      exists r2. split; [exact E2|].
      split; [rewrite Hs2, Hs1, <- app_assoc; reflexivity|].
      split; [exact Hc2|]. split; [exact Hb2|]. now rewrite Hp2.
Qed.

Lemma create_set_status_twice (st : Status.t) (item : ProgressItem.t) :
  set_status st (set_status Status.processing item) = set_status st item.
Proof. reflexivity. Qed.

Lemma create_apply_item_spec (script : nat -> settled CreateFacesResult.t * bool)
    (selections : gmap Z (gset string)) (i : nat) (p : UnrecognizedPersonPreview.t) (r : Run) :
  cancelRef (ui r) = false -> bulkApplying (ui r) = true ->
  exists r', apply_item script selections i p r = Normal r'
    /\ sent r' = sent r ++ item_requests script selections p
    /\ cancelRef (ui r') = pressed script 0 (length (facesToApply selections p))
    /\ bulkApplying (ui r') = true
    /\ forall idx, progressItems (ui r') !! idx
         = (if decide (idx = i) then verdict script selections p else id)
             <$> progressItems (ui r) !! idx.
Proof.
  intros Hc Hb. unfold apply_item, verdict, item_requests.
  destruct (bool_decide (length (facesToApply selections p) = 0%nat)) eqn:Ezero.
  - apply bool_decide_eq_true in Ezero. rewrite Ezero.
    eexists. split; [reflexivity|]. cbn. rewrite app_nil_r.
    repeat (split; [first [reflexivity | assumption]|]).
    intros idx. rewrite map_at_lookup.
    destruct (progressItems (ui r) !! idx); cbn; [|reflexivity].
    now destruct (decide (idx = i)).
  - set (r0 := update_item i (set_status Status.processing)
                 (mkRun (with_progressIndex i (ui r)) (sent r))).
    destruct (create_faces_loop_spec script (length (facesToApply selections p)) p
                (facesToApply selections p) 0 (mkTally 0 None) r0 Hc Hb)
      as (r1 & E1 & Hs1 & Hc1 & Hb1 & Hp1).
    rewrite E1. cbn [mbind completion_bind].
    set (t := tally_after script 0 (length (facesToApply selections p)) (mkTally 0 None)) in *.
    assert (Hlook : forall f idx,
              map_at i f (progressItems (ui r1)) !! idx
              = (if decide (idx = i)
                 then fun x => f (set_status Status.processing x) else id)
                  <$> progressItems (ui r) !! idx).
    { intros f idx. rewrite Hp1. unfold r0, update_item, with_progress, with_progressIndex.
      cbn [ui progressItems]. rewrite !map_at_lookup.
      destruct (progressItems (ui r) !! idx); cbn; [|reflexivity].
      now destruct (decide (idx = i)). }
    destruct (bool_decide (0 < successCount t)%nat) eqn:Epos;
      destruct (bool_decide (successCount t = length (facesToApply selections p))) eqn:Eall;
      cbn [mret completion_ret]; eexists; (split; [reflexivity|]);
      unfold update_item, with_progress, with_subProgress, applied_person;
      cbn [ui sent progressItems cancelRef bulkApplying];
      (split; [exact Hs1|]); (split; [exact Hc1|]); (split; [exact Hb1|]);
      intros idx; rewrite Hlook;
      destruct (progressItems (ui r) !! idx); cbn; try reflexivity;
      destruct (decide (idx = i)); reflexivity.
Qed.

Lemma create_apply_loop_cancelled (script : Script) (selections : gmap Z (gset string))
    (i : nat) (todo : list UnrecognizedPersonPreview.t) (r : Run) :
  cancelRef (ui r) = true -> apply_loop script selections i todo r = Normal r.
Proof. intros Hc. destruct todo; cbn [apply_loop]; [reflexivity|]. now rewrite Hc. Qed.

Lemma create_apply_loop_spec (script : Script) (selections : gmap Z (gset string))
    (todo : list UnrecognizedPersonPreview.t) :
  forall (i : nat) (r : Run),
    cancelRef (ui r) = false -> bulkApplying (ui r) = true ->
    exists r', apply_loop script selections i todo r = Normal r'
      /\ sent r' = sent r ++ requests script selections i todo
      /\ bulkApplying (ui r') = true
      /\ forall idx, progressItems (ui r') !! idx
           = (if decide (i <= idx < i + processed script selections i todo)%nat
              then match todo !! (idx - i)%nat with
                   | Some p => verdict (script idx) selections p
                   | None => id
                   end
              else id)
               <$> progressItems (ui r) !! idx.
Proof.
  induction todo as [|p rest IH]; intros i r Hc Hb.
  - exists r. cbn. split; [reflexivity|]. split; [now rewrite app_nil_r|].
    split; [exact Hb|]. intros idx.
    destruct (decide (i <= idx < i + 0)%nat); [lia|]. now destruct (_ !! idx).
  - cbn [apply_loop processed requests]. rewrite Hc.
    destruct (create_apply_item_spec (script i) selections i p r Hc Hb)
      as (r1 & E1 & Hs1 & Hc1 & Hb1 & Hp1).
    rewrite E1. cbn [mbind completion_bind].
    destruct (pressed (script i) 0 (length (facesToApply selections p))) eqn:Epressed.
    + exists r1. split; [now apply create_apply_loop_cancelled|].
      split; [now rewrite app_nil_r|]. split; [exact Hb1|].
      intros idx. rewrite Hp1.
      destruct (decide (idx = i)) as [->|Hne];
        destruct (decide (_ <= _ < _)%nat); try lia; [|reflexivity].
      now rewrite Nat.sub_diag.
    + destruct (IH (S i) r1 Hc1 Hb1) as (r2 & E2 & Hs2 & Hb2 & Hp2).
      exists r2. split; [exact E2|].
      split; [rewrite Hs2, Hs1, <- app_assoc; reflexivity|].
      split; [exact Hb2|].
      intros idx. rewrite Hp2, Hp1.
      destruct (progressItems (ui r) !! idx); cbn; [|reflexivity].
      destruct (decide (idx = i)) as [->|Hne].
      * rewrite Nat.sub_diag. cbn [lookup list_lookup].
        repeat destruct (decide (_ <= _ < _)%nat); try lia; reflexivity.
      * repeat destruct (decide (_ <= _ < _)%nat); try lia; try reflexivity.
        replace (idx - i)%nat with (S (idx - S i)) by lia. reflexivity.
Qed.

Lemma create_tally_step_count (answer : settled CreateFacesResult.t) (t : Tally) :
  successCount (tally_step answer t)
  = (successCount t + (if face_succeeded answer then 1 else 0))%nat.
Proof.
  destruct answer as [result|err]; cbn; [|lia].
  destruct (CreateFacesResult.success result); cbn; lia.
Qed.

Lemma create_tally_after_count (script : nat -> settled CreateFacesResult.t * bool) (n : nat) :
  forall (j : nat) (t : Tally),
    (successCount t <= successCount (tally_after script j n t))%nat.
Proof.
  induction n as [|n IH]; intros j t; cbn [tally_after]; [lia|].
  pose proof (create_tally_step_count (fst (script j)) t) as Hstep.
  destruct (snd (script j)); [lia|].
  specialize (IH (S j) (tally_step (fst (script j)) t)). lia.
Qed.

(** An item never ends in another state than success or error; it ends in
    error only if it had a face to send and the first request, which is
    always sent, did not succeed. *)
Lemma create_verdict_status (script : nat -> settled CreateFacesResult.t * bool)
    (selections : gmap Z (gset string)) (p : UnrecognizedPersonPreview.t) (item : ProgressItem.t) :
  terminal (ProgressItem.status (verdict script selections p item))
  /\ (ProgressItem.status (verdict script selections p item) = Status.error ->
        facesToApply selections p <> []
        /\ face_succeeded (fst (script 0%nat)) = false
        /\ exists msg, ProgressItem.error (verdict script selections p item) = Some msg).
Proof.
  unfold verdict, terminal.
  destruct (bool_decide (length (facesToApply selections p) = 0%nat)) eqn:Ezero;
    [cbn; split; [now left|discriminate]|].
  apply bool_decide_eq_false in Ezero.
  destruct (bool_decide (successCount _ = _)) eqn:Eall;
    [cbn; split; [now left|discriminate]|].
  destruct (bool_decide (0 < successCount _)%nat) eqn:Epos;
    [cbn; split; [now left|discriminate]|].
  apply bool_decide_eq_false in Epos. cbn. split; [now right|]. intros _.
  split; [intros Hnil; now rewrite Hnil in Ezero|]. split; [|eauto].
  destruct (length (facesToApply selections p)) as [|n] eqn:En; [congruence|].
  cbn [tally_after] in Epos.
  pose proof (create_tally_step_count (fst (script 0%nat)) (mkTally 0 None)) as Hstep.
  pose proof (create_tally_after_count script n 1
                (tally_step (fst (script 0%nat)) (mkTally 0 None))) as Hmono.
  cbn [successCount] in Hstep.
  destruct (face_succeeded (fst (script 0%nat))); [|reflexivity].
  destruct (snd (script 0%nat)); lia.
Qed.

Lemma create_processed_cancel_at (script : Script) (selections : gmap Z (gset string))
    (todo : list UnrecognizedPersonPreview.t) :
  forall (i k : nat) (pk : UnrecognizedPersonPreview.t),
    todo !! k = Some pk ->
    (forall j p, (j < k)%nat -> todo !! j = Some p ->
       pressed (script (i + j)%nat) 0 (length (facesToApply selections p)) = false) ->
    pressed (script (i + k)%nat) 0 (length (facesToApply selections pk)) = true ->
    processed script selections i todo = S k.
Proof.
  induction todo as [|p rest IH]; intros i k pk Hk Hbefore Hat; [discriminate|].
  cbn [processed]. destruct k as [|k].
  - injection Hk as ->. rewrite Nat.add_0_r in Hat. now rewrite Hat.
  - rewrite <- (Nat.add_0_r i) at 1.
    rewrite (Hbefore 0%nat p) by (try lia; reflexivity).
    f_equal. apply (IH (S i) k pk); [exact Hk| |].
    + intros j q Hj Hq. replace (S i + j)%nat with (i + S j)%nat by lia.
      apply Hbefore; [lia|exact Hq].
    + now replace (S i + k)%nat with (i + S k)%nat by lia.
Qed.

Lemma create_processed_no_cancel (script : Script) (selections : gmap Z (gset string))
    (todo : list UnrecognizedPersonPreview.t) :
  forall i : nat,
    (forall j p, todo !! j = Some p ->
       pressed (script (i + j)%nat) 0 (length (facesToApply selections p)) = false) ->
    processed script selections i todo = length todo.
Proof.
  induction todo as [|p rest IH]; intros i Hnone; [reflexivity|].
  cbn [processed length]. rewrite <- (Nat.add_0_r i) at 1.
  rewrite (Hnone 0%nat p) by reflexivity. f_equal. apply IH.
  intros j q Hq. replace (S i + j)%nat with (i + S j)%nat by lia. now apply Hnone.
Qed.

Lemma create_tally_count (script : nat -> settled CreateFacesResult.t * bool) (n : nat) :
  forall (j : nat) (t : Tally),
    successCount (tally_after script j n t)
    = (successCount t
       + length (List.filter (fun j' => face_succeeded (fst (script j')))
                   (seq j (attempted script j n))))%nat.
Proof.
  induction n as [|n IH]; intros j t; cbn [tally_after attempted]; [cbn; lia|].
  pose proof (create_tally_step_count (fst (script j)) t) as Hstep.
  destruct (snd (script j)).
  - cbn [seq List.filter]. destruct (face_succeeded (fst (script j))); cbn [length]; lia.
  - rewrite IH. cbn [seq List.filter].
    destruct (face_succeeded (fst (script j))); cbn [length]; lia.
Qed.

Lemma create_attempted_spec (script : nat -> settled CreateFacesResult.t * bool) (n : nat) :
  forall j0 : nat,
    (attempted script j0 n <= n)%nat
    /\ (pressed script j0 n = false -> attempted script j0 n = n)
    /\ (pressed script j0 n = true ->
          exists j, attempted script j0 n = S j /\ (j < n)%nat
            /\ snd (script (j0 + j)%nat) = true
            /\ forall j', (j' < j)%nat -> snd (script (j0 + j')%nat) = false).
Proof.
  induction n as [|n IH]; intros j0; cbn [attempted pressed].
  - split; [lia|]. split; [reflexivity|discriminate].
  - destruct (IH (S j0)) as (Hle & Hno & Hyes).
    destruct (snd (script j0)) eqn:E; cbn [orb].
    + split; [lia|]. split; [discriminate|]. intros _. exists 0%nat.
      rewrite Nat.add_0_r. split; [reflexivity|]. split; [lia|]. split; [exact E|].
      intros j' Hj'. lia.
    + split; [lia|]. split; [intros Hp; now rewrite Hno|].
      intros Hp. destruct (Hyes Hp) as (j & Ha & Hj & Hs & Hbefore).
      exists (S j). rewrite Ha. split; [reflexivity|]. split; [lia|].
      split; [now replace (j0 + S j)%nat with (S j0 + j)%nat by lia|].
      intros j' Hj'. destruct j' as [|j']; [now rewrite Nat.add_0_r|].
      replace (j0 + S j')%nat with (S j0 + j')%nat by lia. apply Hbefore. lia.
Qed.

(** The record of an item, from the number of its requests that succeeded. *)
Lemma create_verdict_report (script : nat -> settled CreateFacesResult.t * bool)
    (selections : gmap Z (gset string)) (p : UnrecognizedPersonPreview.t) (item : ProgressItem.t) :
  let n := length (facesToApply selections p) in
  let a := attempted script 0 n in
  let s := length (List.filter (fun j => face_succeeded (fst (script j))) (seq 0 a)) in
  let v := verdict script selections p item in
  ProgressItem.id v = ProgressItem.id item
  /\ (s <= a <= n)%nat
  /\ (n = 0%nat \/ s = n ->
        ProgressItem.status v = Status.success
        /\ ProgressItem.name v = ProgressItem.name item
        /\ ProgressItem.error v = ProgressItem.error item)
  /\ ((0 < s < n)%nat ->
        ProgressItem.status v = Status.success
        /\ ProgressItem.name v = partial_name p s n
        /\ ProgressItem.error v = ProgressItem.error item)
  /\ (ProgressItem.status v = Status.error <-> n <> 0%nat /\ s = 0%nat)
  /\ (ProgressItem.status v = Status.error ->
        ProgressItem.name v = ProgressItem.name item
        /\ exists msg, ProgressItem.error v = Some msg)
  /\ (s = 0%nat
      <-> forall j, (j < a)%nat -> face_succeeded (fst (script j)) = false).
Proof.
  cbv zeta.
  pose proof (filter_seq_length_le (fun j => face_succeeded (fst (script j))) 0
                (attempted script 0 (length (facesToApply selections p)))) as Hsa.
  destruct (create_attempted_spec script (length (facesToApply selections p)) 0)
    as (Han & _ & _).
  pose proof (filter_seq_none_iff (fun j => face_succeeded (fst (script j)))
                (attempted script 0 (length (facesToApply selections p))) 0) as Hnone.
  cbn [Nat.add] in Hnone.
  unfold verdict.
  rewrite (create_tally_count script (length (facesToApply selections p)) 0 (mkTally 0 None)).
  cbn [successCount Nat.add].
  set (n := length (facesToApply selections p)) in *.
  set (s := length (List.filter _ _)) in *.
  destruct (bool_decide (n = 0%nat)) eqn:Ezero.
  { apply bool_decide_eq_true in Ezero. cbn.
    split; [reflexivity|]. split; [lia|]. split; [intros _; repeat split|].
    split; [intros Hs; lia|]. split; [split; [discriminate|intros [? _]; lia]|].
    split; [discriminate|exact Hnone]. }
  apply bool_decide_eq_false in Ezero.
  destruct (bool_decide (s = n)) eqn:Eall.
  { apply bool_decide_eq_true in Eall. cbn.
    split; [reflexivity|]. split; [lia|]. split; [intros _; repeat split|].
    split; [intros Hs; lia|]. split; [split; [discriminate|intros [_ ?]; lia]|].
    split; [discriminate|exact Hnone]. }
  apply bool_decide_eq_false in Eall.
  destruct (bool_decide (0 < s)%nat) eqn:Epos.
  { apply bool_decide_eq_true in Epos. cbn.
    split; [reflexivity|]. split; [lia|]. split; [intros [?|?]; lia|].
    split; [intros _; repeat split|]. split; [split; [discriminate|intros [_ ?]; lia]|].
    split; [discriminate|exact Hnone]. }
  apply bool_decide_eq_false in Epos. cbn.
  split; [reflexivity|]. split; [lia|]. split; [intros [?|?]; lia|].
  split; [intros Hs; lia|]. split; [split; [intros _; split; [exact Ezero|lia]|reflexivity]|].
  split; [intros _; split; [reflexivity|eauto]|exact Hnone].
Qed.

End CreateFacesLoop.

(** ** Where the loops stop *)

Section StoppingPoints.
Context `{JS.Platform}.
Import JS.

Lemma rename_processed_cancel_at (script : TransferNames.Script) (n : nat) :
  forall i k : nat,
    (k < n)%nat ->
    (forall j, (j < k)%nat -> snd (script (i + j)%nat) = false) ->
    snd (script (i + k)%nat) = true ->
    TransferNames.processed script i n = S k.
Proof.
  induction n as [|n IH]; intros i k Hk Hbefore Hat; [lia|].
  cbn [TransferNames.processed]. destruct k as [|k].
  - rewrite Nat.add_0_r in Hat. now rewrite Hat.
  - rewrite <- (Nat.add_0_r i) at 1. rewrite (Hbefore 0%nat) by lia.
    f_equal. apply IH; [lia| |].
    + intros j Hj. replace (S i + j)%nat with (i + S j)%nat by lia. apply Hbefore. lia.
    + now replace (S i + k)%nat with (i + S k)%nat by lia.
Qed.

Lemma rename_processed_no_cancel (script : TransferNames.Script) (n : nat) :
  forall i : nat,
    (forall j, (j < n)%nat -> snd (script (i + j)%nat) = false) ->
    TransferNames.processed script i n = n.
Proof.
  induction n as [|n IH]; intros i Hnone; [reflexivity|].
  cbn [TransferNames.processed]. rewrite <- (Nat.add_0_r i) at 1.
  rewrite (Hnone 0%nat) by lia. f_equal. apply IH.
  intros j Hj. replace (S i + j)%nat with (i + S j)%nat by lia. apply Hnone. lia.
Qed.

Lemma rename_verdict_status (answer : settled ApplyResult.t) (item : ProgressItem.t) :
  let v := TransferNames.verdict answer item in
  ProgressItem.id v = ProgressItem.id item
  /\ ProgressItem.name v = ProgressItem.name item
  /\ (TransferNames.succeeded answer = true ->
        ProgressItem.status v = Status.success
        /\ ProgressItem.error v = ProgressItem.error item)
  /\ (TransferNames.succeeded answer = false ->
        ProgressItem.status v = Status.error
        /\ ProgressItem.error v = Some (TransferNames.failure_message answer)).
Proof.
  unfold TransferNames.verdict. destruct (TransferNames.succeeded answer); cbn;
    repeat split; intros; congruence.
Qed.

Lemma assign_requests_concat (script : AssignFaces.Script)
    (selections : gmap Z (gset string)) (todo : list PersonApplyPreview.t) :
  forall i : nat,
    AssignFaces.requests script selections i todo
    = concat (imap (fun j p => AssignFaces.item_requests (script (i + j)%nat) selections p)
                (take (AssignFaces.processed script selections i todo) todo)).
Proof.
  induction todo as [|p rest IH]; intros i; [reflexivity|].
  cbn [AssignFaces.requests AssignFaces.processed take imap concat].
  rewrite Nat.add_0_r. f_equal.
  destruct (AssignFaces.pressed (script i) 0 _); [reflexivity|].
  rewrite IH. f_equal. apply imap_ext. intros j q _. cbn. now rewrite Nat.add_succ_r.
Qed.

Lemma create_requests_concat (script : CreateFaces.Script)
    (selections : gmap Z (gset string)) (todo : list UnrecognizedPersonPreview.t) :
  forall i : nat,
    CreateFaces.requests script selections i todo
    = concat (imap (fun j p => CreateFaces.item_requests (script (i + j)%nat) selections p)
                (take (CreateFaces.processed script selections i todo) todo)).
Proof.
  induction todo as [|p rest IH]; intros i; [reflexivity|].
  cbn [CreateFaces.requests CreateFaces.processed take imap concat].
  rewrite Nat.add_0_r. f_equal.
  destruct (CreateFaces.pressed (script i) 0 _); [reflexivity|].
  rewrite IH. f_equal. apply imap_ext. intros j q _. cbn. now rewrite Nat.add_succ_r.
Qed.

End StoppingPoints.

(** ** The bulk paths as a whole *)

Section BulkPaths.
Context `{JS.Platform}.
Import JS.

Lemma rename_applySelected_spec (script : TransferNames.Script) (r : TransferNames.Run) :
  let todo := TransferNames.matchesToApply r in
  let n := TransferNames.processed script 0 (length todo) in
  exists r', TransferNames.applySelected script r = Normal r'
    /\ TransferNames.sent r'
       = TransferNames.sent r ++ (TransferNames.request_of <$> take n todo)
    /\ (todo = [] -> r' = r)
    /\ (todo <> [] ->
        forall idx, TransferNames.progressItems (TransferNames.ui r') !! idx
          = (if decide (idx < n)%nat then TransferNames.verdict (fst (script idx)) else id)
              <$> (TransferNames.pending_item <$> todo !! idx)).
Proof.
  cbv zeta. unfold TransferNames.applySelected.
  destruct (bool_decide (length (TransferNames.matchesToApply r) = 0%nat)) eqn:E.
  - apply bool_decide_eq_true in E. exists r. split; [reflexivity|].
    destruct (TransferNames.matchesToApply r); [|discriminate].
    cbn. rewrite app_nil_r. split; [reflexivity|]. split; [reflexivity|].
    intros Hne. now contradiction Hne.
  - apply bool_decide_eq_false in E.
    destruct (apply_loop_spec script (TransferNames.matchesToApply r) 0
                (TransferNames.mkRun (TransferNames.ctx r)
                   (TransferNames.start_progress (TransferNames.matchesToApply r)
                      (TransferNames.ui r))
                   (TransferNames.sent r))
                eq_refl eq_refl) as (r1 & E1 & Hs & _ & Hp).
    rewrite E1. cbn [mbind completion_bind mret completion_ret].
    eexists. split; [reflexivity|]. split; [exact Hs|].
    split; [intros Hnil; rewrite Hnil in E; now contradiction E|].
    intros _ idx. cbn [TransferNames.ui TransferNames.with_bulkApplying
                         TransferNames.progressItems].
    rewrite Hp. cbn [TransferNames.ui TransferNames.start_progress
                       TransferNames.progressItems].
    rewrite list_lookup_fmap.
    repeat match goal with |- context [decide ?P] => destruct (decide P) end;
      try lia; reflexivity.
Qed.

Lemma assign_applySelected_spec (script : AssignFaces.Script) (r : AssignFaces.Run) :
  let todo := AssignFaces.previewsToApply r in
  let sel := AssignFaces.faceSelections (AssignFaces.ui r) in
  let n := AssignFaces.processed script sel 0 todo in
  exists r', AssignFaces.applySelected script r = Normal r'
    /\ AssignFaces.sent r'
       = AssignFaces.sent r
           ++ concat (imap (fun j p => AssignFaces.item_requests (script j) sel p)
                        (take n todo))
    /\ (todo = [] -> r' = r)
    /\ (todo <> [] ->
        forall idx, AssignFaces.progressItems (AssignFaces.ui r') !! idx
          = (fun p => (if decide (idx < n)%nat then AssignFaces.verdict (script idx) sel p
                       else id) (AssignFaces.pending_item sel p))
              <$> todo !! idx).
Proof.
  cbv zeta. unfold AssignFaces.applySelected.
  destruct (bool_decide (length (AssignFaces.previewsToApply r) = 0%nat)) eqn:E.
  - apply bool_decide_eq_true in E. exists r. split; [reflexivity|].
    destruct (AssignFaces.previewsToApply r); [|discriminate].
    cbn. rewrite app_nil_r. split; [reflexivity|]. split; [reflexivity|].
    intros Hne. now contradiction Hne.
  - apply bool_decide_eq_false in E.
    destruct (assign_apply_loop_spec script (AssignFaces.faceSelections (AssignFaces.ui r))
                (AssignFaces.previewsToApply r) 0
                (AssignFaces.mkRun (AssignFaces.ctx r)
                   (AssignFaces.start_progress (AssignFaces.previewsToApply r)
                      (AssignFaces.ui r))
                   (AssignFaces.sent r))
                eq_refl eq_refl) as (r1 & E1 & Hs & _ & Hp).
    rewrite E1. cbn [mbind completion_bind mret completion_ret].
    eexists. split; [reflexivity|].
    split; [rewrite Hs, assign_requests_concat; reflexivity|].
    split; [intros Hnil; rewrite Hnil in E; now contradiction E|].
    intros _ idx. cbn [AssignFaces.ui AssignFaces.finish AssignFaces.progressItems].
    rewrite Hp. cbn [AssignFaces.ui AssignFaces.start_progress AssignFaces.progressItems].
    rewrite list_lookup_fmap, Nat.sub_0_r.
    destruct (AssignFaces.previewsToApply r !! idx); cbn; [|reflexivity].
    repeat match goal with |- context [decide ?P] => destruct (decide P) end;
      try lia; reflexivity.
Qed.

Lemma create_applySelected_spec (script : CreateFaces.Script) (r : CreateFaces.Run) :
  let todo := CreateFaces.previewsToApply r in
  let sel := CreateFaces.faceSelections (CreateFaces.ui r) in
  let n := CreateFaces.processed script sel 0 todo in
  exists r', CreateFaces.applySelected script r = Normal r'
    /\ CreateFaces.sent r'
       = CreateFaces.sent r
           ++ concat (imap (fun j p => CreateFaces.item_requests (script j) sel p)
                        (take n todo))
    /\ (todo = [] -> r' = r)
    /\ (todo <> [] ->
        forall idx, CreateFaces.progressItems (CreateFaces.ui r') !! idx
          = (fun p => (if decide (idx < n)%nat then CreateFaces.verdict (script idx) sel p
                       else id) (CreateFaces.pending_item sel p))
              <$> todo !! idx).
Proof.
  cbv zeta. unfold CreateFaces.applySelected.
  destruct (bool_decide (length (CreateFaces.previewsToApply r) = 0%nat)) eqn:E.
  - apply bool_decide_eq_true in E. exists r. split; [reflexivity|].
    destruct (CreateFaces.previewsToApply r); [|discriminate].
    cbn. rewrite app_nil_r. split; [reflexivity|]. split; [reflexivity|].
    intros Hne. now contradiction Hne.
  - apply bool_decide_eq_false in E.
    destruct (create_apply_loop_spec script (CreateFaces.faceSelections (CreateFaces.ui r))
                (CreateFaces.previewsToApply r) 0
                (CreateFaces.mkRun
                   (CreateFaces.start_progress (CreateFaces.previewsToApply r)
                      (CreateFaces.ui r))
                   (CreateFaces.sent r))
                eq_refl eq_refl) as (r1 & E1 & Hs & _ & Hp).
    rewrite E1. cbn [mbind completion_bind mret completion_ret].
    eexists. split; [reflexivity|].
    split; [rewrite Hs, create_requests_concat; reflexivity|].
    split; [intros Hnil; rewrite Hnil in E; now contradiction E|].
    intros _ idx. cbn [CreateFaces.ui CreateFaces.finish CreateFaces.progressItems].
    rewrite Hp. cbn [CreateFaces.ui CreateFaces.start_progress CreateFaces.progressItems].
    rewrite list_lookup_fmap, Nat.sub_0_r.
    destruct (CreateFaces.previewsToApply r !! idx); cbn; [|reflexivity].
    repeat match goal with |- context [decide ?P] => destruct (decide P) end;
      try lia; reflexivity.
Qed.

End BulkPaths.

(** ** Cancellation *)

Section Cancellation.
Context `{JS.Platform}.
Import JS.

Lemma rename_cancel_during_processed (script : TransferNames.Script) (k n : nat) :
  (k < n)%nat -> TransferNames.cancel_during script k ->
  TransferNames.processed script 0 n = S k.
Proof.
  intros Hk [Hbefore Hat]. apply rename_processed_cancel_at; [exact Hk| |exact Hat].
  intros j Hj. now apply Hbefore.
Qed.

Lemma assign_cancel_during_processed (script : AssignFaces.Script)
    (sel : gmap Z (gset string)) (todo : list PersonApplyPreview.t) (k : nat) :
  AssignFaces.cancel_during script sel todo k ->
  AssignFaces.processed script sel 0 todo = S k /\ (k < length todo)%nat.
Proof.
  intros [Hbefore (pk & Hk & Hat)]. split.
  - apply (assign_processed_cancel_at script sel todo 0 k pk); [exact Hk| |exact Hat].
    intros j p Hj Hp. now apply Hbefore.
  - now apply lookup_lt_Some in Hk.
Qed.

(** C5, as the code has it. Cancel can only be pressed while a request is in
    flight. If it is first pressed while item k of a bulk batch of Transfer
    Names or Assign Faces is in flight, the batch ends normally, the requests
    it has sent are those of items 0..k in order, items 0..k are in a
    terminal state, items k+1.. keep their pending record untouched, and an
    item is in state error only if a request of its own did not succeed:
    cancelling marks no item as error.  In Assign Faces an item before k
    sends one request for each of its selected faces; item k sends those up
    to the face during which Cancel was pressed and skips the others; an
    item is reported from the requests it has sent: it is in state error,
    with a message and its name unchanged, exactly when it sent a request
    and none of those it sent succeeded; it is in state success with its
    name unchanged when it had no face to send or as many requests succeeded
    as it had faces; and it is in state success with the number of requests
    that succeeded and the number of its faces in its name otherwise. *)
Theorem cancel_stops_before_next_item (k : nat)
    (tn_script : TransferNames.Script) (tn : TransferNames.Run)
    (af_script : AssignFaces.Script) (af : AssignFaces.Run) :
  ((k < length (TransferNames.matchesToApply tn))%nat ->
   TransferNames.cancel_during tn_script k ->
   exists r', TransferNames.applySelected tn_script tn = Normal r'
     /\ TransferNames.sent r'
        = TransferNames.sent tn
            ++ (TransferNames.request_of <$> take (S k) (TransferNames.matchesToApply tn))
     /\ (forall idx, (idx <= k)%nat ->
           exists item,
             TransferNames.progressItems (TransferNames.ui r') !! idx = Some item
             /\ TransferNames.terminal (ProgressItem.status item)
             /\ (ProgressItem.status item = Status.error ->
                   TransferNames.succeeded (fst (tn_script idx)) = false)
             /\ (TransferNames.succeeded (fst (tn_script idx)) = true ->
                   ProgressItem.status item = Status.success
                   /\ ProgressItem.error item = None)
             /\ (TransferNames.succeeded (fst (tn_script idx)) = false ->
                   ProgressItem.status item = Status.error
                   /\ ProgressItem.error item
                      = Some (TransferNames.failure_message (fst (tn_script idx)))))
     /\ (forall idx, (k < idx)%nat ->
           TransferNames.progressItems (TransferNames.ui r') !! idx
           = TransferNames.pending_item <$> TransferNames.matchesToApply tn !! idx))
  /\ (AssignFaces.cancel_during af_script (AssignFaces.faceSelections (AssignFaces.ui af))
        (AssignFaces.previewsToApply af) k ->
      exists r', AssignFaces.applySelected af_script af = Normal r'
        /\ AssignFaces.sent r'
           = AssignFaces.sent af
               ++ concat (imap (fun j p =>
                                  AssignFaces.item_requests (af_script j)
                                    (AssignFaces.faceSelections (AssignFaces.ui af)) p)
                            (take (S k) (AssignFaces.previewsToApply af)))
        /\ (forall idx, (idx <= k)%nat ->
              exists item p,
                AssignFaces.previewsToApply af !! idx = Some p
                /\ AssignFaces.progressItems (AssignFaces.ui r') !! idx = Some item
                /\ AssignFaces.terminal (ProgressItem.status item)
                /\ (ProgressItem.status item = Status.error ->
                      AssignFaces.facesToApply
                        (AssignFaces.faceSelections (AssignFaces.ui af)) p <> []
                      /\ AssignFaces.face_succeeded (fst (af_script idx 0%nat)) = false)
                /\ ProgressItem.id item = IdNum (PersonApplyPreview.ms_person_id p)
                /\ (let sel := AssignFaces.faceSelections (AssignFaces.ui af) in
                    let todo := AssignFaces.facesToApply sel p in
                    let n := length todo in
                    let a := AssignFaces.attempted (af_script idx) 0 n in
                    let s := length (List.filter
                                       (fun j => AssignFaces.face_succeeded
                                                   (fst (af_script idx j)))
                                       (seq 0 a)) in
                    let pending := AssignFaces.pending_item sel p in
                    AssignFaces.item_requests (af_script idx) sel p
                    = AssignFaces.request_of p <$> take a todo
                    /\ (s <= a <= n)%nat
                    /\ (n <> 0%nat -> (0 < a)%nat)
                    /\ ((idx < k)%nat -> a = n)
                    /\ (idx = k ->
                          exists j, a = S j /\ (j < n)%nat
                            /\ snd (af_script k j) = true
                            /\ forall j', (j' < j)%nat -> snd (af_script k j') = false)
                    /\ (ProgressItem.status item = Status.error
                        <-> (0 < a)%nat
                            /\ forall j, (j < a)%nat ->
                                 AssignFaces.face_succeeded (fst (af_script idx j)) = false)
                    /\ (ProgressItem.status item = Status.error ->
                          ProgressItem.name item = ProgressItem.name pending
                          /\ exists msg, ProgressItem.error item = Some msg)
                    /\ (n = 0%nat \/ s = n ->
                          ProgressItem.status item = Status.success
                          /\ ProgressItem.name item = ProgressItem.name pending
                          /\ ProgressItem.error item = None)
                    /\ ((0 < s < n)%nat ->
                          ProgressItem.status item = Status.success
                          /\ ProgressItem.name item = AssignFaces.partial_name p s n
                          /\ ProgressItem.error item = None)))
        /\ (forall idx, (k < idx)%nat ->
              AssignFaces.progressItems (AssignFaces.ui r') !! idx
              = AssignFaces.pending_item (AssignFaces.faceSelections (AssignFaces.ui af))
                  <$> AssignFaces.previewsToApply af !! idx)).
Proof.
  split.
  - intros Hk Hcancel.
    destruct (rename_applySelected_spec tn_script tn) as (r' & E & Hs & _ & Hp).
    cbv zeta in Hs, Hp.
    rewrite (rename_cancel_during_processed _ _ _ Hk Hcancel) in Hs, Hp.
    assert (Hne : TransferNames.matchesToApply tn <> [])
      by (intros Hnil; rewrite Hnil in Hk; cbn in Hk; lia).
    specialize (Hp Hne).
    exists r'. split; [exact E|]. split; [exact Hs|]. split.
    + intros idx Hidx. rewrite Hp.
      destruct (lookup_lt_is_Some_2 (TransferNames.matchesToApply tn) idx) as [m Hm]; [lia|].
      rewrite Hm. cbn [fmap option_fmap option_map].
      destruct (decide (idx < S k)%nat); [|lia].
      eexists. split; [reflexivity|].
      pose proof (rename_verdict_status (fst (tn_script idx)) (TransferNames.pending_item m))
        as (_ & _ & Hok & Hko). cbv zeta in Hok, Hko.
      split.
      { destruct (TransferNames.succeeded (fst (tn_script idx))) eqn:Eok.
        - left. now apply Hok.
        - right. now apply Hko. }
      split.
      { intros Hst. destruct (TransferNames.succeeded (fst (tn_script idx))) eqn:Eok;
          [|reflexivity].
        destruct (Hok eq_refl) as [Hst' _]. congruence. }
      split; [exact Hok|exact Hko].
    + intros idx Hidx. rewrite Hp. destruct (decide (idx < S k)%nat); [lia|].
      now destruct (TransferNames.matchesToApply tn !! idx).
  - intros Hcancel.
    destruct (assign_cancel_during_processed _ _ _ _ Hcancel) as [Hproc Hk].
    destruct (assign_applySelected_spec af_script af) as (r' & E & Hs & _ & Hp).
    cbv zeta in Hs, Hp. rewrite Hproc in Hs, Hp.
    assert (Hne : AssignFaces.previewsToApply af <> [])
      by (intros Hnil; rewrite Hnil in Hk; cbn in Hk; lia).
    specialize (Hp Hne).
    exists r'. split; [exact E|]. split; [exact Hs|]. split.
    + intros idx Hidx. rewrite Hp.
      destruct (lookup_lt_is_Some_2 (AssignFaces.previewsToApply af) idx) as [p Hpv]; [lia|].
      rewrite Hpv. cbn [fmap option_fmap option_map].
      destruct (decide (idx < S k)%nat); [|lia].
      eexists _, p. split; [reflexivity|]. split; [reflexivity|].
      destruct (assign_verdict_status (af_script idx)
                  (AssignFaces.faceSelections (AssignFaces.ui af)) p
                  (AssignFaces.pending_item (AssignFaces.faceSelections (AssignFaces.ui af)) p))
        as [Hterm Herr].
      split; [exact Hterm|].
      split; [intros Hst; destruct (Herr Hst) as (H1 & H2 & _); now split|].
      pose proof (assign_verdict_report (af_script idx)
                    (AssignFaces.faceSelections (AssignFaces.ui af)) p
                    (AssignFaces.pending_item
                       (AssignFaces.faceSelections (AssignFaces.ui af)) p))
        as (Hid & Hsan & Hall & Hpart & Herr_iff & Herr_name & Hnone).
      cbv zeta in Hid, Hsan, Hall, Hpart, Herr_iff, Herr_name, Hnone.
      destruct (assign_attempted_spec (af_script idx)
                  (length (AssignFaces.facesToApply
                             (AssignFaces.faceSelections (AssignFaces.ui af)) p)) 0)
        as (_ & Hquiet & Hcut).
      cbn [Nat.add] in Hcut.
      assert (Hpos : length (AssignFaces.facesToApply
                               (AssignFaces.faceSelections (AssignFaces.ui af)) p) <> 0%nat ->
                     (0 < AssignFaces.attempted (af_script idx) 0
                            (length (AssignFaces.facesToApply
                                       (AssignFaces.faceSelections (AssignFaces.ui af)) p)))%nat).
      { generalize (length (AssignFaces.facesToApply
                              (AssignFaces.faceSelections (AssignFaces.ui af)) p)).
        intros [|m]; [congruence|]. intros _. cbn [AssignFaces.attempted]. lia. }
      split; [exact Hid|]. cbv zeta.
      split; [reflexivity|]. split; [exact Hsan|]. split; [exact Hpos|].
      split.
      { intros Hlt. apply Hquiet. destruct Hcancel as [Hbefore _].
        now apply (Hbefore idx p). }
      split.
      { intros ->. apply Hcut. destruct Hcancel as (_ & pk & Hpk & Hat).
        rewrite Hpv in Hpk. injection Hpk as <-. exact Hat. }
      split.
      { rewrite Herr_iff, Hnone. split.
        - intros [Hn Hfail]. split; [now apply Hpos|exact Hfail].
        - intros [Ha Hfail]. split; [|exact Hfail]. intros Hz. rewrite Hz in Ha.
          cbn [AssignFaces.attempted] in Ha. lia. }
      split; [exact Herr_name|]. split; [exact Hall|exact Hpart].
    + intros idx Hidx. rewrite Hp.
      destruct (AssignFaces.previewsToApply af !! idx); cbn; [|reflexivity].
      destruct (decide (idx < S k)%nat); [lia|reflexivity].
Qed.

End Cancellation.

(** ** Failures inside a batch *)

Section BatchFailures.
Context `{JS.Platform}.
Import JS.

Lemma create_never_pressed (script : nat -> settled CreateFacesResult.t * bool) (n : nat) :
  (forall j, snd (script j) = false) ->
  forall j, CreateFaces.pressed script j n = false /\ CreateFaces.attempted script j n = n.
Proof.
  intros Hnone. induction n as [|n IH]; intros j; [split; reflexivity|].
  cbn [CreateFaces.pressed CreateFaces.attempted]. rewrite Hnone.
  destruct (IH (S j)) as [-> ->]. split; reflexivity.
Qed.

Lemma create_never_cancelled_processed (script : CreateFaces.Script)
    (sel : gmap Z (gset string)) (todo : list UnrecognizedPersonPreview.t) :
  CreateFaces.never_cancelled script ->
  CreateFaces.processed script sel 0 todo = length todo.
Proof.
  intros Hnone. apply create_processed_no_cancel. intros j p _.
  now apply create_never_pressed.
Qed.

Lemma rename_never_cancelled_processed (script : TransferNames.Script) (n : nat) :
  TransferNames.never_cancelled script -> TransferNames.processed script 0 n = n.
Proof. intros Hnone. apply rename_processed_no_cancel. intros j _. apply Hnone. Qed.

(** The tally stays where it was exactly when none of the requests that
    were sent succeeded. *)
Lemma create_no_success (script : nat -> settled CreateFacesResult.t * bool) (n : nat) :
  forall (j : nat) (t : CreateFaces.Tally),
    CreateFaces.successCount (CreateFaces.tally_after script j n t)
    = CreateFaces.successCount t
    <-> (forall j', (j' < CreateFaces.attempted script j n)%nat ->
           CreateFaces.face_succeeded (fst (script (j + j')%nat)) = false).
Proof.
  induction n as [|n IH]; intros j t; cbn [CreateFaces.tally_after CreateFaces.attempted].
  - split; [intros _ j' Hj'; lia|reflexivity].
  - pose proof (create_tally_step_count (fst (script j)) t) as Hstep.
    pose proof (create_tally_after_count script n (S j)
                  (CreateFaces.tally_step (fst (script j)) t)) as Hmono.
    destruct (snd (script j)) eqn:Epressed.
    + split.
      * intros Heq j' Hj'. assert (j' = 0%nat) as -> by lia. rewrite Nat.add_0_r.
        destruct (CreateFaces.face_succeeded (fst (script j))); [lia|reflexivity].
      * intros Hall. specialize (Hall 0%nat ltac:(lia)). rewrite Nat.add_0_r in Hall.
        rewrite Hall in Hstep. lia.
    + split.
      * intros Heq j' Hj'.
        assert (Hfirst : CreateFaces.face_succeeded (fst (script j)) = false)
          by (destruct (CreateFaces.face_succeeded (fst (script j))); [lia|reflexivity]).
        destruct j' as [|j']; [now rewrite Nat.add_0_r|].
        replace (j + S j')%nat with (S j + j')%nat by lia.
        apply (proj1 (IH (S j) (CreateFaces.tally_step (fst (script j)) t))); [|lia].
        rewrite Hfirst in Hstep. lia.
      * intros Hall.
        assert (Hfirst : CreateFaces.face_succeeded (fst (script j)) = false)
          by (rewrite <- (Nat.add_0_r j); apply Hall; lia).
        rewrite Hfirst in Hstep.
        rewrite (proj2 (IH (S j) (CreateFaces.tally_step (fst (script j)) t))); [lia|].
        intros j' Hj'. replace (S j + j')%nat with (j + S j')%nat by lia.
        apply Hall. lia.
Qed.

(** An item of Create Faces ends in error exactly when it had a face to send
    and none of the requests sent for it succeeded. *)
Lemma create_verdict_error (script : nat -> settled CreateFacesResult.t * bool)
    (sel : gmap Z (gset string)) (p : UnrecognizedPersonPreview.t)
    (item : ProgressItem.t) :
  ProgressItem.status (CreateFaces.verdict script sel p item) = Status.error
  <-> CreateFaces.facesToApply sel p <> []
      /\ (forall j, (j < CreateFaces.attempted script 0
                           (length (CreateFaces.facesToApply sel p)))%nat ->
            CreateFaces.face_succeeded (fst (script j)) = false).
Proof.
  rewrite <- (create_no_success script (length (CreateFaces.facesToApply sel p)) 0
                (CreateFaces.mkTally 0 None)).
  unfold CreateFaces.verdict. cbn [CreateFaces.successCount].
  destruct (bool_decide (length (CreateFaces.facesToApply sel p) = 0%nat)) eqn:Ezero.
  { apply bool_decide_eq_true in Ezero. cbn. split; [discriminate|].
    intros [Hne _]. destruct (CreateFaces.facesToApply sel p); [congruence|discriminate]. }
  apply bool_decide_eq_false in Ezero.
  assert (Hne : CreateFaces.facesToApply sel p <> [])
    by (intros Hnil; now rewrite Hnil in Ezero).
  destruct (bool_decide (CreateFaces.successCount _ = _)) eqn:Eall.
  { apply bool_decide_eq_true in Eall. cbn. split; [discriminate|]. intros [_ Hz]. lia. }
  destruct (bool_decide (0 < CreateFaces.successCount _)%nat) eqn:Epos.
  { apply bool_decide_eq_true in Epos. cbn. split; [discriminate|]. intros [_ Hz]. lia. }
  apply bool_decide_eq_false in Epos. cbn. split; [|reflexivity].
  intros _. split; [exact Hne|lia].
Qed.

(** C6, as the code has it. A bulk batch of Transfer Names or Create Faces
    never throws; it sends its requests one after the other in the submitted
    order (each item of Create Faces sends one request per selected face);
    a request that fails, by its result or by an exception, does not stop the
    loop, which without a cancel goes through every item. In Transfer Names
    the item whose request failed, and only it, is marked error with a
    message. In Create Faces an item is marked error, with a message and its
    name unchanged, exactly when it had a face to send and none of the
    requests sent for it succeeded; it is marked success with its name
    unchanged when it had no face to send or as many requests succeeded as
    it had faces; and an item of which some requests succeeded, fewer than it
    had faces, is marked success with the number of requests that succeeded
    and the number of its faces in its name. *)
Theorem batch_failures_are_per_item
    (tn_script : TransferNames.Script) (tn : TransferNames.Run)
    (cf_script : CreateFaces.Script) (cf : CreateFaces.Run) :
  (exists r' n,
     TransferNames.applySelected tn_script tn = Normal r'
     /\ TransferNames.sent r'
        = TransferNames.sent tn
            ++ (TransferNames.request_of <$> take n (TransferNames.matchesToApply tn))
     /\ (TransferNames.never_cancelled tn_script ->
           n = length (TransferNames.matchesToApply tn))
     /\ (forall idx m, TransferNames.matchesToApply tn !! idx = Some m -> (idx < n)%nat ->
           exists item,
             TransferNames.progressItems (TransferNames.ui r') !! idx = Some item
             /\ ProgressItem.id item = IdStr (PersonMatch.immich_cluster_id m)
             /\ ProgressItem.name item = PersonMatch.ms_person_name m
             /\ (TransferNames.succeeded (fst (tn_script idx)) = true ->
                   ProgressItem.status item = Status.success
                   /\ ProgressItem.error item = None)
             /\ (TransferNames.succeeded (fst (tn_script idx)) = false ->
                   ProgressItem.status item = Status.error
                   /\ ProgressItem.error item
                      = Some (TransferNames.failure_message (fst (tn_script idx))))))
  /\ (exists r' n,
        let sel := CreateFaces.faceSelections (CreateFaces.ui cf) in
        CreateFaces.applySelected cf_script cf = Normal r'
        /\ CreateFaces.sent r'
           = CreateFaces.sent cf
               ++ concat (imap (fun j p => CreateFaces.item_requests (cf_script j) sel p)
                            (take n (CreateFaces.previewsToApply cf)))
        /\ (CreateFaces.never_cancelled cf_script ->
              n = length (CreateFaces.previewsToApply cf)
              /\ forall j p, CreateFaces.item_requests (cf_script j) sel p
                             = (fun f => CreateFaces.request_of p [f])
                                 <$> CreateFaces.facesToApply sel p)
        /\ (forall idx p, CreateFaces.previewsToApply cf !! idx = Some p -> (idx < n)%nat ->
              exists item,
                CreateFaces.progressItems (CreateFaces.ui r') !! idx = Some item
                /\ CreateFaces.terminal (ProgressItem.status item)
                /\ (ProgressItem.status item = Status.error
                    <-> CreateFaces.facesToApply sel p <> []
                        /\ (forall j,
                              (j < CreateFaces.attempted (cf_script idx) 0
                                     (length (CreateFaces.facesToApply sel p)))%nat ->
                              CreateFaces.face_succeeded (fst (cf_script idx j)) = false))
                /\ (ProgressItem.status item = Status.error ->
                      exists msg, ProgressItem.error item = Some msg)
                /\ ProgressItem.id item = IdNum (UnrecognizedPersonPreview.ms_person_id p)
                /\ (let total := length (CreateFaces.facesToApply sel p) in
                    let a := CreateFaces.attempted (cf_script idx) 0 total in
                    let s := length (List.filter
                                       (fun j => CreateFaces.face_succeeded
                                                   (fst (cf_script idx j)))
                                       (seq 0 a)) in
                    let pending := CreateFaces.pending_item sel p in
                    (s <= a <= total)%nat
                    /\ (CreateFaces.never_cancelled cf_script -> a = total)
                    /\ (ProgressItem.status item = Status.error
                        <-> total <> 0%nat /\ s = 0%nat)
                    /\ (ProgressItem.status item = Status.error ->
                          ProgressItem.name item = ProgressItem.name pending)
                    /\ (total = 0%nat \/ s = total ->
                          ProgressItem.status item = Status.success
                          /\ ProgressItem.name item = ProgressItem.name pending
                          /\ ProgressItem.error item = None)
                    /\ ((0 < s < total)%nat ->
                          ProgressItem.status item = Status.success
                          /\ ProgressItem.name item = CreateFaces.partial_name p s total
                          /\ ProgressItem.error item = None)))).
Proof.
  split.
  - destruct (rename_applySelected_spec tn_script tn) as (r' & E & Hs & _ & Hp).
    cbv zeta in Hs, Hp.
    exists r', (TransferNames.processed tn_script 0 (length (TransferNames.matchesToApply tn))).
    split; [exact E|]. split; [exact Hs|].
    split; [apply rename_never_cancelled_processed|].
    intros idx m Hm Hidx.
    assert (Hne : TransferNames.matchesToApply tn <> [])
      by (intros Hnil; rewrite Hnil in Hm; discriminate).
    rewrite (Hp Hne), Hm. cbn [fmap option_fmap option_map].
    destruct (decide (idx < _)%nat); [|lia].
    eexists. split; [reflexivity|].
    pose proof (rename_verdict_status (fst (tn_script idx)) (TransferNames.pending_item m))
      as (Hid & Hname & Hok & Hko). cbv zeta in Hid, Hname, Hok, Hko.
    split; [exact Hid|]. split; [exact Hname|]. split; assumption.
  - destruct (create_applySelected_spec cf_script cf) as (r' & E & Hs & _ & Hp).
    cbv zeta in Hs, Hp.
    exists r', (CreateFaces.processed cf_script (CreateFaces.faceSelections (CreateFaces.ui cf))
                  0 (CreateFaces.previewsToApply cf)).
    cbv zeta. split; [exact E|]. split; [exact Hs|]. split.
    + intros Hnone. split; [now apply create_never_cancelled_processed|].
      intros j p. unfold CreateFaces.item_requests.
      destruct (create_never_pressed (cf_script j)
                  (length (CreateFaces.facesToApply
                             (CreateFaces.faceSelections (CreateFaces.ui cf)) p))
                  (Hnone j) 0) as [_ ->].
      now rewrite firstn_all.
    + intros idx p Hpv Hidx.
      assert (Hne : CreateFaces.previewsToApply cf <> [])
        by (intros Hnil; rewrite Hnil in Hpv; discriminate).
      rewrite (Hp Hne), Hpv. cbn [fmap option_fmap option_map].
      destruct (decide (idx < _)%nat); [|lia].
      eexists. split; [reflexivity|].
      destruct (create_verdict_status (cf_script idx)
                  (CreateFaces.faceSelections (CreateFaces.ui cf)) p
                  (CreateFaces.pending_item (CreateFaces.faceSelections (CreateFaces.ui cf)) p))
        as [Hterm Herr].
      split; [exact Hterm|]. split; [apply create_verdict_error|].
      split; [intros Hst; now destruct (Herr Hst) as (_ & _ & Hmsg)|].
      pose proof (create_verdict_report (cf_script idx)
                    (CreateFaces.faceSelections (CreateFaces.ui cf)) p
                    (CreateFaces.pending_item
                       (CreateFaces.faceSelections (CreateFaces.ui cf)) p))
        as (Hid & Hsan & Hall & Hpart & Herr_iff & Herr_name & _).
      cbv zeta in Hid, Hsan, Hall, Hpart, Herr_iff, Herr_name.
      split; [exact Hid|].
      split; [exact Hsan|].
      split.
      { intros Hnone.
        now destruct (create_never_pressed (cf_script idx)
                        (length (CreateFaces.facesToApply
                                   (CreateFaces.faceSelections (CreateFaces.ui cf)) p))
                        (Hnone idx) 0) as [_ ->]. }
      split; [exact Herr_iff|].
      split; [intros Hst; now destruct (Herr_name Hst)|].
      split; [exact Hall|exact Hpart].
Qed.

End BatchFailures.

(** ** IEEE 754 binary64 *)

Lemma Qabs_cases (x : Q) :
  ((0 <= x /\ Qabs x == x) \/ (x < 0 /\ Qabs x == - x))%Q.
Proof.
  destruct (Qlt_le_dec x 0) as [Hneg|Hpos].
  - right. split; [exact Hneg|]. apply Qabs_neg. now apply Qlt_le_weak.
  - left. split; [exact Hpos|]. now apply Qabs_pos.
Qed.

Ltac split_abs :=
  repeat match goal with
  | H0 : context [Qabs _] |- _ => revert H0
  end;
  repeat match goal with
  | |- context [Qabs ?x] =>
      let H := fresh "Habs" in
      let S := fresh "Hsign" in
      destruct (Qabs_cases x) as [[S H]|[S H]]; revert H; generalize (Qabs x); intros ? H
  end;
  intros.

Section Binary64.
Import JS.
Local Open Scope Q_scope.

Lemma pow2_pos (e : Z) : 0 < pow2 e.
Proof. apply Qpower_0_lt. reflexivity. Qed.

Lemma pow2_add (a b : Z) : pow2 (a + b) == pow2 a * pow2 b.
Proof. apply Qpower_plus. discriminate. Qed.

Lemma pow2_le (a b : Z) : (a <= b)%Z -> pow2 a <= pow2 b.
Proof. intros Hab. apply Qpower_le_compat_l; [exact Hab|discriminate]. Qed.

Lemma pow2_lt (a b : Z) : (a < b)%Z -> pow2 a < pow2 b.
Proof. intros Hab. apply Qpower_lt_compat_l; [exact Hab|reflexivity]. Qed.

Lemma pow2_lt_inv (a b : Z) : pow2 a < pow2 b -> (a < b)%Z.
Proof. intros Hab. apply (Qpower_lt_compat_l_inv 2); [exact Hab|reflexivity]. Qed.

Lemma pow2_Z (e : Z) : (0 <= e)%Z -> pow2 e == inject_Z (2 ^ e).
Proof. intros He. unfold pow2. now rewrite Zpower_Qpower. Qed.

Lemma pow2_succ (e : Z) : pow2 (e + 1) == 2 * pow2 e.
Proof. rewrite pow2_add. change (pow2 1) with 2. ring. Qed.

(** A multiple of [2^b] is a multiple of [2^a] for [a <= b]. *)
Lemma pow2_multiple (a b n : Z) :
  (a <= b)%Z -> inject_Z n * pow2 b == inject_Z (n * 2 ^ (b - a)) * pow2 a.
Proof.
  intros Hab. replace b with ((b - a) + a)%Z at 1 by lia.
  rewrite pow2_add, (pow2_Z (b - a)) by lia. rewrite inject_Z_mult. ring.
Qed.

Lemma rne_cases (t : Q) :
  let f := Qfloor t in
  (t - inject_Z f < 1 # 2 /\ rne t = f)
  \/ ((1 # 2) < t - inject_Z f /\ rne t = (f + 1)%Z)
  \/ (t - inject_Z f == 1 # 2 /\ (rne t = f \/ rne t = (f + 1)%Z)).
Proof.
  cbv zeta. unfold rne.
  destruct (t - inject_Z (Qfloor t) ?= 1 # 2) eqn:E.
  - right. right. split; [now apply Qeq_alt|]. destruct (Z.even _); auto.
  - left. split; [now apply Qlt_alt|reflexivity].
  - right. left. split; [now apply Qgt_alt|reflexivity].
Qed.

Lemma Qfloor_bounds (t : Q) : inject_Z (Qfloor t) <= t < inject_Z (Qfloor t) + 1.
Proof.
  split; [apply Qfloor_le|].
  pose proof (Qlt_floor t) as Hlt. rewrite inject_Z_plus in Hlt. exact Hlt.
Qed.

(** No integer is nearer than the one [rne] picks. *)
Lemma rne_near (t : Q) (n : Z) :
  Qabs (inject_Z (rne t) - t) <= Qabs (inject_Z n - t).
Proof.
  pose proof (Qfloor_bounds t) as [Hlo Hhi].
  assert (Hn : (n <= Qfloor t)%Z \/ (Qfloor t + 1 <= n)%Z) by lia.
  assert (Hn' : inject_Z n <= inject_Z (Qfloor t)
                \/ inject_Z (Qfloor t) + 1 <= inject_Z n).
  { destruct Hn as [Hn|Hn]; [left; now rewrite <- Zle_Qle|right].
    rewrite Zle_Qle, inject_Z_plus in Hn. exact Hn. }
  destruct (rne_cases t) as [[Hr ->]|[[Hr ->]|[Hr [-> | ->]]]];
    rewrite ?inject_Z_plus; change (inject_Z 1) with 1;
    split_abs; destruct Hn'; lra.
Qed.

Lemma rne_half (t : Q) : Qabs (inject_Z (rne t) - t) <= 1 # 2.
Proof.
  pose proof (Qfloor_bounds t) as [Hlo Hhi].
  destruct (rne_cases t) as [[Hr ->]|[[Hr ->]|[Hr [-> | ->]]]];
    rewrite ?inject_Z_plus; change (inject_Z 1) with 1;
    split_abs; lra.
Qed.

Lemma rne_Z (n : Z) : rne (inject_Z n) = n.
Proof.
  pose proof (rne_near (inject_Z n) n) as Hnear.
  revert Hnear. generalize (rne (inject_Z n)). intros r Hnear.
  assert (Heq : inject_Z r == inject_Z n) by (split_abs; lra).
  exact (proj1 (inject_Z_injective r n) Heq).
Qed.

Lemma rne_le (t : Q) (n : Z) : t <= inject_Z n -> (rne t <= n)%Z.
Proof.
  intros Ht. pose proof (rne_near t n) as Hnear.
  destruct (Z_le_gt_dec (rne t) n) as [Hle|Hgt]; [exact Hle|exfalso].
  assert (Hq : inject_Z (n + 1) <= inject_Z (rne t)) by (rewrite <- Zle_Qle; lia).
  rewrite inject_Z_plus in Hq. change (inject_Z 1) with 1 in Hq.
  split_abs; lra.
Qed.

Lemma rne_ge (t : Q) (n : Z) : inject_Z n <= t -> (n <= rne t)%Z.
Proof.
  intros Ht. pose proof (rne_near t n) as Hnear.
  destruct (Z_le_gt_dec n (rne t)) as [Hle|Hgt]; [exact Hle|exfalso].
  assert (Hq : inject_Z (rne t + 1) <= inject_Z n) by (rewrite <- Zle_Qle; lia).
  rewrite inject_Z_plus in Hq. change (inject_Z 1) with 1 in Hq.
  split_abs; lra.
Qed.

Lemma rne_comp (t t' : Q) : t == t' -> rne t = rne t'.
Proof.
  intros E. unfold rne. rewrite (Qfloor_comp _ _ E).
  assert (E' : t - inject_Z (Qfloor t') == t' - inject_Z (Qfloor t')) by (rewrite E; ring).
  now rewrite (Qcompare_comp _ _ E' _ _ (Qeq_refl (1 # 2))).
Qed.

Lemma ilog2_spec (q : Q) : 0 < q -> pow2 (ilog2 q) <= q < pow2 (ilog2 q + 1).
Proof.
  intros Hq. destruct q as [n d].
  assert (Hn : (0 < n)%Z) by (unfold Qlt in Hq; cbn in Hq; lia).
  unfold ilog2. cbn [Qnum Qden].
  pose proof (Z.log2_spec n Hn) as [Ha1 Ha2].
  pose proof (Z.log2_spec (Zpos d) eq_refl) as [Hb1 Hb2].
  pose proof (Z.log2_nonneg n) as Ha0.
  pose proof (Z.log2_nonneg (Zpos d)) as Hb0.
  set (a := Z.log2 n) in *. set (b := Z.log2 (Zpos d)) in *.
  assert (HqD : (n # d) * inject_Z (Zpos d) == inject_Z n).
  { rewrite (Qmake_Qdiv n d). field. discriminate. }
  assert (PA1 : pow2 a <= inject_Z n) by (rewrite pow2_Z by lia; now rewrite <- Zle_Qle).
  assert (PA2 : inject_Z n < 2 * pow2 a).
  { rewrite <- pow2_succ, pow2_Z by lia. rewrite <- Zlt_Qlt.
    now replace (a + 1)%Z with (Z.succ a) by lia. }
  assert (PB1 : pow2 b <= inject_Z (Zpos d)) by (rewrite pow2_Z by lia; now rewrite <- Zle_Qle).
  assert (PB2 : inject_Z (Zpos d) < 2 * pow2 b).
  { rewrite <- pow2_succ, pow2_Z by lia. rewrite <- Zlt_Qlt.
    now replace (b + 1)%Z with (Z.succ b) by lia. }
  assert (K : pow2 (a - b) * pow2 b == pow2 a)
    by (rewrite <- pow2_add; now replace (a - b + b)%Z with a by lia).
  assert (K2 : pow2 (a - b) == 2 * pow2 (a - b - 1)).
  { rewrite <- pow2_succ. now replace (a - b - 1 + 1)%Z with (a - b)%Z by lia. }
  pose proof (pow2_pos (a - b)) as Kpos. pose proof (pow2_pos b) as Bpos.
  destruct (Qle_bool (pow2 (a - b)) (n # d)) eqn:T.
  - apply Qle_bool_iff in T. split; [exact T|]. rewrite pow2_succ.
    revert HqD PA1 PA2 PB1 PB2 K Kpos Bpos T.
    generalize (pow2 (a - b)) (pow2 a) (pow2 b) (inject_Z n) (inject_Z (Zpos d)) (n # d).
    intros K0 A0 B0 N0 D0 q0 **. nra.
  - assert (T' : n # d < pow2 (a - b)).
    { apply Qnot_le_lt. intros Hle. apply Qle_bool_iff in Hle. congruence. }
    replace (a - b - 1 + 1)%Z with (a - b)%Z by lia. split; [|exact T'].
    revert HqD PA1 PA2 PB1 PB2 K K2 Kpos Bpos T'.
    generalize (pow2 (a - b - 1)) (pow2 (a - b)) (pow2 a) (pow2 b) (inject_Z n)
               (inject_Z (Zpos d)) (n # d).
    intros K1 K0 A0 B0 N0 D0 q0 **. nra.
Qed.

Lemma scaled (e : Z) (q : Q) : q / pow2 e * pow2 e == q.
Proof. field. pose proof (pow2_pos e). lra. Qed.

Lemma round_to_near (e : Z) (q : Q) (n : Z) :
  Qabs (round_to e q - q) <= Qabs (inject_Z n * pow2 e - q).
Proof.
  unfold round_to. pose proof (rne_near (q / pow2 e) n) as Hnear.
  pose proof (pow2_pos e) as Hpos.
  assert (E1 : inject_Z (rne (q / pow2 e)) * pow2 e - q
               == (inject_Z (rne (q / pow2 e)) - q / pow2 e) * pow2 e)
    by (field; lra).
  assert (E2 : inject_Z n * pow2 e - q == (inject_Z n - q / pow2 e) * pow2 e)
    by (field; lra).
  rewrite E1, E2, !Qabs_Qmult, (Qabs_pos (pow2 e)) by lra.
  apply Qmult_le_compat_r; [exact Hnear|lra].
Qed.

Lemma round_to_err (e : Z) (q : Q) : Qabs (round_to e q - q) <= pow2 e * (1 # 2).
Proof.
  unfold round_to. pose proof (rne_half (q / pow2 e)) as Hhalf.
  pose proof (pow2_pos e) as Hpos.
  assert (E1 : inject_Z (rne (q / pow2 e)) * pow2 e - q
               == (inject_Z (rne (q / pow2 e)) - q / pow2 e) * pow2 e)
    by (field; lra).
  rewrite E1, Qabs_Qmult, (Qabs_pos (pow2 e)), (Qmult_comm (pow2 e)) by lra.
  apply Qmult_le_compat_r; [exact Hhalf|lra].
Qed.

Lemma round_to_le (e e' : Z) (n : Z) (q : Q) :
  (e <= e')%Z -> q <= inject_Z n * pow2 e' -> round_to e q <= inject_Z n * pow2 e'.
Proof.
  intros He Hq. rewrite (pow2_multiple e e' n He) in *. unfold round_to.
  pose proof (pow2_pos e) as Hpos.
  apply Qmult_le_compat_r; [|lra]. rewrite <- Zle_Qle. apply rne_le.
  apply Qle_shift_div_r; [exact Hpos|exact Hq].
Qed.

Lemma round_to_ge (e e' : Z) (n : Z) (q : Q) :
  (e <= e')%Z -> inject_Z n * pow2 e' <= q -> inject_Z n * pow2 e' <= round_to e q.
Proof.
  intros He Hq. rewrite (pow2_multiple e e' n He) in *. unfold round_to.
  pose proof (pow2_pos e) as Hpos.
  apply Qmult_le_compat_r; [|lra]. rewrite <- Zle_Qle. apply rne_ge.
  apply Qle_shift_div_l; [exact Hpos|exact Hq].
Qed.

Lemma Qabs_inject_Z (m : Z) : Qabs (inject_Z m) == inject_Z (Z.abs m).
Proof.
  destruct (Z.abs_spec m) as [[Hm ->]|[Hm ->]].
  - apply Qabs_pos. change 0 with (inject_Z 0). now rewrite <- Zle_Qle.
  - rewrite inject_Z_opp. apply Qabs_neg. change 0 with (inject_Z 0).
    rewrite <- Zle_Qle. lia.
Qed.

Lemma max_double_lt : max_double < pow2 1024.
Proof. vm_compute. reflexivity. Qed.

Lemma binary64_0 : binary64 0.
Proof. exists 0%Z, 0%Z. split; [reflexivity|]. split; [lia|reflexivity]. Qed.

Lemma binary64_Z (n : Z) : (Z.abs n < 2 ^ 53)%Z -> binary64 (inject_Z n).
Proof.
  intros Hn. exists n, 0%Z. split; [exact Hn|]. split; [lia|].
  change (pow2 0) with 1. ring.
Qed.

Lemma binary64_abs_le (d : Q) : binary64 d -> Qabs d <= max_double.
Proof.
  intros (m & e & Hm & He & Hd). rewrite Hd, Qabs_Qmult, Qabs_inject_Z.
  rewrite (Qabs_pos (pow2 e)) by (pose proof (pow2_pos e); lra).
  unfold max_double.
  assert (H1 : inject_Z (Z.abs m) <= inject_Z (2 ^ 53 - 1)) by (rewrite <- Zle_Qle; lia).
  assert (H2 : pow2 e <= pow2 971) by (apply pow2_le; lia).
  assert (H0 : 0 <= inject_Z (Z.abs m))
    by (change 0 with (inject_Z 0); rewrite <- Zle_Qle; lia).
  pose proof (pow2_pos e) as Hpos.
  revert H1 H2 H0 Hpos.
  generalize (inject_Z (Z.abs m)) (inject_Z (2 ^ 53 - 1)) (pow2 e) (pow2 971).
  intros. nra.
Qed.

(** Every finite number is a multiple of [2^-1074]; one that is at least
    [2^k] in magnitude is a multiple of [2^(k-52)]. *)
Lemma binary64_fine (d : Q) (e : Z) :
  binary64 d -> (e <= -1074)%Z -> exists n, d == inject_Z n * pow2 e.
Proof.
  intros (m & e' & _ & He' & Hd) He. exists (m * 2 ^ (e' - e))%Z.
  rewrite Hd. apply pow2_multiple. lia.
Qed.

Lemma binary64_coarse (d : Q) (k : Z) :
  binary64 d -> pow2 k <= Qabs d -> exists n, d == inject_Z n * pow2 (k - 52).
Proof.
  intros (m & e' & Hm & He' & Hd) Hk.
  destruct (Z_le_gt_dec (k - 52) e') as [Hle|Hgt].
  - exists (m * 2 ^ (e' - (k - 52)))%Z. rewrite Hd. now apply pow2_multiple.
  - exfalso. rewrite Hd, Qabs_Qmult, Qabs_inject_Z in Hk.
    rewrite (Qabs_pos (pow2 e')) in Hk by (pose proof (pow2_pos e'); lra).
    assert (H1 : inject_Z (Z.abs m) <= inject_Z (2 ^ 53 - 1)) by (rewrite <- Zle_Qle; lia).
    assert (H2 : pow2 e' <= pow2 (k - 53)) by (apply pow2_le; lia).
    assert (H3 : pow2 k == inject_Z (2 ^ 53) * pow2 (k - 53)).
    { rewrite <- pow2_Z, <- pow2_add by lia. now replace (53 + (k - 53))%Z with k by lia. }
    assert (H0 : 0 <= inject_Z (Z.abs m))
      by (change 0 with (inject_Z 0); rewrite <- Zle_Qle; lia).
    pose proof (pow2_pos e') as Hpos. pose proof (pow2_pos (k - 53)) as Hpos'.
    assert (H4 : inject_Z (2 ^ 53 - 1) < inject_Z (2 ^ 53)) by (rewrite <- Zlt_Qlt; lia).
    revert Hk H1 H2 H3 H0 Hpos Hpos' H4.
    generalize (inject_Z (Z.abs m)) (inject_Z (2 ^ 53 - 1)) (inject_Z (2 ^ 53))
               (pow2 e') (pow2 (k - 53)) (pow2 k).
    intros. nra.
Qed.

Lemma double_inv (q d : Q) :
  double q = Some d ->
  d == round_to (exponent (Qred q)) (Qred q) /\ Qabs d <= max_double.
Proof.
  unfold double. cbv zeta. fold (exponent (Qred q)).
  destruct (Qle_bool _ max_double) eqn:E; [|discriminate].
  intros Hd.
  assert (Ed : d = Qred (round_to (exponent (Qred q)) (Qred q))) by congruence.
  rewrite Ed. split; [exact (Qred_correct _)|]. exact (proj1 (Qle_bool_iff _ _) E).
Qed.

Lemma double_comp (q q' : Q) : q == q' -> double q = double q'.
Proof. intros E. unfold double. now rewrite (Qred_complete _ _ E). Qed.

(** Among the multiples of [2^(exponent q)], none is nearer to [q]. *)
Lemma round_to_nearest (q d' : Q) :
  binary64 d' ->
  Qabs (round_to (exponent q) q - q) <= Qabs (d' - q).
Proof.
  intros Hd'.
  assert (Hgrid : forall n, d' == inject_Z n * pow2 (exponent q) ->
                  Qabs (round_to (exponent q) q - q) <= Qabs (d' - q)).
  { intros n Hn. rewrite Hn. apply round_to_near. }
  destruct (Qeq_dec q 0) as [Hz|Hnz].
  { assert (E : round_to (exponent q) q == 0).
    { unfold round_to. assert (E0 : q / pow2 (exponent q) == inject_Z 0)
        by (generalize (pow2 (exponent q)); intros p; rewrite Hz; unfold Qdiv; ring).
      rewrite (rne_comp _ _ E0), rne_Z. ring. }
    rewrite E. assert (E1 : 0 - q == 0) by (rewrite Hz; ring).
    rewrite E1. apply Qabs_nonneg. }
  assert (Ha : 0 < Qabs q).
  { pose proof (Qabs_nonneg q). destruct (Qabs_cases q) as [[? E]|[? E]]; lra. }
  destruct (ilog2_spec _ Ha) as [Hk1 Hk2].
  unfold exponent in *. set (k := ilog2 (Qabs q)) in *.
  destruct (Z.max_spec (k - 52) (-1074)) as [[Hlt Hmax]|[Hge Hmax]]; rewrite Hmax in *.
  - destruct (binary64_fine d' (-1074) Hd') as [n Hn]; [lia|]. now apply (Hgrid n).
  - destruct (Qlt_le_dec (Qabs d') (pow2 k)) as [Hsmall|Hbig].
    + (* d' is below 2^k in magnitude: the power of two on the side of q is
         at least as near *)
      assert (P : pow2 k == inject_Z (2 ^ 52) * pow2 (k - 52)).
      { rewrite <- pow2_Z, <- pow2_add by lia. now replace (52 + (k - 52))%Z with k by lia. }
      assert (N : - pow2 k == inject_Z (- 2 ^ 52) * pow2 (k - 52)).
      { rewrite inject_Z_opp, P. ring. }
      pose proof (round_to_near (k - 52) q (2 ^ 52)) as H1.
      pose proof (round_to_near (k - 52) q (- 2 ^ 52)) as H2.
      rewrite <- P in H1. rewrite <- N in H2.
      revert Hsmall Hk1 H1 H2. generalize (round_to (k - 52) q) (pow2 k).
      intros r p **. split_abs; lra.
    + destruct (binary64_coarse d' k Hd' Hbig) as [n Hn]. now apply (Hgrid n).
Qed.

Lemma Qabs_pos_lt (q : Q) : ~ q == 0 -> 0 < Qabs q.
Proof. intros Hnz. pose proof (Qabs_nonneg q). destruct (Qabs_cases q) as [[? E]|[? E]]; lra. Qed.

Lemma round_to_0 (e : Z) (q : Q) : q == 0 -> round_to e q == 0.
Proof.
  intros Hz. unfold round_to.
  assert (E0 : q / pow2 e == inject_Z 0) by (rewrite Hz; unfold Qdiv; ring).
  rewrite (rne_comp _ _ E0), rne_Z. ring.
Qed.

(** The significand [double] works with: below [2^53] in magnitude, and at
    least [2^52] unless the exponent is the smallest one. *)
Lemma significand_bounds (q : Q) :
  ~ q == 0 ->
  let e := exponent q in
  let t := q / pow2 e in
  Qabs t < inject_Z (2 ^ 53)
  /\ ((-1074 < e)%Z -> inject_Z (2 ^ 52) <= Qabs t).
Proof.
  intros Hnz. cbv zeta.
  destruct (ilog2_spec _ (Qabs_pos_lt _ Hnz)) as [Hk1 Hk2].
  pose proof (pow2_pos (exponent q)) as Hpos.
  assert (Ht : Qabs (q / pow2 (exponent q)) * pow2 (exponent q) == Qabs q).
  { rewrite <- (Qabs_pos (pow2 (exponent q))) at 2 by lra.
    rewrite <- Qabs_Qmult. now rewrite scaled. }
  unfold exponent in *. set (k := ilog2 (Qabs q)) in *.
  set (e := Z.max (k - 52) (-1074)) in *.
  assert (He : (k - 52 <= e)%Z) by lia.
  assert (P1 : pow2 (k + 1) <= inject_Z (2 ^ 53) * pow2 e).
  { rewrite <- pow2_Z, <- pow2_add by lia. apply pow2_le. lia. }
  split.
  - revert Ht Hk2 P1 Hpos.
    generalize (Qabs (q / pow2 e)) (Qabs q) (pow2 (k + 1)) (inject_Z (2 ^ 53)) (pow2 e).
    intros. nra.
  - intros Hnorm. assert (Ee : e = (k - 52)%Z) by lia.
    assert (P2 : pow2 k == inject_Z (2 ^ 52) * pow2 e).
    { rewrite <- pow2_Z, <- pow2_add by lia. rewrite Ee. now replace (52 + (k - 52))%Z with k by lia. }
    revert Ht Hk1 P2 Hpos.
    generalize (Qabs (q / pow2 e)) (Qabs q) (pow2 k) (inject_Z (2 ^ 52)) (pow2 e).
    intros. nra.
Qed.

Lemma rne_abs (t : Q) :
  Qabs t - (1 # 2) <= inject_Z (Z.abs (rne t)) <= Qabs t + (1 # 2).
Proof.
  pose proof (rne_half t) as Hhalf. rewrite <- Qabs_inject_Z.
  revert Hhalf. generalize (inject_Z (rne t)). intros r Hhalf.
  split; split_abs; lra.
Qed.

Lemma round_to_binary64 (q : Q) :
  Qabs (round_to (exponent q) q) <= max_double -> binary64 (round_to (exponent q) q).
Proof.
  intros Hmax. destruct (Qeq_dec q 0) as [Hz|Hnz].
  { exists 0%Z, 0%Z. split; [reflexivity|]. split; [lia|].
    rewrite (round_to_0 _ _ Hz). reflexivity. }
  destruct (significand_bounds q Hnz) as [Hlt Hnorm]. cbv zeta in Hlt, Hnorm.
  pose proof (rne_abs (q / pow2 (exponent q))) as [Hlo Hhi].
  pose proof max_double_lt as Hmd.
  assert (He : (-1074 <= exponent q)%Z) by (unfold exponent; lia).
  pose proof (pow2_pos (exponent q)) as Hpos.
  assert (Hr : Qabs (round_to (exponent q) q)
               == inject_Z (Z.abs (rne (q / pow2 (exponent q)))) * pow2 (exponent q)).
  { unfold round_to. rewrite Qabs_Qmult, Qabs_inject_Z, (Qabs_pos (pow2 _)) by lra.
    reflexivity. }
  rewrite Hr in Hmax.
  unfold round_to.
  set (e := exponent q) in *. set (M := rne (q / pow2 e)) in *.
  assert (HM : (Z.abs M <= 2 ^ 53)%Z).
  { assert (HMq : inject_Z (Z.abs M) < inject_Z (2 ^ 53 + 1)).
    { rewrite inject_Z_plus. change (inject_Z 1) with 1. lra. }
    rewrite <- Zlt_Qlt in HMq. lia. }
  destruct (Z.eq_dec (Z.abs M) (2 ^ 53)%Z) as [Htop|Hbelow].
  - (* the significand rounded up to 2^53: one exponent higher *)
    assert (He' : (e + 1 <= 971)%Z).
    { destruct (Z_le_gt_dec (e + 1) 971) as [Hle|Hgt]; [exact Hle|exfalso].
      assert (P : pow2 1024 <= inject_Z (2 ^ 53) * pow2 e).
      { rewrite <- pow2_Z, <- pow2_add by lia. apply pow2_le. lia. }
      rewrite Htop in Hmax. lra. }
    exists (M / 2)%Z, (e + 1)%Z.
    assert (HM2 : M = (2 * (M / 2))%Z).
    { destruct (Z.abs_spec M) as [[_ E]|[_ E]]; rewrite E in Htop.
      - rewrite Htop. reflexivity.
      - assert (EM : M = (- 2 ^ 53)%Z) by lia. rewrite EM. reflexivity. }
    split.
    { destruct (Z.abs_spec M) as [[_ E]|[_ E]]; rewrite E in Htop.
      - rewrite Htop. reflexivity.
      - assert (EM : M = (- 2 ^ 53)%Z) by lia. rewrite EM. reflexivity. }
    split; [lia|].
    rewrite pow2_succ. rewrite HM2 at 1. rewrite inject_Z_mult. change (inject_Z 2) with 2.
    ring.
  - exists M, e. split; [lia|]. split; [|reflexivity]. split; [exact He|].
    destruct (Z_le_gt_dec e 971) as [Hle|Hgt]; [exact Hle|exfalso].
    assert (Hbig : inject_Z (2 ^ 52) <= inject_Z (Z.abs M)).
    { assert (HMq : inject_Z (2 ^ 52 - 1) < inject_Z (Z.abs M)).
      { specialize (Hnorm ltac:(lia)). replace (2 ^ 52 - 1)%Z with (2 ^ 52 + -1)%Z by lia.
        rewrite inject_Z_plus. change (inject_Z (-1)) with (-1). lra. }
      rewrite <- Zlt_Qlt in HMq. rewrite <- Zle_Qle. lia. }
    assert (P : pow2 1024 <= inject_Z (2 ^ 52) * pow2 e).
    { rewrite <- pow2_Z, <- pow2_add by lia. apply pow2_le. lia. }
    revert Hmax Hbig P Hmd Hpos.
    generalize (inject_Z (Z.abs M)) (inject_Z (2 ^ 52)) (pow2 e) (pow2 1024) max_double.
    intros. nra.
Qed.

(** What [double] returns is a finite number, and none is nearer. *)
Lemma double_nearest (q d : Q) : double q = Some d -> nearest q d.
Proof.
  intros Hd. destruct (double_inv q d Hd) as [Ed Hmax].
  pose proof (Qred_correct q) as Eq.
  split.
  - rewrite Ed in Hmax. destruct (round_to_binary64 _ Hmax) as (m & e & Hm & He & Hr).
    exists m, e. split; [exact Hm|]. split; [exact He|]. now rewrite Ed.
  - intros d' Hd'. pose proof (round_to_nearest (Qred q) d' Hd') as Hnear.
    rewrite <- Ed in Hnear.
    assert (E1 : d - q == d - Qred q) by (rewrite Eq; ring).
    assert (E2 : d' - q == d' - Qred q) by (rewrite Eq; ring).
    now rewrite E1, E2.
Qed.

Lemma double_inv_eq (q d : Q) :
  double q = Some d -> d = Qred (round_to (exponent (Qred q)) (Qred q)).
Proof.
  unfold double. cbv zeta. fold (exponent (Qred q)).
  destruct (Qle_bool _ max_double); [|discriminate]. congruence.
Qed.

(** A rational within the finite range rounds to a finite number. *)
Lemma double_finite (q : Q) : Qabs q <= max_double -> exists d, double q = Some d.
Proof.
  intros Hq. unfold double. cbv zeta. fold (exponent (Qred q)).
  assert (Hq0 : Qabs (Qred q) <= max_double) by now rewrite Qred_correct.
  revert Hq0. generalize (Qred q). clear q Hq. intros q Hq.
  assert (Hr : Qabs (round_to (exponent q) q) <= max_double).
  { destruct (Qeq_dec q 0) as [Hz|Hnz].
    { rewrite (round_to_0 _ _ Hz). vm_compute. discriminate. }
    destruct (ilog2_spec _ (Qabs_pos_lt _ Hnz)) as [Hk1 _].
    pose proof max_double_lt as Hmd.
    assert (Hk : (ilog2 (Qabs q) < 1024)%Z) by (apply pow2_lt_inv; lra).
    assert (He : (exponent q <= 971)%Z) by (unfold exponent; lia).
    apply Qabs_Qle_condition in Hq as [Hlo Hhi]. apply Qabs_Qle_condition.
    unfold max_double in *. split.
    - assert (E : - (inject_Z (2 ^ 53 - 1) * pow2 971)
                  == inject_Z (- (2 ^ 53 - 1)) * pow2 971) by (rewrite inject_Z_opp; ring).
      rewrite E in *. now apply round_to_ge.
    - now apply round_to_le. }
  rewrite <- (Qred_correct (round_to (exponent q) q)) in Hr.
  apply Qle_bool_iff in Hr. rewrite Hr. eauto.
Qed.

(** A finite number rounds to itself. *)
Lemma double_fix (d : Q) : binary64 d -> double d = Some (Qred d).
Proof.
  intros Hd. destruct (double_finite d (binary64_abs_le d Hd)) as [d1 H1].
  rewrite H1. f_equal. rewrite (double_inv_eq _ _ H1).
  destruct (double_nearest _ _ H1) as [_ Hnear]. specialize (Hnear d Hd).
  destruct (double_inv _ _ H1) as [E1 _]. rewrite E1 in Hnear.
  apply Qred_complete.
  revert Hnear. generalize (round_to (exponent (Qred d)) (Qred d)). intros r Hnear.
  split_abs; lra.
Qed.

(** Rounding keeps the order. *)
Lemma double_mono (q q' d d' : Q) :
  q <= q' -> double q = Some d -> double q' = Some d' -> d <= d'.
Proof.
  intros Hq Hd Hd'. destruct (Qlt_le_dec d' d) as [Hlt|Hle]; [exfalso|exact Hle].
  destruct (double_nearest _ _ Hd) as [Hb Hnear].
  destruct (double_nearest _ _ Hd') as [Hb' Hnear'].
  specialize (Hnear d' Hb'). specialize (Hnear' d Hb).
  assert (Hq' : q' <= q) by (split_abs; lra).
  assert (E : q == q') by lra.
  rewrite (double_comp _ _ E), Hd' in Hd. injection Hd as Hd. rewrite Hd in Hlt. lra.
Qed.

Lemma double_le_Z (q d : Q) (n : Z) :
  (Z.abs n < 2 ^ 53)%Z -> q <= inject_Z n -> double q = Some d -> d <= inject_Z n.
Proof.
  intros Hn Hq Hd.
  pose proof (double_mono _ _ _ _ Hq Hd (double_fix _ (binary64_Z n Hn))) as Hle.
  now rewrite Qred_correct in Hle.
Qed.

Lemma double_ge_Z (q d : Q) (n : Z) :
  (Z.abs n < 2 ^ 53)%Z -> inject_Z n <= q -> double q = Some d -> inject_Z n <= d.
Proof.
  intros Hn Hq Hd.
  pose proof (double_mono _ _ _ _ Hq (double_fix _ (binary64_Z n Hn)) Hd) as Hle.
  now rewrite Qred_correct in Hle.
Qed.

(** The error of one rounding below [2^j]. *)
Lemma double_err (q d : Q) (j : Z) :
  (-1021 <= j)%Z -> Qabs q < pow2 j -> double q = Some d ->
  Qabs (d - q) <= pow2 (j - 54).
Proof.
  intros Hj Hq Hd. destruct (double_inv _ _ Hd) as [Ed _].
  assert (E1 : d - q == round_to (exponent (Qred q)) (Qred q) - Qred q)
    by (rewrite Ed; generalize (round_to (exponent (Qred q)) (Qred q)); intros r;
        rewrite (Qred_correct q); ring).
  rewrite E1. rewrite <- (Qred_correct q) in Hq. revert Hq. generalize (Qred q).
  clear q d Hd Ed E1. intros q Hq.
  pose proof (pow2_pos (j - 54)) as Hpos.
  destruct (Qeq_dec q 0) as [Hz|Hnz].
  { rewrite (round_to_0 _ _ Hz). assert (E : 0 - q == 0) by (rewrite Hz; ring).
    rewrite E. change (Qabs 0) with 0. lra. }
  destruct (ilog2_spec _ (Qabs_pos_lt _ Hnz)) as [Hk1 _].
  assert (Hk : (ilog2 (Qabs q) < j)%Z) by (apply pow2_lt_inv; lra).
  assert (He : (exponent q <= j - 53)%Z) by (unfold exponent; lia).
  pose proof (round_to_err (exponent q) q) as Herr.
  pose proof (pow2_le _ _ He) as Hle.
  assert (E : pow2 (j - 53) == 2 * pow2 (j - 54)).
  { rewrite <- pow2_succ. now replace (j - 54 + 1)%Z with (j - 53)%Z by lia. }
  lra.
Qed.

End Binary64.

(** ** Create Faces: pixel rectangles *)

Section PixelRectangles.
Context `{JS.Platform}.
Import JS CreateFaces.

Lemma round_nonneg (x : Q) : (0 <= x)%Q -> 0 <= Math_round x.
Proof.
  intros Hx. unfold Math_round. change 0 with (Qfloor 0).
  apply Qfloor_resp_le. lra.
Qed.

Lemma round_le (x : Q) (n : Z) : (x <= inject_Z n)%Q -> Math_round x <= n.
Proof.
  intros Hx. unfold Math_round.
  pose proof (Qfloor_le (x + (1 # 2))) as Hfl.
  assert (Hlt : (inject_Z (Qfloor (x + (1 # 2))) < inject_Z (n + 1))%Q).
  { rewrite inject_Z_plus. change (inject_Z 1) with 1%Q. lra. }
  rewrite <- Zlt_Qlt in Hlt. lia.
Qed.

Lemma round_sum_lt (a b : Q) (n : Z) :
  (a + b < inject_Z n + 1)%Q -> Math_round a + Math_round b <= n + 1.
Proof.
  intros Hab. unfold Math_round.
  pose proof (Qfloor_le (a + (1 # 2))) as Ha.
  pose proof (Qfloor_le (b + (1 # 2))) as Hb.
  assert (Hlt : (inject_Z (Qfloor (a + (1 # 2)) + Qfloor (b + (1 # 2))) < inject_Z (n + 2))%Q).
  { rewrite !inject_Z_plus. change (inject_Z 2) with 2%Q. lra. }
  rewrite <- Zlt_Qlt in Hlt. lia.
Qed.

Lemma double_small (q : Q) (n : Z) :
  0 <= n < 2 ^ 53 -> (0 <= q <= inject_Z n)%Q ->
  exists d, double q = Some d /\ (0 <= d <= inject_Z n)%Q.
Proof.
  intros Hn [Hq0 Hqn].
  assert (Hmax : (inject_Z (2 ^ 53) <= max_double)%Q) by (vm_compute; discriminate).
  assert (Hn' : (inject_Z n <= inject_Z (2 ^ 53))%Q) by (rewrite <- Zle_Qle; lia).
  destruct (double_finite q) as [d Hd].
  { rewrite Qabs_pos by exact Hq0. lra. }
  exists d. split; [exact Hd|]. split.
  - apply (double_ge_Z q d 0); [reflexivity|exact Hq0|exact Hd].
  - apply (double_le_Z q d n); [lia|exact Hqn|exact Hd].
Qed.

(** One axis: origin and size are rounded separately, each product to the
    nearest number first. *)
Lemma axis_bounds (lo hi : Q) (size : Z) :
  0 <= size <= 2 ^ 50 -> (0 <= lo)%Q -> (lo < hi)%Q -> (hi <= 1)%Q ->
  exists origin extent : Z,
    Math_round <$> num_mul (of_Q lo) (of_Q (inject_Z size)) = Some origin
    /\ Math_round <$> num_mul (num_sub (of_Q hi) (of_Q lo)) (of_Q (inject_Z size))
       = Some extent
    /\ 0 <= origin <= size /\ 0 <= extent <= size /\ origin + extent <= size + 1.
Proof.
  intros Hsize Hlo Hlt Hhi. unfold of_Q.
  assert (Hs : (0 <= inject_Z size <= inject_Z (2 ^ 50))%Q).
  { split; [change 0%Q with (inject_Z 0)|]; rewrite <- Zle_Qle; lia. }
  destruct (double_small lo 1) as (l & El & Hl); [lia|change (inject_Z 1) with 1%Q; lra|].
  destruct (double_small hi 1) as (h & Eh & Hh); [lia|change (inject_Z 1) with 1%Q; lra|].
  change (inject_Z 1) with 1%Q in Hl, Hh.
  assert (Hlh : (l <= h)%Q) by (apply (double_mono lo hi); [lra|exact El|exact Eh]).
  rewrite El, Eh, (double_fix (inject_Z size)) by (apply binary64_Z; lia).
  pose proof (Qred_correct (inject_Z size)) as Es. revert Es.
  generalize (Qred (inject_Z size)). intros s Es.
  cbn [num_sub num_mul].
  destruct (double_small (h - l) 1) as (w & Ew & Hw);
    [lia|change (inject_Z 1) with 1%Q; lra|].
  change (inject_Z 1) with 1%Q in Hw. rewrite Ew. cbn [num_mul].
  assert (Hls : (0 <= l * s <= inject_Z size)%Q) by (rewrite Es; nra).
  assert (Hws : (0 <= w * s <= inject_Z size)%Q) by (rewrite Es; nra).
  destruct (double_small (l * s) size) as (a & Ea & Ha); [lia|exact Hls|].
  destruct (double_small (w * s) size) as (b & Eb & Hb); [lia|exact Hws|].
  rewrite Ea, Eb. cbn [fmap option_fmap option_map].
  exists (Math_round a), (Math_round b). split; [reflexivity|]. split; [reflexivity|].
  split; [split; [apply round_nonneg|apply round_le]; lra|].
  split; [split; [apply round_nonneg|apply round_le]; lra|].
  apply round_sum_lt.
  assert (Herr_w : (Qabs (w - (h - l)) <= 1 # 2 ^ 53)%Q).
  { apply (double_err (h - l) w 1); [lia| |exact Ew].
    change (pow2 1) with 2%Q. rewrite Qabs_pos; lra. }
  assert (Herr_a : (Qabs (a - l * s) <= 1 # 8)%Q).
  { apply (double_err (l * s) a 51); [lia| |exact Ea].
    rewrite Qabs_pos by lra.
    assert (P : (inject_Z (2 ^ 50) < pow2 51)%Q) by (vm_compute; reflexivity). lra. }
  assert (Herr_b : (Qabs (b - w * s) <= 1 # 8)%Q).
  { apply (double_err (w * s) b 51); [lia| |exact Eb].
    rewrite Qabs_pos by lra.
    assert (P : (inject_Z (2 ^ 50) < pow2 51)%Q) by (vm_compute; reflexivity). lra. }
  apply Qabs_Qle_condition in Herr_w, Herr_a, Herr_b.
  assert (P50 : (inject_Z (2 ^ 50) * (1 # 2 ^ 53) == 1 # 8)%Q) by reflexivity.
  rewrite <- Es in Hs.
  assert (H1 : (w * s <= (h - l + (1 # 2 ^ 53)) * s)%Q)
    by (apply Qmult_le_compat_r; lra).
  assert (H2 : (h * s <= 1 * s)%Q) by (apply Qmult_le_compat_r; lra).
  assert (H3 : ((1 # 2 ^ 53) * s <= (1 # 2 ^ 53) * inject_Z (2 ^ 50))%Q)
    by (apply Qmult_le_l; [reflexivity|lra]).
  rewrite <- Es.
  revert P50 H1 H2 H3 Herr_a Herr_b.
  generalize (inject_Z (2 ^ 50)). intros c **. nra.
Qed.

Lemma facesToApply_In (sel : gmap Z (gset string)) (p : UnrecognizedPersonPreview.t)
    (f : UnrecognizedFacePreview.t) :
  f ∈ facesToApply sel p -> f ∈ UnrecognizedPersonPreview.faces p.
Proof.
  unfold facesToApply. intros Hf.
  apply list_elem_of_fmap in Hf as ([idx f'] & -> & Hin).
  apply list_elem_of_In, filter_In in Hin as [Hin _].
  apply list_elem_of_In, elem_of_lookup_imap in Hin as (i & x & [= -> ->] & Hx).
  cbn. now apply list_elem_of_lookup_2 in Hx.
Qed.

Lemma item_requests_In (script : nat -> settled CreateFacesResult.t * bool)
    (sel : gmap Z (gset string)) (p : UnrecognizedPersonPreview.t) (req : Request) :
  req ∈ item_requests script sel p ->
  exists f, f ∈ UnrecognizedPersonPreview.faces p /\ req = request_of p [f].
Proof.
  unfold item_requests. intros Hreq.
  apply list_elem_of_fmap in Hreq as (f & -> & Hf).
  exists f. split; [|reflexivity].
  apply facesToApply_In with sel. now apply (subseteq_take _ _ f) in Hf.
Qed.

(** C8, as the code has it. Each face item of every request the Create Faces
    tab builds, on the single and on the bulk path, carries x = round(x1 W),
    y = round(y1 H), width = round((x2-x1) W), height = round((y2-y1) H),
    image_width = W and image_height = H, where the products and the
    differences are those of binary64 arithmetic: each result is a finite
    number with none nearer to the exact value, or it is not finite, and
    then neither is the field computed from it; round takes a finite number
    t to the integer n with n <= t + 1/2 < n + 1. For a well-formed normalised
    rectangle and image dimensions between 0 and 2^50, the four are
    integers, x and width lie between 0 and W, y and height between 0 and H,
    and x + width is at most W + 1, y + height at most H + 1: the far edges
    can pass the image by one pixel. *)
Theorem create_requests_carry_pixels
    (answer : settled CreateFacesResult.t) (script : Script)
    (p : UnrecognizedPersonPreview.t) (r : Run) (f : UnrecognizedFacePreview.t) :
  let W := UnrecognizedFacePreview.image_width f in
  let H := UnrecognizedFacePreview.image_height f in
  let x1 := of_Q (UnrecognizedFacePreview.ms_rect_x1 f) in
  let y1 := of_Q (UnrecognizedFacePreview.ms_rect_y1 f) in
  let x2 := of_Q (UnrecognizedFacePreview.ms_rect_x2 f) in
  let y2 := of_Q (UnrecognizedFacePreview.ms_rect_y2 f) in
  (CreateFaceItem.asset_id (item_of f) = UnrecognizedFacePreview.immich_asset_id f
   /\ CreateFaceItem.x (item_of f) = Math_round <$> num_mul x1 (of_Q (inject_Z W))
   /\ CreateFaceItem.y (item_of f) = Math_round <$> num_mul y1 (of_Q (inject_Z H))
   /\ CreateFaceItem.width (item_of f)
      = Math_round <$> num_mul (num_sub x2 x1) (of_Q (inject_Z W))
   /\ CreateFaceItem.height (item_of f)
      = Math_round <$> num_mul (num_sub y2 y1) (of_Q (inject_Z H))
   /\ CreateFaceItem.image_width (item_of f) = W
   /\ CreateFaceItem.image_height (item_of f) = H)
  /\ ((forall q d, of_Q q = Some d -> nearest q d)
      /\ (forall q, (Qabs q <= max_double)%Q -> exists d, of_Q q = Some d)
      /\ (forall d, binary64 d -> exists d', of_Q d = Some d' /\ (d' == d)%Q)
      /\ (forall a b d, num_mul (Some a) (Some b) = Some d -> nearest (a * b) d)
      /\ (forall a b d, num_sub (Some a) (Some b) = Some d -> nearest (a - b) d)
      /\ (forall a b, (Qabs (a * b) <= max_double)%Q ->
            exists d, num_mul (Some a) (Some b) = Some d)
      /\ (forall a b, (Qabs (a - b) <= max_double)%Q ->
            exists d, num_sub (Some a) (Some b) = Some d)
      /\ (forall a, num_mul None a = None /\ num_mul a None = None
                    /\ num_sub None a = None /\ num_sub a None = None)
      /\ (forall t : Q, (inject_Z (Math_round t) <= t + (1 # 2))%Q
                        /\ (t + (1 # 2) < inject_Z (Math_round t) + 1)%Q))
  /\ (exists r', applySingle answer p r = Normal r'
        /\ sent r' = sent r ++ [request_of p (UnrecognizedPersonPreview.faces p)]
        /\ req_faces (request_of p (UnrecognizedPersonPreview.faces p))
           = item_of <$> UnrecognizedPersonPreview.faces p)
  /\ (exists r' built, applySelected script r = Normal r'
        /\ sent r' = sent r ++ built
        /\ forall req, req ∈ built ->
             exists q g, q ∈ previewsToApply r
                         /\ g ∈ UnrecognizedPersonPreview.faces q
                         /\ req = request_of q [g] /\ req_faces req = [item_of g])
  /\ (0 <= W <= 2 ^ 50 -> 0 <= H <= 2 ^ 50 -> well_formed_rect f ->
      exists x y width height : Z,
        CreateFaceItem.x (item_of f) = Some x
        /\ CreateFaceItem.y (item_of f) = Some y
        /\ CreateFaceItem.width (item_of f) = Some width
        /\ CreateFaceItem.height (item_of f) = Some height
        /\ 0 <= x <= W
        /\ 0 <= width <= W
        /\ x + width <= W + 1
        /\ 0 <= y <= H
        /\ 0 <= height <= H
        /\ y + height <= H + 1).
Proof.
  cbv zeta. split; [repeat split|]. split; [|split; [|split]].
  - split; [intros q d; apply double_nearest|].
    split; [intros q; apply double_finite|].
    split.
    { intros d Hd. exists (Qred d). split; [now apply double_fix|apply Qred_correct]. }
    split; [intros a b d; apply double_nearest|].
    split; [intros a b d; apply double_nearest|].
    split; [intros a b; apply double_finite|].
    split; [intros a b; apply double_finite|].
    split; [intros [a|]; repeat split|].
    intros t. unfold Math_round. split; [apply Qfloor_le|].
    pose proof (Qlt_floor (t + (1 # 2))) as Hlt. rewrite inject_Z_plus in Hlt. exact Hlt.
  - unfold applySingle. destruct answer as [result|err];
      cbn [await try_catch mbind completion_bind mret completion_ret].
    + destruct (CreateFacesResult.success result);
        cbn [mbind completion_bind mret completion_ret]; eexists; repeat split.
    + eexists; repeat split.
  - destruct (create_applySelected_spec script r) as (r' & E & Hs & _).
    cbv zeta in Hs. eexists r', _. split; [exact E|]. split; [exact Hs|].
    intros req Hreq. apply list_elem_of_In, in_concat in Hreq as (l & Hl & Hreq).
    apply list_elem_of_In, elem_of_lookup_imap in Hl as (j & q & -> & Hq).
    apply list_elem_of_In, item_requests_In in Hreq as (g & Hg & ->).
    exists q, g. split; [|split; [exact Hg|split; reflexivity]].
    apply list_elem_of_lookup_2 with j. now apply lookup_take_Some in Hq as [Hq _].
  - intros HW HH (Hx1 & Hx & Hx2 & Hy1 & Hy & Hy2).
    destruct (axis_bounds _ _ _ HW Hx1 Hx Hx2) as (x & width & Ex & Ew & A1 & A2 & A3).
    destruct (axis_bounds _ _ _ HH Hy1 Hy Hy2) as (y & height & Ey & Eh & B1 & B2 & B3).
    exists x, y, width, height.
    cbn [item_of CreateFaceItem.x CreateFaceItem.y CreateFaceItem.width
           CreateFaceItem.height rectToPixels px_x px_y px_width px_height].
    repeat (split; [assumption|]). assumption.
Qed.

End PixelRectangles.

(** ** The properties at work on sample data *)

Section OnSamples.
Import JS MatchingContext MiniPlatform Samples.

(** The analytics pipeline on four raw matches at thresholds (0.3, 0.4): two
    aggregates, the larger first, with their means; one is medium, one low. *)
Example aggregates_on_samples :
  (fun g => (Analytics.count g, Qred (Analytics.avg_iou g),
             Qred (Analytics.avg_center_dist g)))
    <$> Analytics.aggregatedMatches
          (Analytics.filteredMatches (Some raw_matches) (3 # 10) (4 # 10))
  = [ (3, 2 # 5, 1 # 5); (1, 9 # 10, 0 # 1) ].
Proof. vm_compute. reflexivity. Qed.

Example breakdown_on_samples :
  Analytics.confidenceBreakdown (Analytics.aggregatedMatches raw_matches)
  = Analytics.mkBreakdown 0 1 1.
Proof. vm_compute. reflexivity. Qed.

(** A single perfect match makes a low-confidence aggregate. *)
Example single_match_is_low :
  Analytics.classify
    <$> Analytics.aggregatedMatches
          (Analytics.filteredMatches (Some [raw 1 "X" 1 0]) (3 # 10) (4 # 10))
  = [low].
Proof. vm_compute. reflexivity. Qed.

(** Stored texts that parse but have the wrong shape fall back as well. *)
Example thresholds_fall_back_on_null :
  loadThresholds {[ THRESHOLDS_STORAGE_KEY := "null" ]} = default_thresholds.
Proof. vm_compute. reflexivity. Qed.

Example changes_fall_back_on_a_number :
  loadAppliedChanges
    {[ STORAGE_KEY := JSON_stringify (JObj [("renamedClusters", JNum 5)]) ]}
  = loaded_empty.
Proof. vm_compute. reflexivity. Qed.

(** C1 at the boundary: a match at IoU 0.3 passes the threshold 0.3, one at
    0.29 fails. *)
Lemma threshold_filter_exact_witness :
  Analytics.passes (3 # 10) (4 # 10) (raw 1 "X" (3 # 10) (2 # 10)) = true
  /\ Analytics.passes (3 # 10) (4 # 10) (raw 1 "X" (29 # 100) (2 # 10)) = false.
Proof.
  destruct (threshold_filter_exact raw_matches (3 # 10) (4 # 10)
              (raw 1 "X" (3 # 10) (2 # 10))) as (_ & _ & _ & Hat & _).
  destruct (threshold_filter_exact raw_matches (3 # 10) (4 # 10)
              (raw 1 "X" (29 # 100) (2 # 10))) as (_ & _ & _ & _ & Hbelow).
  split.
  - apply Hat; [reflexivity|]. cbn. lra.
  - apply (Hbelow (1 # 100)); [reflexivity|]. vm_compute. reflexivity.
Defined.

(** C3 on four matches: the pair (1, X) has an aggregate that summarises its
    three matches. *)
Lemma aggregated_means_witness :
  exists e, In e (Analytics.aggregatedMatches raw_matches)
            /\ Analytics.summarises e (Analytics.group 1 "X" raw_matches).
Proof.
  exact (proj2 (aggregated_means raw_matches) (raw 1 "X" (1 # 2) (1 # 10))
           (or_introl eq_refl)).
Defined.

(** C4 on the sample tab: every row under the applicable filter is unnamed. *)
Lemma rename_offers_are_unnamed_witness :
  Forall TransferNames.unnamed (TransferNames.visible rename_run).
Proof.
  exact (proj1 (rename_offers_are_unnamed rename_run) eq_refl).
Defined.

(** C5 fails as it is worded. With two items, Cancel pressed after item 0 has
    reached its terminal state, which can only be while the request of item 1
    is in flight, does not leave item 1 pending: that request completes and
    item 1 ends in success. *)
Lemma cancel_after_terminal_item_runs_next :
  snd (cancel_after_first 0%nat) = false
  /\ snd (cancel_after_first 1%nat) = true
  /\ length (TransferNames.matchesToApply rename_run) = 2%nat
  /\ exists r',
       TransferNames.applySelected cancel_after_first rename_run = Normal r'
       /\ ProgressItem.status
            <$> TransferNames.progressItems (TransferNames.ui r') !! 0%nat
          = Some Status.success
       /\ ProgressItem.status
            <$> TransferNames.progressItems (TransferNames.ui r') !! 1%nat
          = Some Status.success
       /\ length (TransferNames.sent r') = 2%nat.
Proof.
  split; [reflexivity|]. split; [reflexivity|]. split; [vm_compute; reflexivity|].
  eexists. split; [vm_compute; reflexivity|].
  split; [reflexivity|]. split; reflexivity.
Qed.

(** In Assign Faces the item in flight is cut short: with Cancel pressed
    during the first of Alice's two faces, one request is sent for her and
    her record ends in success. *)
Lemma assign_cancel_cuts_item_short :
  exists r',
    AssignFaces.applySelected cancel_during_first_face assign_run = Normal r'
    /\ length (AssignFaces.sent r') = 1%nat
    /\ (fun item => (ProgressItem.status item, ProgressItem.name item))
         <$> AssignFaces.progressItems (AssignFaces.ui r') !! 0%nat
       = Some (Status.success, "Alice (1/2 faces)")
    /\ ProgressItem.status <$> AssignFaces.progressItems (AssignFaces.ui r') !! 1%nat
       = Some Status.pending.
Proof.
  eexists. split; [vm_compute; reflexivity|]. repeat split.
Qed.

(** C5 on the sample tabs: Cancel pressed during the first item leaves the
    second one pending. *)
Lemma cancel_stops_before_next_item_witness :
  (exists r',
     TransferNames.applySelected cancel_during_first rename_run = Normal r'
     /\ TransferNames.progressItems (TransferNames.ui r') !! 1%nat
        = TransferNames.pending_item <$> TransferNames.matchesToApply rename_run !! 1%nat)
  /\ (exists r',
        AssignFaces.applySelected cancel_during_first_face assign_run = Normal r'
        /\ AssignFaces.progressItems (AssignFaces.ui r') !! 1%nat
           = AssignFaces.pending_item (AssignFaces.faceSelections (AssignFaces.ui assign_run))
               <$> AssignFaces.previewsToApply assign_run !! 1%nat).
Proof.
  pose proof (cancel_stops_before_next_item 0 cancel_during_first rename_run
                cancel_during_first_face assign_run) as [Hrename Hassign].
  split.
  - destruct Hrename as (r' & E & _ & _ & Hrest).
    + vm_compute. lia.
    + split; [intros j Hj; lia|reflexivity].
    + exists r'. split; [exact E|]. apply Hrest. lia.
  - destruct Hassign as (r' & E & _ & _ & Hrest).
    + split; [intros j q Hj; lia|].
      eexists. split; [vm_compute; reflexivity|]. vm_compute. reflexivity.
    + exists r'. split; [exact E|]. apply Hrest. lia.
Defined.

(** C6 fails as it is worded. In Create Faces the request for Frank's first
    face throws and the one for his second face succeeds: his record is not
    marked error, it ends in success with the count in its name. *)
Lemma create_failed_request_not_marked_error :
  fst (first_face_throws 0%nat 0%nat) = Rejected (ErrorObject "boom")
  /\ exists r',
       CreateFaces.applySelected first_face_throws create_run = Normal r'
       /\ length (CreateFaces.sent r') = 2%nat
       /\ (fun item => (ProgressItem.status item, ProgressItem.name item,
                        ProgressItem.error item))
            <$> CreateFaces.progressItems (CreateFaces.ui r') !! 0%nat
          = Some (Status.success, "Frank (1/2 faces)", None).
Proof.
  split; [reflexivity|]. eexists. split; [vm_compute; reflexivity|]. repeat split.
Qed.

(** C6 on the sample tabs: without a cancel each batch goes through all of
    its items. *)
Lemma batch_failures_are_per_item_witness :
  (exists r', TransferNames.applySelected (fun _ => (Rejected NotAnError, false)) rename_run
              = Normal r'
              /\ length (TransferNames.sent r') = 2%nat)
  /\ (exists r', CreateFaces.applySelected first_face_throws create_run = Normal r'
                 /\ length (CreateFaces.sent r') = 2%nat).
Proof.
  pose proof (batch_failures_are_per_item (fun _ => (Rejected NotAnError, false)) rename_run
                first_face_throws create_run) as [Hrename Hcreate].
  split.
  - destruct Hrename as (r' & n & E & Hs & Hall & _).
    exists r'. split; [exact E|]. rewrite Hs, (Hall (fun _ => eq_refl)).
    vm_compute. reflexivity.
  - destruct Hcreate as (r' & n & E & Hs & Hall & _).
    exists r'. split; [exact E|]. destruct (Hall (fun _ _ => eq_refl)) as [-> _].
    rewrite Hs. vm_compute. reflexivity.
Defined.

(** On the sample tabs, marking person 1 as merged yields the bookkeeping
    with 1 in mergedPeople, and marking the selection as fixed empties the
    selection. *)
Lemma acknowledgements_on_samples :
  mergedPeople (appliedChanges (state (MergeClusters.ctx
                                        (MergeClusters.markAsMerged 1 merge_run))))
  = {[1]}
  /\ MergeClusters.selectedIds (MergeClusters.ui (MergeClusters.markAsMerged 1 merge_run))
     = {[2]}
  /\ fixedClusters (appliedChanges (state (FixIssues.ctx
                                            (FixIssues.markSelectedAsFixed fix_run))))
     = {["c2"]}.
Proof. repeat split; vm_compute; reflexivity. Qed.

(** C8 fails as it is worded: the right half of an image three pixels wide
    is a well-formed rectangle, and its pixel rectangle starts at x = 2 with
    width 2, one pixel past the image. *)
Lemma right_half_passes_the_edge :
  CreateFaces.well_formed_rect right_half
  /\ CreateFaces.px_x (CreateFaces.rectToPixels right_half) = Some 2
  /\ CreateFaces.px_width (CreateFaces.rectToPixels right_half) = Some 2
  /\ UnrecognizedFacePreview.image_width right_half = 3
  /\ ~ CreateFaces.within_image right_half.
Proof.
  assert (Ex : CreateFaces.px_x (CreateFaces.rectToPixels right_half) = Some 2)
    by (vm_compute; reflexivity).
  assert (Ew : CreateFaces.px_width (CreateFaces.rectToPixels right_half) = Some 2)
    by (vm_compute; reflexivity).
  split; [unfold CreateFaces.well_formed_rect; cbn; repeat split; lra|].
  split; [exact Ex|]. split; [exact Ew|]. split; [reflexivity|].
  intros (x & y & width & height & Hx & _ & Hw & _ & _ & _ & Hsum & _).
  cbv zeta in Hx, Hw. rewrite Ex in Hx. rewrite Ew in Hw.
  injection Hx as <-. injection Hw as <-. cbn in Hsum. lia.
Qed.

(** The products are those of the machine: 0.285 times 100 is the number
    just below 28.5 and rounds to 28, where the exact product rounds to 29;
    the number nearest 0.015, which is below it, times 100 is 1.5 and rounds
    to 2. *)
Example products_are_rounded_first :
  Math_round <$> num_mul (of_Q (285 # 1000)) (of_Q 100) = Some 28
  /\ Math_round ((285 # 1000) * 100) = 29
  /\ Math_round <$> num_mul (of_Q (15 # 1000)) (of_Q 100) = Some 2
  /\ (exists d, of_Q (15 # 1000) = Some d /\ (d < 15 # 1000)%Q
                /\ Math_round (d * 100) = 1).
Proof.
  split; [vm_compute; reflexivity|]. split; [vm_compute; reflexivity|].
  split; [vm_compute; reflexivity|].
  eexists. split; [vm_compute; reflexivity|]. split; vm_compute; reflexivity.
Qed.

(** The number nearest one tenth; a half of the last place goes to the even
    neighbour; past the largest finite number by half a place the result is
    not finite. *)
Example double_on_samples :
  of_Q (1 # 10) = Some (3602879701896397 # 2 ^ 55)
  /\ of_Q (inject_Z (2 ^ 53 + 1)) = Some (inject_Z (2 ^ 53))
  /\ of_Q (inject_Z (2 ^ 53 + 3)) = Some (inject_Z (2 ^ 53 + 4))
  /\ of_Q (pow2 (-1075)) = Some 0%Q
  /\ of_Q (max_double + pow2 969) = Some (Qred max_double)
  /\ of_Q (max_double + pow2 970) = None.
Proof. vm_compute. repeat split. Qed.

(** C8 on a sample face: a rectangle from (0.2, 0.2) to (0.4, 0.4) of an
    image of 100 by 50 pixels stays within the amended bounds. *)
Lemma create_requests_carry_pixels_witness :
  exists x width : Z,
    CreateFaceItem.x (CreateFaces.item_of (face "asset1" (1 # 5) (1 # 5) (2 # 5) (2 # 5) 100 50))
    = Some x
    /\ CreateFaceItem.width
         (CreateFaces.item_of (face "asset1" (1 # 5) (1 # 5) (2 # 5) (2 # 5) 100 50))
       = Some width
    /\ 0 <= x <= 100
    /\ x + width <= 100 + 1.
Proof.
  destruct (create_requests_carry_pixels created_ok first_face_throws create_preview
              create_run (face "asset1" (1 # 5) (1 # 5) (2 # 5) (2 # 5) 100 50))
    as (_ & _ & _ & _ & Hbounds).
  cbv zeta in Hbounds.
  destruct Hbounds as (x & y & width & height & Ex & _ & Ew & _ & Hx & _ & Hsum & _).
  - cbn. lia.
  - cbn. lia.
  - unfold CreateFaces.well_formed_rect. cbn. repeat split; lra.
  - exists x, width. split; [exact Ex|]. split; [exact Ew|]. split; [exact Hx|exact Hsum].
Defined.


(** C10 on the small platform: what was saved is what is loaded. *)
Lemma persistence_round_trip_witness :
  holds_strings
    (l_renamedClusters (loadAppliedChanges (saveAppliedChanges changes0 ∅)))
    (renamedClusters changes0)
  /\ holds_numbers
       (l_assignedPeople (loadAppliedChanges (saveAppliedChanges changes0 ∅)))
       (assignedPeople changes0).
Proof.
  assert (Hjson : JSON_parse (JSON_stringify (toStore changes0)) = Some (toStore changes0))
    by (vm_compute; reflexivity).
  destruct (persistence_round_trip changes0 ∅ Hjson eq_refl) as [(Hr & Ha & _) _].
  split; [exact Hr|exact Ha].
Defined.

End OnSamples.

(* ===================================================================== *)
(** ** Analytics: filters, aggregates and histograms *)
(* ===================================================================== *)

Section SortFacts.
Context {A : Type} (cmp : A -> A -> Q).

(** The order a comparator stands for: [a] may come before [b]. *)
Lemma sort_insert_sorted (x : A) (l : list A) :
  (forall a b c, (cmp a b <= 0)%Q -> (cmp b c <= 0)%Q -> (cmp a c <= 0)%Q) ->
  (forall a b, (cmp a b <= 0)%Q \/ (cmp b a <= 0)%Q) ->
  StronglySorted (fun a b => (cmp a b <= 0)%Q) l ->
  StronglySorted (fun a b => (cmp a b <= 0)%Q) (JS.sort_insert cmp x l).
Proof.
  intros Htrans Htotal. induction l as [|y ys IH]; intros Hs; simpl.
  - repeat constructor.
  - destruct (Qle_bool (cmp x y) 0) eqn:E.
    + apply Qle_bool_iff in E. constructor; [assumption|].
      constructor; [assumption|].
      apply StronglySorted_inv in Hs as [_ Hall].
      rewrite Forall_forall in Hall. apply Forall_forall. intros z Hz.
      apply (Htrans x y z); [assumption|]. now apply Hall.
    + assert (Hyx : (cmp y x <= 0)%Q).
      { destruct (Htotal x y) as [Hxy|]; [|assumption].
        apply Qle_bool_iff in Hxy. congruence. }
      apply StronglySorted_inv in Hs as [Hs Hall].
      constructor; [now apply IH|].
      apply Forall_forall. intros z Hz.
      rewrite (sort_insert_perm cmp x ys) in Hz.
      apply elem_of_cons in Hz as [->|Hz]; [assumption|].
      rewrite Forall_forall in Hall. now apply Hall.
Qed.

Lemma sort_sorted (l : list A) :
  (forall a b c, (cmp a b <= 0)%Q -> (cmp b c <= 0)%Q -> (cmp a c <= 0)%Q) ->
  (forall a b, (cmp a b <= 0)%Q \/ (cmp b a <= 0)%Q) ->
  StronglySorted (fun a b => (cmp a b <= 0)%Q) (JS.sort cmp l).
Proof.
  intros Htrans Htotal. induction l as [|x xs IH]; simpl; [constructor|].
  now apply sort_insert_sorted.
Qed.

(** Stability: the elements a predicate picks keep their order, as long as
    the comparator never puts an element it rejects in front of one it
    accepts out of order. *)
Lemma sort_insert_stable (keep : A -> bool) (x : A) (l : list A) :
  (forall a b, keep a = true -> keep b = true -> (cmp a b <= 0)%Q) ->
  List.filter keep (JS.sort_insert cmp x l) = List.filter keep (x :: l).
Proof.
  intros Htie. induction l as [|y ys IH]; [reflexivity|].
  cbn [JS.sort_insert]. destruct (Qle_bool (cmp x y) 0) eqn:E; [reflexivity|].
  cbn [List.filter] in *. rewrite IH.
  destruct (keep x) eqn:Kx, (keep y) eqn:Ky; try reflexivity.
  specialize (Htie x y Kx Ky). apply Qle_bool_iff in Htie. congruence.
Qed.

Lemma sort_stable (keep : A -> bool) (l : list A) :
  (forall a b, keep a = true -> keep b = true -> (cmp a b <= 0)%Q) ->
  List.filter keep (JS.sort cmp l) = List.filter keep l.
Proof.
  intros Htie. induction l as [|x xs IH]; [reflexivity|].
  cbn [JS.sort foldr]. fold (JS.sort cmp xs).
  rewrite sort_insert_stable by assumption.
  cbn [List.filter]. now rewrite IH.
Qed.

End SortFacts.

(* ------------------------------------------------------------------ *)

Lemma filter_sublist_of {A} (f : A -> bool) (l : list A) : List.filter f l `sublist_of` l.
Proof.
  induction l as [|x xs IH]; simpl; [constructor|].
  destruct (f x); [now apply sublist_skip | now apply sublist_cons].
Qed.

Lemma filter_filter_implied {A} (f g : A -> bool) (l : list A) :
  (forall x, g x = true -> f x = true) ->
  List.filter g (List.filter f l) = List.filter g l.
Proof.
  intros Himp. induction l as [|x xs IH]; simpl; [reflexivity|].
  destruct (f x) eqn:F; simpl.
  - now rewrite IH.
  - destruct (g x) eqn:G; [|assumption].
    apply Himp in G. congruence.
Qed.

Lemma slice_prefix {A} (n : Z) (l : list A) :
  0 <= n -> JS.slice 0 n l = take (Z.to_nat n) l.
Proof.
  intros Hn. unfold JS.slice.
  replace (0 <? 0) with false by reflexivity.
  destruct (Z.ltb_spec n 0); [lia|].
  rewrite (Z.min_l 0) by lia. simpl drop. rewrite Z.sub_0_r.
  destruct (Z.le_ge_cases n (Z.of_nat (length l))).
  - now rewrite Z.min_l by lia.
  - rewrite Z.min_r by lia. rewrite Nat2Z.id.
    rewrite take_ge by reflexivity.
    rewrite take_ge; [reflexivity|]. apply Nat2Z.inj_le. rewrite Z2Nat.id; lia.
Qed.

Section AnalyticsMore.
Import Analytics RawFaceMatch HistogramData.

(** X1. Raising the IoU threshold and lowering the distance threshold never
    lets a match in: the tighter preview is the looser one filtered again. *)
Theorem tighter_thresholds_keep_fewer (raw : list RawFaceMatch.t) (I C I' C' : Q)
    (HI : (I <= I')%Q) (HC : (C' <= C)%Q) :
  filteredMatches (Some raw) I' C'
    = List.filter (passes I' C') (filteredMatches (Some raw) I C)
  /\ filteredMatches (Some raw) I' C' `sublist_of` filteredMatches (Some raw) I C
  /\ (length (filteredMatches (Some raw) I' C')
      <= length (filteredMatches (Some raw) I C))%nat.
Proof.
  assert (Heq : filteredMatches (Some raw) I' C'
                = List.filter (passes I' C') (filteredMatches (Some raw) I C)).
  { unfold filteredMatches. symmetry. apply filter_filter_implied.
    intros m. rewrite !passes_spec. intros [? ?]. split.
    - eapply Qle_trans; eassumption.
    - eapply Qle_trans; eassumption. }
  split; [exact Heq|].
  assert (Hsub : filteredMatches (Some raw) I' C' `sublist_of` filteredMatches (Some raw) I C).
  { rewrite Heq. apply filter_sublist_of. }
  split; [exact Hsub|]. now apply sublist_length.
Qed.

Lemma total_count_perm (l l' : list Group) :
  Permutation l l' -> total_count l = total_count l'.
Proof.
  unfold total_count. induction 1; cbn [foldr fmap list_fmap] in *; lia.
Qed.

Lemma total_count_cons (e : Group) (l : list Group) :
  total_count (e :: l) = count e + total_count l.
Proof. reflexivity. Qed.

Lemma upsert_total (k : string) (m : RawFaceMatch.t) (g : list (string * Group)) :
  total_count (snd <$> upsert k m g) = total_count (snd <$> g) + 1
  /\ (Forall (fun e => 1 <= count e) (snd <$> g) ->
      Forall (fun e => 1 <= count e) (snd <$> upsert k m g)).
Proof.
  induction g as [|[k' e] rest [IHt IHf]].
  - split; [reflexivity|]. intros _. repeat constructor. simpl. lia.
  - cbn [upsert]. destruct (String.eqb k' k); rewrite !fmap_cons, !total_count_cons;
      cbn [snd]; (split; [|intros Hall; inversion Hall; subst; constructor]);
      try assumption; try (unfold bump; cbn [count]; lia); try lia; auto.
Qed.

Lemma fold_upsert_total (ms : list RawFaceMatch.t) (g : list (string * Group)) :
  let g' := fold_left (fun g m => upsert (key m) m g) ms g in
  total_count (snd <$> g') = total_count (snd <$> g) + Z.of_nat (length ms)
  /\ (Forall (fun e => 1 <= count e) (snd <$> g) ->
      Forall (fun e => 1 <= count e) (snd <$> g')).
Proof.
  revert g. induction ms as [|m ms IH]; intros g; simpl.
  - split; [lia | trivial].
  - destruct (IH (upsert (key m) m g)) as [IHt IHf].
    destruct (upsert_total (key m) m g) as [Ht Hf].
    split; [rewrite IHt, Ht; lia | auto].
Qed.

Lemma total_count_bound (l : list Group) :
  Forall (fun e => 1 <= count e) l -> Z.of_nat (length l) <= total_count l.
Proof.
  induction 1 as [|e l He Hall IH]; [reflexivity|].
  rewrite total_count_cons. cbn [length]. lia.
Qed.

(** X2. The sizes of the aggregates add up to the number of filtered matches;
    no aggregate is empty, and there are no more aggregates than matches. *)
Theorem aggregated_counts_add_up (filtered : list RawFaceMatch.t) :
  total_count (aggregatedMatches filtered) = Z.of_nat (length filtered)
  /\ Forall (fun e => 1 <= count e) (aggregatedMatches filtered)
  /\ (length (aggregatedMatches filtered) <= length filtered)%nat
  /\ (aggregatedMatches filtered = [] <-> filtered = []).
Proof.
  destruct (fold_upsert_total filtered []) as [Ht Hf].
  fold (grouped filtered) in Ht, Hf. simpl in Ht.
  specialize (Hf (List.Forall_nil _)).
  assert (Hperm : Permutation (aggregatedMatches filtered) (snd <$> grouped filtered))
    by apply sort_perm.
  assert (Hsum : total_count (aggregatedMatches filtered) = Z.of_nat (length filtered)).
  { rewrite (total_count_perm _ _ Hperm), Ht. reflexivity. }
  assert (Hall : Forall (fun e => 1 <= count e) (aggregatedMatches filtered)).
  { now rewrite Hperm. }
  split; [exact Hsum|]. split; [exact Hall|].
  pose proof (total_count_bound _ Hall) as Hb.
  split; [lia|]. split.
  - intros E. rewrite E in Hsum. unfold total_count in Hsum. simpl in Hsum.
    destruct filtered; [reflexivity | simpl in Hsum; lia].
  - intros ->. reflexivity.
Qed.

Lemma by_count_le (a b : Group) :
  (inject_Z (count b - count a) <= 0)%Q <-> count b <= count a.
Proof. change 0%Q with (inject_Z 0). rewrite <- Zle_Qle. lia. Qed.

Lemma StronglySorted_app_cross {A} (R : A -> A -> Prop) (l1 l2 : list A) :
  StronglySorted R (l1 ++ l2) -> forall a b, a ∈ l1 -> b ∈ l2 -> R a b.
Proof.
  induction l1 as [|x xs IH]; intros Hs a b Ha Hb.
  - inversion Ha.
  - simpl in Hs. apply StronglySorted_inv in Hs as [Hs Hall].
    apply elem_of_cons in Ha as [->|Ha]; [|now apply IH].
    rewrite Forall_forall in Hall. apply Hall. apply elem_of_app. now right.
Qed.

(** X3. The aggregates come largest first, aggregates of equal size in the
    order in which their pairs were first met, and the table shows the first
    twenty: none of the others is larger than one it shows. *)
Theorem aggregated_order (filtered : list RawFaceMatch.t) :
  Permutation (aggregatedMatches filtered) (snd <$> grouped filtered)
  /\ StronglySorted (fun a b => count b <= count a) (aggregatedMatches filtered)
  /\ (forall n, List.filter (fun e => count e =? n) (aggregatedMatches filtered)
                = List.filter (fun e => count e =? n) (snd <$> grouped filtered))
  /\ topMatches filtered = take 20 (aggregatedMatches filtered)
  /\ (forall a b, a ∈ topMatches filtered -> b ∈ drop 20 (aggregatedMatches filtered) ->
        count b <= count a).
Proof.
  assert (Hsorted : StronglySorted (fun a b => count b <= count a) (aggregatedMatches filtered)).
  { assert (Hs : StronglySorted (fun a b => (inject_Z (count b - count a) <= 0)%Q)
                   (aggregatedMatches filtered)).
    { apply sort_sorted.
      - intros a b c Hab Hbc. apply by_count_le in Hab, Hbc. apply by_count_le. lia.
      - intros a b. rewrite !by_count_le. lia. }
    revert Hs. generalize (aggregatedMatches filtered).
    induction 1 as [|x l Hs IH Hall]; constructor; [assumption|].
    rewrite Forall_forall in Hall. apply Forall_forall. intros z Hz.
    apply by_count_le. now apply Hall. }
  assert (Htop : topMatches filtered = take 20 (aggregatedMatches filtered)).
  { unfold topMatches. now rewrite slice_prefix by lia. }
  split; [apply sort_perm|]. split; [exact Hsorted|]. split; [|split; [exact Htop|]].
  - intros n. apply sort_stable. intros a b Ha Hb.
    apply by_count_le. apply Z.eqb_eq in Ha, Hb. lia.
  - rewrite Htop. intros a b Ha Hb.
    rewrite <- (take_drop 20 (aggregatedMatches filtered)) in Hsorted.
    exact (StronglySorted_app_cross _ _ _ Hsorted a b Ha Hb).
Qed.

Lemma maxCount_bounds (data : HistogramData.t) :
  1 <= maxCount data /\ Forall (fun c => c <= maxCount data) (counts data).
Proof.
  unfold maxCount. induction (counts data) as [|c cs [IH1 IH2]]; simpl.
  - split; [lia | constructor].
  - split; [lia|]. constructor; [lia|].
    eapply Forall_impl; [exact IH2|]. simpl. intros. lia.
Qed.

Lemma maxCount_attained (data : HistogramData.t) :
  maxCount data = 1 \/ maxCount data ∈ counts data.
Proof.
  unfold maxCount. induction (counts data) as [|c cs IH]; simpl; [now left|].
  destruct (Z.max_spec c (foldr Z.max 1 cs)) as [[_ ->]|[_ ->]].
  - destruct IH as [IH|IH]; [now left | right; now apply elem_of_cons; right].
  - right. apply elem_of_cons. now left.
Qed.

Lemma bars_Some (data : HistogramData.t) (threshold : Q) (invert : bool) (bs : list Bar) :
  bars data threshold invert = Some bs ->
  length bs = length (bins data)
  /\ forall i b, bs !! i = Some b ->
       exists bin, bins data !! i = Some bin /\ bar data threshold invert i bin = Some b.
Proof.
  unfold bars. intros Hbs. apply mapM_Some_1 in Hbs.
  split.
  - apply Forall2_length in Hbs. now rewrite length_imap in Hbs.
  - intros i b Hb.
    destruct (Forall2_lookup_r _ _ _ _ _ Hbs Hb) as ([i' bin] & Hl & Hf).
    rewrite list_lookup_imap in Hl.
    destruct (bins data !! i) as [bin'|] eqn:E; [|discriminate].
    cbn in Hl. injection Hl as <- <-. exists bin'. split; [reflexivity | exact Hf].
Qed.

Lemma bars_None (data : HistogramData.t) (threshold : Q) (invert : bool) :
  bars data threshold invert = None <-> (length (counts data) < length (bins data))%nat.
Proof.
  unfold bars. rewrite mapM_None, Exists_exists. split.
  - intros ([i bin] & Hin & Hnone).
    apply elem_of_lookup_imap_1 in Hin as (i' & bin' & Heq & Hl).
    injection Heq as -> ->. apply lookup_lt_Some in Hl.
    unfold bar in Hnone. destruct (counts data !! i') eqn:E; [discriminate|].
    apply lookup_ge_None in E. lia.
  - intros Hlt.
    destruct (lookup_lt_is_Some_2 (bins data) (length (counts data)) Hlt) as [bin Hbin].
    exists (length (counts data), bin). split.
    + apply (elem_of_lookup_imap_2 (fun i bin => (i, bin))). exact Hbin.
    + unfold bar. now rewrite lookup_ge_None_2.
Qed.

(** X4. A histogram never divides by zero: the tallest count it scales by is
    at least one.  It cannot be drawn when a bin has no count: the tooltip
    of that bin throws.  Otherwise it draws one bar for each bin, and with
    counts that are not negative every bar is between 0 and 100 percent, at
    100 percent exactly when its bin holds the scale and at 0 exactly when
    its bin is empty. *)
Theorem histogram_bars_in_range (data : HistogramData.t) (threshold : Q) (invert : bool)
    (Hcounts : Forall (fun c => 0 <= c) (counts data)) :
  1 <= maxCount data
  /\ (bars data threshold invert = None
      <-> (length (counts data) < length (bins data))%nat)
  /\ (forall bs, bars data threshold invert = Some bs ->
        length bs = length (bins data)
        /\ forall i b, bs !! i = Some b ->
             exists c bin,
               counts data !! i = Some c /\ bins data !! i = Some bin
               /\ isAboveThreshold b
                  = (if invert then JS.le bin threshold else JS.ge bin threshold)
               /\ (0 <= height b <= 100)%Q
               /\ ((height b == 100)%Q <-> c = maxCount data)
               /\ ((height b == 0)%Q <-> c = 0)).
Proof.
  destruct (maxCount_bounds data) as [Hone Hmax].
  assert (Hpos : (0 < inject_Z (maxCount data))%Q).
  { change 0%Q with (inject_Z 0). rewrite <- Zlt_Qlt. lia. }
  assert (Hnz : ~ (inject_Z (maxCount data) == 0)%Q).
  { intros E. rewrite E in Hpos. now apply Qlt_irrefl in Hpos. }
  split; [exact Hone|]. split; [apply bars_None|].
  intros bs Hbs. destruct (bars_Some _ _ _ _ Hbs) as [Hlen Hbar].
  split; [exact Hlen|]. intros i b Hb.
  destruct (Hbar i b Hb) as (bin & Hbin & Hmk). unfold bar in Hmk.
  destruct (counts data !! i) as [c|] eqn:E; [|discriminate].
  cbn in Hmk. injection Hmk as <-. cbn [height isAboveThreshold].
  exists c, bin. split; [reflexivity|]. split; [exact Hbin|]. split; [reflexivity|].
  assert (Hc : 0 <= c <= maxCount data).
  { apply list_elem_of_lookup_2 in E. rewrite Forall_forall in Hcounts, Hmax.
    split; [now apply Hcounts | now apply Hmax]. }
  assert (H0 : (0 <= inject_Z c / inject_Z (maxCount data))%Q).
  { apply Qle_shift_div_l; [exact Hpos|]. rewrite Qmult_0_l.
    change 0%Q with (inject_Z 0). rewrite <- Zle_Qle. lia. }
  assert (H1 : (inject_Z c / inject_Z (maxCount data) <= 1)%Q).
  { apply Qle_shift_div_r; [exact Hpos|]. rewrite Qmult_1_l.
    rewrite <- Zle_Qle. lia. }
  assert (Hmul : (inject_Z c
                  == inject_Z c / inject_Z (maxCount data) * inject_Z (maxCount data))%Q)
    by (field; exact Hnz).
  split; [split; lra|]. split.
  - split.
    + intros Hh.
      assert (Hd : (inject_Z c / inject_Z (maxCount data) == 1)%Q) by lra.
      assert (Hq : (inject_Z c == inject_Z (maxCount data))%Q).
      { rewrite Hmul, Hd. ring. }
      exact (proj1 (inject_Z_injective _ _) Hq).
    + intros ->. field. exact Hnz.
  - split.
    + intros Hh.
      assert (Hd : (inject_Z c / inject_Z (maxCount data) == 0)%Q) by lra.
      assert (Hq : (inject_Z c == inject_Z 0)%Q).
      { rewrite Hmul, Hd. ring. }
      exact (proj1 (inject_Z_injective _ _) Hq).
    + intros ->. field. exact Hnz.
Qed.

End AnalyticsMore.

(* ===================================================================== *)
(** ** The matching context and the applied-changes hook *)
(* ===================================================================== *)

Section ProviderSessions.
Context `{JS.Platform}.
Import JS MatchingContext Analytics.

Lemma ne_spec (a b : Q) : ne a b = true <-> ~ (a == b)%Q.
Proof.
  unfold ne. rewrite negb_true_iff. split.
  - intros E Heq. apply Qeq_bool_iff in Heq. congruence.
  - intros Hne. apply not_true_is_false. intros E. apply Hne. now apply Qeq_bool_iff.
Qed.

Lemma ne_or_spec (a b c d : Q) :
  ne a b || ne c d = true <-> ~ ((a == b)%Q /\ (c == d)%Q).
Proof.
  rewrite orb_true_iff, !ne_spec. split.
  - intros [Hn|Hn] [? ?]; now apply Hn.
  - intros Hn. destruct (Qeq_dec a b) as [Hab|Hab]; [|now left].
    right. intros Hcd. apply Hn. now split.
Qed.

Lemma perform_keeps_settled (a : Action) (w : World) :
  settled_state (state w) -> settled_state (state (perform a w)).
Proof.
  intros (Hd & Hl & Hr). unfold settled_state, pending_is_active in *.
  destruct a as [[result|e] now| v | v |[result|e] now| | | | | ]; cbn;
    try (split; [|split]; try reflexivity; try assumption).
  all: try (split; [discriminate | intros Hn; exfalso; apply Hn; split; reflexivity]).
  - apply ne_or_spec.
  - apply ne_or_spec.
Qed.

(** X5. In a session whose actions each finish before the next one starts,
    the dirty flag says between two actions exactly whether the pending
    thresholds differ from the active ones, so Apply Thresholds is enabled
    only when there is something to apply, and neither loading flag is left
    up. *)
Theorem thresholds_dirty_tracks_pending (storedMinIoU storedMaxCenterDist : Q)
    (changes : AppliedChanges) (ls : gmap string string) (actions : list Action) :
  let s := state (session actions
                    {| state := initial_state storedMinIoU storedMaxCenterDist changes;
                       localStorage := ls |}) in
  (thresholdsDirty s = true <-> ~ pending_is_active s)
  /\ (applyThresholds_disabled s = false <-> ~ pending_is_active s)
  /\ loading s = false
  /\ algorithmRunning s = false.
Proof.
  cbv zeta.
  assert (Hs : forall w, settled_state (state w) ->
                 settled_state (state (session actions w))).
  { induction actions as [|a rest IH]; intros w Hw; [exact Hw|].
    cbn [session foldl]. apply IH. now apply perform_keeps_settled. }
  match goal with |- context [session actions ?w] => specialize (Hs w) end.
  destruct Hs as (Hd & Hl & Hr).
  { split; [|split]; try reflexivity.
    split; [discriminate|]. intros Hn. exfalso. apply Hn. split; reflexivity. }
  split; [exact Hd|]. split; [|split; assumption].
  unfold applyThresholds_disabled. rewrite Hl, orb_false_r, negb_false_iff. exact Hd.
Qed.

(** X6. The button Use Suggested Values makes the suggestion the pending
    pair, and leaves the state dirty exactly when it differs from the active
    pair. *)
Theorem suggested_values_become_pending (s : MatchingState) (iou center_dist : Q)
    (Hs : suggestedThresholds s = Some (iou, center_dist)) :
  let s' := useSuggestedValues s in
  pendingMinIoU s' = iou /\ pendingMaxCenterDist s' = center_dist
  /\ minIoU s' = minIoU s /\ maxCenterDist s' = maxCenterDist s
  /\ (thresholdsDirty s' = true
      <-> ~ ((iou == minIoU s)%Q /\ (center_dist == maxCenterDist s)%Q)).
Proof.
  unfold useSuggestedValues. rewrite Hs. cbn.
  repeat (split; [reflexivity|]). apply ne_or_spec.
Qed.

(** X7. A request that fails changes nothing but the error message and the
    loading flags: results, thresholds, pending values and bookkeeping stay.
    [runAlgorithm] leaves the store alone; [applyThresholds] has stored the
    pending thresholds before it asked, and they stay stored. *)
Theorem failed_fetch_keeps_the_data (e : thrown) (now : Z) (w : World) :
  let msg := message_or "Failed to run algorithm" e in
  let run := runAlgorithm (Rejected e) now w in
  let reapply := applyThresholds (Rejected e) now w in
  (same_but_progress (state w) (state run)
   /\ error (state run) = Some msg
   /\ loading (state run) = false /\ algorithmRunning (state run) = false
   /\ localStorage run = localStorage w)
  /\ (same_but_progress (state w) (state reapply)
      /\ error (state reapply) = Some msg
      /\ loading (state reapply) = false /\ algorithmRunning (state reapply) = false
      /\ localStorage reapply !! THRESHOLDS_STORAGE_KEY
         = Some (JSON_stringify
                   (JObj [("minIoU", JNum (pendingMinIoU (state w)));
                          ("maxCenterDist", JNum (pendingMaxCenterDist (state w)))]))
      /\ (forall k, k <> THRESHOLDS_STORAGE_KEY ->
            localStorage reapply !! k = localStorage w !! k)).
Proof.
  cbv zeta. split.
  - unfold same_but_progress. cbn. repeat split.
  - unfold same_but_progress. cbn. split; [repeat split|].
    repeat (split; [reflexivity|]). split.
    + unfold saveThresholds. apply lookup_insert_eq.
    + intros k Hk. unfold saveThresholds. now apply lookup_insert_ne.
Qed.

End ProviderSessions.

Section HookQueries.
Context `{JS.Platform}.
Import JS MatchingContext.

Lemma hook_load_is_context_load (ls : gmap string string) :
  UseAppliedChanges.loadAppliedChanges ls = loadAppliedChanges ls.
Proof. reflexivity. Qed.

Lemma load_after_save (c : AppliedChanges) (ls : gmap string string) :
  JSON_parse (JSON_stringify (toStore c)) = Some (toStore c) ->
  JSON_parse EmptyString = None ->
  loadAppliedChanges (saveAppliedChanges c ls)
  = {| l_renamedClusters := JStr <$> elements (renamedClusters c);
       l_assignedPeople := (fun n => JNum (inject_Z n)) <$> elements (assignedPeople c);
       l_mergedPeople := (fun n => JNum (inject_Z n)) <$> elements (mergedPeople c);
       l_fixedClusters := JStr <$> elements (fixedClusters c) |}.
Proof.
  intros Hjson Hempty.
  unfold loadAppliedChanges, saveAppliedChanges. rewrite lookup_insert_eq.
  destruct (String.eqb_spec (JSON_stringify (toStore c)) EmptyString) as [E|_].
  { rewrite E in Hjson. congruence. }
  unfold parse_applied_changes. rewrite Hjson.
  cbn [mbind option_bind get toStore assoc String.eqb Ascii.eqb Bool.eqb].
  cbn [assoc].
  rewrite !new_Set_strings, !new_Set_numbers. reflexivity.
Qed.

Lemma Set_has_strings (id : string) (s : gset string) :
  Set_has (JStr id) (JStr <$> elements s) = bool_decide (id ∈ s).
Proof.
  unfold Set_has. destruct (decide (id ∈ s)) as [Hin|Hout].
  - rewrite bool_decide_eq_true_2 by assumption. apply existsb_exists.
    exists (JStr id). split.
    + apply list_elem_of_In, list_elem_of_fmap. exists id. split; [reflexivity|].
      now apply elem_of_elements.
    + rewrite same_value_zero_strings. now apply bool_decide_eq_true_2.
  - rewrite bool_decide_eq_false_2 by assumption. apply not_true_is_false.
    intros Hex. apply existsb_exists in Hex as (v & Hv & Hs).
    apply list_elem_of_In, list_elem_of_fmap in Hv as (a & -> & Ha).
    rewrite same_value_zero_strings in Hs. apply bool_decide_eq_true in Hs. subst a.
    apply Hout. now apply elem_of_elements.
Qed.

Lemma Set_has_numbers (id : Z) (s : gset Z) :
  Set_has (JNum (inject_Z id)) ((fun n => JNum (inject_Z n)) <$> elements s)
  = bool_decide (id ∈ s).
Proof.
  unfold Set_has. destruct (decide (id ∈ s)) as [Hin|Hout].
  - rewrite bool_decide_eq_true_2 by assumption. apply existsb_exists.
    exists (JNum (inject_Z id)). split.
    + apply list_elem_of_In, list_elem_of_fmap. exists id. split; [reflexivity|].
      now apply elem_of_elements.
    + rewrite same_value_zero_numbers. now apply bool_decide_eq_true_2.
  - rewrite bool_decide_eq_false_2 by assumption. apply not_true_is_false.
    intros Hex. apply existsb_exists in Hex as (v & Hv & Hs).
    apply list_elem_of_In, list_elem_of_fmap in Hv as (a & -> & Ha).
    rewrite same_value_zero_numbers in Hs. apply bool_decide_eq_true in Hs. subst a.
    apply Hout. now apply elem_of_elements.
Qed.

(** X8. The four queries of the hook read what the context saved: each
    answers whether the id is in the set the context holds, in particular
    yes for an id just marked. *)
Theorem hook_reads_what_context_saved (c : AppliedChanges) (ls : gmap string string)
    (Hjson : JSON_parse (JSON_stringify (toStore c)) = Some (toStore c))
    (Hempty : JSON_parse EmptyString = None) :
  let stored := saveAppliedChanges c ls in
  (forall id, UseAppliedChanges.isClusterRenamed id stored
              = bool_decide (id ∈ renamedClusters c))
  /\ (forall id, UseAppliedChanges.isPersonAssigned id stored
                 = bool_decide (id ∈ assignedPeople c))
  /\ (forall id, UseAppliedChanges.areClustersMerged id stored
                 = bool_decide (id ∈ mergedPeople c))
  /\ (forall id, UseAppliedChanges.isClusterFixed id stored
                 = bool_decide (id ∈ fixedClusters c))
  /\ UseAppliedChanges.saveAppliedChanges c ls = stored
  /\ (forall w id, appliedChanges (state (markClusterRenamed id w)) = c ->
        UseAppliedChanges.isClusterRenamed id (localStorage (markClusterRenamed id w)) = true)
  /\ (forall w id, appliedChanges (state (markPersonAssigned id w)) = c ->
        UseAppliedChanges.isPersonAssigned id (localStorage (markPersonAssigned id w)) = true)
  /\ (forall w id, appliedChanges (state (markClustersMerged id w)) = c ->
        UseAppliedChanges.areClustersMerged id (localStorage (markClustersMerged id w)) = true)
  /\ (forall w id, appliedChanges (state (markClusterFixed id w)) = c ->
        UseAppliedChanges.isClusterFixed id (localStorage (markClusterFixed id w)) = true).
Proof.
  cbv zeta.
  assert (Hq1 : forall ls id, UseAppliedChanges.isClusterRenamed id (saveAppliedChanges c ls)
                           = bool_decide (id ∈ renamedClusters c)).
  { intros ls0 id. unfold UseAppliedChanges.isClusterRenamed.
    rewrite hook_load_is_context_load, load_after_save by assumption.
    apply Set_has_strings. }
  assert (Hq2 : forall ls id, UseAppliedChanges.isPersonAssigned id (saveAppliedChanges c ls)
                           = bool_decide (id ∈ assignedPeople c)).
  { intros ls0 id. unfold UseAppliedChanges.isPersonAssigned.
    rewrite hook_load_is_context_load, load_after_save by assumption.
    apply Set_has_numbers. }
  assert (Hq3 : forall ls id, UseAppliedChanges.areClustersMerged id (saveAppliedChanges c ls)
                           = bool_decide (id ∈ mergedPeople c)).
  { intros ls0 id. unfold UseAppliedChanges.areClustersMerged.
    rewrite hook_load_is_context_load, load_after_save by assumption.
    apply Set_has_numbers. }
  assert (Hq4 : forall ls id, UseAppliedChanges.isClusterFixed id (saveAppliedChanges c ls)
                           = bool_decide (id ∈ fixedClusters c)).
  { intros ls0 id. unfold UseAppliedChanges.isClusterFixed.
    rewrite hook_load_is_context_load, load_after_save by assumption.
    apply Set_has_strings. }
  split; [apply Hq1|]. split; [apply Hq2|]. split; [apply Hq3|]. split; [apply Hq4|].
  split; [reflexivity|].
  split; [|split; [|split]]; intros w id Hc.
  - cbn in Hc. subst c. cbn [markClusterRenamed mark localStorage].
    rewrite Hq1. apply bool_decide_eq_true_2. cbn. set_solver.
  - cbn in Hc. subst c. cbn [markPersonAssigned mark localStorage].
    rewrite Hq2. apply bool_decide_eq_true_2. cbn. set_solver.
  - cbn in Hc. subst c. cbn [markClustersMerged mark localStorage].
    rewrite Hq3. apply bool_decide_eq_true_2. cbn. set_solver.
  - cbn in Hc. subst c. cbn [markClusterFixed mark localStorage].
    rewrite Hq4. apply bool_decide_eq_true_2. cbn. set_solver.
Qed.

(** X9. Once the bookkeeping is cleared every query answers no, as it does
    when the stored text does not parse; clearing touches no other key, so
    the stored thresholds load as before. *)
Theorem cleared_bookkeeping_answers_no (ls : gmap string string) :
  let cleared := UseAppliedChanges.clearAppliedChanges ls in
  (forall id, UseAppliedChanges.isClusterRenamed id cleared = false)
  /\ (forall id, UseAppliedChanges.isPersonAssigned id cleared = false)
  /\ (forall id, UseAppliedChanges.areClustersMerged id cleared = false)
  /\ (forall id, UseAppliedChanges.isClusterFixed id cleared = false)
  /\ (forall k, k <> UseAppliedChanges.STORAGE_KEY -> cleared !! k = ls !! k)
  /\ loadThresholds cleared = loadThresholds ls
  /\ loadAppliedChanges cleared = loaded_empty
  /\ (forall stored cid pid,
        JSON_parse stored = None ->
        let broken := <[UseAppliedChanges.STORAGE_KEY := stored]> ls in
        UseAppliedChanges.isClusterRenamed cid broken = false
        /\ UseAppliedChanges.isPersonAssigned pid broken = false
        /\ UseAppliedChanges.areClustersMerged pid broken = false
        /\ UseAppliedChanges.isClusterFixed cid broken = false).
Proof.
  cbv zeta.
  assert (Hload : UseAppliedChanges.loadAppliedChanges (UseAppliedChanges.clearAppliedChanges ls)
                  = loaded_empty).
  { unfold UseAppliedChanges.loadAppliedChanges, UseAppliedChanges.clearAppliedChanges.
    now rewrite lookup_delete_eq. }
  unfold UseAppliedChanges.isClusterRenamed, UseAppliedChanges.isPersonAssigned,
    UseAppliedChanges.areClustersMerged, UseAppliedChanges.isClusterFixed.
  rewrite Hload. repeat (split; [reflexivity|]).
  split; [|split; [|split]].
  - intros k Hk. unfold UseAppliedChanges.clearAppliedChanges. now apply lookup_delete_ne.
  - unfold loadThresholds, UseAppliedChanges.clearAppliedChanges.
    now rewrite lookup_delete_ne.
  - rewrite <- hook_load_is_context_load. exact Hload.
  - intros stored cid pid Hbad.
    assert (Hb : UseAppliedChanges.loadAppliedChanges
                   (<[UseAppliedChanges.STORAGE_KEY := stored]> ls) = loaded_empty).
    { unfold UseAppliedChanges.loadAppliedChanges. rewrite lookup_insert_eq, Hbad.
      now destruct (String.eqb stored EmptyString). }
    rewrite Hb. repeat split.
Qed.

End HookQueries.

(* ===================================================================== *)
(** ** Transfer Names and its progress dialog *)
(* ===================================================================== *)

Lemma filter_length_le {A} (f : A -> bool) (l : list A) :
  (length (List.filter f l) <= length l)%nat.
Proof. induction l as [|x xs IH]; simpl; [lia|]. destruct (f x); simpl; lia. Qed.

Lemma filter_split_length {A} (f : A -> bool) (l : list A) :
  (length (List.filter f l) + length (List.filter (fun x => negb (f x)) l))%nat = length l.
Proof. induction l as [|x xs IH]; simpl; [lia|]. destruct (f x); simpl; lia. Qed.

Lemma size_list_to_set_le `{Countable K} (l : list K) :
  (size (list_to_set (C := gset K) l) <= length l)%nat.
Proof.
  induction l as [|x xs IH]; [cbn [list_to_set length]; rewrite size_empty; lia|].
  cbn [list_to_set length].
  destruct (decide (x ∈ (list_to_set xs : gset K))) as [Hin|Hout].
  - rewrite (subseteq_union_1_L {[x]} (list_to_set xs)) by (now apply singleton_subseteq_l).
    lia.
  - rewrite size_union by (now apply disjoint_singleton_l). rewrite size_singleton. lia.
Qed.

Lemma size_list_to_set_NoDup `{Countable K} (l : list K) :
  size (list_to_set (C := gset K) l) = length l <-> NoDup l.
Proof.
  split; [|apply size_list_to_set].
  induction l as [|x xs IH]; intros Hsz; [constructor|].
  cbn [list_to_set length] in Hsz. pose proof (size_list_to_set_le xs) as Hle.
  destruct (decide (x ∈ (list_to_set xs : gset K))) as [Hin|Hout].
  - rewrite (subseteq_union_1_L {[x]} (list_to_set xs)) in Hsz
      by (now apply singleton_subseteq_l).
    lia.
  - rewrite size_union in Hsz by (now apply disjoint_singleton_l).
    rewrite size_singleton in Hsz.
    constructor; [now rewrite elem_of_list_to_set in Hout|]. apply IH. lia.
Qed.

Section ProgressDialog.
Import ProgressModal.

Lemma terminal_count (l : list ProgressItem.t) :
  (length (List.filter (has_status Status.success) l)
   + length (List.filter (has_status Status.error) l) <= length l)%nat
  /\ ((length (List.filter (has_status Status.success) l)
       + length (List.filter (has_status Status.error) l))%nat = length l
      <-> all_terminal l).
Proof.
  unfold all_terminal. induction l as [|x xs [IHle IHeq]].
  - simpl. split; [lia|]. split; [constructor | reflexivity].
  - cbn [List.filter].
    destruct (has_status Status.success x) eqn:Es, (has_status Status.error x) eqn:Ee;
      unfold has_status in Es, Ee; destruct (ProgressItem.status x) eqn:E;
      try discriminate; cbn [length]; (split; [lia|]); split.
    all: try (intros Hsz; constructor; [first [now left | now right]|]; apply IHeq; lia).
    all: try (intros Hall; inversion Hall as [|? ? Hx Hxs]; subst; apply IHeq in Hxs; lia).
    all: try lia.
    all: intros Hall; inversion Hall as [|? ? [Hx|Hx] Hxs]; congruence.
Qed.

Lemma isComplete_spec (p : Props) : isComplete p = true <-> all_terminal (items p).
Proof.
  destruct (terminal_count (items p)) as [_ Heq].
  unfold isComplete. rewrite Nat.eqb_eq. exact Heq.
Qed.

(** X10. The dialog counts an item once at most: done plus failed never
    exceeds the total and the bar stays between 0 and 100 percent.  It calls
    the batch complete exactly when every item is a success or an error,
    which for a batch that is not empty is when the bar is full; then it
    offers Done and the X and no Cancel, and before that Cancel if it may be
    cancelled.  An empty batch counts as complete, at 0 percent. *)
Theorem progress_dialog_counts (p : Props) :
  (completed p + failed p <= length (items p))%nat
  /\ (0 <= progress p <= 100)%Q
  /\ (isComplete p = true <-> all_terminal (items p))
  /\ (items p <> [] -> (isComplete p = true <-> (progress p == 100)%Q))
  /\ (items p = [] -> isComplete p = true /\ progress p = 0%Q)
  /\ (forall v, ProgressModal p = Some v ->
        isOpen p = true
        /\ done_button v = isComplete p
        /\ close_button v = isComplete p
        /\ cancel_button v = negb (isComplete p) && canCancel p
        /\ (canCancel p = true -> done_button v = true \/ cancel_button v = true)
        /\ listed v = take (currentIndex p + 5) (items p))
  /\ (isOpen p = false <-> ProgressModal p = None).
Proof.
  destruct (terminal_count (items p)) as [Hle Heq].
  fold (completed p) (failed p) in Hle, Heq.
  pose proof (isComplete_spec p) as Hcomplete.
  assert (Hprog : (0 <= progress p <= 100)%Q
                  /\ (items p <> [] -> (isComplete p = true <-> (progress p == 100)%Q))).
  { unfold progress, isComplete. destruct (items p) as [|x xs] eqn:E.
    - simpl. split; [split; [apply Qle_refl | discriminate] | congruence].
    - replace (0 <? length (x :: xs))%nat with true by reflexivity.
      set (n := length (x :: xs)) in *. set (k := (completed p + failed p)%nat) in *.
      assert (Hn : (0 < n)%nat) by (unfold n; simpl; lia).
      assert (Hpos : (0 < inject_Z (Z.of_nat n))%Q).
      { change 0%Q with (inject_Z 0). rewrite <- Zlt_Qlt. lia. }
      assert (Hnz : ~ (inject_Z (Z.of_nat n) == 0)%Q).
      { intros E0. rewrite E0 in Hpos. now apply Qlt_irrefl in Hpos. }
      assert (H0 : (0 <= inject_Z (Z.of_nat k) / inject_Z (Z.of_nat n))%Q).
      { apply Qle_shift_div_l; [exact Hpos|]. rewrite Qmult_0_l.
        change 0%Q with (inject_Z 0). rewrite <- Zle_Qle. lia. }
      assert (H1 : (inject_Z (Z.of_nat k) / inject_Z (Z.of_nat n) <= 1)%Q).
      { apply Qle_shift_div_r; [exact Hpos|]. rewrite Qmult_1_l.
        rewrite <- Zle_Qle. lia. }
      split; [split; lra|]. intros _. rewrite Nat.eqb_eq. split.
      + intros ->. field. exact Hnz.
      + intros Hfull.
        assert (Hd : (inject_Z (Z.of_nat k) / inject_Z (Z.of_nat n) == 1)%Q) by lra.
        assert (Hq : (inject_Z (Z.of_nat k) == inject_Z (Z.of_nat n))%Q).
        { rewrite <- (Qmult_div_r (inject_Z (Z.of_nat k)) (inject_Z (Z.of_nat n))) by exact Hnz.
          rewrite Hd. ring. }
        apply (proj1 (inject_Z_injective _ _)) in Hq. lia. }
  destruct Hprog as [Hrange Hfull].
  split; [exact Hle|]. split; [exact Hrange|]. split; [exact Hcomplete|].
  split; [exact Hfull|]. split; [|split].
  - intros E. unfold isComplete, progress, completed, failed. now rewrite E.
  - intros v Hv. unfold ProgressModal in Hv.
    destruct (isOpen p); [|discriminate]. simpl in Hv. injection Hv as <-.
    cbn [done_button close_button cancel_button listed].
    repeat (split; [reflexivity|]). split.
    + intros ->. destruct (isComplete p); [now left | now right].
    + rewrite slice_prefix by lia. f_equal. lia.
  - unfold ProgressModal. destruct (isOpen p); simpl; split; congruence.
Qed.

End ProgressDialog.

(** [next.has(x) ? next.delete(x) : next.add(x)] on a copy of the set. *)
Lemma toggle_flips `{Countable K} (x : K) (s : gset K) :
  x ∈ (if bool_decide (x ∈ s) then s ∖ {[x]} else s ∪ {[x]}) <-> x ∉ s.
Proof.
  destruct (decide (x ∈ s)) as [Hin|Hout].
  - rewrite (bool_decide_eq_true_2 _ Hin). rewrite elem_of_difference, elem_of_singleton.
    tauto.
  - rewrite (bool_decide_eq_false_2 _ Hout). rewrite elem_of_union, elem_of_singleton.
    tauto.
Qed.

Lemma toggle_twice `{Countable K} (x : K) (s : gset K) :
  let t := if bool_decide (x ∈ s) then s ∖ {[x]} else s ∪ {[x]} in
  (if bool_decide (x ∈ t) then t ∖ {[x]} else t ∪ {[x]}) = s.
Proof.
  cbv zeta. pose proof (toggle_flips x s) as Hflip.
  destruct (decide (x ∈ s)) as [Hin|Hout].
  - rewrite (bool_decide_eq_true_2 _ Hin) in *.
    rewrite bool_decide_eq_false_2 by tauto.
    apply set_eq. intros y. rewrite elem_of_union, elem_of_difference, elem_of_singleton.
    destruct (decide (y = x)) as [->|]; tauto.
  - rewrite (bool_decide_eq_false_2 _ Hout) in *.
    rewrite bool_decide_eq_true_2 by tauto.
    apply set_eq. intros y. rewrite elem_of_difference, elem_of_union, elem_of_singleton.
    destruct (decide (y = x)) as [->|]; tauto.
Qed.

Section TransferNamesView.
Context `{JS.Platform}.
Import JS MatchingContext PersonMatch TransferNames.

Lemma sort_length {A} (cmp : A -> A -> Q) (l : list A) : length (JS.sort cmp l) = length l.
Proof. apply Permutation_length, sort_perm. Qed.

Lemma filter_ext_eq {A} (f g : A -> bool) (l : list A) :
  (forall x, f x = g x) -> List.filter f l = List.filter g l.
Proof.
  intros Hfg. induction l as [|x xs IH]; simpl; [reflexivity|]. now rewrite Hfg, IH.
Qed.

Lemma filter_true {A} (l : list A) : List.filter (fun _ => true) l = l.
Proof. induction l as [|x xs IH]; simpl; [reflexivity|]. now rewrite IH. Qed.

(** X11. The count on each filter tab is the number of rows the table shows
    under that filter when no confidence is picked, and an upper bound
    otherwise; applicable and already named rows never overlap. *)
Theorem rename_tab_counts_are_row_counts (ms : list PersonMatch.t)
    (changes : AppliedChanges) (c : Component) :
  let st := filterStats (Some ms) changes in
  (length (filteredMatches (Some ms) changes c) <= tab_count (filterMode c) st)%nat
  /\ (forall mode,
        length (filteredMatches (Some ms) changes (with_filters mode cf_all c))
        = tab_count mode st)
  /\ fs_all st = length ms
  /\ (fs_applicable st + fs_alreadyNamed st <= fs_all st)%nat
  /\ (fs_applicable st + fs_applied st <= fs_all st)%nat
  /\ filterStats None changes = mkFilterStats 0 0 0 0.
Proof.
  cbv zeta.
  assert (Hmode : forall mode,
            length (List.filter (mode_keeps mode changes) ms)
            = tab_count mode (filterStats (Some ms) changes)).
  { intros mode. unfold filterStats, tab_count, mode_keeps, isApplied, isAlreadyNamed.
    destruct mode; cbn [fs_all fs_applicable fs_alreadyNamed fs_applied].
    - now rewrite filter_true.
    - reflexivity.
    - reflexivity.
    - reflexivity. }
  split; [|split; [|split; [|split; [|split]]]].
  - unfold filteredMatches. rewrite sort_length, <- Hmode.
    apply filter_length_le.
  - intros mode. unfold filteredMatches, with_filters.
    cbn [filterMode confidenceFilter sortField sortDirection].
    rewrite sort_length. unfold confidence_keeps. rewrite filter_true. apply Hmode.
  - reflexivity.
  - unfold filterStats. cbn [fs_all fs_applicable fs_alreadyNamed].
    rewrite <- (filter_split_length (fun m => truthy_name (immich_cluster_name m)) ms).
    enough (length (List.filter
                      (fun m => negb (truthy_name (immich_cluster_name m))
                                && negb (bool_decide (immich_cluster_id m ∈ renamedClusters changes)))
                      ms)
            <= length (List.filter (fun m => negb (truthy_name (immich_cluster_name m))) ms))%nat
      by lia.
    rewrite <- (filter_filter_implied
                  (fun m => negb (truthy_name (immich_cluster_name m)))
                  (fun m => negb (truthy_name (immich_cluster_name m))
                            && negb (bool_decide (immich_cluster_id m ∈ renamedClusters changes)))).
    + apply filter_length_le.
    + intros m Hm. now apply andb_true_iff in Hm as [? _].
  - unfold filterStats. cbn [fs_all fs_applicable fs_applied].
    rewrite <- (filter_split_length
                  (fun m => bool_decide (immich_cluster_id m ∈ renamedClusters changes)) ms).
    enough (length (List.filter
                      (fun m => negb (truthy_name (immich_cluster_name m))
                                && negb (bool_decide (immich_cluster_id m ∈ renamedClusters changes)))
                      ms)
            <= length (List.filter
                         (fun m => negb (bool_decide (immich_cluster_id m ∈ renamedClusters changes)))
                         ms))%nat
      by lia.
    rewrite <- (filter_filter_implied
                  (fun m => negb (bool_decide (immich_cluster_id m ∈ renamedClusters changes)))
                  (fun m => negb (truthy_name (immich_cluster_name m))
                            && negb (bool_decide (immich_cluster_id m ∈ renamedClusters changes)))).
    + apply filter_length_le.
    + intros m Hm. now apply andb_true_iff in Hm as [_ ?].
  - reflexivity.
Qed.

Lemma visible_selectAll (r : Run) : visible (selectAll r) = visible r.
Proof. reflexivity. Qed.

(** X12. After Select All the header checkbox is ticked exactly when there is
    a row to apply and the rows to apply have pairwise distinct cluster ids:
    the checkbox compares the number of selected ids with the number of
    rows. *)
Theorem header_checkbox_after_select_all (r : Run) :
  (allSelected (selectAll r) = true
   <-> selectAll_matches r <> []
       /\ NoDup (immich_cluster_id <$> selectAll_matches r))
  /\ applicableCount (selectAll r) = length (selectAll_matches r)
  /\ (size (selectedIds (ui (selectAll r))) <= applicableCount (selectAll r))%nat
  /\ selectedIds (ui (header_onChange (selectAll r)))
     = (if allSelected (selectAll r) then ∅ else selectedIds (ui (selectAll r))).
Proof.
  assert (Hcount : applicableCount (selectAll r) = length (selectAll_matches r)) by reflexivity.
  assert (Hsel : selectedIds (ui (selectAll r))
                 = list_to_set (immich_cluster_id <$> selectAll_matches r)) by reflexivity.
  assert (Hle : (size (selectedIds (ui (selectAll r))) <= applicableCount (selectAll r))%nat).
  { rewrite Hsel, Hcount. rewrite <- (length_fmap immich_cluster_id).
    apply size_list_to_set_le. }
  split; [|split; [exact Hcount|split; [exact Hle|]]].
  - unfold allSelected. rewrite andb_true_iff, Nat.ltb_lt, Nat.eqb_eq, Hcount, Hsel.
    rewrite <- (length_fmap immich_cluster_id (selectAll_matches r)) at 2.
    rewrite size_list_to_set_NoDup. split.
    + intros [Hpos Hnd]. split; [|exact Hnd]. intros E. rewrite E in Hpos. simpl in Hpos. lia.
    + intros [Hne Hnd]. split; [|exact Hnd].
      destruct (selectAll_matches r); [congruence | simpl; lia].
  - unfold header_onChange. destruct (allSelected (selectAll r)); reflexivity.
Qed.

(** X13. Toggling is its own inverse: a second click on a row's checkbox, on
    its expander or on the header of the sorted column restores the
    selection, the expanded rows and the direction; a click on another
    column sorts by it, largest first. *)
Theorem rename_toggles_undo_themselves (r : Run) (id rowKey : string) (field : SortField) :
  selectedIds (ui (toggleSelection id (toggleSelection id r))) = selectedIds (ui r)
  /\ (id ∈ selectedIds (ui (toggleSelection id r)) <-> id ∉ selectedIds (ui r))
  /\ expandedRows (toggleExpanded rowKey (toggleExpanded rowKey (ui r))) = expandedRows (ui r)
  /\ (sortField (ui r) = field ->
        toggleSort field (toggleSort field (ui r)) = ui r)
  /\ (sortField (ui r) <> field ->
        sortField (toggleSort field (ui r)) = field
        /\ sortDirection (toggleSort field (ui r)) = desc)
  /\ visible (toggleSelection id r) = visible r.
Proof.
  split; [|split; [|split; [|split; [|split]]]].
  - apply toggle_twice.
  - apply toggle_flips.
  - apply toggle_twice.
  - intros <-. destruct (ui r) as [fm cf sf sd ? ? ? ? ? ? ? ? ?].
    unfold toggleSort. cbn. destruct sf, sd; reflexivity.
  - intros Hne. unfold toggleSort.
    destruct (sortField_eqb (sortField (ui r)) field) eqn:E.
    + exfalso. apply Hne. destruct (sortField (ui r)), field; simpl in E; congruence.
    + split; reflexivity.
  - reflexivity.
Qed.

End TransferNamesView.

Section TransferNamesBooks.
Context `{JS.Platform}.
Import JS MatchingContext PersonMatch TransferNames.

Lemma same_view_refl (c : Component) : same_view c c.
Proof. repeat split. Qed.

Lemma same_view_trans (c1 c2 c3 : Component) :
  same_view c1 c2 -> same_view c2 c3 -> same_view c1 c3.
Proof.
  unfold same_view. intros H12 H23.
  repeat match goal with H : _ /\ _ |- _ => destruct H end.
  repeat split; congruence.
Qed.

(** Marking a list of clusters as renamed, one after the other. *)
Lemma renamed_fold (ids : list string) (w : World) :
  let w' := foldl (fun w id => markClusterRenamed id w) w ids in
  same_but_appliedChanges (state w) (state w')
  /\ same_but_saved_changes (localStorage w) (localStorage w')
  /\ renamedClusters (appliedChanges (state w'))
     = renamedClusters (appliedChanges (state w)) ∪ list_to_set ids
  /\ assignedPeople (appliedChanges (state w')) = assignedPeople (appliedChanges (state w))
  /\ mergedPeople (appliedChanges (state w')) = mergedPeople (appliedChanges (state w))
  /\ fixedClusters (appliedChanges (state w')) = fixedClusters (appliedChanges (state w)).
Proof.
  revert w. induction ids as [|id ids IH]; intros w; cbn [foldl].
  - split; [apply same_but_appliedChanges_refl|]. split; [now intros k ?|].
    cbn. repeat split. now rewrite union_empty_r_L.
  - specialize (IH (markClusterRenamed id w)). cbv zeta in IH.
    destruct IH as (F1 & F2 & R & A & M & X).
    destruct (mark_frame
                (fun c => mkAppliedChanges (renamedClusters c ∪ {[id]}) (assignedPeople c)
                            (mergedPeople c) (fixedClusters c)) w)
      as (G1 & G2 & G3 & _).
    fold (markClusterRenamed id) in G1, G2, G3.
    split; [eapply same_but_appliedChanges_trans; eassumption|].
    split; [intros k Hk; rewrite (F2 k Hk); now apply G2|].
    rewrite R, A, M, X, G3. cbn. repeat split. now rewrite <- union_assoc_L.
Qed.

Lemma apply_item_books (answer : settled ApplyResult.t * bool) (i : nat)
    (m : PersonMatch.t) (r : Run) :
  exists r', apply_item answer i m r = Normal r'
    /\ ctx r' = (if succeeded (fst answer)
                 then markClusterRenamed (immich_cluster_id m) (ctx r) else ctx r)
    /\ selectedIds (ui r')
       = (if succeeded (fst answer) then selectedIds (ui r) ∖ {[immich_cluster_id m]}
          else selectedIds (ui r))
    /\ showProgress (ui r') = (if snd answer then false else showProgress (ui r))
    /\ cancelRef (ui r')
       = (if snd answer then (if bulkApplying (ui r) then true else cancelRef (ui r))
          else cancelRef (ui r))
    /\ bulkApplying (ui r') = bulkApplying (ui r)
    /\ applyError (ui r') = applyError (ui r)
    /\ same_view (ui r) (ui r').
Proof.
  unfold same_view.
  destruct r as [w [fm cf sf sd sel exp aid bulk err0 items pidx showp cref] snt].
  destruct answer as [[result|err] pressed]; unfold apply_item, call_applyMatches;
    cbn [fst snd await try_catch mbind completion_bind mret completion_ret succeeded].
  - destruct (0 <? ApplyResult.success_count result) eqn:E;
      eexists; (split; [reflexivity|]); destruct pressed; cbn;
      repeat match goal with |- _ /\ _ => split end; reflexivity.
  - eexists; (split; [reflexivity|]); destruct pressed; cbn;
      repeat match goal with |- _ /\ _ => split end; reflexivity.
Qed.

Lemma apply_loop_books (script : Script) (todo : list PersonMatch.t) :
  forall (i : nat) (r : Run),
    cancelRef (ui r) = false -> bulkApplying (ui r) = true ->
    exists r', apply_loop script i todo r = Normal r'
      /\ ctx r' = foldl (fun w id => markClusterRenamed id w) (ctx r)
                    (recorded script i todo)
      /\ selectedIds (ui r') = selectedIds (ui r) ∖ list_to_set (recorded script i todo)
      /\ showProgress (ui r')
         = (if cancelled script i (length todo) then false else showProgress (ui r))
      /\ applyError (ui r') = applyError (ui r)
      /\ same_view (ui r) (ui r').
Proof.
  induction todo as [|m rest IH]; intros i r Hc Hb.
  - exists r. cbn. split; [reflexivity|]. split; [reflexivity|].
    split; [now rewrite difference_empty_L|]. split; [reflexivity|].
    split; [reflexivity|apply same_view_refl].
  - cbn [apply_loop length recorded cancelled]. rewrite Hc.
    destruct (apply_item_books (script i) i m r)
      as (r1 & E1 & Hx1 & Hs1 & Hp1 & Hc1 & Hb1 & He1 & Hv1).
    rewrite E1. cbn [mbind completion_bind]. rewrite Hb, Hc in Hc1. rewrite Hb in Hb1.
    destruct (snd (script i)) eqn:Epressed.
    + exists r1. split; [now apply apply_loop_cancelled|].
      rewrite app_nil_r. cbn [orb].
      destruct (succeeded (fst (script i))); cbn [foldl list_to_set].
      * split; [exact Hx1|]. split; [now rewrite Hs1, union_empty_r_L|].
        split; [exact Hp1|]. split; [exact He1 | exact Hv1].
      * split; [exact Hx1|]. split; [now rewrite Hs1, difference_empty_L|].
        split; [exact Hp1|]. split; [exact He1 | exact Hv1].
    + destruct (IH (S i) r1 Hc1 Hb1) as (r2 & E2 & Hx2 & Hs2 & Hp2 & He2 & Hv2).
      exists r2. split; [exact E2|]. cbn [orb].
      split; [|split; [|split; [|split]]].
      * rewrite Hx2, Hx1, foldl_app.
        now destruct (succeeded (fst (script i))).
      * rewrite Hs2, Hs1, list_to_set_app_L.
        destruct (succeeded (fst (script i))); cbn [list_to_set].
        -- now rewrite union_empty_r_L, difference_difference_l_L.
        -- now rewrite union_empty_l_L.
      * rewrite Hp2, Hp1. reflexivity.
      * congruence.
      * eapply same_view_trans; eassumption.
Qed.

(** The ids the loop records are those of the items it got to and whose
    request succeeded. *)
Lemma recorded_spec (script : Script) (todo : list PersonMatch.t) :
  forall (i : nat) (id : string),
    id ∈ recorded script i todo
    <-> exists j m, (j < processed script i (length todo))%nat
                    /\ todo !! j = Some m
                    /\ succeeded (fst (script (i + j)%nat)) = true
                    /\ immich_cluster_id m = id.
Proof.
  induction todo as [|m rest IH]; intros i id; cbn [recorded processed length].
  - split; [intros Hin; inversion Hin | intros (j & ? & Hj & _); lia].
  - rewrite elem_of_app. split.
    + intros [Hhere|Hlater].
      * destruct (succeeded (fst (script i))) eqn:Es; [|inversion Hhere].
        apply list_elem_of_singleton in Hhere. subst id.
        exists 0%nat, m. rewrite Nat.add_0_r. repeat split; [lia | assumption].
      * destruct (snd (script i)); [inversion Hlater|].
        apply IH in Hlater as (j & m' & Hj & Hm' & Hs & Hid).
        exists (S j), m'. replace (i + S j)%nat with (S i + j)%nat by lia.
        repeat split; [lia | assumption | assumption | assumption].
    + intros (j & m' & Hj & Hm' & Hs & Hid). destruct j as [|j].
      * left. simpl in Hm'. injection Hm' as ->. rewrite Nat.add_0_r in Hs.
        rewrite Hs. subst id. apply list_elem_of_here.
      * right. destruct (snd (script i)); [lia|]. apply IH.
        exists j, m'. replace (S i + j)%nat with (i + S j)%nat by lia.
        repeat split; [lia | assumption | assumption | assumption].
Qed.

Lemma verdict_status (answer : settled ApplyResult.t) (item : ProgressItem.t) :
  (ProgressItem.status (verdict answer item) = Status.success
   <-> succeeded answer = true)
  /\ (ProgressItem.status (verdict answer item) = Status.error
      <-> succeeded answer = false).
Proof.
  unfold verdict. destruct (succeeded answer); cbn; split; split; congruence.
Qed.

(** X14. A bulk rename records exactly what it reports: the clusters whose item
    ends as a success, and only they, join the renamed clusters and leave the
    selection, whether or not the batch was cancelled; the other three sets,
    the rest of the shared state, the other stored keys and the filters of
    the tab stay; and no recorded cluster is offered again. *)
Theorem bulk_rename_records_successes (script : Script) (r : Run) :
  exists r', applySelected script r = Normal r'
    /\ let todo := matchesToApply r in
       let done := recorded script 0 todo in
       renamedClusters (appliedChanges (state (ctx r')))
       = renamedClusters (appliedChanges (state (ctx r))) ∪ list_to_set done
       /\ assignedPeople (appliedChanges (state (ctx r')))
          = assignedPeople (appliedChanges (state (ctx r)))
       /\ mergedPeople (appliedChanges (state (ctx r')))
          = mergedPeople (appliedChanges (state (ctx r)))
       /\ fixedClusters (appliedChanges (state (ctx r')))
          = fixedClusters (appliedChanges (state (ctx r)))
       /\ same_but_appliedChanges (state (ctx r)) (state (ctx r'))
       /\ same_but_saved_changes (localStorage (ctx r)) (localStorage (ctx r'))
       /\ selectedIds (ui r') = selectedIds (ui r) ∖ list_to_set done
       /\ same_view (ui r) (ui r')
       /\ (todo <> [] -> applyError (ui r') = None)
       /\ (forall idx m item,
             todo !! idx = Some m -> progressItems (ui r') !! idx = Some item ->
             (ProgressItem.status item = Status.success
              <-> (idx < processed script 0 (length todo))%nat
                  /\ succeeded (fst (script idx)) = true)
             /\ (ProgressItem.status item = Status.success -> immich_cluster_id m ∈ done))
       /\ (forall id, id ∈ done ->
             exists idx m item,
               todo !! idx = Some m /\ immich_cluster_id m = id
               /\ progressItems (ui r') !! idx = Some item
               /\ ProgressItem.status item = Status.success)
       /\ Forall (fun m => immich_cluster_id m ∉ done) (matchesToApply r').
Proof.
  unfold applySelected.
  destruct (matchesToApply r) as [|m0 rest] eqn:Etodo.
  - exists r. replace (bool_decide (length (@nil PersonMatch.t) = 0%nat)) with true
      by reflexivity.
    split; [reflexivity|]. cbv zeta. cbn [recorded list_to_set]. rewrite Etodo.
    rewrite union_empty_r_L, difference_empty_L.
    split; [reflexivity|]. split; [reflexivity|]. split; [reflexivity|].
    split; [reflexivity|]. split; [apply same_but_appliedChanges_refl|].
    split; [now intros k ?|]. split; [reflexivity|]. split; [apply same_view_refl|].
    split; [congruence|].
    split; [intros idx m item Hm; inversion Hm|].
    split; [intros id Hin; inversion Hin|]. constructor.
  - set (todo := m0 :: rest) in *.
    replace (bool_decide (length todo = 0%nat)) with false by reflexivity.
    set (r0 := mkRun (ctx r) (start_progress todo (ui r)) (sent r)).
    destruct (apply_loop_books script todo 0 r0 eq_refl eq_refl)
      as (r1 & E1 & Hx & Hs & _ & He & Hv).
    destruct (apply_loop_spec script todo 0 r0 eq_refl eq_refl)
      as (r1' & E1' & _ & _ & Hp).
    rewrite E1 in E1'. injection E1' as <-.
    rewrite E1. cbn [mbind completion_bind mret completion_ret].
    eexists. split; [reflexivity|]. cbv zeta. cbn [ctx ui with_bulkApplying selectedIds].
    destruct (renamed_fold (recorded script 0 todo) (ctx r0)) as (F1 & F2 & R & A & M & X).
    cbv zeta in *. rewrite <- Hx in *. cbn [ctx r0] in *.
    assert (Hitem : forall idx m item,
              todo !! idx = Some m -> progressItems (ui r1) !! idx = Some item ->
              (ProgressItem.status item = Status.success
               <-> (idx < processed script 0 (length todo))%nat
                   /\ succeeded (fst (script idx)) = true)).
    { intros idx m item Hm Hi. rewrite Hp in Hi.
      change (progressItems (ui r0)) with (pending_item <$> todo) in Hi.
      rewrite list_lookup_fmap, Hm in Hi. cbn [fmap option_fmap option_map] in Hi.
      destruct (decide (0 <= idx < 0 + processed script 0 (length todo))%nat) as [Hin|Hout];
        injection Hi as <-.
      - destruct (verdict_status (fst (script idx)) (pending_item m)) as [Hv1 _].
        rewrite Hv1. split; [|tauto]. intros Hs'. split; [lia | exact Hs'].
      - cbn [id ProgressItem.status pending_item]. split; [discriminate|]. intros [? _]. lia. }
    split; [exact R|]. split; [exact A|]. split; [exact M|]. split; [exact X|].
    split; [exact F1|]. split; [exact F2|].
    split; [exact Hs|].
    split.
    { unfold same_view in *.
      cbn [r0 ui start_progress with_bulkApplying filterMode confidenceFilter sortField
             sortDirection expandedRows applyingId] in *.
      destruct Hv as (V1 & V2 & V3 & V4 & V5 & V6).
      repeat match goal with |- _ /\ _ => split end; assumption. }
    split; [intros _; cbn [with_bulkApplying applyError]; rewrite He; reflexivity|].
    split; [|split].
    + intros idx m item Hm Hi. split; [now apply (Hitem idx m item)|].
      intros Hst. apply (Hitem idx m item Hm Hi) in Hst as [Hlt Hsucc].
      apply recorded_spec. exists idx, m. repeat split; assumption.
    + intros id Hin. apply recorded_spec in Hin as (j & m & Hj & Hm & Hsucc & Hid).
      simpl in Hsucc.
      assert (Hlen : (j < length (progressItems (ui r1)))%nat).
      { apply lookup_lt_Some in Hm.
        assert (Hl : length (progressItems (ui r1)) = length todo).
        { apply Nat.le_antisymm.
          - destruct (Nat.le_gt_cases (length (progressItems (ui r1))) (length todo));
              [assumption|].
            destruct (lookup_lt_is_Some_2 (progressItems (ui r1)) (length todo)) as [x Hx'];
              [assumption|].
            rewrite Hp in Hx'. cbn [r0 ui start_progress progressItems] in Hx'.
            rewrite list_lookup_fmap, lookup_ge_None_2 in Hx' by lia. discriminate.
          - destruct (Nat.le_gt_cases (length todo) (length (progressItems (ui r1))));
              [assumption|].
            pose proof (lookup_ge_None_2 (progressItems (ui r1))
                          (length (progressItems (ui r1))) (Nat.le_refl _)) as Hn.
            rewrite Hp in Hn. cbn [r0 ui start_progress progressItems] in Hn.
            destruct (lookup_lt_is_Some_2 todo (length (progressItems (ui r1)))) as [x Hx'];
              [assumption|].
            rewrite list_lookup_fmap, Hx' in Hn. discriminate. }
        lia. }
      destruct (lookup_lt_is_Some_2 _ _ Hlen) as [item Hi].
      exists j, m, item. repeat split; try assumption.
      apply (Hitem j m item Hm Hi). split; assumption.
    + apply Forall_forall. intros m Hm Hdone.
      apply list_elem_of_In, matchesToApply_In in Hm as (_ & _ & Hcan).
      apply canApply_unnamed in Hcan as [_ Happ].
      unfold isApplied in Happ. apply bool_decide_eq_false in Happ. apply Happ.
      cbn [ctx ui]. rewrite R. apply elem_of_union. right.
      now apply elem_of_list_to_set.
Qed.

End TransferNamesBooks.

Section TransferNamesDialog.
Context `{JS.Platform}.
Import JS MatchingContext PersonMatch TransferNames.

Lemma processed_not_cancelled (script : Script) (n : nat) :
  forall i, cancelled script i n = false -> processed script i n = n.
Proof.
  induction n as [|n IH]; intros i Hc; [reflexivity|].
  cbn [cancelled processed] in *. apply orb_false_iff in Hc as [-> Hc].
  now rewrite IH.
Qed.

Lemma verdict_terminal (answer : settled ApplyResult.t) (item : ProgressItem.t) :
  ProgressItem.status (verdict answer item) = Status.success
  \/ ProgressItem.status (verdict answer item) = Status.error.
Proof. unfold verdict. destruct (succeeded answer); cbn; [now left | now right]. Qed.

(** X15. However a bulk rename ends, its dialog can be dismissed and the tab
    is no longer applying: pressing Cancel has closed the dialog, and a
    batch that was not cancelled has brought every item to a success or an
    error, so that the dialog shows a full count and offers Done and the X
    in place of Cancel. *)
Theorem rename_dialog_ends_closable (script : Script) (r : Run)
    (Hne : matchesToApply r <> []) :
  exists r', applySelected script r = Normal r'
    /\ let n := length (matchesToApply r) in
       let dialog := ProgressModal.ProgressModal (progressModal (ui r')) in
       bulkApplying (ui r') = false
       /\ length (progressItems (ui r')) = n
       /\ (cancelled script 0 n = true -> dialog = None)
       /\ (cancelled script 0 n = false ->
             ProgressModal.all_terminal (progressItems (ui r'))
             /\ exists v, dialog = Some v
                  /\ ProgressModal.done_button v = true
                  /\ ProgressModal.close_button v = true
                  /\ ProgressModal.cancel_button v = false
                  /\ ProgressModal.counter v = (n, n)
                  /\ ProgressModal.current_block v = None).
Proof.
  unfold applySelected.
  destruct (matchesToApply r) as [|m0 rest] eqn:Etodo; [congruence|].
  set (todo := m0 :: rest) in *.
  replace (bool_decide (length todo = 0%nat)) with false by reflexivity.
  set (r0 := mkRun (ctx r) (start_progress todo (ui r)) (sent r)).
  destruct (apply_loop_books script todo 0 r0 eq_refl eq_refl)
    as (r1 & E1 & _ & _ & Hshow & _ & _).
  destruct (apply_loop_spec script todo 0 r0 eq_refl eq_refl)
    as (r1' & E1' & _ & _ & Hp).
  rewrite E1 in E1'. injection E1' as <-.
  rewrite E1. cbn [mbind completion_bind mret completion_ret].
  eexists. split; [reflexivity|]. cbv zeta.
  cbn [ui with_bulkApplying bulkApplying progressItems].
  change (showProgress (ui r0)) with true in Hshow.
  change (progressItems (ui r0)) with (pending_item <$> todo) in Hp.
  assert (Hlen : length (progressItems (ui r1)) = length todo).
  { apply Nat.le_antisymm.
    - destruct (Nat.le_gt_cases (length (progressItems (ui r1))) (length todo));
        [assumption|].
      destruct (lookup_lt_is_Some_2 (progressItems (ui r1)) (length todo)) as [x Hx'];
        [assumption|].
      rewrite Hp in Hx'. rewrite list_lookup_fmap, lookup_ge_None_2 in Hx' by lia.
      discriminate.
    - destruct (Nat.le_gt_cases (length todo) (length (progressItems (ui r1))));
        [assumption|].
      pose proof (lookup_ge_None_2 (progressItems (ui r1))
                    (length (progressItems (ui r1))) (Nat.le_refl _)) as Hn.
      rewrite Hp in Hn.
      destruct (lookup_lt_is_Some_2 todo (length (progressItems (ui r1)))) as [x Hx'];
        [assumption|].
      rewrite list_lookup_fmap, Hx' in Hn. discriminate. }
  split; [reflexivity|]. split; [exact Hlen|]. split.
  - intros Hc. rewrite Hc in Hshow. unfold ProgressModal.ProgressModal, progressModal.
    cbn [ProgressModal.isOpen showProgress ui with_bulkApplying]. now rewrite Hshow.
  - intros Hc. rewrite Hc in Hshow.
    assert (Hall : ProgressModal.all_terminal (progressItems (ui r1))).
    { apply Forall_lookup. intros idx item Hi. rewrite Hp in Hi.
      rewrite (processed_not_cancelled script _ 0 Hc) in Hi.
      rewrite list_lookup_fmap in Hi.
      destruct (todo !! idx) as [m|] eqn:Em; [|discriminate].
      apply lookup_lt_Some in Em.
      destruct (decide (0 <= idx < 0 + length todo)%nat); [|lia].
      injection Hi as <-. apply verdict_terminal. }
    split; [exact Hall|].
    set (p := progressModal (with_bulkApplying false (ui r1))).
    pose proof (isComplete_spec p) as Hcomplete.
    assert (Hdone : ProgressModal.isComplete p = true) by (apply Hcomplete; exact Hall).
    unfold ProgressModal.ProgressModal.
    replace (ProgressModal.isOpen p) with true by (symmetry; exact Hshow).
    cbn [negb]. eexists. split; [reflexivity|].
    cbn [ProgressModal.done_button ProgressModal.close_button ProgressModal.cancel_button
           ProgressModal.counter ProgressModal.current_block].
    rewrite Hdone. cbn [negb andb]. repeat (split; [reflexivity|]).
    split; [|reflexivity].
    unfold ProgressModal.isComplete in Hdone. apply Nat.eqb_eq in Hdone.
    rewrite Hdone. change (ProgressModal.items p) with (progressItems (ui r1)).
    now rewrite Hlen.
Qed.

(** X16. Applying one row sends one request and always gives the row back: on
    success the cluster is recorded and deselected and no error is shown; a
    thrown request or a reported failure shows its message and records
    nothing; an answer with neither a success nor a failure records nothing
    and shows nothing, where the bulk path would report the item as failed. *)
Theorem single_rename_outcomes (answer : settled ApplyResult.t) (m : PersonMatch.t)
    (r : Run) :
  exists r', applySingle answer m r = Normal r'
    /\ sent r' = sent r ++ [request_of m]
    /\ applyingId (ui r') = None
    /\ progressItems (ui r') = progressItems (ui r)
    /\ cancelRef (ui r') = cancelRef (ui r)
    /\ (succeeded answer = true ->
          ctx r' = markClusterRenamed (immich_cluster_id m) (ctx r)
          /\ selectedIds (ui r') = selectedIds (ui r) ∖ {[immich_cluster_id m]}
          /\ applyError (ui r') = None)
    /\ (succeeded answer = false ->
          ctx r' = ctx r /\ selectedIds (ui r') = selectedIds (ui r)
          /\ applyError (ui r')
             = match answer with
               | Resolved result =>
                   if 0 <? ApplyResult.failed_count result
                   then Some (string_or "Failed to apply" (head (ApplyResult.failed result)))
                   else None
               | Rejected err => Some (message_or "Failed to apply" err)
               end)
    /\ (forall result item,
          answer = Resolved result -> ApplyResult.success_count result = 0 ->
          ApplyResult.failed_count result = 0 ->
          applyError (ui r') = None
          /\ ProgressItem.status (verdict answer item) = Status.error).
Proof.
  destruct r as [w [fm cf sf sd sel exp aid bulk err0 items pidx showp cref] snt].
  destruct answer as [result|err]; unfold applySingle;
    cbn [await try_catch mbind completion_bind mret completion_ret succeeded].
  - destruct (0 <? ApplyResult.success_count result) eqn:E.
    + eexists. split; [reflexivity|]. cbn. repeat (split; [reflexivity|]).
      split; [intros _; repeat split|]. split; [discriminate|].
      intros result' item [= <-] Hs _. rewrite Hs in E. discriminate.
    + destruct (0 <? ApplyResult.failed_count result) eqn:F;
        (eexists; split; [reflexivity|]); cbn; repeat (split; [reflexivity|]);
        (split; [discriminate|]); (split; [intros _; repeat split|]);
        intros result' item [= <-] Hs Hf.
      * rewrite Hf in F. discriminate.
      * split; [reflexivity|]. unfold verdict. cbn. now rewrite E.
  - eexists. split; [reflexivity|]. cbn. repeat (split; [reflexivity|]).
    split; [discriminate|]. split; [intros _; repeat split|]. discriminate.
Qed.

End TransferNamesDialog.

(* ===================================================================== *)
(** ** The face grid and the photo viewer *)
(* ===================================================================== *)

Section ThumbnailGeometry.
Import JS FaceThumbnailGrid.

Lemma gt_spec (a b : Q) : gt a b = true <-> (b < a)%Q.
Proof.
  unfold gt. rewrite negb_true_iff. split.
  - intros E. apply Qnot_le_lt. intros Hle. apply Qle_bool_iff in Hle. congruence.
  - intros Hlt. apply not_true_is_false. intros E. apply Qle_bool_iff in E.
    now apply Qlt_not_le in Hlt.
Qed.

Lemma gt_false (a b : Q) : gt a b = false <-> (a <= b)%Q.
Proof.
  unfold gt. rewrite negb_false_iff. apply Qle_bool_iff.
Qed.

(** Comparing two aspect ratios is comparing the cross products. *)
Lemma aspect_lt (a b c d : Q) :
  (0 < b)%Q -> (0 < d)%Q -> ((c / d < a / b)%Q <-> (c * b < a * d)%Q).
Proof.
  intros Hb Hd. split.
  - intros Hlt.
    assert (E1 : (c * b == c / d * (b * d))%Q) by (field; lra).
    assert (E2 : (a * d == a / b * (b * d))%Q) by (field; lra).
    rewrite E1, E2. apply Qmult_lt_compat_r; [nra | exact Hlt].
  - intros Hlt. apply Qlt_shift_div_l; [exact Hb|].
    assert (E : (c / d * b == c * b / d)%Q) by (field; lra).
    rewrite E. apply Qlt_shift_div_r; [exact Hd | exact Hlt].
Qed.

Lemma aspect_le (a b c d : Q) :
  (0 < b)%Q -> (0 < d)%Q -> ((a / b <= c / d)%Q <-> (a * d <= c * b)%Q).
Proof.
  intros Hb Hd. split.
  - intros Hle. apply Qnot_lt_le. intros Hlt. apply (aspect_lt a b c d Hb Hd) in Hlt.
    now apply Qlt_not_le in Hlt.
  - intros Hle. apply Qnot_lt_le. intros Hlt. apply (aspect_lt a b c d Hb Hd) in Hlt.
    now apply Qlt_not_le in Hlt.
Qed.

Lemma placement_cases (isLarge : bool) (natW natH displayW displayH : Q) :
  (0 < natW)%Q -> (0 < natH)%Q -> (0 < displayW)%Q -> (0 < displayH)%Q ->
  let pl := placement isLarge natW natH displayW displayH in
  let w := (natW * scale pl)%Q in
  let h := (natH * scale pl)%Q in
  (0 < scale pl)%Q
  /\ (offsetX pl * 2 + w == displayW)%Q
  /\ (offsetY pl * 2 + h == displayH)%Q
  /\ (if isLarge
      then ((w == displayW)%Q /\ (h <= displayH)%Q) \/ ((h == displayH)%Q /\ (w <= displayW)%Q)
      else ((w == displayW)%Q /\ (displayH <= h)%Q) \/ ((h == displayH)%Q /\ (displayW <= w)%Q)).
Proof.
  intros HW HH HdW HdH. cbv zeta. unfold placement.
  assert (EW : (natW * (displayW / natW) == displayW)%Q) by (field; lra).
  assert (EH : (natH * (displayH / natH) == displayH)%Q) by (field; lra).
  assert (SW : (0 < displayW / natW)%Q) by (apply Qlt_shift_div_l; lra).
  assert (SH : (0 < displayH / natH)%Q) by (apply Qlt_shift_div_l; lra).
  destruct (gt (natW / natH) (displayW / displayH)) eqn:G.
  - apply gt_spec in G. apply (proj1 (aspect_lt natW natH displayW displayH HH HdH)) in G.
    assert (Hh : (natH * (displayW / natW) <= displayH)%Q).
    { assert (E : (natH * (displayW / natW) == displayW * natH / natW)%Q) by (field; lra).
      rewrite E. apply Qle_shift_div_r; nra. }
    assert (Hw : (displayW <= natW * (displayH / natH))%Q).
    { assert (E : (natW * (displayH / natH) == natW * displayH / natH)%Q) by (field; lra).
      rewrite E. apply Qle_shift_div_l; nra. }
    destruct isLarge; cbv beta zeta iota delta [scale offsetX offsetY];
      (split; [assumption|]); (split; [field; lra|]); (split; [field; lra|]).
    + left. split; [exact EW | exact Hh].
    + right. split; [exact EH | exact Hw].
  - apply gt_false in G. apply (proj1 (aspect_le natW natH displayW displayH HH HdH)) in G.
    assert (Hw : (natW * (displayH / natH) <= displayW)%Q).
    { assert (E : (natW * (displayH / natH) == natW * displayH / natH)%Q) by (field; lra).
      rewrite E. apply Qle_shift_div_r; nra. }
    assert (Hh : (displayH <= natH * (displayW / natW))%Q).
    { assert (E : (natH * (displayW / natW) == displayW * natH / natW)%Q) by (field; lra).
      rewrite E. apply Qle_shift_div_l; nra. }
    destruct isLarge; cbv beta zeta iota delta [scale offsetX offsetY];
      (split; [assumption|]); (split; [field; lra|]); (split; [field; lra|]).
    + right. split; [exact EH | exact Hw].
    + left. split; [exact EW | exact Hh].
Qed.

(** X17. Computed over the rationals, a thumbnail's image is centred in its
    element.  Enlarged, it is scaled to fit: it fills one side, does not
    pass the other, and every point of the image, so every corner of a face
    rectangle inside the image, is drawn inside the element.  Small, it is
    scaled to cover: it fills one side and reaches or passes the other, so
    the element shows nothing but image. *)
Theorem thumbnail_image_is_centred (natW natH displayW displayH : Q)
    (HW : (0 < natW)%Q) (HH : (0 < natH)%Q)
    (HdW : (0 < displayW)%Q) (HdH : (0 < displayH)%Q) :
  (let pl := placement true natW natH displayW displayH in
   (0 < scale pl)%Q
   /\ (natW * scale pl <= displayW)%Q /\ (natH * scale pl <= displayH)%Q
   /\ ((natW * scale pl == displayW)%Q \/ (natH * scale pl == displayH)%Q)
   /\ (0 <= offsetX pl)%Q /\ (0 <= offsetY pl)%Q
   /\ (offsetX pl * 2 + natW * scale pl == displayW)%Q
   /\ (offsetY pl * 2 + natH * scale pl == displayH)%Q
   /\ (forall nx ny, (0 <= nx <= 1)%Q -> (0 <= ny <= 1)%Q ->
         inside displayW displayH (transformCoord pl natW natH nx ny)))
  /\ (let pl := placement false natW natH displayW displayH in
      (0 < scale pl)%Q
      /\ (displayW <= natW * scale pl)%Q /\ (displayH <= natH * scale pl)%Q
      /\ ((natW * scale pl == displayW)%Q \/ (natH * scale pl == displayH)%Q)
      /\ (offsetX pl <= 0)%Q /\ (offsetY pl <= 0)%Q
      /\ (offsetX pl * 2 + natW * scale pl == displayW)%Q
      /\ (offsetY pl * 2 + natH * scale pl == displayH)%Q
      /\ (fst (transformCoord pl natW natH 0 0) <= 0)%Q
      /\ (snd (transformCoord pl natW natH 0 0) <= 0)%Q
      /\ (displayW <= fst (transformCoord pl natW natH 1 1))%Q
      /\ (displayH <= snd (transformCoord pl natW natH 1 1))%Q).
Proof.
  split; cbv zeta.
  - destruct (placement_cases true natW natH displayW displayH HW HH HdW HdH)
      as (Hs & Hx & Hy & Hfit). cbv zeta in *.
    set (pl := placement true natW natH displayW displayH) in *.
    assert (Hw : (natW * scale pl <= displayW)%Q) by (destruct Hfit as [[? ?]|[? ?]]; lra).
    assert (Hh : (natH * scale pl <= displayH)%Q) by (destruct Hfit as [[? ?]|[? ?]]; lra).
    assert (Hw0 : (0 <= natW * scale pl)%Q) by nra.
    assert (Hh0 : (0 <= natH * scale pl)%Q) by nra.
    split; [exact Hs|]. split; [exact Hw|]. split; [exact Hh|].
    split; [destruct Hfit as [[? ?]|[? ?]]; [now left | now right]|].
    split; [lra|]. split; [lra|]. split; [exact Hx|]. split; [exact Hy|].
    intros nx ny Hnx Hny. unfold inside, transformCoord. cbn [fst snd].
    assert (Ex : (nx * natW * scale pl == nx * (natW * scale pl))%Q) by ring.
    assert (Ey : (ny * natH * scale pl == ny * (natH * scale pl))%Q) by ring.
    rewrite Ex, Ey. generalize dependent (natW * scale pl)%Q. intros w Hx Hfit Hw Hw0 Ex.
    generalize dependent (natH * scale pl)%Q. intros h Hy Hfit Hh Hh0 Ey.
    split; split; nra.
  - destruct (placement_cases false natW natH displayW displayH HW HH HdW HdH)
      as (Hs & Hx & Hy & Hfit). cbv zeta in *.
    set (pl := placement false natW natH displayW displayH) in *.
    assert (Hw : (displayW <= natW * scale pl)%Q) by (destruct Hfit as [[? ?]|[? ?]]; lra).
    assert (Hh : (displayH <= natH * scale pl)%Q) by (destruct Hfit as [[? ?]|[? ?]]; lra).
    split; [exact Hs|]. split; [exact Hw|]. split; [exact Hh|].
    split; [destruct Hfit as [[? ?]|[? ?]]; [now left | now right]|].
    split; [lra|]. split; [lra|]. split; [exact Hx|]. split; [exact Hy|].
    unfold transformCoord. cbn [fst snd].
    assert (Ex : (1 * natW * scale pl == natW * scale pl)%Q) by ring.
    assert (Ey : (1 * natH * scale pl == natH * scale pl)%Q) by ring.
    rewrite Ex, Ey.
    assert (Ex0 : (0 * natW * scale pl == 0)%Q) by ring.
    assert (Ey0 : (0 * natH * scale pl == 0)%Q) by ring.
    rewrite Ex0, Ey0. repeat split; lra.
Qed.

End ThumbnailGeometry.

(* ------------------------------------------------------------------ *)

Lemma findIndex_spec {A} (pred : A -> bool) (l : list A) :
  let findIndex := @FaceThumbnailGrid.findIndex in
  (findIndex A pred l = -1 /\ Forall (fun x => pred x = false) l)
  \/ (exists (i : nat) (x : A),
        findIndex A pred l = Z.of_nat i /\ l !! i = Some x /\ pred x = true
        /\ Forall (fun y => pred y = false) (take i l)).
Proof.
  cbv zeta. induction l as [|x xs IH]; [left; split; [reflexivity | constructor]|].
  cbn [FaceThumbnailGrid.findIndex]. destruct (pred x) eqn:Ex.
  - right. exists 0%nat, x. repeat split; [exact Ex | constructor].
  - destruct IH as [[E Hall]|(i & y & E & Hi & Hy & Hall)].
    + left. rewrite E. split; [reflexivity | now constructor].
    + right. exists (S i), y. rewrite E.
      destruct (Z.ltb_spec (Z.of_nat i) 0); [lia|].
      repeat split; [lia | exact Hi | exact Hy | now constructor].
Qed.

Section GridFacts.
Import JS FaceThumbnailGrid.
Context `{Platform}.

Lemma visibleFaces_take (p : Props) (g : Grid) :
  visibleFaces p g = take (showCount g) (sortedFaces p g).
Proof.
  unfold visibleFaces. rewrite slice_prefix by lia. now rewrite Nat2Z.id.
Qed.

Lemma sortedFaces_length (p : Props) (g : Grid) :
  length (sortedFaces p g) = length (faces p).
Proof. unfold sortedFaces. apply Permutation_length, sort_perm. Qed.

(** X18. The grid shows the first [showCount] faces of the sorted list.
    While faces are left, the button Load more is there, and a click shows
    exactly as many further faces as the button announces, after the ones
    already shown; once all faces are shown the button is gone. *)
Theorem load_more_shows_what_it_announces (p : Props) (g : Grid) :
  visibleFaces p g = take (showCount g) (sortedFaces p g)
  /\ (loadMore_shown p g = true <-> (showCount g < length (faces p))%nat)
  /\ (loadMore_shown p g = false -> visibleFaces p g = sortedFaces p g)
  /\ (exists more,
        visibleFaces p (loadMore p g) = visibleFaces p g ++ more
        /\ (loadMore_shown p g = true ->
            Z.of_nat (length more) = loadMore_announced p g)).
Proof.
  pose proof (sortedFaces_length p g) as Hlen.
  assert (Hshown : loadMore_shown p g = true <-> (showCount g < length (faces p))%nat).
  { unfold loadMore_shown, remainingCount. rewrite Z.ltb_lt, Hlen. lia. }
  split; [apply visibleFaces_take|]. split; [exact Hshown|].
  split.
  { intros Hno. rewrite visibleFaces_take. apply take_ge.
    destruct (loadMore_shown p g) eqn:E; [discriminate|].
    assert (~ (showCount g < length (faces p))%nat) by (rewrite <- Hshown; congruence).
    lia. }
  exists (take (loadMoreIncrement p) (drop (showCount g) (sortedFaces p g))).
  split.
  - rewrite !visibleFaces_take.
    change (sortedFaces p (loadMore p g)) with (sortedFaces p g).
    cbn [loadMore showCount]. symmetry. apply take_take_drop.
  - intros Hyes. apply Hshown in Hyes. unfold loadMore_announced, remainingCount.
    rewrite length_take, length_drop, Hlen. lia.
Qed.

Lemma comparator_ordered (by_ : FaceSortBy) (a b : FaceData) :
  by_ <> by_filename ->
  ((comparator by_ a b <= 0)%Q <-> ordered_by by_ a b).
Proof.
  intros Hby. destruct by_; try congruence; unfold comparator, ordered_by; split; lra.
Qed.

Lemma StronglySorted_impl {A} (R S : A -> A -> Prop) (l : list A) :
  (forall a b, R a b -> S a b) -> StronglySorted R l -> StronglySorted S l.
Proof.
  intros HRS. induction 1 as [|x xs Hs IH Hall]; constructor; [exact IH|].
  revert Hall. apply List.Forall_impl. intros b. apply HRS.
Qed.

(** X19. The grid shows the faces it was given, each once, rearranged.  In
    the four orders by overlap or by distance (a missing number counts as
    0) every face comes before the faces that follow it in that order, and
    faces with equal numbers keep the order they arrived in. *)
Theorem grid_sort_order (p : Props) (g : Grid) :
  Permutation (sortedFaces p g) (faces p)
  /\ (sortBy g <> by_filename ->
      StronglySorted (ordered_by (sortBy g)) (sortedFaces p g)
      /\ forall q : Q,
          List.filter (fun f => Qeq_bool (sort_key (sortBy g) f) q) (sortedFaces p g)
          = List.filter (fun f => Qeq_bool (sort_key (sortBy g) f) q) (faces p)).
Proof.
  split; [apply sort_perm|].
  intros Hby. split.
  - apply StronglySorted_impl with (R := fun a b => (comparator (sortBy g) a b <= 0)%Q).
    { intros a b. now apply comparator_ordered. }
    apply sort_sorted.
    + intros a b c. rewrite !comparator_ordered by exact Hby.
      destruct (sortBy g); try congruence; unfold ordered_by; lra.
    + intros a b. rewrite !comparator_ordered by exact Hby.
      destruct (sortBy g); try congruence; unfold ordered_by; lra.
  - intros q. apply sort_stable. intros a b Ha Hb.
    apply Qeq_bool_iff in Ha. apply Qeq_bool_iff in Hb.
    destruct (sortBy g); try congruence; unfold comparator, sort_key in *; lra.
Qed.

(** X20. A click on a shown face opens the viewer at the first face of the
    sorted list that has the same id: never after the clicked face, and at
    the clicked face itself when the ids of the faces are distinct. *)
Theorem clicked_face_opens_first_with_its_id (p : Props) (g : Grid)
    (i : nat) (face : FaceData)
    (Hface : sortedFaces p g !! i = Some face) :
  exists (j : nat) (first : FaceData),
    sortedIndex p g face = Z.of_nat j
    /\ (j <= i)%nat
    /\ sortedFaces p g !! j = Some first
    /\ id first = id face
    /\ (forall k f, (k < j)%nat -> sortedFaces p g !! k = Some f -> id f <> id face)
    /\ (NoDup (id <$> faces p) -> j = i).
Proof.
  unfold sortedIndex.
  destruct (findIndex_spec (fun f => String.eqb (id f) (id face)) (sortedFaces p g))
    as [[_ Hall]|(j & first & E & Hj & Hid & Hbefore)].
  { rewrite List.Forall_forall in Hall.
    assert (Hin : In face (sortedFaces p g)).
    { apply list_elem_of_In. eapply list_elem_of_lookup_2. exact Hface. }
    specialize (Hall _ Hin). cbv beta in Hall. rewrite String.eqb_refl in Hall.
    discriminate. }
  apply String.eqb_eq in Hid.
  assert (Hle : (j <= i)%nat).
  { destruct (Nat.le_gt_cases j i) as [Hle|Hgt]; [exact Hle|exfalso].
    rewrite List.Forall_forall in Hbefore.
    assert (Hin : In face (take j (sortedFaces p g))).
    { apply list_elem_of_In. apply (list_elem_of_lookup_2 _ i).
      rewrite lookup_take_lt by lia. exact Hface. }
    specialize (Hbefore _ Hin). cbv beta in Hbefore.
    rewrite String.eqb_refl in Hbefore. discriminate. }
  exists j, first. split; [exact E|]. split; [exact Hle|].
  split; [exact Hj|]. split; [exact Hid|]. split.
  - intros k f Hk Hf Hsame. rewrite List.Forall_forall in Hbefore.
    assert (Hin : In f (take j (sortedFaces p g))).
    { apply list_elem_of_In. apply (list_elem_of_lookup_2 _ k).
      rewrite lookup_take_lt by lia. exact Hf. }
    specialize (Hbefore _ Hin). cbv beta in Hbefore.
    rewrite Hsame, String.eqb_refl in Hbefore. discriminate.
  - intros Hnd.
    assert (Hnd' : NoDup (id <$> sortedFaces p g)).
    { assert (Hp : Permutation (id <$> sortedFaces p g) (id <$> faces p))
        by (apply fmap_Permutation, sort_perm).
      rewrite Hp. exact Hnd. }
    apply (NoDup_lookup _ j i (id face) Hnd').
    + rewrite list_lookup_fmap, Hj. cbn. now rewrite Hid.
    + now rewrite list_lookup_fmap, Hface.
Qed.

End GridFacts.

(* ------------------------------------------------------------------ *)

Section ViewerFacts.
Import JS FacePhotoViewer.

Lemma handleKeyDown_in_range (len : Z) (k : Key) (v : Viewer) :
  in_range len v -> in_range len (handleKeyDown len k v).
Proof.
  unfold in_range. intros Hv.
  destruct k; cbn [handleKeyDown previous next with_index currentIndex]; lia.
Qed.

Lemma keyDown_fields (len : Z) (k : Key) (v : Viewer) :
  currentIndex (keyDown len k v) = currentIndex (handleKeyDown len k v)
  /\ closed (keyDown len k v) = closed (handleKeyDown len k v)
  /\ imageQuality (keyDown len k v) = imageQuality (handleKeyDown len k v)
  /\ zoom (keyDown len k v)
     = (if (currentIndex (handleKeyDown len k v) =? currentIndex v)
           && quality_eqb (imageQuality (handleKeyDown len k v)) (imageQuality v)
        then zoom (handleKeyDown len k v) else 1%Q).
Proof.
  unfold keyDown, after_render.
  destruct ((currentIndex (handleKeyDown len k v) =? currentIndex v)
            && quality_eqb (imageQuality (handleKeyDown len k v)) (imageQuality v));
    repeat split.
Qed.

(** X21. In the photo viewer the left and right arrow keys move to the
    neighbouring face and stop at the first and at the last one, so that
    after any sequence of keys the viewer is still on a face of the list;
    the other keys leave the position alone.  A key that moves to another
    face, and the key Q, which changes the image quality, set the zoom back
    to 100 percent through the effect that follows the render; every other
    key press, an arrow at the end of the list included, leaves the zoom as
    it is.  Only Escape closes.  Pressed while the list is still empty, the
    right arrow puts the index at -1. *)
Theorem viewer_keys_stay_on_a_face (len : Z) (v : Viewer) (Hv : in_range len v) :
  (forall keys, in_range len (fold_left (fun v k => keyDown len k v) keys v))
  /\ currentIndex (keyDown len ArrowLeft v)
     = (if currentIndex v =? 0 then 0 else currentIndex v - 1)
  /\ currentIndex (keyDown len ArrowRight v)
     = (if currentIndex v =? len - 1 then len - 1 else currentIndex v + 1)
  /\ (forall k, k <> ArrowLeft -> k <> ArrowRight ->
        currentIndex (keyDown len k v) = currentIndex v)
  /\ zoom (keyDown len ArrowLeft v) = (if currentIndex v =? 0 then zoom v else 1%Q)
  /\ zoom (keyDown len ArrowRight v)
     = (if currentIndex v =? len - 1 then zoom v else 1%Q)
  /\ zoom (keyDown len KeyQ v) = 1%Q
  /\ (forall k, k <> ArrowLeft -> k <> ArrowRight -> k <> KeyQ ->
        zoom (keyDown len k v) = zoom v)
  /\ (forall k, closed (keyDown len k v)
                 = closed v || match k with Escape => true | _ => false end)
  /\ currentIndex (keyDown 0 ArrowRight v) = -1.
Proof.
  split.
  { intros keys. revert v Hv. induction keys as [|k ks IH]; intros v Hv; [exact Hv|].
    cbn [fold_left]. apply IH. unfold in_range.
    rewrite (proj1 (keyDown_fields len k v)). now apply handleKeyDown_in_range. }
  unfold in_range in Hv.
  split.
  { rewrite (proj1 (keyDown_fields len ArrowLeft v)).
    cbn [handleKeyDown previous with_index currentIndex].
    destruct (Z.eqb_spec (currentIndex v) 0); lia. }
  split.
  { rewrite (proj1 (keyDown_fields len ArrowRight v)).
    cbn [handleKeyDown next with_index currentIndex].
    destruct (Z.eqb_spec (currentIndex v) (len - 1)); lia. }
  split.
  { intros k Hl Hr. rewrite (proj1 (keyDown_fields len k v)).
    destruct k; try congruence; reflexivity. }
  assert (Hq : quality_eqb (imageQuality v) (imageQuality v) = true)
    by (destruct (imageQuality v); reflexivity).
  split.
  { destruct (keyDown_fields len ArrowLeft v) as (_ & _ & _ & ->).
    cbn [handleKeyDown previous with_index with_zoom currentIndex imageQuality zoom].
    rewrite Hq, andb_true_r.
    destruct (Z.eqb_spec (currentIndex v) 0) as [E|E];
      destruct (Z.eqb_spec (Z.max 0 (currentIndex v - 1)) (currentIndex v)); try reflexivity; lia. }
  split.
  { destruct (keyDown_fields len ArrowRight v) as (_ & _ & _ & ->).
    cbn [handleKeyDown next with_index with_zoom currentIndex imageQuality zoom].
    rewrite Hq, andb_true_r.
    destruct (Z.eqb_spec (currentIndex v) (len - 1)) as [E|E];
      destruct (Z.eqb_spec (Z.min (len - 1) (currentIndex v + 1)) (currentIndex v));
      try reflexivity; lia. }
  split.
  { destruct (keyDown_fields len KeyQ v) as (_ & _ & _ & ->).
    cbn [handleKeyDown currentIndex imageQuality zoom].
    destruct (imageQuality v); cbn [quality_eqb]; now rewrite andb_false_r. }
  split.
  { intros k Hl Hr Hk. destruct (keyDown_fields len k v) as (_ & _ & _ & ->).
    destruct k; try congruence;
      cbn [handleKeyDown currentIndex imageQuality zoom];
      now rewrite Z.eqb_refl, Hq. }
  split.
  { intros k. destruct (keyDown_fields len k v) as (_ & -> & _).
    destruct k; cbn; destruct (closed v); reflexivity. }
  rewrite (proj1 (keyDown_fields 0 ArrowRight v)).
  cbn [handleKeyDown next with_index currentIndex]. lia.
Qed.

Lemma Math_max_spec (a b : Q) :
  ((a <= b)%Q /\ Math_max a b = b) \/ ((b < a)%Q /\ Math_max a b = a).
Proof.
  unfold Math_max. destruct (Qle_bool a b) eqn:E.
  - left. split; [now apply Qle_bool_iff | reflexivity].
  - right. split; [|reflexivity]. apply Qnot_le_lt. intros Hle.
    apply Qle_bool_iff in Hle. congruence.
Qed.

Lemma Math_min_spec (a b : Q) :
  ((a <= b)%Q /\ Math_min a b = a) \/ ((b < a)%Q /\ Math_min a b = b).
Proof.
  unfold Math_min. destruct (Qle_bool a b) eqn:E.
  - left. split; [now apply Qle_bool_iff | reflexivity].
  - right. split; [|reflexivity]. apply Qnot_le_lt. intros Hle.
    apply Qle_bool_iff in Hle. congruence.
Qed.

Lemma quarter_le (j k : Z) : (inject_Z j / 4 <= inject_Z k / 4)%Q <-> j <= k.
Proof.
  rewrite Zle_Qle. split; intros Hle.
  - assert (E : forall q : Q, (q == q / 4 * 4)%Q) by (intros q; field).
    rewrite (E (inject_Z j)), (E (inject_Z k)). lra.
  - apply Qmult_le_compat_r; [exact Hle|]. now compute.
Qed.

Lemma click_step (c : ZoomClick) (v : Viewer) (k : Z) :
  2 <= k <= 12 -> (zoom v == inject_Z k / 4)%Q ->
  (zoom (click c v) ==
     inject_Z (match c with
               | ZoomIn => if k =? 12 then 12 else k + 1
               | ZoomOut => if k =? 2 then 2 else k - 1
               end) / 4)%Q.
Proof.
  intros Hk Hz. destruct c; cbn [click zoomIn zoomOut with_zoom zoom].
  - assert (E : (zoom v + (1 # 4) == inject_Z (k + 1) / 4)%Q).
    { rewrite Hz, inject_Z_plus. change (inject_Z 1) with 1%Q. field. }
    assert (E3 : (3 == inject_Z 12 / 4)%Q) by reflexivity.
    destruct (Math_min_spec 3 (zoom v + (1 # 4))) as [[Hle ->]|[Hlt ->]].
    + rewrite E, E3 in Hle. apply (proj1 (quarter_le _ _)) in Hle.
      destruct (Z.eqb_spec k 12); [exact E3|].
      replace (k + 1) with 12 by lia. exact E3.
    + rewrite E, E3 in Hlt.
      assert (Hle : ~ (inject_Z 12 / 4 <= inject_Z (k + 1) / 4)%Q).
      { apply Qlt_not_le. exact Hlt. }
      rewrite quarter_le in Hle.
      destruct (Z.eqb_spec k 12); [lia | exact E].
  - assert (E : (zoom v - (1 # 4) == inject_Z (k - 1) / 4)%Q).
    { assert (Ek : (inject_Z (k - 1) == inject_Z k - 1)%Q).
      { replace (k - 1) with (k + -1) by lia. rewrite inject_Z_plus.
        change (inject_Z (-1)) with (- (1))%Q. reflexivity. }
      rewrite Hz, Ek. field. }
    assert (E2 : ((1 # 2) == inject_Z 2 / 4)%Q) by reflexivity.
    destruct (Math_max_spec (1 # 2) (zoom v - (1 # 4))) as [[Hle ->]|[Hlt ->]].
    + rewrite E, E2 in Hle. apply (proj1 (quarter_le _ _)) in Hle.
      destruct (Z.eqb_spec k 2); [lia | exact E].
    + rewrite E, E2 in Hlt.
      assert (Hle : ~ (inject_Z 2 / 4 <= inject_Z (k - 1) / 4)%Q).
      { apply Qlt_not_le. exact Hlt. }
      rewrite quarter_le in Hle.
      destruct (Z.eqb_spec k 2); [exact E2 | lia].
Qed.

Lemma zoom_percent_step (v : Viewer) (k : Z) :
  (zoom v == inject_Z k / 4)%Q -> zoom_percent v = 25 * k.
Proof.
  intros Hz. unfold zoom_percent, Math_round.
  assert (E : (zoom v * 100 + (1 # 2) == inject_Z (25 * k) + (1 # 2))%Q).
  { rewrite Hz, inject_Z_mult. change (inject_Z 25) with 25%Q. field. }
  rewrite E.
  assert (Hlo : (inject_Z (25 * k) <= inject_Z (25 * k) + (1 # 2))%Q) by lra.
  assert (Hhi : (inject_Z (25 * k) + (1 # 2) < inject_Z (25 * k + 1))%Q).
  { rewrite inject_Z_plus. change (inject_Z 1) with 1%Q. lra. }
  apply Qfloor_resp_le in Hlo. rewrite Qfloor_Z in Hlo.
  pose proof (Qfloor_le (inject_Z (25 * k) + (1 # 2))) as Hfl.
  assert (Hlt : (inject_Z (Qfloor (inject_Z (25 * k) + (1 # 2))) < inject_Z (25 * k + 1))%Q) by lra.
  rewrite <- Zlt_Qlt in Hlt. lia.
Qed.

(** X22. The zoom of the viewer starts at 100 percent, goes back to it when
    the photo changes, and each button moves it one step of 25 percent,
    stopping at 50 and at 300: whatever is clicked, the zoom is one of
    these steps and the percentage shown is exactly it. *)
Theorem viewer_zoom_moves_in_quarter_steps (v : Viewer) (k : Z)
    (Hk : 2 <= k <= 12) (Hz : (zoom v == inject_Z k / 4)%Q) :
  (forall clicks, zoom_step (fold_left (fun v c => click c v) clicks v))
  /\ zoom_percent v = 25 * k
  /\ zoom_percent (zoomIn v) = (if k =? 12 then 300 else 25 * (k + 1))
  /\ zoom_percent (zoomOut v) = (if k =? 2 then 50 else 25 * (k - 1))
  /\ (forall start, zoom_percent (initial start) = 100)
  /\ zoom_percent (photo_changed v) = 100.
Proof.
  split.
  { intros clicks. assert (Hs : zoom_step v) by (exists k; split; assumption).
    clear k Hk Hz. revert v Hs.
    induction clicks as [|c cs IH]; intros v Hs; [exact Hs|].
    cbn [fold_left]. apply IH. destruct Hs as (k & Hk & Hz).
    eexists. split; [|apply (click_step c v k Hk Hz)].
    destruct c; [destruct (Z.eqb_spec k 12) | destruct (Z.eqb_spec k 2)]; lia. }
  split; [now apply zoom_percent_step|].
  split.
  { rewrite (zoom_percent_step (zoomIn v) _ (click_step ZoomIn v k Hk Hz)).
    destruct (Z.eqb_spec k 12); lia. }
  split.
  { rewrite (zoom_percent_step (zoomOut v) _ (click_step ZoomOut v k Hk Hz)).
    destruct (Z.eqb_spec k 2); lia. }
  split; [intros start; reflexivity | reflexivity].
Qed.

(** X23. Every thumbnail of the strip below the photo is a face of the
    list, labelled with its own index, at most five places from the
    current one, and the current face is among them; the images asked for
    ahead of time are of faces of the list other than the current one, none
    asked for twice. *)
Theorem viewer_strip_and_preload_name_faces {A} (sortedFaces : list A) (v : Viewer)
    (Hv : in_range (Z.of_nat (length sortedFaces)) v) :
  (forall i f, (i, f) ∈ strip sortedFaces v ->
      sortedFaces !! Z.to_nat i = Some f
      /\ 0 <= i /\ currentIndex v - 5 <= i <= currentIndex v + 5)
  /\ (forall i f, sortedFaces !! Z.to_nat i = Some f -> 0 <= i ->
        currentIndex v - 5 <= i <= currentIndex v + 5 -> (i, f) ∈ strip sortedFaces v)
  /\ (length (strip sortedFaces v) <= 11)%nat
  /\ (forall k, k ∈ indicesToPreload (Z.of_nat (length sortedFaces)) v ->
        0 <= k < Z.of_nat (length sortedFaces) /\ k <> currentIndex v
        /\ currentIndex v - 2 <= k <= currentIndex v + 3)
  /\ NoDup (indicesToPreload (Z.of_nat (length sortedFaces)) v).
Proof.
  unfold in_range in Hv.
  set (len := Z.of_nat (length sortedFaces)) in *.
  set (c := currentIndex v) in *.
  set (start := Z.max 0 (c - 5)).
  assert (Hslice : slice start (c + 6) sortedFaces
                   = take (Z.to_nat (Z.min (c + 6) len - start))
                       (drop (Z.to_nat start) sortedFaces)).
  { unfold slice. fold len.
    destruct (Z.ltb_spec start 0); [lia|]. destruct (Z.ltb_spec (c + 6) 0); [lia|].
    now rewrite (Z.min_l start len) by lia. }
  assert (Hstrip : strip sortedFaces v
                   = imap (fun i f => (start + Z.of_nat i, f))
                       (take (Z.to_nat (Z.min (c + 6) len - start))
                          (drop (Z.to_nat start) sortedFaces))).
  { unfold strip. fold c. fold start. now rewrite Hslice. }
  split.
  { intros i f Hin. rewrite Hstrip in Hin.
    apply elem_of_lookup_imap_1 in Hin as (n & y & Heq & Hn).
    injection Heq as -> ->.
    assert (Hlt : (n < Z.to_nat (Z.min (c + 6) len - start))%nat).
    { destruct (Nat.lt_ge_cases n (Z.to_nat (Z.min (c + 6) len - start))) as [L|G]; [exact L|].
      rewrite lookup_take_ge in Hn by exact G. discriminate. }
    rewrite lookup_take_lt, lookup_drop in Hn by exact Hlt.
    replace (Z.to_nat (start + Z.of_nat n)) with (Z.to_nat start + n)%nat by lia.
    split; [exact Hn | lia]. }
  split.
  { intros i f Hf Hi Hwin. rewrite Hstrip.
    replace i with (start + Z.of_nat (Z.to_nat (i - start))) at 1 by lia.
    apply (elem_of_lookup_imap_2 (fun i f => (start + Z.of_nat i, f))).
    assert (Hilen : i < len).
    { apply lookup_lt_Some in Hf. lia. }
    rewrite lookup_take_lt, lookup_drop by lia.
    replace (Z.to_nat start + Z.to_nat (i - start))%nat with (Z.to_nat i) by lia.
    exact Hf. }
  split.
  { rewrite Hstrip, length_imap, length_take. lia. }
  unfold indicesToPreload. fold c.
  destruct ((len =? 0) || negb match imageQuality v with thumbnail => true | preview => false end).
  { split; [intros k Hk; inversion Hk | constructor]. }
  split.
  - intros k Hk. apply list_elem_of_In in Hk. apply filter_In in Hk as [Hk Hp].
    apply andb_prop in Hp as [Hp Hne]. apply andb_prop in Hp as [Hlo Hhi].
    apply Z.leb_le in Hlo. apply Z.ltb_lt in Hhi. apply negb_true_iff, Z.eqb_neq in Hne.
    cbn [In] in Hk. lia.
  - apply NoDup_ListNoDup. apply List.NoDup_filter.
    apply NoDup_ListNoDup.
    repeat (apply NoDup_cons; split; [rewrite ?elem_of_cons, elem_of_nil; lia|]).
    constructor.
Qed.

End ViewerFacts.

(* ===================================================================== *)
(** ** Create Faces, Assign Faces, Merge Clusters, Fix Issues and fetchAPI *)
(* ===================================================================== *)

Ltac push_append :=
  repeat (rewrite append_cons in * || rewrite append_nil_l in * ).

(** Where two texts made of a rest, a dash and a run of digits agree, the
    rests agree and the runs agree. *)
Lemma dash_digits_split (a1 a2 d1 d2 : string) :
  JS.all_digits d1 = true -> JS.all_digits d2 = true ->
  a1 +:+ "-" +:+ d1 = a2 +:+ "-" +:+ d2 -> a1 = a2 /\ d1 = d2.
Proof.
  intros H1 H2. revert a2. induction a1 as [|c1 a1 IH]; intros [|c2 a2] Heq; push_append.
  - injection Heq as ->. split; reflexivity.
  - injection Heq as <- Heq. exfalso. rewrite Heq, all_digits_app in H1.
    apply andb_true_iff in H1 as [_ H1]. discriminate.
  - injection Heq as -> Heq. exfalso. rewrite <- Heq, all_digits_app in H2.
    apply andb_true_iff in H2 as [_ H2]. discriminate.
  - injection Heq as -> Heq. destruct (IH a2 Heq) as [-> ->]. split; reflexivity.
Qed.

Lemma pretty_nat_digits (n : nat) : JS.all_digits (pretty n) = true.
Proof. exact (proj1 (pretty_N_digits (N.of_nat n))). Qed.

Lemma count_imap {A B} (P : B -> bool) (h : nat -> A -> B) (k : nat -> nat) (l : list A) :
  length (List.filter P (imap (fun i x => h (k i) x) l))
  = length (List.filter (fun '(i, x) => P (h i x)) (imap (fun i x => (k i, x)) l)).
Proof.
  revert k. induction l as [|x xs IH]; intros k; [reflexivity|].
  cbn [imap List.filter]. specialize (IH (k ∘ S)). cbn [compose] in IH.
  unfold compose. destruct (P (h (k 0%nat) x)); cbn [length]; now rewrite IH.
Qed.

Lemma filter_imap_all {A} (P : nat * A -> bool) (k : nat -> nat) (l : list A) :
  (forall i x, l !! i = Some x -> P (k i, x) = true) ->
  snd <$> List.filter P (imap (fun i x => (k i, x)) l) = l.
Proof.
  revert k. induction l as [|x xs IH]; intros k Hall; [reflexivity|].
  cbn [imap List.filter]. rewrite (Hall 0%nat x eq_refl). cbn [fmap list_fmap snd].
  f_equal. apply (IH (k ∘ S)). intros i y Hy. apply (Hall (S i) y Hy).
Qed.

Lemma filter_imap_none {A} (P : nat * A -> bool) (k : nat -> nat) (l : list A) :
  (forall i x, l !! i = Some x -> P (k i, x) = false) ->
  List.filter P (imap (fun i x => (k i, x)) l) = [].
Proof.
  revert k. induction l as [|x xs IH]; intros k Hall; [reflexivity|].
  cbn [imap List.filter]. rewrite (Hall 0%nat x eq_refl).
  apply (IH (k ∘ S)). intros i y Hy. apply (Hall (S i) y Hy).
Qed.

Section CreateFacesSelection.
Import JS UnrecognizedPersonPreview CreateFaces.

Lemma getFaceId_inj (f g : UnrecognizedFacePreview.t) (i j : nat) :
  getFaceId f i = getFaceId g j ->
  i = j /\ UnrecognizedFacePreview.immich_asset_id f = UnrecognizedFacePreview.immich_asset_id g.
Proof.
  unfold getFaceId. intros Heq.
  destruct (dash_digits_split _ _ _ _ (pretty_nat_digits i) (pretty_nat_digits j) Heq)
    as [Ha Hd].
  split; [|exact Ha]. now apply (inj pretty) in Hd.
Qed.

Lemma face_ids_NoDup (l : list UnrecognizedFacePreview.t) :
  NoDup (imap (fun i f => getFaceId f i) l).
Proof.
  apply NoDup_alt. intros i j x Hi Hj.
  rewrite list_lookup_imap in Hi, Hj.
  destruct (l !! i) as [f|] eqn:Ef; [|discriminate].
  destruct (l !! j) as [g|] eqn:Eg; [|discriminate].
  cbn in Hi, Hj. injection Hi as <-. injection Hj as Hj.
  symmetry in Hj. now apply getFaceId_inj in Hj.
Qed.

Lemma face_id_in_all (p : UnrecognizedPersonPreview.t) (i : nat)
    (f : UnrecognizedFacePreview.t) :
  faces p !! i = Some f -> getFaceId f i ∈ all_face_ids p.
Proof.
  intros Hf. unfold all_face_ids. apply elem_of_list_to_set.
  apply (elem_of_lookup_imap_2 (fun i f => getFaceId f i)). exact Hf.
Qed.

(** X24. The ids the Create Faces tab gives the faces of a person are
    pairwise distinct, also for faces on the same photo.  So while nothing
    was ticked or unticked for a person every face counts as selected: the
    number of selected faces is the number of faces, and the bulk path
    sends all of them. *)
Theorem created_face_ids_are_distinct (p : UnrecognizedPersonPreview.t)
    (selections : gmap Z (gset string)) :
  NoDup (imap (fun i f => getFaceId f i) (faces p))
  /\ (forall i j f g, faces p !! i = Some f -> faces p !! j = Some g ->
        getFaceId f i = getFaceId g j -> i = j)
  /\ (selections !! ms_person_id p = None ->
        getSelectedFaceCount selections p = length (faces p)
        /\ facesToApply selections p = faces p).
Proof.
  split; [apply face_ids_NoDup|]. split.
  { intros i j f g _ _ Heq. now apply getFaceId_inj in Heq. }
  intros Hnone. unfold getSelectedFaceCount, facesToApply, getSelectedFaces.
  rewrite Hnone. split.
  - rewrite size_list_to_set by apply face_ids_NoDup. apply length_imap.
  - apply (filter_imap_all _ (fun i => i)). intros i f Hf.
    apply bool_decide_eq_true. now apply face_id_in_all.
Qed.

Lemma getSelectedFaces_insert (p q : UnrecognizedPersonPreview.t) (s : gset string)
    (sel : gmap Z (gset string)) :
  getSelectedFaces (<[ms_person_id p := s]> sel) q
  = if decide (ms_person_id q = ms_person_id p) then s else getSelectedFaces sel q.
Proof.
  unfold getSelectedFaces. destruct (decide (ms_person_id q = ms_person_id p)) as [->|Hne].
  - now rewrite lookup_insert_eq.
  - now rewrite lookup_insert_ne by congruence.
Qed.

Lemma getSelectedFaces_default (p : UnrecognizedPersonPreview.t)
    (sel : gmap Z (gset string)) :
  default (all_face_ids p) (sel !! ms_person_id p) = getSelectedFaces sel p.
Proof. unfold getSelectedFaces, all_face_ids. now destruct (sel !! ms_person_id p). Qed.

Lemma click_face_chosen (c : Component) (p : UnrecognizedPersonPreview.t)
    (i : nat) (f : UnrecognizedFacePreview.t) :
  ms_person_id p ∈ selectedIds c ->
  let S := getSelectedFaces (faceSelections c) p in
  let c' := click_face c p (FaceThumbnailGrid.unrecognizedToFaceData f i) in
  selectedIds c' = selectedIds c
  /\ getSelectedFaces (faceSelections c') p
     = (if bool_decide (getFaceId f i ∈ S) then S ∖ {[getFaceId f i]}
        else S ∪ {[getFaceId f i]}).
Proof.
  intros Hsel S c'. subst c'. unfold click_face, FaceThumbnailGrid.onToggleSelect,
    FaceThumbnailGrid.isSelected.
  cbn [grid_props FaceThumbnailGrid.selectable FaceThumbnailGrid.selectedIds].
  rewrite (bool_decide_eq_true_2 _ Hsel).
  change (FaceThumbnailGrid.id (FaceThumbnailGrid.unrecognizedToFaceData f i))
    with (getFaceId f i).
  fold S. destruct c; cbn [with_faceSelections faceSelections selectedIds] in *.
  split; [reflexivity|].
  unfold onSelectionChange. rewrite getSelectedFaces_insert.
  destruct (decide (ms_person_id p = ms_person_id p)) as [_|Hne]; [|congruence].
  rewrite getSelectedFaces_default. fold S.
  now destruct (bool_decide (getFaceId f i ∈ S)).
Qed.

(** X25. In the expanded row of a selected person of the Create Faces tab, the
    number of selected faces in the header of the grid is the number of
    faces the bulk path sends for the person.  Select All makes that every
    face and Deselect All none; a click on the checkbox of a face flips
    that face and no other, a second click undoes the first, and none of
    this touches the choices made for another person. *)
Theorem face_checkboxes_decide_what_is_created (c : Component)
    (p : UnrecognizedPersonPreview.t)
    (Hsel : ms_person_id p ∈ selectedIds c) :
  FaceThumbnailGrid.selectedCount (grid_props c p)
  = length (facesToApply (faceSelections c) p)
  /\ facesToApply (onSelectAll p (faceSelections c)) p = faces p
  /\ facesToApply (onDeselectAll p (faceSelections c)) p = []
  /\ (forall i f, faces p !! i = Some f ->
        let face := FaceThumbnailGrid.unrecognizedToFaceData f i in
        (forall j g, faces p !! j = Some g ->
           getFaceId g j ∈ getSelectedFaces (faceSelections (click_face c p face)) p
           <-> (if decide (j = i)
                then getFaceId g j ∉ getSelectedFaces (faceSelections c) p
                else getFaceId g j ∈ getSelectedFaces (faceSelections c) p))
        /\ getSelectedFaces
             (faceSelections (click_face (click_face c p face) p face)) p
           = getSelectedFaces (faceSelections c) p)
  /\ (forall q sel faceId selected, ms_person_id q <> ms_person_id p ->
        getSelectedFaces (onSelectionChange p faceId selected sel) q = getSelectedFaces sel q
        /\ getSelectedFaces (onSelectAll p sel) q = getSelectedFaces sel q
        /\ getSelectedFaces (onDeselectAll p sel) q = getSelectedFaces sel q).
Proof.
  split.
  { unfold FaceThumbnailGrid.selectedCount.
    cbn [grid_props FaceThumbnailGrid.selectable FaceThumbnailGrid.selectedIds
           FaceThumbnailGrid.faces].
    rewrite (bool_decide_eq_true_2 _ Hsel).
    unfold facesToApply. rewrite length_fmap.
    exact (count_imap
             (fun fd => bool_decide (FaceThumbnailGrid.id fd
                                       ∈ getSelectedFaces (faceSelections c) p))
             (fun i f => FaceThumbnailGrid.unrecognizedToFaceData f i)
             (fun i => i) (faces p)). }
  split.
  { unfold facesToApply, onSelectAll. rewrite getSelectedFaces_insert.
    destruct (decide (ms_person_id p = ms_person_id p)) as [_|Hne]; [|congruence].
    apply (filter_imap_all _ (fun i => i)). intros i f Hf.
    apply bool_decide_eq_true. now apply face_id_in_all. }
  split.
  { unfold facesToApply, onDeselectAll. rewrite getSelectedFaces_insert.
    destruct (decide (ms_person_id p = ms_person_id p)) as [_|Hne]; [|congruence].
    rewrite (filter_imap_none _ (fun i => i)); [reflexivity|]. intros i f Hf.
    apply bool_decide_eq_false. apply not_elem_of_empty. }
  split.
  { intros i f Hf face. subst face.
    destruct (click_face_chosen c p i f Hsel) as [Hkeep Hchosen]. cbv zeta in Hkeep, Hchosen.
    split.
    - intros j g Hg. rewrite Hchosen.
      destruct (decide (j = i)) as [->|Hne].
      + assert (g = f) by congruence. subst g.
        destruct (bool_decide (getFaceId f i ∈ getSelectedFaces (faceSelections c) p)) eqn:E;
          [apply bool_decide_eq_true in E | apply bool_decide_eq_false in E];
          rewrite ?elem_of_difference, ?elem_of_union, ?elem_of_singleton;
          intuition congruence.
      + assert (Hid : getFaceId g j <> getFaceId f i).
        { intros Heq. apply getFaceId_inj in Heq. tauto. }
        destruct (bool_decide (getFaceId f i ∈ getSelectedFaces (faceSelections c) p));
          rewrite ?elem_of_difference, ?elem_of_union, ?elem_of_singleton; tauto.
    - assert (Hsel' : ms_person_id p
                        ∈ selectedIds (click_face c p
                                         (FaceThumbnailGrid.unrecognizedToFaceData f i)))
        by (rewrite Hkeep; exact Hsel).
      destruct (click_face_chosen _ p i f Hsel') as [_ Hagain]. cbv zeta in Hagain.
      rewrite Hagain, Hchosen.
      destruct (bool_decide (getFaceId f i ∈ getSelectedFaces (faceSelections c) p)) eqn:E.
      + apply bool_decide_eq_true in E.
        rewrite bool_decide_eq_false_2
          by (rewrite elem_of_difference, elem_of_singleton; intuition congruence).
        apply set_eq. intros x. rewrite elem_of_union, elem_of_difference, elem_of_singleton.
        destruct (decide (x = getFaceId f i)) as [->|Hx]; tauto.
      + apply bool_decide_eq_false in E.
        rewrite bool_decide_eq_true_2
          by (rewrite elem_of_union, elem_of_singleton; now right).
        apply set_eq. intros x. rewrite elem_of_difference, elem_of_union, elem_of_singleton.
        destruct (decide (x = getFaceId f i)) as [->|Hx]; tauto. }
  intros q sel faceId selected Hne.
  unfold onSelectionChange, onSelectAll, onDeselectAll. rewrite !getSelectedFaces_insert.
  destruct (decide (ms_person_id q = ms_person_id p)); [congruence|]. repeat split.
Qed.

End CreateFacesSelection.

(* ------------------------------------------------------------------ *)

Section AssignFacesSingle.
Import JS MatchingContext PersonApplyPreview AssignFaces.
Context `{Platform}.

(** X26. The Apply button of a row of the Assign Faces tab sends one request
    that names every face of the person, whatever faces are ticked in the
    expanded row, and leaves those ticks as they are.  The person is
    recorded as assigned and deselected exactly when the answer counts
    assigned faces; otherwise nothing is recorded and the error of the
    answer, if it has one, is shown.  In every case the row is given back. *)
Theorem single_assign_sends_every_face (answer : settled ApplyUnclusteredResult.t)
    (p : PersonApplyPreview.t) (r : Run) :
  exists r', applySingle answer p r = Normal r'
    /\ sent r'
       = sent r ++ [ {| req_ms_person_id := ms_person_id p;
                        req_ms_person_name := ms_person_name p;
                        req_face_ids := UnclusteredFacePreview.immich_face_id <$> faces p |} ]
    /\ faceSelections (ui r') = faceSelections (ui r)
    /\ applyingId (ui r') = None
    /\ progressItems (ui r') = progressItems (ui r)
    /\ cancelRef (ui r') = cancelRef (ui r)
    /\ (face_succeeded answer = true ->
          ctx r' = markPersonAssigned (ms_person_id p) (ctx r)
          /\ assignedPeople (appliedChanges (state (ctx r')))
             = assignedPeople (appliedChanges (state (ctx r))) ∪ {[ms_person_id p]}
          /\ selectedIds (ui r') = selectedIds (ui r) ∖ {[ms_person_id p]}
          /\ applyError (ui r') = None
          /\ exists n, 0 < n /\ applySuccess (ui r') = Some (assigned_message p n))
    /\ (face_succeeded answer = false ->
          ctx r' = ctx r /\ selectedIds (ui r') = selectedIds (ui r)
          /\ applySuccess (ui r') = None
          /\ applyError (ui r')
             = match answer with
               | Resolved result =>
                   if 0 <? ApplyUnclusteredResult.failed_count result
                   then Some (string_or "Failed to apply"
                                (head (ApplyUnclusteredResult.failed result)))
                   else None
               | Rejected err => Some (message_or "Failed to apply" err)
               end).
Proof.
  destruct r as [w [fm sf sd sel exp aid bulk err0 succ0 fsel items pidx showp sub cref] snt].
  destruct answer as [result|err]; unfold applySingle;
    cbn [await try_catch mbind completion_bind mret completion_ret face_succeeded].
  - destruct (0 <? ApplyUnclusteredResult.faces_assigned_count result) eqn:E.
    + eexists. split; [reflexivity|]. cbn. repeat (split; [reflexivity|]).
      split; [|discriminate]. intros _. repeat (split; [reflexivity|]).
      exists (ApplyUnclusteredResult.faces_assigned_count result).
      split; [now apply Z.ltb_lt | reflexivity].
    + destruct (0 <? ApplyUnclusteredResult.failed_count result) eqn:F;
        (eexists; split; [reflexivity|]); cbn; repeat (split; [reflexivity|]);
        (split; [discriminate|]); intros _; repeat split.
  - eexists. split; [reflexivity|]. cbn. repeat (split; [reflexivity|]).
    split; [discriminate|]. intros _. repeat split.
Qed.

End AssignFacesSingle.

(* ------------------------------------------------------------------ *)

Lemma filter_filter_and {A} (f g : A -> bool) (l : list A) :
  List.filter g (List.filter f l) = List.filter (fun x => f x && g x) l.
Proof.
  induction l as [|x xs IH]; simpl; [reflexivity|].
  destruct (f x); simpl; [destruct (g x)|]; now rewrite IH.
Qed.

Section Tabs.
Import JS MatchingContext.
Context `{Platform}.

(** X27. The three badges of the Merge Clusters tab count the rows of their
    filters, and pending and applied add up to all.  Marking a person as
    merged moves the rows of that person, and no other row, from the
    pending list to the applied list, in the order of the candidates. *)
Theorem merged_rows_move_to_applied (r : MergeClusters.Run) (personId : Z) :
  let rows := MergeClusters.rows in
  let badges := MergeClusters.badges in
  let r' := MergeClusters.markAsMerged personId r in
  (forall mode, MergeClusters.tab_count mode (badges r) = Z.of_nat (length (rows mode r)))
  /\ MergeClusters.fs_pending (badges r) + MergeClusters.fs_applied (badges r)
     = MergeClusters.fs_all (badges r)
  /\ rows MergeClusters.fm_all r = mergeCandidates (state (MergeClusters.ctx r))
  /\ rows MergeClusters.fm_all r' = rows MergeClusters.fm_all r
  /\ rows MergeClusters.fm_pending r'
     = List.filter (fun c => negb (MergeCandidate.ms_person_id c =? personId))
         (rows MergeClusters.fm_pending r)
  /\ rows MergeClusters.fm_applied r'
     = List.filter (fun c => MergeClusters.isApplied
                               (appliedChanges (state (MergeClusters.ctx r))) c
                             || (MergeCandidate.ms_person_id c =? personId))
         (mergeCandidates (state (MergeClusters.ctx r))).
Proof.
  cbv zeta.
  destruct (mark_frame
              (fun c => mkAppliedChanges (renamedClusters c) (assignedPeople c)
                          (mergedPeople c ∪ {[personId]}) (fixedClusters c))
              (MergeClusters.ctx r)) as (G1 & _ & G3 & _).
  fold (markClustersMerged personId) in G1, G3.
  assert (Hcands : mergeCandidates (state (markClustersMerged personId (MergeClusters.ctx r)))
                   = mergeCandidates (state (MergeClusters.ctx r))).
  { unfold same_but_appliedChanges in G1. symmetry. tauto. }
  assert (Happlied : forall c,
            MergeClusters.isApplied
              (appliedChanges (state (markClustersMerged personId (MergeClusters.ctx r)))) c
            = MergeClusters.isApplied (appliedChanges (state (MergeClusters.ctx r))) c
              || (MergeCandidate.ms_person_id c =? personId)).
  { intros c. unfold MergeClusters.isApplied. rewrite G3. cbn [mergedPeople].
    apply eq_true_iff_eq.
    rewrite orb_true_iff, !bool_decide_eq_true, Z.eqb_eq, elem_of_union, elem_of_singleton.
    reflexivity. }
  unfold MergeClusters.rows, MergeClusters.badges, MergeClusters.filteredCandidates,
    MergeClusters.filterStats, MergeClusters.markAsMerged.
  cbn [MergeClusters.ctx]. rewrite Hcands.
  set (cs := mergeCandidates (state (MergeClusters.ctx r))).
  set (ch := appliedChanges (state (MergeClusters.ctx r))) in *.
  pose proof (filter_split_length (MergeClusters.isApplied ch) cs) as Hsplit.
  split.
  { intros mode. destruct mode; cbn [MergeClusters.tab_count MergeClusters.fs_all
      MergeClusters.fs_pending MergeClusters.fs_applied].
    - now rewrite filter_true.
    - lia.
    - reflexivity. }
  split; [cbn; lia|].
  split; [apply filter_true; reflexivity|].
  split; [reflexivity|].
  split.
  - rewrite filter_filter_and. apply filter_ext_eq. intros c.
    now rewrite Happlied, negb_orb.
  - apply filter_ext_eq. intros c. apply Happlied.
Qed.

Lemma severity_split (l : list ClusterIssue.t) :
  (length (List.filter FixIssues.is_error l) + length (List.filter FixIssues.is_warning l)
   + length (List.filter (fun i => match ClusterIssue.severity i with
                                   | sev_ok => true | _ => false end) l))%nat
  = length l.
Proof.
  induction l as [|i l IH]; [reflexivity|].
  unfold FixIssues.is_error, FixIssues.is_warning in *. cbn [List.filter].
  destruct (ClusterIssue.severity i); cbn [length]; lia.
Qed.

(** X28. The four badges of the Fix Issues tab count the rows of their
    filters; fixed and unfixed issues add up to all issues, and the list of
    all unfixed issues also holds those of severity ok, which neither the
    errors nor the warnings count.  Marking the selected issues as fixed
    takes exactly the issues of the selected clusters out of the three
    lists of unfixed issues, puts them on the fixed list, and empties the
    selection. *)
Theorem fixed_issues_leave_the_lists (r : FixIssues.Run) :
  let rows := FixIssues.rows in
  let badges := FixIssues.badges in
  let r' := FixIssues.markSelectedAsFixed r in
  let selected (i : ClusterIssue.t) :=
    bool_decide (ClusterIssue.immich_cluster_id i ∈ FixIssues.selectedIds (FixIssues.ui r)) in
  (forall mode, FixIssues.tab_count mode (badges r) = length (rows mode r))
  /\ (FixIssues.fs_all (badges r) + FixIssues.fs_fixed (badges r))%nat
     = length (validationIssues (state (FixIssues.ctx r)))
  /\ (FixIssues.fs_errors (badges r) + FixIssues.fs_warnings (badges r)
      + length (List.filter (fun i => match ClusterIssue.severity i with
                                      | sev_ok => true | _ => false end)
                  (rows FixIssues.fm_all r)))%nat
     = FixIssues.fs_all (badges r)
  /\ (forall mode, mode <> FixIssues.fm_fixed ->
        rows mode r' = List.filter (fun i => negb (selected i)) (rows mode r))
  /\ rows FixIssues.fm_fixed r'
     = List.filter (fun i => FixIssues.isFixed (appliedChanges (state (FixIssues.ctx r))) i
                             || selected i)
         (validationIssues (state (FixIssues.ctx r)))
  /\ FixIssues.selectedIds (FixIssues.ui r') = ∅.
Proof.
  cbv zeta.
  pose proof (fixed_fold (elements (FixIssues.selectedIds (FixIssues.ui r))) (FixIssues.ctx r))
    as Hfold. cbv zeta in Hfold. destruct Hfold as (G1 & _ & _ & _ & _ & G3).
  rewrite list_to_set_elements_L in G3.
  set (w' := foldl (fun w id => markClusterFixed id w) (FixIssues.ctx r)
               (elements (FixIssues.selectedIds (FixIssues.ui r)))) in *.
  assert (Hissues : validationIssues (state w') = validationIssues (state (FixIssues.ctx r))).
  { unfold same_but_appliedChanges in G1. tauto. }
  assert (Hfixed : forall i,
            FixIssues.isFixed (appliedChanges (state w')) i
            = FixIssues.isFixed (appliedChanges (state (FixIssues.ctx r))) i
              || bool_decide (ClusterIssue.immich_cluster_id i
                                ∈ FixIssues.selectedIds (FixIssues.ui r))).
  { intros i. unfold FixIssues.isFixed. rewrite G3. apply eq_true_iff_eq.
    rewrite orb_true_iff, !bool_decide_eq_true, elem_of_union. reflexivity. }
  unfold FixIssues.rows, FixIssues.badges, FixIssues.filteredIssues,
    FixIssues.filterStats, FixIssues.markSelectedAsFixed.
  cbn [FixIssues.ctx FixIssues.ui FixIssues.selectedIds]. fold w'. rewrite Hissues.
  set (issues := validationIssues (state (FixIssues.ctx r))).
  set (ch := appliedChanges (state (FixIssues.ctx r))) in *.
  split.
  { intros mode. destruct mode; cbn [FixIssues.tab_count FixIssues.fs_all
      FixIssues.fs_errors FixIssues.fs_warnings FixIssues.fs_fixed];
      try reflexivity; rewrite filter_filter_and; f_equal; apply filter_ext_eq;
      intros i; apply andb_comm. }
  split.
  { cbn [FixIssues.fs_all FixIssues.fs_fixed].
    pose proof (filter_split_length (FixIssues.isFixed ch) issues). lia. }
  split.
  { cbn [FixIssues.fs_all FixIssues.fs_errors FixIssues.fs_warnings].
    apply severity_split. }
  split.
  { intros mode Hmode. rewrite filter_filter_and. apply filter_ext_eq. intros i.
    rewrite Hfixed, negb_orb.
    destruct mode; try congruence; now rewrite ?andb_assoc. }
  split; [|reflexivity].
  apply filter_ext_eq. intros i. apply Hfixed.
Qed.

End Tabs.

(* ------------------------------------------------------------------ *)

Section HttpErrors.
Import JS MatchingContext PersonMatch TransferNames Api.
Context `{Platform}.

(** X29. A request the server answers with a status that is not ok never
    gives a result: it fails with the text of the answer, or with the words
    API error and the status where the answer has no text.  Applied to one
    row of the Transfer Names tab, exactly that message is shown, never the
    words the tab keeps for errors without one, and nothing is recorded. *)
Theorem http_error_text_is_shown (response : Response ApplyResult.t) (body : string)
    (m : PersonMatch.t) (r : Run)
    (Hok : ok response = false) (Htext : text response = Resolved body) :
  let msg := if String.eqb body "" then "API error: " +:+ pretty (status response)
             else body in
  fetchAPI (Resolved response) = Rejected (ErrorObject msg)
  /\ msg <> EmptyString
  /\ exists r', applySingle (fetchAPI (Resolved response)) m r = Normal r'
       /\ sent r' = sent r ++ [request_of m]
       /\ ctx r' = ctx r
       /\ selectedIds (ui r') = selectedIds (ui r)
       /\ applyingId (ui r') = None
       /\ applyError (ui r') = Some msg.
Proof.
  cbv zeta.
  assert (Hfetch : fetchAPI (Resolved response)
                   = Rejected (ErrorObject
                                 (if String.eqb body "" then
                                    "API error: " +:+ pretty (status response)
                                  else body))).
  { unfold fetchAPI. now rewrite Hok, Htext. }
  split; [exact Hfetch|]. split.
  { destruct (String.eqb_spec body ""); [discriminate | assumption]. }
  rewrite Hfetch.
  destruct r as [w [fm cf sf sd sel exp aid bulk err0 items pidx showp cref] snt].
  unfold applySingle.
  cbn [await try_catch mbind completion_bind mret completion_ret message_or].
  eexists. split; [reflexivity|]. cbn. repeat split.
Qed.

End HttpErrors.

(* ===================================================================== *)
(** ** Further properties at work on sample data *)
(* ===================================================================== *)

Section OnMoreSamples.
Import JS MatchingContext MiniPlatform Samples.

(** X1 on the sample matches: the preview at (0.5, 0.2) is no longer than the
    one at (0.3, 0.4). *)
Lemma tighter_thresholds_keep_fewer_witness :
  (length (Analytics.filteredMatches (Some raw_matches) (1 # 2) (2 # 10))
   <= length (Analytics.filteredMatches (Some raw_matches) (3 # 10) (4 # 10)))%nat.
Proof.
  apply (tighter_thresholds_keep_fewer raw_matches (3 # 10) (4 # 10) (1 # 2) (2 # 10)); lra.
Defined.

(** X4 on a histogram of three bins: it scales by a count of at least one
    and is drawn. *)
Lemma histogram_bars_in_range_witness :
  1 <= Analytics.maxCount histogram0
  /\ (Analytics.bars histogram0 (2 # 10) false = None
      <-> (length (HistogramData.counts histogram0)
           < length (HistogramData.bins histogram0))%nat).
Proof.
  assert (Hcounts : Forall (fun c => 0 <= c) (HistogramData.counts histogram0)).
  { repeat constructor; discriminate. }
  destruct (histogram_bars_in_range histogram0 (2 # 10) false Hcounts) as (Hone & Hnone & _).
  split; [exact Hone | exact Hnone].
Defined.

(** X6 on a state that suggests (0.35, 0.3) while (0.3, 0.4) is active: the
    suggestion becomes the pending pair. *)
Lemma suggested_values_become_pending_witness :
  pendingMinIoU (Analytics.useSuggestedValues suggesting) = 35 # 100
  /\ pendingMaxCenterDist (Analytics.useSuggestedValues suggesting) = 3 # 10.
Proof.
  destruct (suggested_values_become_pending suggesting (35 # 100) (3 # 10) eq_refl)
    as (Hi & Hc & _).
  split; [exact Hi | exact Hc].
Defined.

(** X8 on the small platform: the hook finds what the context saved. *)
Lemma hook_reads_what_context_saved_witness :
  UseAppliedChanges.isClusterRenamed "c0" (saveAppliedChanges changes0 ∅)
  = bool_decide ("c0" ∈ renamedClusters changes0)
  /\ UseAppliedChanges.isPersonAssigned 7 (saveAppliedChanges changes0 ∅)
     = bool_decide (7 ∈ assignedPeople changes0).
Proof.
  assert (Hjson : JSON_parse (JSON_stringify (toStore changes0)) = Some (toStore changes0))
    by (vm_compute; reflexivity).
  destruct (hook_reads_what_context_saved changes0 ∅ Hjson eq_refl) as (Hr & Ha & _).
  split; [apply Hr | apply Ha].
Defined.

(** X15 on the sample tab: a bulk rename that is not cancelled ends with a
    dialog of two items and the tab no longer applying. *)
Lemma rename_dialog_ends_closable_witness :
  exists r', TransferNames.applySelected all_renamed rename_run = Normal r'
    /\ TransferNames.bulkApplying (TransferNames.ui r') = false
    /\ length (TransferNames.progressItems (TransferNames.ui r'))
       = length (TransferNames.matchesToApply rename_run).
Proof.
  assert (Hne : TransferNames.matchesToApply rename_run <> []) by (vm_compute; discriminate).
  destruct (rename_dialog_ends_closable all_renamed rename_run Hne)
    as (r' & Hrun & Hbulk & Hlen & _).
  exists r'. split; [exact Hrun|]. split; [exact Hbulk | exact Hlen].
Defined.

(** X17 on an image of 400 by 300 in an enlarged thumbnail of 192 by 256: the
    centre of the image is drawn inside the element. *)
Lemma thumbnail_image_is_centred_witness :
  FaceThumbnailGrid.inside 192 256
    (FaceThumbnailGrid.transformCoord (FaceThumbnailGrid.placement true 400 300 192 256)
       400 300 (1 # 2) (1 # 2)).
Proof.
  assert (HW : (0 < 400)%Q) by reflexivity.
  assert (HH : (0 < 300)%Q) by reflexivity.
  assert (HdW : (0 < 192)%Q) by reflexivity.
  assert (HdH : (0 < 256)%Q) by reflexivity.
  destruct (thumbnail_image_is_centred 400 300 192 256 HW HH HdW HdH) as [Hfit _].
  cbv zeta in Hfit. destruct Hfit as (_ & _ & _ & _ & _ & _ & _ & _ & Hin).
  apply Hin; split; discriminate.
Defined.

(** X20 on a grid of three faces sorted by overlap: a click on the face shown
    second opens the viewer at index 1. *)
Lemma clicked_face_opens_first_with_its_id_witness :
  exists (j : nat) (first : FaceThumbnailGrid.FaceData),
    FaceThumbnailGrid.sortedIndex grid0 (FaceThumbnailGrid.initial grid0)
      (grid_face "a" (1 # 2)) = Z.of_nat j
    /\ (j <= 1)%nat
    /\ FaceThumbnailGrid.id first = "a".
Proof.
  assert (Hface : FaceThumbnailGrid.sortedFaces grid0 (FaceThumbnailGrid.initial grid0)
                    !! 1%nat = Some (grid_face "a" (1 # 2))) by (vm_compute; reflexivity).
  destruct (clicked_face_opens_first_with_its_id grid0 (FaceThumbnailGrid.initial grid0)
              1%nat (grid_face "a" (1 # 2)) Hface) as (j & first & Hj & Hle & _ & Hid & _).
  exists j, first. split; [exact Hj|]. split; [exact Hle | exact Hid].
Defined.

(** X21 on a list of three faces: four arrow keys from the middle leave the
    viewer on a face. *)
Lemma viewer_keys_stay_on_a_face_witness :
  FacePhotoViewer.in_range 3
    (fold_left (fun v k => FacePhotoViewer.keyDown 3 k v)
       [FacePhotoViewer.ArrowRight; FacePhotoViewer.ArrowRight; FacePhotoViewer.ArrowRight;
        FacePhotoViewer.ArrowLeft]
       (FacePhotoViewer.initial 1)).
Proof.
  assert (Hv : FacePhotoViewer.in_range 3 (FacePhotoViewer.initial 1))
    by (unfold FacePhotoViewer.in_range; simpl; lia).
  apply (viewer_keys_stay_on_a_face 3 (FacePhotoViewer.initial 1) Hv).
Defined.

(** X22 on a viewer just opened: one click on the plus shows 125 percent. *)
Lemma viewer_zoom_moves_in_quarter_steps_witness :
  FacePhotoViewer.zoom_percent (FacePhotoViewer.zoomIn (FacePhotoViewer.initial 0)) = 125.
Proof.
  assert (Hk : 2 <= 4 <= 12) by lia.
  assert (Hz : (FacePhotoViewer.zoom (FacePhotoViewer.initial 0) == inject_Z 4 / 4)%Q)
    by reflexivity.
  destruct (viewer_zoom_moves_in_quarter_steps (FacePhotoViewer.initial 0) 4 Hk Hz)
    as (_ & _ & Hin & _).
  exact Hin.
Defined.

(** X23 on a list of three faces with the viewer on the middle one: the strip
    has at most eleven thumbnails and no image is asked for twice. *)
Lemma viewer_strip_and_preload_name_faces_witness :
  (length (FacePhotoViewer.strip ["a"; "b"; "c"] (FacePhotoViewer.initial 1)) <= 11)%nat
  /\ NoDup (FacePhotoViewer.indicesToPreload 3 (FacePhotoViewer.initial 1)).
Proof.
  assert (Hv : FacePhotoViewer.in_range (Z.of_nat (length ["a"; "b"; "c"]))
                 (FacePhotoViewer.initial 1))
    by (unfold FacePhotoViewer.in_range; simpl; lia).
  destruct (viewer_strip_and_preload_name_faces ["a"; "b"; "c"] (FacePhotoViewer.initial 1) Hv)
    as (_ & _ & Hlen & _ & Hnd).
  split; [exact Hlen | exact Hnd].
Defined.

(** X25 on the sample person of the Create Faces tab: after Deselect All the
    bulk path has no face to send, after Select All it has both. *)
Lemma face_checkboxes_decide_what_is_created_witness :
  CreateFaces.facesToApply
    (CreateFaces.onDeselectAll create_preview
       (CreateFaces.faceSelections (CreateFaces.ui create_run))) create_preview = []
  /\ CreateFaces.facesToApply
       (CreateFaces.onSelectAll create_preview
          (CreateFaces.faceSelections (CreateFaces.ui create_run))) create_preview
     = UnrecognizedPersonPreview.faces create_preview.
Proof.
  assert (Hsel : UnrecognizedPersonPreview.ms_person_id create_preview
                   ∈ CreateFaces.selectedIds (CreateFaces.ui create_run))
    by (change (7 ∈ ({[7]} : gset Z)); apply elem_of_singleton_2; reflexivity).
  destruct (face_checkboxes_decide_what_is_created (CreateFaces.ui create_run)
              create_preview Hsel) as (_ & Hall & Hnone & _).
  split; [exact Hnone | exact Hall].
Defined.

(** X29 on an answer 500 without a text: the row shows the words API error and
    the status. *)
Lemma http_error_text_is_shown_witness :
  Api.fetchAPI (Resolved server_error)
  = Rejected (ErrorObject ("API error: " +:+ pretty (Api.status server_error))).
Proof.
  exact (proj1 (http_error_text_is_shown server_error EmptyString
                  (person_match 1 "Alice" "c0" None) rename_run eq_refl eq_refl)).
Defined.

End OnMoreSamples.
